(* ===== verification/_CoqProject ===== *)
-Q . S2P
Prelude.v
Lock.v
Json.v
Text.v
Dag.v
Store.v
Graph.v
History.v
Portfolio.v
Presence.v
Claims.v
Enforcement.v
Review.v
Attempts.v
Returns.v
Evidence.v
External.v
Registry.v
Inbox.v
Issues.v
Design.v
DesignQueries.v
Takeover.v
Recovery.v
Handoffs.v
View.v
Ledger.v
System.v
Lifecycle.v
Exclusion.v
Soundness.v
Receipts.v
Sample.v
SystemProperties.v
GraphProperties.v
ClaimProperties.v
OwnershipProperties.v
RegistryProperties.v
DesignSearch.v
DesignProperties.v
DesignImpact.v
IssueProperties.v
InboxProperties.v
InboxReading.v
AttemptProperties.v
RunProperties.v
ExternalProperties.v
