(* ===== verification/Prelude.v ===== *)
(** * The State DAG service of AItelier

    AItelier runs agents ("drivers") on a project that is laid out as a graph of
    nodes, each with a goal and a contract of acceptance checks.  The State service
    ([src/core/state_*.py], with [drivers.py], [driver_presence.py] and
    [driver_inbox.py]) keeps that
    graph and the registry of drivers, hands out claims on nodes, reserves and launches
    attempts, records what runs and external harnesses report, moves ownership between
    drivers, collects evidence, and decides when a node is VERIFIED; beside the graph it
    keeps an issue backlog, the design facts nodes are bound to, and the messages of the
    drivers among each other and with the user.  This library models the service as
    operations on one database state and proves what makes it trustworthy.

    ** The parts, and where they are

    - [Prelude]: exceptions, the transaction monad [M], its partial ([wp]) and total
      ([twp]) correctness calculus, record update, tables as lists, sorted sets.
    - [Lock]: the abstract lock with fencing tokens that the claims of a node implement.
    - [Json]: JSON values, the canonical text every digest is taken over
      ([json.dumps(sort_keys, separators)]) and a parser for it.
    - [Text]: the validators at the head of [state_graph.py] and
      [state_attempts.py]: [key], [text], [integer], [contract], [digest], [SHA].
    - [Dag]: [_validate_dag] (Kahn's loop, with the number of nodes as fuel),
      [facet_violations], [shipping_gaps], [facet_warnings].
    - [Store]: one record per table row, the database [db], the class [Host] (clock,
      UUIDs, SHA-256, HMAC, token source), and the frames [untouched] and [keeps].
    - [Graph]: [StateGraphStore]'s writes; [History]: their revision rows.
    - [Portfolio]: [state_metadata.py], [state_portfolio.py].
    - [Presence]: [driver_presence.py] and [presence_of] of [drivers.py]; [Registry]: the
      driver registry of [drivers.py] (rows, tokens, memberships, audit).
    - [Inbox]: [driver_inbox.py]: messages, their numbered deliveries, the requests
      already answered, the presence of its recipients a sender is told
      ([recipient_presence_block] of [drivers.py]), the conversation with the user and its
      read marker.
    - [Claims], [Enforcement]: [state_claims.py], [state_enforcement.py].
    - [Review]: [state_prior_candidate.py], [state_review_independence.py].
    - [Attempts], [Evidence]: [state_attempts.py]; [External]: [state_external.py].
    - [Takeover], [Recovery], [Handoffs]: [state_takeover.py] with [driver_notices.py],
      [state_recovery.py], [state_handoffs.py] with [state_subagents.py]: how a claim or an attempt changes hands.
    - [Issues]: [state_issues.py]; [Design]: [state_design.py]; [DesignQueries]: [impact]
      of [state_design_queries.py].
    - [View]: the graph views, [frontier] and [ready_next_action].
    - [System]: the transition system of all these operations ([operation], [step],
      [reachable]); [Ledger], [Lifecycle], [Exclusion], [Soundness] and [Receipts]
      carry one invariant each through every operation.
    - [Returns]: when reads and bookkeeping writes return.
    - [Sample]: one concrete service and a run of it, on which the witnesses evaluate.
    - [SystemProperties], [GraphProperties], [ClaimProperties], [OwnershipProperties],
      [RegistryProperties], [DesignSearch], [DesignProperties], [DesignImpact], [IssueProperties],
      [InboxProperties], [InboxReading], [AttemptProperties], [RunProperties], [ExternalProperties]: the theorems, each file
      with the invariant of its component when no file above carries it.

    ** How they interact

    A node's acceptance rests on everything below it: [verify] (Evidence) accepts a
    candidate attempt (Attempts, External) whose pinned revision, contract and
    dependency snapshot are the node's present ones (Graph) and whose latest evidence
    is a pass on every criterion; [revise], [supersede], new evidence and retracted
    candidates call [invalidate] (Graph), which makes the node and all its transitive
    dependents stale.  Reservations are guarded by policies and holds (Portfolio) and
    by claims (Claims, Enforcement).  Driver presence (Presence) describes who is there; it
    decides one thing only, whether the claim or attempt of an offline owner may be taken
    over by a fellow member (Takeover, Recovery), which the registry (Registry) knows.
    Whatever moves ownership raises the fence, and a report (External) must name it.
    Binding a node to a baseline (Design) is a revision of the node; an issue (Issues) is
    linked to nodes and never changes one.  A takeover, an abandon and a handoff end with a
    notice in the inbox (Inbox) of the driver concerned, in the same transaction; no message
    changes the graph.

    ** How the code is translated

    - A method that runs in a write transaction is a function [db → res (A * db)].  An
      exception carries no state, since the transaction rolls back.  Exceptions are
      their class with the fixed part of the message; a [ClaimError] carries its code.
    - Rows are records, tables are lists in insertion order or finite maps on their
      key; unique indices are checked where rows are inserted.  [*_json] columns hold
      the decoded value (justified by [canonical_roundtrip]), except the dependency
      snapshot of an attempt, which is compared as text and kept as text.
    - Time stamps are instants in microseconds.  The clock, [uuid4], SHA-256, HMAC and the
      token source are the class [Host]; every reading advances a counter of the
      database, and nothing is assumed of the values (digests may collide, clocks may go
      back).  The pepper and the environment's thresholds are parameters.
    - The SkillFlow engine, Git and the file archive are not part of these files: they are
      parameters ([engine], [git], [archive]) that answer every call in any way.  [due] is
      the answer of the in-process throttle of [last_seen_at].
    - A notice to another driver is kept as its inbox row without the prose.  A paging
      cursor is the position it names, not its base64 text; a time stamp inside the prose of
      an advice is its instant.
    - Operations that span several transactions are split where the code commits:
      [reserve_once], [settle_run] and [observe_commit] are steps of their own, for any
      report the code in between may have produced, so every interleaving is covered.
    - Loops over Python dicts follow the order of the finite map; it only decides which
      of several broken rules is reported first.
    - Fuel: Kahn's loop takes the number of nodes ([kahn_terminates] shows more never
      helps), [closure] the number of nodes and edges, the JSON parser the length of
      its input, the searches over design relations the number of revisions, the search
      of [impact] its bound on the visits; each is proved sufficient where it is used.

    ** What the theorems show

    - Invariants of every reachable state: VERIFIED nodes have sound receipts and
      verified dependencies; one active attempt and one live exclusive claim per node;
      graphs and design relations stay acyclic; histories, observations and design
      revisions are numbered without gaps; baselines are closed selections without a
      superseded member; token digests belong to one driver; issues close once;
      deliveries are numbered without gaps and go one way.
    - Along every run: recorded rows are never rewritten, attempts never come back to
      life, a granted launch is not granted again, lost updates are refused, a retired
      driver stays retired, a former owner cannot write any more.
    - Refinement: the claims of a node take only steps of the fenced [Lock].
    - Ownership: on what grounds an attempt or a claim ends or changes hands, and that its
      claims and offers go with it.
    - The outcome of each operation on every branch that returns (reserve, launch,
      settle, observe, evidence, verify, claim, heartbeat, revise, supersede, take over,
      hand over, abandon, rotate, bind to a baseline, resolve an issue, send, acknowledge).
    - That requests can be repeated, who may start a ready node, and that lapsed claims do
      not block one.
    - That whoever follows the cursors of an inbox or of the conversation with the user
      is shown everything exactly once, whatever arrives meanwhile.
    - The graph checks, [add_nodes] and the frontier against their specifications; that the
      impact of a design revision lists what depends on it, by shortest paths.

    [reachable] ranges over the operations listed in [System]; it says nothing of the
    parts below.

    ** Not modelled

    - The loop that waits for an inbox to fill (it polls [list_driver_messages]); driver
      notes and guide texts; the quorum of a message when a member is removed.
    - The text search over design facts; the redaction by trust level.
    - The deployment fence around launches and the process that sweeps lapsed leases (the
      sweep itself is [sweep]).
    - Schema creation, migrations and foreign keys: the tables are those of an
      initialised database.  Caches, notifications, logging and redaction of views.
    - Search, summaries and other read-only projections; the HTTP and command layer.
    - The scheduler, the pipelines, Git and container execution: I/O the State service
      only sees through its parameters. *)
From Stdlib Require Export Ascii.
From stdpp Require Export prelude gmap strings list sorting pretty.

(** ** Exceptions of the State code

    Each constructor is a Python exception class.  [StateConflict] and
    [StateNotFound] are subclasses of [StateGraphError], [ClaimError] of
    [StateConflict]; a claim refusal carries its stable code; [RecoveryRefused] is
    [StateRecoveryRefused]; [DriverConflict] is a subclass of [DriverError].  The
    string is the fixed text of the message, without the interpolated values. *)
Inductive exn : Type :=
  | StateGraphError (msg : string)
  | StateConflict (msg : string)
  | StateNotFound (msg : string)
  | ClaimError (code : string)
  | RecoveryRefused (msg : string)
  | IntegrityError (msg : string)
  | DriverError (msg : string)
  | DriverConflict (msg : string)
  | KeyError (field : string)
  | TypeError (msg : string).

Inductive res (A : Type) : Type :=
  | Ok (a : A)
  | Err (e : exn).
Arguments Ok {A} _.
Arguments Err {A} _.

#[export] Instance exn_eq_dec : EqDecision exn.
Proof. solve_decision. Defined.

Definition is_ok {A} (r : res A) : bool := match r with Ok _ => true | Err _ => false end.

#[export] Instance res_ret : MRet res := λ A a, Ok a.
#[export] Instance res_bind : MBind res := λ A B k r,
  match r with Ok a => k a | Err e => Err e end.

(** A text that is given and not empty. *)
Definition truthy (o : option string) : option string :=
  match o with Some s => if bool_decide (s = "") then None else Some s | None => None end.

Lemma truthy_Some o x : truthy o = Some x → o = Some x.
Proof. destruct o as [y|]; [|done]. simpl. case_bool_decide; congruence. Qed.

(** [ensure b e] is Python's [if not b: raise e]. *)
Definition ensure (b : bool) (e : exn) : res unit := if b then Ok tt else Err e.

(** ** The transaction monad

    A database operation is a function from the state to an exception or a
    result with the new state.  An exception carries no state: the caller's
    [with store.transaction(write=True)] rolls back, so the state before the
    call is the state after it. *)
Definition M (S A : Type) : Type := S → res (A * S).

#[export] Instance M_ret {S} : MRet (M S) := λ A a s, Ok (a, s).
#[export] Instance M_bind {S} : MBind (M S) := λ A B k m s,
  match m s with Ok (a, s') => k a s' | Err e => Err e end.

Section monad.
Context {S : Type}.

Definition raise {A} (e : exn) : M S A := λ _, Err e.
Definition gets {A} (f : S → A) : M S A := λ s, Ok (f s, s).
Definition modify (f : S → S) : M S unit := λ s, Ok (tt, f s).
Definition lift {A} (r : res A) : M S A :=
  λ s, match r with Ok a => Ok (a, s) | Err e => Err e end.
Definition require (b : bool) (e : exn) : M S unit :=
  λ s, if b then Ok (tt, s) else Err e.
Definition get_some {A} (o : option A) (e : exn) : M S A :=
  match o with Some a => mret a | None => raise e end.
Definition when (b : bool) (m : M S unit) : M S unit := if b then m else mret tt.

Fixpoint for_each {A} (f : A → M S unit) (l : list A) : M S unit :=
  match l with
  | [] => mret tt
  | x :: l => f x ;; for_each f l
  end.

(** Collects the results of the iterations, in order. *)
Fixpoint collect {A B} (f : A → M S (list B)) (l : list A) : M S (list B) :=
  match l with
  | [] => mret []
  | x :: l => ys ← f x; zs ← collect f l; mret (ys ++ zs)
  end.

(** *** Weakest liberal preconditions

    [wp m Q s]: if [m] returns from [s], its result and final state satisfy
    [Q].  A refused call leaves the state alone and needs no postcondition. *)
Definition wp {A} (m : M S A) (Q : A → S → Prop) (s : S) : Prop :=
  match m s with Ok (a, s') => Q a s' | Err _ => True end.

Lemma wp_run {A} (m : M S A) Q s a s' : wp m Q s → m s = Ok (a, s') → Q a s'.
Proof. unfold wp. intros H E. by rewrite E in H. Qed.

Lemma run_wp {A} (m : M S A) (Q : A → S → Prop) s :
  (∀ a s', m s = Ok (a, s') → Q a s') → wp m Q s.
Proof. unfold wp. intros H. destruct (m s) as [[a s']|] eqn:E; auto. Qed.

Lemma wp_mono {A} (m : M S A) (P Q : A → S → Prop) s :
  wp m P s → (∀ a s', P a s' → Q a s') → wp m Q s.
Proof. unfold wp. intros H HPQ. destruct (m s) as [[]|]; auto. Qed.

Lemma wp_conj {A} (m : M S A) (P Q : A → S → Prop) s :
  wp m P s → wp m Q s → wp m (λ a s', P a s' ∧ Q a s') s.
Proof. unfold wp. destruct (m s) as [[]|]; auto. Qed.

Lemma wp_ret {A} (a : A) (Q : A → S → Prop) s : Q a s → wp (mret a) Q s.
Proof. done. Qed.
Lemma wp_bind {A B} (m : M S A) (k : A → M S B) Q s :
  wp m (λ a s', wp (k a) Q s') s → wp (m ≫= k) Q s.
Proof.
  unfold wp, mbind, M_bind. intros H. by destruct (m s) as [[a s']|].
Qed.
Lemma wp_assoc {A B C} (m1 : M S A) (m2 : A → M S B) (k : B → M S C) Q s :
  wp ((m1 ≫= m2) ≫= k) Q s → wp (m1 ≫= λ x, m2 x ≫= k) Q s.
Proof. unfold wp, mbind, M_bind. by destruct (m1 s) as [[a s1]|]. Qed.
Lemma wp_raise {A} e (Q : A → S → Prop) s : wp (raise e) Q s.
Proof. done. Qed.
Lemma wp_gets {A} (f : S → A) (Q : A → S → Prop) s : Q (f s) s → wp (gets f) Q s.
Proof. done. Qed.
Lemma wp_modify (f : S → S) Q s : Q tt (f s) → wp (modify f) Q s.
Proof. done. Qed.
Lemma wp_lift {A} (r : res A) (Q : A → S → Prop) s :
  (∀ a, r = Ok a → Q a s) → wp (lift r) Q s.
Proof. unfold wp, lift. destruct r; auto. Qed.
Lemma wp_require b e Q s : (b = true → Q tt s) → wp (require b e) Q s.
Proof. unfold wp, require. destruct b; auto. Qed.
Lemma wp_get_some {A} (o : option A) e (Q : A → S → Prop) s :
  (∀ a, o = Some a → Q a s) → wp (get_some o e) Q s.
Proof. unfold get_some. destruct o; simpl; [|done]. intros H. by apply H. Qed.
Lemma wp_when b m (Q : unit → S → Prop) s :
  (b = true → wp m Q s) → (b = false → Q tt s) → wp (when b m) Q s.
Proof. destruct b; simpl; intros H1 H2; [by apply H1|by apply H2]. Qed.

Lemma wp_for_each {A} (f : A → M S unit) (l : list A) (I : list A → S → Prop) s :
  I [] s →
  (∀ done x rest s', l = done ++ x :: rest → I done s' →
     wp (f x) (λ _ s'', I (done ++ [x]) s'') s') →
  wp (for_each f l) (λ _ s', I l s') s.
Proof.
  intros H0 Hstep.
  assert (∀ rest pre s', l = pre ++ rest → I pre s' →
    wp (for_each f rest) (λ _ s'', I l s'') s') as Hgen; [|by apply (Hgen l [])].
  induction rest as [|x rest IH]; intros pre s' Hl HI; simpl.
  - apply wp_ret. by rewrite app_nil_r in Hl; subst.
  - apply wp_bind. eapply wp_mono; [by eapply Hstep|].
    intros [] s'' ?. apply (IH (pre ++ [x])); [|done].
    by rewrite <- (assoc_L (++)).
Qed.

Lemma wp_collect {A B} (f : A → M S (list B)) (l : list A) (I : S → Prop) s :
  I s → (∀ x s', x ∈ l → I s' → wp (f x) (λ _ s'', I s'') s') →
  wp (collect f l) (λ _ s', I s') s.
Proof.
  revert s. induction l as [|x l IH]; intros s Hs Hf; simpl; [done|].
  apply wp_bind. eapply wp_mono; [by apply Hf; [left|]|]. intros ys s1 H1.
  apply wp_bind. eapply wp_mono; [apply IH; [done|]|done].
  intros y s2 Hy. apply Hf. by right.
Qed.
End monad.

(** *** Symbolic execution

    [wp_step] runs one step of a monadic program in the goal; [wp_run_all]
    runs as many as it can, splitting on every branch. *)
Ltac wp_step :=
  lazymatch goal with
  | |- wp (mbind _ _) _ _ => apply wp_bind
  | |- wp (mret _) _ _ => apply wp_ret
  | |- wp (raise _) _ _ => apply wp_raise
  | |- wp (gets _) _ _ => apply wp_gets
  | |- wp (modify _) _ _ => apply wp_modify
  | |- wp (lift _) _ _ => apply wp_lift; intros ? ?
  | |- wp (require _ _) _ _ => apply wp_require; intros ?
  | |- wp (get_some _ _) _ _ => apply wp_get_some; intros ? ?
  | |- wp (when _ _) _ _ => apply wp_when; intros ?
  | |- wp (let _ := _ in _) _ _ => cbv zeta
  | |- wp (match ?x with _ => _ end) _ _ => destruct x eqn:?
  end.
Ltac wp_run_all := repeat (wp_step; cbv beta).

(** *** Total correctness

    [twp m Q s]: [m] returns from [s], and its result and final state satisfy [Q]. *)
Section total.
Context {S : Type}.
Implicit Types s : S.

Definition twp {A} (m : M S A) (Q : A → S → Prop) (s : S) : Prop :=
  match m s with Ok (a, s') => Q a s' | Err _ => False end.

Lemma twp_returns {A} (m : M S A) Q s : twp m Q s ↔ ∃ a s', m s = Ok (a, s') ∧ Q a s'.
Proof. unfold twp. destruct (m s) as [[a s']|]; naive_solver. Qed.
Lemma twp_mono {A} (m : M S A) (P Q : A → S → Prop) s :
  twp m P s → (∀ a s', P a s' → Q a s') → twp m Q s.
Proof. unfold twp. intros H HPQ. destruct (m s) as [[]|]; auto. Qed.
(** A program that returns also has the properties every return has. *)
Lemma twp_wp {A} (m : M S A) (P Q : A → S → Prop) s :
  twp m P s → wp m Q s → twp m (λ a s', P a s' ∧ Q a s') s.
Proof. unfold twp, wp. destruct (m s) as [[]|]; auto. Qed.
Lemma twp_ret {A} (a : A) (Q : A → S → Prop) s : Q a s → twp (mret a) Q s.
Proof. done. Qed.
Lemma twp_bind {A B} (m : M S A) (k : A → M S B) Q s :
  twp m (λ a s', twp (k a) Q s') s → twp (m ≫= k) Q s.
Proof. unfold twp, mbind, M_bind. intros H. by destruct (m s) as [[a s']|]. Qed.
Lemma twp_gets {A} (f : S → A) (Q : A → S → Prop) s : Q (f s) s → twp (gets f) Q s.
Proof. done. Qed.
Lemma twp_modify (f : S → S) Q s : Q tt (f s) → twp (modify f) Q s.
Proof. done. Qed.
Lemma twp_lift {A} (r : res A) a (Q : A → S → Prop) s : r = Ok a → Q a s → twp (lift r) Q s.
Proof. by intros ->. Qed.
Lemma twp_require b e Q s : b = true → Q tt s → twp (require b e) Q s.
Proof. by intros ->. Qed.
Lemma twp_get_some {A} (o : option A) e a (Q : A → S → Prop) s :
  o = Some a → Q a s → twp (get_some o e) Q s.
Proof. by intros ->. Qed.
Lemma twp_when b m (Q : unit → S → Prop) s :
  (b = true → twp m Q s) → (b = false → Q tt s) → twp (when b m) Q s.
Proof. destruct b; simpl; intros H1 H2; [by apply H1|by apply H2]. Qed.
Lemma twp_for_each {A} (f : A → M S unit) (l : list A) (I : S → Prop) s :
  I s → (∀ x s', x ∈ l → I s' → twp (f x) (λ _ s'', I s'') s') →
  twp (for_each f l) (λ _ s', I s') s.
Proof.
  revert s. induction l as [|x l IH]; intros s Hs Hf; simpl; [done|].
  apply twp_bind. eapply twp_mono; [by apply Hf; [left|]|]. intros [] s1 H1.
  apply IH; [done|]. intros y s2 Hy. apply Hf. by right.
Qed.
Lemma twp_collect {A B} (f : A → M S (list B)) (l : list A) (I : S → Prop) s :
  I s → (∀ x s', x ∈ l → I s' → twp (f x) (λ _ s'', I s'') s') →
  twp (collect f l) (λ _ s', I s') s.
Proof.
  revert s. induction l as [|x l IH]; intros s Hs Hf; simpl; [done|].
  apply twp_bind. eapply twp_mono; [by apply Hf; [left|]|]. intros ys s1 H1.
  apply twp_bind. eapply twp_mono; [apply IH; [done|]|done].
  intros y s2 Hy. apply Hf. by right.
Qed.
End total.

Ltac twp_step :=
  lazymatch goal with
  | |- twp (mbind _ _) _ _ => apply twp_bind
  | |- twp (mret _) _ _ => apply twp_ret
  | |- twp (gets _) _ _ => apply twp_gets
  | |- twp (modify _) _ _ => apply twp_modify
  | |- twp (let _ := _ in _) _ _ => cbv zeta
  end.
Ltac twp_all := repeat (twp_step; cbv beta).

(** Boolean conditions of the source become propositions. *)
Ltac bsimpl :=
  repeat match goal with
  | H : negb _ = true |- _ => apply negb_true_iff in H
  | H : negb _ = false |- _ => apply negb_false_iff in H
  | H : _ && _ = true |- _ => apply andb_true_iff in H as [? ?]
  | H : _ || _ = false |- _ => apply orb_false_iff in H as [? ?]
  | H : bool_decide _ = true |- _ => apply bool_decide_eq_true in H
  | H : bool_decide _ = false |- _ => apply bool_decide_eq_false in H
  end.

Lemma res_bind_ok {A B} (m : res A) (k : A → res B) b :
  m ≫= k = Ok b ↔ ∃ a, m = Ok a ∧ k a = Ok b.
Proof. destruct m; simpl; naive_solver. Qed.
Lemma ensure_ok b e : ensure b e = Ok tt ↔ b = true.
Proof. by destruct b. Qed.
Lemma ensure_ok' b e u : ensure b e = Ok u ↔ b = true.
Proof. by destruct b, u. Qed.

Lemma Ok_inj {A} (a b : A) : Ok a = Ok b → a = b.
Proof. by intros [= ->]. Qed.

(** Inverts an equation [r = Ok _] of the exception monad. *)
Ltac res_inv H :=
  repeat match type of H with
  | mbind _ _ = Ok _ => apply res_bind_ok in H; destruct H as (? & ? & H)
  | ensure _ _ = Ok _ => apply ensure_ok' in H
  end.
Ltac res_inv_all :=
  repeat match goal with
  | H : mbind _ _ = Ok _ |- _ => apply res_bind_ok in H; destruct H as (? & ? & H)
  | H : ensure _ _ = Ok _ |- _ => apply ensure_ok' in H
  | H : Ok _ = Ok _ |- _ => apply Ok_inj in H; simplify_eq
  end.

(** ** Record update

    [r <| f := v |>] is the record [r] with field [f] set to [v].  A record
    declares its eta-expansion as an instance of [Eta]; the setter of each
    projection is derived from it. *)
Class Eta (R : Type) : Type := eta : R → R.
Class Setter {R E : Type} (proj : R → E) : Type := put : (E → E) → R → R.

Ltac derive_setter :=
  match goal with
  | |- @Setter ?R ?E ?proj =>
    let inst := constr:(_ : Eta R) in
    let body := eval red in inst in
    let expanded := eval pattern proj in body in
    match expanded with
    | ?upd _ =>
      let s := eval cbv beta in (λ f : E → E, upd (λ r : R, f (proj r))) in
      exact s
    end
  end.
#[export] Hint Extern 1 (Setter _) => derive_setter : typeclass_instances.

Declare Scope state_scope.
Open Scope state_scope.
Notation "r <| f := v |>" := (put (proj := f) (λ _, v) r)
  (at level 1, v at level 99, left associativity) : state_scope.
Notation "r <| f ::= g |>" := (put (proj := f) g r)
  (at level 1, g at level 99, left associativity) : state_scope.

(** ** Sorting, as [sorted] does it on strings and on sets of strings *)
Definition py_sorted : list string → list string := merge_sort String.le.
Definition sorted_set (X : gset string) : list string := py_sorted (elements X).

Lemma py_sorted_perm l : py_sorted l ≡ₚ l.
Proof. apply merge_sort_Permutation. Qed.
Lemma py_sorted_sorted l : StronglySorted String.le (py_sorted l).
Proof. apply StronglySorted_merge_sort; apply _. Qed.
Lemma elem_of_py_sorted x l : x ∈ py_sorted l ↔ x ∈ l.
Proof. by rewrite py_sorted_perm. Qed.
Lemma py_sorted_NoDup l : NoDup (py_sorted l) ↔ NoDup l.
Proof. by rewrite py_sorted_perm. Qed.
Lemma py_sorted_id l : StronglySorted String.le l → py_sorted l = l.
Proof.
  intros Hl. apply (StronglySorted_unique String.le); auto using py_sorted_sorted.
  apply py_sorted_perm.
Qed.
Lemma py_sorted_proper l1 l2 : l1 ≡ₚ l2 → py_sorted l1 = py_sorted l2.
Proof.
  intros Hp. apply (StronglySorted_unique String.le); auto using py_sorted_sorted.
  by rewrite !py_sorted_perm.
Qed.
Lemma py_sorted_idemp l : py_sorted (py_sorted l) = py_sorted l.
Proof. apply py_sorted_id, py_sorted_sorted. Qed.

Lemma elem_of_sorted_set x X : x ∈ sorted_set X ↔ x ∈ X.
Proof. unfold sorted_set. by rewrite elem_of_py_sorted, elem_of_elements. Qed.
Lemma sorted_set_NoDup X : NoDup (sorted_set X).
Proof. apply py_sorted_NoDup, NoDup_elements. Qed.
Lemma sorted_set_list l : NoDup l → sorted_set (list_to_set l) = py_sorted l.
Proof. intros Hl. apply py_sorted_proper. by apply elements_list_to_set. Qed.
Lemma sorted_set_inj X Y : sorted_set X = sorted_set Y → X = Y.
Proof.
  intros H. apply set_eq. intros x. by rewrite <- !elem_of_sorted_set, H.
Qed.

Create HintDb state discriminated.
Create Rewrite HintDb state_rw.
#[export] Hint Resolve py_sorted_perm py_sorted_sorted sorted_set_NoDup : state.
#[export] Hint Rewrite elem_of_sorted_set elem_of_py_sorted py_sorted_idemp : state_rw.

(** ** Lists as append-only or keyed tables *)
Section tables.
Context {A : Type}.

(** [UPDATE t SET ... WHERE p] *)
Definition update_where (p : A → bool) (f : A → A) (t : list A) : list A :=
  (λ r, if p r then f r else r) <$> t.

(** [SELECT ... WHERE p], the first row or [None] ([fetchone]). *)
Definition select_one (p : A → bool) (t : list A) : option A :=
  find p t.

(** [SELECT ... WHERE p], every row in insertion order. *)
Definition select (p : A → bool) (t : list A) : list A := List.filter p t.

(** [SELECT ... WHERE p ORDER BY seq DESC LIMIT 1] *)
Definition select_last (p : A → bool) (t : list A) : option A := last (select p t).

Lemma elem_of_update_where p f t x :
  x ∈ update_where p f t ↔ ∃ y, y ∈ t ∧ x = if p y then f y else y.
Proof. unfold update_where. rewrite list_elem_of_fmap. naive_solver. Qed.

Lemma length_update_where p f t : length (update_where p f t) = length t.
Proof. apply length_fmap. Qed.

Lemma select_one_Some p t x : select_one p t = Some x → x ∈ t ∧ p x = true.
Proof.
  unfold select_one. intros H. apply find_some in H as [? ?].
  by rewrite list_elem_of_In.
Qed.
Lemma select_one_None p t : select_one p t = None ↔ ∀ x, x ∈ t → p x = false.
Proof.
  unfold select_one. split.
  - intros H x Hx. eapply find_none; [done|]. by apply list_elem_of_In.
  - intros H. destruct (find p t) eqn:E; [|done].
    apply find_some in E as [Hin Hp]. apply list_elem_of_In in Hin.
    rewrite (H a Hin) in Hp. done.
Qed.
Lemma elem_of_select p t x : x ∈ select p t ↔ x ∈ t ∧ p x = true.
Proof. unfold select. by rewrite !list_elem_of_In, filter_In. Qed.

Lemma select_app p t1 t2 : select p (t1 ++ t2) = select p t1 ++ select p t2.
Proof. apply List.filter_app. Qed.

Lemma select_last_Some p t x : select_last p t = Some x → x ∈ t ∧ p x = true.
Proof.
  unfold select_last. intros H. apply elem_of_select.
  by apply last_Some_elem_of.
Qed.
Lemma select_last_None p t : select_last p t = None ↔ ∀ x, x ∈ t → p x = false.
Proof.
  unfold select_last. rewrite last_None. split.
  - intros H x Hx. destruct (p x) eqn:E; [|done].
    assert (x ∈ select p t) by by apply elem_of_select.
    rewrite H in H0. by apply not_elem_of_nil in H0.
  - intros H. destruct (select p t) as [|x l] eqn:E; [done|].
    assert (x ∈ select p t) as Hx by (rewrite E; left).
    apply elem_of_select in Hx as [Hx Hp]. by rewrite (H x Hx) in Hp.
Qed.
Lemma select_last_snoc p t x :
  select_last p (t ++ [x]) = if p x then Some x else select_last p t.
Proof.
  unfold select_last. rewrite select_app. simpl.
  destruct (p x); [by rewrite last_snoc|by rewrite app_nil_r].
Qed.
Lemma select_one_snoc p t x :
  select_one p (t ++ [x]) =
    match select_one p t with Some y => Some y | None => if p x then Some x else None end.
Proof. induction t as [|y t IH]; simpl; [done|]. by destruct (p y). Qed.

(** An update that does not change which rows a later query selects. *)
Lemma select_update_where p q f t :
  (∀ x, q x = true → p (f x) = p x) →
  select p (update_where q f t) = update_where q f (select p t).
Proof.
  intros H. induction t as [|x t IH]; [done|]. simpl.
  destruct (q x) eqn:Hq; simpl; rewrite ?(H x Hq); destruct (p x) eqn:Hp; simpl;
    rewrite ?Hq; by f_equal.
Qed.
Lemma select_one_update_where p q f t :
  (∀ x, q x = true → p (f x) = p x) →
  select_one p (update_where q f t) = (λ x, if q x then f x else x) <$> select_one p t.
Proof.
  intros H. induction t as [|x t IH]; [done|]. simpl.
  destruct (q x) eqn:Hq; simpl; rewrite ?(H x Hq); destruct (p x) eqn:Hp; simpl;
    by rewrite ?Hq.
Qed.
Lemma select_last_update_where p q f t :
  (∀ x, q x = true → p (f x) = p x) →
  select_last p (update_where q f t) = (λ x, if q x then f x else x) <$> select_last p t.
Proof.
  intros H. unfold select_last. rewrite select_update_where by done.
  unfold update_where. by rewrite fmap_last.
Qed.
(** Rows outside the updated set are selected as before. *)
Lemma select_update_disjoint p q f t :
  (∀ x, q x = true → p x = false ∧ p (f x) = false) →
  select p (update_where q f t) = select p t.
Proof.
  intros H. induction t as [|x t IH]; [done|]. simpl.
  destruct (q x) eqn:Hq; simpl.
  - destruct (H x Hq) as [-> ->]. done.
  - destruct (p x); by rewrite ?IH.
Qed.
End tables.

(** Append-only tables only grow. *)
Notation "t1 `grows_to` t2" := (t1 `prefix_of` t2) (at level 70, only parsing) : state_scope.
