(* ===== verification/Lock.v ===== *)
(** * A fenced lock

    The specification of what claims on a node promise: at most one holder at a
    time, and a fencing token that grows whenever the holder changes or renews its
    hold, so that whoever checks tokens can tell a former holder from the present
    one.  [Exclusion] shows that the claims table implements one such lock per node. *)
From S2P Require Import Prelude.

(** A holder is a claim and its driver; [lk_top] is the highest token handed out. *)
Record lock : Type := Lock { lk_holder : option (string * string); lk_top : Z }.
Definition free_lock : lock := Lock None 0.

Inductive lock_step : lock → lock → Prop :=
  | lock_acquire h f f' : (f < f')%Z → lock_step (Lock None f) (Lock (Some h) f')
  | lock_release h f : lock_step (Lock (Some h) f) (Lock None f)
  | lock_renew h f f' : (f < f')%Z → lock_step (Lock (Some h) f) (Lock (Some h) f').

Lemma lock_top_step k k' : lock_step k k' → (lk_top k ≤ lk_top k')%Z.
Proof. destruct 1; simpl; lia. Qed.
Lemma lock_top k k' : rtc lock_step k k' → (lk_top k ≤ lk_top k')%Z.
Proof. induction 1; [lia|]. etrans; [by apply lock_top_step|done]. Qed.

(** A holder that is displaced, even if it comes back, holds an outdated token. *)
Lemma lock_fencing k k' h h' :
  rtc lock_step k k' → lk_holder k = Some h → lk_holder k' = Some h' → h ≠ h' → (lk_top k < lk_top k')%Z.
Proof.
  intros Hk. revert h. induction Hk as [k|k1 k2 k3 H12 H23 IH]; intros h E E' Hne; [congruence|].
  pose proof (lock_top _ _ H23) as Ht. destruct H12 as [x f f' Hf|x f|x f f' Hf]; simpl in *.
  - done.
  - injection E as ->. clear IH. remember (Lock None f) as k eqn:Ek. revert Ek.
    induction H23 as [k|k1 k2 k3 H12' H23' _]; intros ->; [done|].
    inversion H12'; subst; simpl in *. pose proof (lock_top _ _ H23'). simpl in *. lia.
  - injection E as ->. pose proof (IH h eq_refl E' Hne). lia.
Qed.
