(* ===== verification/Json.v ===== *)
(** * JSON values and their canonical text

    [canonical] is [core/state_graph.py]'s [canonical]: [json.dumps] with
    sorted keys, no spaces and [ensure_ascii=False].  A Python [str] is its
    UTF-8 text (a [string] of bytes); a [dict] with string keys is a [gmap],
    so two dicts with the same items are equal whatever their insertion order.
    Floats do not occur in the modelled records.

    [loads] reads back the texts [canonical] writes.  [loads_canonical] is the
    round trip that lets the rest of the development keep a [*_json] column as
    the value [json.loads] returns for it, and [canonical_inj] says that two
    equal canonical texts (and so two equal pins) come from equal values. *)
From S2P Require Import Prelude.

Unset Elimination Schemes.
Inductive json : Type :=
  | JNull
  | JBool (b : bool)
  | JInt (z : Z)
  | JStr (s : string)
  | JArr (l : list json)
  | JObj (m : gmap string json).
Set Elimination Schemes.

#[export] Instance json_eq_dec : EqDecision json.
Proof.
  refine (fix go (x y : json) : Decision (x = y) :=
    let _ : EqDecision json := @go in
    match x, y with
    | JNull, JNull => left eq_refl
    | JBool a, JBool b => cast_if (decide (a = b))
    | JInt a, JInt b => cast_if (decide (a = b))
    | JStr a, JStr b => cast_if (decide (a = b))
    | JArr a, JArr b => cast_if (decide (a = b))
    | JObj a, JObj b => cast_if (decide (a = b))
    | _, _ => right _
    end); try clear r; clear go; abstract congruence.
Defined.

(** ** Induction *)
Fixpoint json_size (j : json) : nat :=
  match j with
  | JArr l => S (sum_list (json_size <$> l))
  | JObj m => S (map_fold (λ _ v n, json_size v + n) 0 m)
  | _ => 1
  end.

Lemma sum_list_elem (l : list nat) x : x ∈ l → x ≤ sum_list l.
Proof. induction 1; simpl; lia. Qed.
Lemma json_size_lookup m k v : m !! k = Some v → json_size v < json_size (JObj m).
Proof.
  intros Hk. simpl. rewrite (map_fold_delete_L _ _ k v m); [lia| |done]. intros; lia.
Qed.

Lemma json_ind (P : json → Prop) :
  P JNull → (∀ b, P (JBool b)) → (∀ z, P (JInt z)) → (∀ s, P (JStr s)) →
  (∀ l, Forall P l → P (JArr l)) → (∀ m, map_Forall (λ _ j, P j) m → P (JObj m)) →
  ∀ j, P j.
Proof.
  intros Hn Hb Hz Hs Ha Ho j.
  induction (well_founded_ltof _ json_size j) as [j _ IH]. unfold ltof in IH.
  destruct j as [ | | | | l | m]; [done|done|done|done| |].
  - apply Ha, Forall_forall. intros x Hx. apply IH. simpl.
    pose proof (sum_list_elem (json_size <$> l) (json_size x)) as H.
    apply Nat.lt_succ_r, H, list_elem_of_fmap. eauto.
  - apply Ho. intros k v Hk. by eapply IH, json_size_lookup.
Qed.

(** ** Printing *)
Definition hex_digit (n : N) : ascii :=
  ascii_of_N (if (n <? 10)%N then n + 48 else n + 87)%N.

(** [json.dumps]'s escapes: the quote, the backslash and control characters. *)
Definition esc_char (c : ascii) : string :=
  let n := N_of_ascii c in
  if (n =? 34)%N then "\" +:+ String c ""
  else if (n =? 92)%N then "\" +:+ String c ""
  else if (n =? 10)%N then "\n"
  else if (n =? 13)%N then "\r"
  else if (n =? 9)%N then "\t"
  else if (n =? 12)%N then "\f"
  else if (n =? 8)%N then "\b"
  else if (n <? 32)%N
       then "\u00" +:+ String (hex_digit (n / 16)) (String (hex_digit (n mod 16)) "")
  else String c "".

Definition quote : string := String (ascii_of_N 34) "".

Fixpoint esc (s : string) : string :=
  match s with
  | "" => ""
  | String c s => esc_char c +:+ esc s
  end.

Definition print_str (s : string) : string := quote +:+ esc s +:+ quote.

Fixpoint sep (xs : list string) : string :=
  match xs with
  | [] => ""
  | [x] => x
  | x :: xs => x +:+ "," +:+ sep xs
  end.

Definition key_le {A} (p q : string * A) : Prop := String.le p.1 q.1.
#[export] Instance key_le_dec {A} : RelDecision (@key_le A).
Proof. intros p q. unfold key_le. apply _. Defined.
#[export] Instance key_le_trans {A} : Transitive (@key_le A).
Proof. intros p q r. unfold key_le. apply transitivity. Qed.
#[export] Instance key_le_total {A} : Total (@key_le A).
Proof. intros p q. unfold key_le. apply total. apply _. Qed.

(** The items of a dict in key order. *)
Definition sort_items {A} (l : list (string * A)) : list (string * A) := merge_sort key_le l.

Definition print_member (p : string * string) : string := print_str p.1 +:+ ":" +:+ p.2.

Fixpoint canonical (value : json) : string :=
  match value with
  | JNull => "null"
  | JBool true => "true"
  | JBool false => "false"
  | JInt z => pretty z
  | JStr s => print_str s
  | JArr l => "[" +:+ sep (canonical <$> l) +:+ "]"
  | JObj m =>
    "{" +:+ sep (print_member <$> sort_items (map_to_list (canonical <$> m))) +:+ "}"
  end.

(** ** Parsing *)
Definition unhex (c : ascii) : option N :=
  let n := N_of_ascii c in
  if (48 <=? n)%N && (n <=? 57)%N then Some (n - 48)%N
  else if (97 <=? n)%N && (n <=? 102)%N then Some (n - 87)%N
  else None.

(** One character of a string literal; [None] at the closing quote. *)
Definition unesc_char (s : string) : option (ascii * string) :=
  match s with
  | String c s =>
    if (N_of_ascii c =? 34)%N then None
    else if (N_of_ascii c =? 92)%N then
      match s with
      | String e s =>
        let n := N_of_ascii e in
        if (n =? 34)%N || (n =? 92)%N then Some (e, s)
        else if (n =? 110)%N then Some (ascii_of_N 10, s)
        else if (n =? 114)%N then Some (ascii_of_N 13, s)
        else if (n =? 116)%N then Some (ascii_of_N 9, s)
        else if (n =? 102)%N then Some (ascii_of_N 12, s)
        else if (n =? 98)%N then Some (ascii_of_N 8, s)
        else match s with
             | String _ (String _ (String h (String l s))) =>
               h ← unhex h; l ← unhex l; Some (ascii_of_N (16 * h + l), s)
             | _ => None
             end
      | "" => None
      end
    else Some (c, s)
  | "" => None
  end.

Fixpoint parse_chars (fuel : nat) (s : string) : option (string * string) :=
  match fuel with
  | 0 => None
  | S fuel =>
    match unesc_char s with
    | Some (c, s) => '(r, s) ← parse_chars fuel s; Some (String c r, s)
    | None =>
      match s with
      | String c s => if (N_of_ascii c =? 34)%N then Some ("", s) else None
      | "" => None
      end
    end
  end.

Fixpoint digits (acc : N) (s : string) : N * string :=
  match s with
  | String c r =>
    match Ascii.is_nat c with
    | Some d => digits (10 * acc + N.of_nat d) r
    | None => (acc, s)
    end
  | "" => (acc, s)
  end.

Definition parse_int (s : string) : option (json * string) :=
  match s with
  | String "-" r => let '(n, r) := digits 0 r in Some (JInt (- Z.of_N n), r)
  | String c r =>
    match Ascii.is_nat c with
    | Some _ => let '(n, r) := digits 0 s in Some (JInt (Z.of_N n), r)
    | None => None
    end
  | "" => None
  end.

Fixpoint parse_val (fuel : nat) (s : string) : option (json * string) :=
  match fuel with
  | 0 => None
  | S fuel =>
    match s with
    | String "n" (String "u" (String "l" (String "l" r))) => Some (JNull, r)
    | String "t" (String "r" (String "u" (String "e" r))) => Some (JBool true, r)
    | String "f" (String "a" (String "l" (String "s" (String "e" r)))) => Some (JBool false, r)
    | String "[" (String "]" r) => Some (JArr [], r)
    | String "[" r => '(l, r) ← parse_elems fuel r; Some (JArr l, r)
    | String "{" (String "}" r) => Some (JObj ∅, r)
    | String "{" r => '(l, r) ← parse_members fuel r; Some (JObj (list_to_map l), r)
    | String c r =>
      if (N_of_ascii c =? 34)%N
      then '(x, r) ← parse_chars fuel r; Some (JStr x, r)
      else parse_int s
    | "" => None
    end
  end
with parse_elems (fuel : nat) (s : string) : option (list json * string) :=
  match fuel with
  | 0 => None
  | S fuel =>
    '(v, r) ← parse_val fuel s;
    match r with
    | String "," r => '(l, r) ← parse_elems fuel r; Some (v :: l, r)
    | String "]" r => Some ([v], r)
    | _ => None
    end
  end
with parse_members (fuel : nat) (s : string) : option (list (string * json) * string) :=
  match fuel with
  | 0 => None
  | S fuel =>
    match s with
    | String _ r =>
      '(k, r) ← parse_chars fuel r;
      match r with
      | String ":" r =>
        '(v, r) ← parse_val fuel r;
        match r with
        | String "," r => '(l, r) ← parse_members fuel r; Some ((k, v) :: l, r)
        | String "}" r => Some ([(k, v)], r)
        | _ => None
        end
      | _ => None
      end
    | "" => None
    end
  end.

Definition loads (s : string) : option json :=
  '(v, r) ← parse_val (S (String.length s)) s;
  match r with "" => Some v | _ => None end.

(** ** Round trip *)
Lemma string_app_cons c s1 s2 : String c s1 +:+ s2 = String c (s1 +:+ s2).
Proof. done. Qed.
Lemma string_app_assoc s1 s2 s3 : (s1 +:+ s2) +:+ s3 = s1 +:+ s2 +:+ s3.
Proof.
  induction s1 as [|c s1 IH]; [done|]. rewrite !string_app_cons. by f_equal.
Qed.
Lemma string_app_nil_r s : s +:+ "" = s.
Proof. induction s as [|c s IH]; [done|]. rewrite string_app_cons. by f_equal. Qed.
Lemma string_length_app s1 s2 :
  String.length (s1 +:+ s2) = String.length s1 + String.length s2.
Proof. induction s1 as [|c s1 IH]; [done|]. rewrite string_app_cons. simpl. by f_equal. Qed.

Lemma unesc_esc_char c s : unesc_char (esc_char c +:+ s) = Some (c, s).
Proof. by destruct c as [[] [] [] [] [] [] [] []]. Qed.

Lemma esc_char_length c : 1 ≤ String.length (esc_char c).
Proof. destruct c as [[] [] [] [] [] [] [] []]; vm_compute; lia. Qed.

Lemma parse_chars_esc s r n :
  String.length (esc s) < n → parse_chars n (esc s +:+ quote +:+ r) = Some (s, r).
Proof.
  revert n. induction s as [|c s IH]; intros [|n] Hn; try (simpl in Hn; lia).
  - done.
  - simpl in Hn |- *. rewrite string_length_app in Hn. pose proof (esc_char_length c).
    rewrite string_app_assoc, unesc_esc_char. cbn. rewrite IH by lia. done.
Qed.

(** Text after a value: nothing, a comma or a closing bracket. *)
Definition delim (s : string) : Prop :=
  match s with
  | "" => True
  | String c _ => c = ","%char ∨ c = "]"%char ∨ c = "}"%char
  end.

Lemma is_nat_pretty_char (d : N) :
  (d < 10)%N → Ascii.is_nat (pretty_N_char d) = Some (N.to_nat d).
Proof.
  intros. assert (d = 0 ∨ d = 1 ∨ d = 2 ∨ d = 3 ∨ d = 4 ∨ d = 5 ∨ d = 6 ∨ d = 7 ∨ d = 8 ∨ d = 9)%N
    as Hd by lia. by repeat destruct Hd as [->|Hd]; subst.
Qed.

Lemma digits_go x s : digits 0 (pretty_N_go x s) = digits x s.
Proof.
  revert s. induction (N.lt_wf_0 x) as [x _ IH]; intros s.
  destruct (decide (x = 0)%N) as [->|Hx]; [done|].
  rewrite pretty_N_go_step by lia. rewrite IH by (apply N.div_lt; lia).
  cbn [digits]. rewrite is_nat_pretty_char by (apply N.mod_lt; lia).
  f_equal. rewrite N2Nat.id. symmetry. apply N.div_mod. lia.
Qed.

Lemma pretty_N_go_app x s r : pretty_N_go x s +:+ r = pretty_N_go x (s +:+ r).
Proof.
  revert s. induction (N.lt_wf_0 x) as [x _ IH]; intros s.
  destruct (decide (x = 0)%N) as [->|Hx]; [done|].
  rewrite !(pretty_N_go_step x) by lia. rewrite IH by (apply N.div_lt; lia). done.
Qed.

Lemma digits_delim x s : delim s → digits x s = (x, s).
Proof. destruct s as [|c s]; [done|]. by intros [->|[->| ->]]. Qed.

Lemma digits_pretty (n : N) r : delim r → digits 0 (pretty n +:+ r) = (n, r).
Proof.
  intros Hr. unfold pretty, pretty_N. case_decide as Hn.
  - subst. change (digits 0 r = (0%N, r)). by apply digits_delim.
  - rewrite pretty_N_go_app, digits_go. by apply digits_delim.
Qed.

Lemma pretty_N_go_head x s :
  (x ≠ 0)%N → ∃ d r, (d < 10)%N ∧ pretty_N_go x s = String (pretty_N_char d) r.
Proof.
  revert s. induction (N.lt_wf_0 x) as [x _ IH]; intros s Hx.
  rewrite pretty_N_go_step by lia.
  destruct (decide (x `div` 10 = 0)%N) as [->|Hd].
  - rewrite pretty_N_go_0. exists (x `mod` 10)%N, s. split; [apply N.mod_lt; lia|done].
  - apply IH; [apply N.div_lt; lia|done].
Qed.
Lemma pretty_N_head (n : N) : ∃ d r, (d < 10)%N ∧ pretty n = String (pretty_N_char d) r.
Proof.
  unfold pretty, pretty_N. case_decide; [by exists 0%N, ""|by apply pretty_N_go_head].
Qed.

Ltac digit_cases d :=
  let H := fresh in
  assert (d = 0 ∨ d = 1 ∨ d = 2 ∨ d = 3 ∨ d = 4 ∨ d = 5 ∨ d = 6 ∨ d = 7 ∨ d = 8 ∨ d = 9)%N
    as H by lia; repeat destruct H as [->|H]; subst.

Lemma parse_int_digit n (m : N) r : delim r →
  parse_val (S n) (pretty m +:+ r) = Some (JInt (Z.of_N m), r).
Proof.
  intros Hr. pose proof (digits_pretty m r Hr) as Hdig.
  destruct (pretty_N_head m) as (d & t & Hd & E). rewrite E, string_app_cons in *.
  digit_cases d; cbn [pretty_N_char] in Hdig |- *; cbn -[digits]; by rewrite Hdig.
Qed.

Lemma parse_int_pretty n (z : Z) r : delim r →
  parse_val (S n) (pretty z +:+ r) = Some (JInt z, r).
Proof.
  intros Hr. destruct z as [|p|p].
  - by apply (parse_int_digit n 0 r).
  - by apply (parse_int_digit n (Npos p) r).
  - change (pretty (Z.neg p)) with ("-" +:+ pretty (Npos p)).
    pose proof (digits_pretty (Npos p) r Hr) as Hdig.
    change (parse_val (S n) (("-" +:+ pretty (N.pos p)) +:+ r))
      with (let '(n, r) := digits 0 (pretty (N.pos p) +:+ r) in Some (JInt (- Z.of_N n), r)).
    by rewrite Hdig.
Qed.

Definition bracket_free (s : string) : Prop :=
  match s with
  | "" => False
  | String c _ => c ≠ "]"%char ∧ c ≠ "}"%char
  end.

Lemma bracket_free_app s r : bracket_free s → bracket_free (s +:+ r).
Proof. by destruct s. Qed.

Lemma canonical_head v : bracket_free (canonical v).
Proof.
  destruct v as [|[]|z| | |]; try done.
  cbn [canonical]. destruct z as [|p|p]; [done| |done].
  change (pretty (Z.pos p)) with (pretty (Npos p)).
  destruct (pretty_N_head (Npos p)) as (d & t & Hd & ->). by digit_cases d.
Qed.

Lemma parse_val_arr n s :
  bracket_free s →
  parse_val (S n) ("[" +:+ s) = ('(l, r) ← parse_elems n s; Some (JArr l, r)).
Proof.
  destruct s as [|c s]; [done|]. intros [Hc _].
  destruct c as [[] [] [] [] [] [] [] []]; done.
Qed.
Lemma parse_val_obj n s :
  parse_val (S n) ("{" +:+ quote +:+ s) =
    ('(l, r) ← parse_members n (quote +:+ s); Some (JObj (list_to_map l), r)).
Proof. done. Qed.

Definition parses (v : json) : Prop :=
  ∀ n r, String.length (canonical v) ≤ n → delim r →
    parse_val n (canonical v +:+ r) = Some (v, r).

Lemma canonical_length v : 1 ≤ String.length (canonical v).
Proof. pose proof (canonical_head v). destruct (canonical v); simpl in *; [done|lia]. Qed.

Lemma sep_cons x y xs : sep (x :: y :: xs) = x +:+ "," +:+ sep (y :: xs).
Proof. done. Qed.

Lemma sep_head xs x : bracket_free x → bracket_free (sep (x :: xs)).
Proof. destruct xs; [done|]. rewrite sep_cons. apply bracket_free_app. Qed.

Lemma parse_elems_sep l n r :
  l ≠ [] → Forall parses l → String.length (sep (canonical <$> l)) < n →
  parse_elems n (sep (canonical <$> l) +:+ "]" +:+ r) = Some (l, r).
Proof.
  revert n. induction l as [|v l IH]; intros [|n] Hne HF Hn; try done; [lia|].
  apply Forall_cons in HF as [Hv HF].
  destruct l as [|w l].
  - cbn [fmap list_fmap sep] in *. cbn [parse_elems].
    rewrite Hv; [done|lia|by right; left].
  - change (canonical <$> v :: w :: l)
      with (canonical v :: canonical w :: (canonical <$> l)) in *.
    rewrite sep_cons in *. rewrite !string_length_app in Hn.
    change (String.length ",") with 1 in Hn.
    rewrite !string_app_assoc. cbn [parse_elems].
    rewrite Hv; [|lia|by left]. cbn [mbind option_bind].
    change ("," +:+ ?x) with (String "," x). cbv iota beta.
    change (canonical w :: (canonical <$> l)) with (canonical <$> w :: l).
    rewrite IH; [done|done|done|].
    change (canonical <$> w :: l) with (canonical w :: (canonical <$> l)). lia.
Qed.

(** *** Members of an object *)
Definition print_item (p : string * json) : string := print_member (prod_map id canonical p).

Lemma parse_chars_print k n r :
  String.length (print_str k) ≤ n →
  parse_chars n (esc k +:+ quote +:+ r) = Some (k, r).
Proof.
  unfold print_str. rewrite !string_length_app. change (String.length quote) with 1.
  intros Hn. apply parse_chars_esc. lia.
Qed.

Lemma print_item_length p :
  String.length (print_item p) =
    String.length (print_str p.1) + S (String.length (canonical p.2)).
Proof. unfold print_item, print_member. by rewrite !string_length_app. Qed.

Lemma parse_member k n s :
  String.length (print_str k) ≤ n →
  parse_members (S n) (print_str k +:+ ":" +:+ s) =
    ('(v, r) ← parse_val n s;
     match r with
     | String "," r => '(l, r) ← parse_members n r; Some ((k, v) :: l, r)
     | String "}" r => Some ([(k, v)], r)
     | _ => None
     end).
Proof.
  intros Hn. unfold print_str. rewrite !string_app_assoc.
  cbn [parse_members].
  change (quote +:+ ?x) with (String (ascii_of_N 34) x). cbv iota beta.
  change (String (ascii_of_N 34) ?x) with (quote +:+ x).
  by rewrite parse_chars_print.
Qed.

Lemma parse_members_sep l n r :
  l ≠ [] → Forall (λ p, parses p.2) l →
  String.length (sep (print_item <$> l)) < n →
  parse_members n (sep (print_item <$> l) +:+ "}" +:+ r) = Some (l, r).
Proof.
  revert n. induction l as [|[k v] l IH]; intros [|n] Hne HF Hn; try done; [lia|].
  apply Forall_cons in HF as [Hv HF]. simpl in Hv.
  destruct l as [|p l].
  - cbn [fmap list_fmap sep] in *. rewrite print_item_length in Hn. cbn [fst snd] in Hn.
    unfold print_item, print_member. cbn [prod_map fst snd id].
    rewrite !string_app_assoc, parse_member by lia.
    rewrite Hv; [done|lia|by right; right].
  - change (print_item <$> (k, v) :: p :: l)
      with (print_item (k, v) :: print_item p :: (print_item <$> l)) in *.
    rewrite sep_cons in *. rewrite !string_length_app in Hn.
    change (String.length ",") with 1 in Hn. rewrite print_item_length in Hn. cbn [fst snd] in Hn.
    rewrite !string_app_assoc. unfold print_item at 1, print_member. cbn [prod_map fst snd id].
    rewrite !string_app_assoc, parse_member by lia.
    rewrite Hv; [|lia|by left]. cbn [mbind option_bind].
    change ("," +:+ ?x) with (String "," x). cbv iota beta.
    change (print_item p :: (print_item <$> l)) with (print_item <$> p :: l).
    rewrite IH; [done|done|done|].
    change (print_item <$> p :: l) with (print_item p :: (print_item <$> l)). lia.
Qed.

Lemma sort_items_perm {A} (l : list (string * A)) : sort_items l ≡ₚ l.
Proof. apply merge_sort_Permutation. Qed.

(** Key-sorted lists with distinct keys and the same items are equal. *)
Lemma sort_items_unique {A} (l1 l2 : list (string * A)) :
  NoDup l1.*1 → StronglySorted key_le l1 → StronglySorted key_le l2 → l1 ≡ₚ l2 → l1 = l2.
Proof.
  intros Hnd H1 H2 Hp. apply (StronglySorted_unique_strong key_le); [|done..].
  intros [k1 x1] [k2 x2] Hx1 Hx2 Hle1 Hle2. unfold key_le in *. simpl in *.
  assert (k1 = k2) as -> by by apply (anti_symm String.le).
  rewrite <- Hp in Hx2. f_equal.
  apply (elem_of_list_to_map (M:=gmap string)) in Hx1, Hx2; [congruence|done..].
Qed.

Lemma sorted_fmap_items {A B} (f : A → B) (l : list (string * A)) :
  StronglySorted key_le l → StronglySorted key_le (prod_map id f <$> l).
Proof.
  induction 1 as [|p l Hs IH Hf]; simpl; constructor; [done|].
  apply Forall_fmap. eapply Forall_impl; [exact Hf|]. by intros [] ?.
Qed.

Lemma sort_items_fmap {A B} (f : A → B) (m : gmap string A) :
  sort_items (map_to_list (f <$> m)) = prod_map id f <$> sort_items (map_to_list m).
Proof.
  apply sort_items_unique.
  - rewrite sort_items_perm. apply NoDup_fst_map_to_list.
  - apply StronglySorted_merge_sort; apply _.
  - apply sorted_fmap_items, StronglySorted_merge_sort; apply _.
  - by rewrite !sort_items_perm, map_to_list_fmap.
Qed.

Lemma list_to_map_sort_items {A} (m : gmap string A) :
  list_to_map (sort_items (map_to_list m)) = m.
Proof.
  symmetry. apply list_to_map_flip. by rewrite sort_items_perm.
Qed.

Lemma canonical_obj m :
  canonical (JObj m) = "{" +:+ sep (print_item <$> sort_items (map_to_list m)) +:+ "}".
Proof. cbn [canonical]. by rewrite sort_items_fmap, <- list_fmap_compose. Qed.

Lemma sep_items_head l : l ≠ [] → ∃ s, sep (print_item <$> l) = quote +:+ s.
Proof.
  destruct l as [|p [|q l]]; [done|..]; intros _.
  - eexists. cbn [fmap list_fmap sep]. unfold print_item, print_member, print_str.
    rewrite !string_app_assoc. done.
  - eexists. change (print_item <$> p :: q :: l)
      with (print_item p :: print_item q :: (print_item <$> l)).
    rewrite sep_cons. unfold print_item at 1, print_member, print_str.
    rewrite !string_app_assoc. done.
Qed.

Lemma parse_val_str n s :
  parse_val (S n) (quote +:+ s) = ('(x, r) ← parse_chars n s; Some (JStr x, r)).
Proof. done. Qed.

Lemma parses_str s : parses (JStr s).
Proof.
  intros n r Hn Hr. cbn [canonical] in *. destruct n as [|n].
  { unfold print_str in Hn. rewrite !string_length_app in Hn.
    change (String.length quote) with 1 in Hn. lia. }
  unfold print_str. rewrite !string_app_assoc.
  rewrite parse_val_str, parse_chars_esc; [done|].
  unfold print_str in Hn. rewrite !string_length_app in Hn.
  change (String.length quote) with 1 in Hn. lia.
Qed.

Lemma parses_arr l : Forall parses l → parses (JArr l).
Proof.
  intros HF n r Hn Hr. cbn [canonical] in *. rewrite !string_length_app in Hn.
  change (String.length "[") with 1 in Hn. destruct n as [|n]; [lia|].
  destruct l as [|v l]; [done|]. rewrite !string_app_assoc, parse_val_arr.
  - rewrite parse_elems_sep; [done|done|done|]. change (String.length "]") with 1 in Hn. lia.
  - apply bracket_free_app. apply sep_head, canonical_head.
Qed.

Lemma parses_obj m : map_Forall (λ _, parses) m → parses (JObj m).
Proof.
  intros HF n r Hn Hr. rewrite canonical_obj in *. rewrite !string_length_app in Hn.
  change (String.length "{") with 1 in Hn. destruct n as [|n]; [lia|].
  set (l := sort_items (map_to_list m)) in *.
  assert (Forall (λ p, parses p.2) l) as HFl.
  { unfold l. rewrite sort_items_perm. apply Forall_forall. intros [k v] Hkv.
    apply elem_of_map_to_list in Hkv. by apply (HF k v). }
  destruct (decide (l = [])) as [Hl|Hl].
  - assert (m = ∅) as ->; [|done].
    apply map_to_list_empty_iff, Permutation_nil_r. rewrite <- Hl.
    symmetry. apply sort_items_perm.
  - destruct (sep_items_head l Hl) as [t Ht]. rewrite string_app_assoc.
    assert (parse_val (S n) ("{" +:+ (sep (print_item <$> l) +:+ "}") +:+ r) =
      ('(l, r) ← parse_members n (sep (print_item <$> l) +:+ "}" +:+ r);
       Some (JObj (list_to_map l), r))) as ->.
    { rewrite Ht, !string_app_assoc. apply parse_val_obj. }
    rewrite parse_members_sep; [|done|done|change (String.length "}") with 1 in Hn; lia].
    simpl. unfold l. by rewrite list_to_map_sort_items.
Qed.

Lemma parses_all v : parses v.
Proof.
  induction v as [|b|z|s|l IH|m IH] using json_ind.
  - intros [|n] r Hn _; [simpl in Hn; lia|done].
  - intros [|n] r Hn _; destruct b; simpl in Hn; try lia; done.
  - intros [|n] r Hn Hr; [pose proof (canonical_length (JInt z)); lia|].
    by apply parse_int_pretty.
  - apply parses_str.
  - by apply parses_arr.
  - by apply parses_obj.
Qed.

(** [json.loads(canonical(v)) == v]. *)
Lemma loads_canonical v : loads (canonical v) = Some v.
Proof.
  unfold loads. pose proof (parses_all v (S (String.length (canonical v))) "") as H.
  rewrite string_app_nil_r in H. rewrite H; [done|lia|done].
Qed.

(** Equal canonical texts come from equal values. *)
#[export] Instance canonical_inj : Inj (=) (=) canonical.
Proof.
  intros v w H. apply (inj Some). by rewrite <- !loads_canonical, H.
Qed.

(** ** Access to objects, as Python's [dict] methods *)
Definition jget (k : string) (j : json) : option json :=
  match j with JObj m => m !! k | _ => None end.
Definition jset (k : string) (v : json) (j : json) : json :=
  match j with JObj m => JObj (<[k := v]> m) | _ => j end.
Definition jobj (l : list (string * json)) : json := JObj (list_to_map l).
Definition jopt {A} (f : A → json) (o : option A) : json :=
  match o with Some a => f a | None => JNull end.
Definition jstrs (l : list string) : json := JArr (JStr <$> l).
Definition jstr_of (j : json) : option string :=
  match j with JStr s => Some s | _ => None end.
