(* ===== verification/Text.v ===== *)
(** * Strings and input validators

    The validators at the top of [core/state_graph.py] ([key], [text],
    [integer], [contract], [dependencies], [check_facet]) and of
    [core/state_attempts.py] ([artifact_ref], [evidence_director_identity]).
    They receive whatever the transport decoded, so their argument is a [json]
    value and the [isinstance] tests are case analyses on it.

    A Python [str] is its UTF-8 text.  [chars] splits it into the byte groups
    of its code points, so [py_len] is Python's [len] and [strip] removes the
    characters for which [str.isspace] holds. *)
From S2P Require Import Prelude Json.

Coercion JStr : string >-> json.

(** Python's truth value of a decoded value. *)
Definition py_true (j : json) : bool :=
  match j with
  | JNull => false
  | JBool b => b
  | JInt z => negb (bool_decide (z = 0%Z))
  | JStr s => negb (bool_decide (s = ""))
  | JArr l => negb (bool_decide (l = []))
  | JObj m => negb (bool_decide (m = ∅))
  end.

(** ** Code points *)
Definition is_continuation (c : ascii) : bool :=
  let n := N_of_ascii c in (128 <=? n)%N && (n <? 192)%N.

Fixpoint chars (s : string) : list string :=
  match s with
  | "" => []
  | String c s =>
    match chars s with
    | (String d _ as x) :: xs =>
      if is_continuation d then String c x :: xs else String c "" :: x :: xs
    | xs => String c "" :: xs
    end
  end.

Fixpoint concat_chars (l : list string) : string :=
  match l with
  | [] => ""
  | x :: l => x +:+ concat_chars l
  end.

(** [len(s)] *)
Definition py_len (s : string) : nat := length (chars s).

(** The code point of one byte group ([ord]). *)
Definition ord (x : string) : N :=
  match x with
  | String a "" => N_of_ascii a
  | String a (String b "") => (N_of_ascii a - 192) * 64 + (N_of_ascii b - 128)
  | String a (String b (String c "")) =>
    ((N_of_ascii a - 224) * 64 + (N_of_ascii b - 128)) * 64 + (N_of_ascii c - 128)
  | String a (String b (String c (String d ""))) =>
    (((N_of_ascii a - 240) * 64 + (N_of_ascii b - 128)) * 64 + (N_of_ascii c - 128)) * 64
      + (N_of_ascii d - 128)
  | _ => 0
  end%N.

Definition in_ranges (n : N) (l : list (N * N)) : bool :=
  existsb (λ p, (p.1 <=? n)%N && (n <=? p.2)%N) l.

(** The code points with [str.isspace]. *)
Definition py_spaces : list (N * N) :=
  [(9, 13); (28, 32); (133, 133); (160, 160); (5760, 5760); (8192, 8202);
   (8232, 8233); (8239, 8239); (8287, 8287); (12288, 12288)]%N.

(** Unicode categories Cc (controls), Cf (format) and Cs (surrogates). *)
Definition control_ranges : list (N * N) :=
  [(0, 31); (127, 159); (173, 173); (1536, 1541); (1564, 1564); (1757, 1757);
   (1807, 1807); (2192, 2193); (2274, 2274); (6158, 6158); (8203, 8207);
   (8234, 8238); (8288, 8292); (8294, 8303); (55296, 57343); (65279, 65279);
   (65529, 65531); (69821, 69821); (69837, 69837); (78896, 78911);
   (113824, 113827); (119155, 119162); (917505, 917505); (917536, 917631)]%N.

Definition is_space (x : string) : bool := in_ranges (ord x) py_spaces.
Definition is_control (x : string) : bool := in_ranges (ord x) control_ranges.

Fixpoint drop_spaces (l : list string) : list string :=
  match l with
  | x :: l' => if is_space x then drop_spaces l' else l
  | [] => []
  end.

(** [s.strip()] *)
Definition strip (s : string) : string :=
  concat_chars (reverse (drop_spaces (reverse (drop_spaces (chars s))))).

(** ** The key grammar [[A-Za-z0-9][A-Za-z0-9_.-]{0,127}\Z] *)
Definition is_alnum (c : ascii) : bool :=
  in_ranges (N_of_ascii c) [(48, 57); (65, 90); (97, 122)]%N.
Definition is_key_char (c : ascii) : bool :=
  is_alnum c || in_ranges (N_of_ascii c) [(45, 46); (95, 95)]%N.

Fixpoint all_chars (p : ascii → bool) (s : string) : bool :=
  match s with
  | "" => true
  | String c s => p c && all_chars p s
  end.

Definition KEY (s : string) : bool :=
  match s with
  | "" => false
  | String c r => is_alnum c && all_chars is_key_char r && (String.length r <=? 127)
  end.

Definition key (value : json) (label : string) : res string :=
  match value with
  | JStr s =>
    if KEY s then Ok s
    else Err (StateGraphError (label +:+ " must be 1-128 letters/digits/._-, starting with a letter or digit"))
  | _ => Err (StateGraphError (label +:+ " must be 1-128 letters/digits/._-, starting with a letter or digit"))
  end.

Definition text (value : json) (label : string) (maximum : Z) : res string :=
  match value with
  | JStr s =>
    if bool_decide (strip s = "") || (maximum <? Z.of_nat (py_len s))%Z
    then Err (StateGraphError (label +:+ " must be nonempty text of bounded length"))
    else Ok (strip s)
  | _ => Err (StateGraphError (label +:+ " must be nonempty text of bounded length"))
  end.

(** [type(value) is not int] refuses booleans: they are another constructor. *)
Definition integer (value : json) (label : string) (low high : Z) : res Z :=
  match value with
  | JInt z =>
    if (low <=? z)%Z && (z <=? high)%Z then Ok z
    else Err (StateGraphError (label +:+ " must be an integer in range"))
  | _ => Err (StateGraphError (label +:+ " must be an integer in range"))
  end.

(** Python's [==] of a JSON value and an integer. *)
Definition py_eq_int (j : json) (z : Z) : bool :=
  match j with JInt y => (y =? z)%Z | JBool b => (Z.b2z b =? z)%Z | _ => false end.

(** A value that is one of the given words. *)
Definition one_of (words : list string) (v : json) : option string :=
  match v with JStr s => if bool_decide (s ∈ words) then Some s else None | _ => None end.

(** ** Acceptance contracts *)
Inductive check_kind : Set := KTest | KReview | KHuman | KArtifact | KIntegration.
#[export] Instance check_kind_eq_dec : EqDecision check_kind.
Proof. solve_decision. Defined.

Definition kind_text (k : check_kind) : string :=
  match k with
  | KTest => "test" | KReview => "review" | KHuman => "human"
  | KArtifact => "artifact" | KIntegration => "integration"
  end.
Definition KINDS : list check_kind := [KTest; KReview; KHuman; KArtifact; KIntegration].
Definition kind_of (value : json) : option check_kind :=
  match value with
  | JStr s => find (λ k, bool_decide (kind_text k = s)) KINDS
  | _ => None
  end.

Record check : Type := Check { c_id : string; c_kind : check_kind; c_description : string }.
#[export] Instance check_eq_dec : EqDecision check.
Proof. solve_decision. Defined.

Definition check_json (c : check) : json :=
  jobj [("id", JStr (c_id c)); ("kind", JStr (kind_text (c_kind c)));
        ("description", JStr (c_description c))].
Definition contract_json_of (cs : list check) : json := JArr (check_json <$> cs).

Definition only_fields (m : gmap string json) (fields : list string) : bool :=
  forallb (λ p, bool_decide (p.1 ∈ fields)) (map_to_list m).
Definition field (m : gmap string json) (k : string) : json := default JNull (m !! k).

Fixpoint contract_go (seen : gset string) (value : list json) : res (list check) :=
  match value with
  | [] => Ok []
  | JObj m :: rest =>
    ensure (only_fields m ["id"; "kind"; "description"])
      (StateGraphError "each check must contain only id, kind, description");;
    cid ← key (field m "id") "check id";
    match kind_of (field m "kind") with
    | Some kind =>
      ensure (bool_decide (cid ∉ seen))
        (StateGraphError "check kinds must be supported and IDs unique");;
      description ← text (field m "description") "check description" 2000;
      checks ← contract_go ({[cid]} ∪ seen) rest;
      Ok (Check cid kind description :: checks)
    | None => Err (StateGraphError "check kinds must be supported and IDs unique")
    end
  | _ :: _ => Err (StateGraphError "each check must contain only id, kind, description")
  end.

Definition check_le (a b : check) : Prop := String.le (c_id a) (c_id b).
#[export] Instance check_le_dec : RelDecision check_le.
Proof. intros a b. unfold check_le. apply _. Defined.

Definition contract (value : json) : res (list check) :=
  match value with
  | JArr l =>
    ensure ((1 <=? length l) && (length l <=? 64))
      (StateGraphError "acceptance requires 1-64 explicit checks; an empty contract cannot pass");;
    checks ← contract_go ∅ l;
    Ok (merge_sort check_le checks)
  | _ => Err (StateGraphError "acceptance requires 1-64 explicit checks; an empty contract cannot pass")
  end.

(** ** Dependency lists *)
Definition MAX_NODES : nat := Z.to_nat 1000.

Definition dependencies (value : json) : res (list string) :=
  match value with
  | JArr l =>
    ensure (length l <=? MAX_NODES) (StateGraphError "dependencies must be a bounded list");;
    result ← mapM (λ v, key v "dependency") l;
    ensure (bool_decide (NoDup result)) (StateGraphError "duplicate dependencies");;
    Ok (py_sorted result)
  | _ => Err (StateGraphError "dependencies must be a bounded list")
  end.

(** ** Facets *)
Inductive facet : Set := FDesign | FContract | FTest | FContent | FIntegration.
#[export] Instance facet_eq_dec : EqDecision facet.
Proof. solve_decision. Defined.
Definition facet_text (f : facet) : string :=
  match f with
  | FDesign => "design" | FContract => "contract" | FTest => "test"
  | FContent => "content" | FIntegration => "integration"
  end.
Definition FACETS : list facet := [FDesign; FContract; FTest; FContent; FIntegration].
Definition BUILDABLE (f : facet) : bool :=
  match f with FDesign | FContract => true | _ => false end.

Definition check_facet (value : json) : res (option facet) :=
  match value with
  | JNull => Ok None
  | JStr s =>
    match find (λ f, bool_decide (facet_text f = s)) FACETS with
    | Some f => Ok (Some f)
    | None => Err (StateGraphError "facet must be one of the facets")
    end
  | _ => Err (StateGraphError "facet must be one of the facets")
  end.

(** ** Artifact digests and reviewer attribution *)
Definition is_hex (c : ascii) : bool :=
  in_ranges (N_of_ascii c) [(48, 57); (97, 102)]%N.
Definition hex_of (n : nat) (s : string) : bool :=
  (String.length s =? n) && all_chars is_hex s.

(** [SHA]: 40 or 64 lowercase hexadecimal digits. *)
Definition SHA (s : string) : bool := hex_of 40 s || hex_of 64 s.

Definition artifact_ref (value : json) : res string :=
  match value with
  | JStr s =>
    if SHA s then Ok s
    else Err (StateGraphError "artifact_ref must be an exact lowercase Git SHA or SHA-256 digest")
  | _ => Err (StateGraphError "artifact_ref must be an exact lowercase Git SHA or SHA-256 digest")
  end.

Definition evidence_director_identity (value : json) : res (option string) :=
  match value with
  | JNull => Ok None
  | JStr s =>
    if bool_decide (strip s = "") || (320 <? Z.of_nat (py_len s))%Z || existsb is_control (chars s)
    then Err (StateGraphError "director_identity must be nonempty text of at most 320 characters without controls")
    else Ok (Some (strip s))
  | _ => Err (StateGraphError "director_identity must be nonempty text of at most 320 characters without controls")
  end.

(** ** What the validators accept *)

(** *** Byte groups *)
Definition chunk (x : string) : Prop := ∃ c r, x = String c r ∧ all_chars is_continuation r = true.
Definition leads (x : string) : Prop := ∃ c r, x = String c r ∧ is_continuation c = false.
Definition grouped (l : list string) : Prop := Forall chunk l ∧ Forall leads (tail l).

Lemma chars_grouped s : grouped (chars s).
Proof.
  induction s as [|c s [IH1 IH2]]; [by split; constructor|]. simpl.
  destruct (chars s) as [|x xs]; [split; [|constructor]; repeat constructor; by exists c, ""|].
  apply Forall_cons in IH1 as [(d & r & -> & Hr) Hxs]. destruct (is_continuation d) eqn:Hd.
  - split; [|done]. constructor; [|done]. exists c, (String d r). simpl. by rewrite Hd.
  - split; simpl; repeat constructor; try done; [by exists c, ""|by exists d, r|by exists d, r].
Qed.

Lemma chars_chunk c r t l :
  all_chars is_continuation r = true → chars t = l → Forall leads l →
  chars (String c (r +:+ t)) = String c r :: l.
Proof.
  intros Hr Ht Hl. revert c. induction r as [|d r IH]; intros c.
  - change ("" +:+ t) with t. simpl. rewrite Ht. destruct l as [|x l]; [done|].
    apply Forall_cons in Hl as [(d & r & -> & Hd) _]. by rewrite Hd.
  - simpl in Hr. apply andb_true_iff in Hr as [Hd Hr].
    change (String d r +:+ t) with (String d (r +:+ t)).
    change (chars (String c ?s)) with
      (match chars s with
       | (String d _ as x) :: xs =>
         if is_continuation d then String c x :: xs else String c "" :: x :: xs
       | xs => String c "" :: xs end).
    rewrite IH by done. by rewrite Hd.
Qed.

Lemma chars_concat l : grouped l → chars (concat_chars l) = l.
Proof.
  induction l as [|x l IH]; [done|]. intros [[(c & r & -> & Hr) Hl]%Forall_cons Ht]. simpl in *.
  change (String c r +:+ concat_chars l) with (String c (r +:+ concat_chars l)).
  apply chars_chunk; [done| |done]. apply IH. split; [done|]. by apply Forall_tail.
Qed.

Lemma grouped_app l1 l2 : grouped (l1 ++ l2) → grouped l1 ∧ grouped l2.
Proof.
  intros [[H1 H2]%Forall_app Ht]. destruct l1 as [|x l1]; [by repeat split|].
  simpl in Ht. apply Forall_app in Ht as [H3 H4]. repeat split; try done. by apply Forall_tail.
Qed.

(** *** [strip] *)
Lemma drop_spaces_suffix l : ∃ pre, l = pre ++ drop_spaces l.
Proof.
  induction l as [|x l [pre IH]]; [by exists []|]. simpl. destruct (is_space x).
  - exists (x :: pre). by rewrite <- app_comm_cons, <- IH.
  - by exists [].
Qed.
Lemma drop_spaces_idemp l : drop_spaces (drop_spaces l) = drop_spaces l.
Proof.
  induction l as [|x l IH]; [done|]. simpl. destruct (is_space x) eqn:E; [done|]. simpl. by rewrite E.
Qed.
Lemma drop_spaces_prefix l1 l2 : drop_spaces (l1 ++ l2) = l1 ++ l2 → drop_spaces l1 = l1.
Proof.
  destruct l1 as [|x l1]; [done|]. simpl. destruct (is_space x); [|done]. intros E.
  apply (f_equal length) in E. destruct (drop_spaces_suffix (l1 ++ l2)) as [pre Hp].
  apply (f_equal length) in Hp. rewrite (length_app pre) in Hp. cbn [length] in E. lia.
Qed.

Definition trimmed (l : list string) : list string :=
  reverse (drop_spaces (reverse (drop_spaces l))).
Lemma trimmed_infix l : ∃ pre post, l = pre ++ trimmed l ++ post.
Proof.
  destruct (drop_spaces_suffix l) as [pre Hp].
  destruct (drop_spaces_suffix (reverse (drop_spaces l))) as [post Hq].
  exists pre, (reverse post). unfold trimmed. rewrite <- reverse_app, <- Hq, reverse_involutive. done.
Qed.
Lemma trimmed_idemp l : trimmed (trimmed l) = trimmed l.
Proof.
  unfold trimmed at 1. assert (drop_spaces (trimmed l) = trimmed l) as ->.
  { destruct (drop_spaces_suffix (reverse (drop_spaces l))) as [post Hq].
    apply (f_equal reverse) in Hq. rewrite reverse_involutive, reverse_app in Hq.
    apply (drop_spaces_prefix _ (reverse post)). unfold trimmed. rewrite <- Hq. apply drop_spaces_idemp. }
  unfold trimmed. by rewrite reverse_involutive, drop_spaces_idemp.
Qed.

Lemma chars_strip s : chars (strip s) = trimmed (chars s).
Proof.
  unfold strip. fold (trimmed (chars s)). apply chars_concat.
  pose proof (chars_grouped s) as Hg. destruct (trimmed_infix (chars s)) as (pre & post & E).
  rewrite E in Hg. apply grouped_app in Hg as [_ [Hg _]%grouped_app]. done.
Qed.
Lemma strip_idemp s : strip (strip s) = strip s.
Proof.
  unfold strip at 1. rewrite chars_strip. fold (trimmed (trimmed (chars s))). by rewrite trimmed_idemp.
Qed.
Lemma py_len_strip s : py_len (strip s) ≤ py_len s.
Proof.
  unfold py_len. rewrite chars_strip. destruct (trimmed_infix (chars s)) as (pre & post & E).
  apply (f_equal length) in E. rewrite !length_app in E. lia.
Qed.

Lemma text_ok v label m t : text v label m = Ok t →
  t ≠ "" ∧ (Z.of_nat (py_len t) ≤ m)%Z ∧ text (JStr t) label m = Ok t.
Proof.
  unfold text at 1. destruct v as [| | |s| |]; try done. case_bool_decide as Hs; [done|].
  destruct (m <? Z.of_nat (py_len s))%Z eqn:Hm; [done|]. intros [= <-]. apply Z.ltb_ge in Hm.
  pose proof (py_len_strip s) as Hl. split_and!; [done|lia|].
  unfold text. rewrite strip_idemp, bool_decide_eq_false_2 by done.
  destruct (m <? Z.of_nat (py_len (strip s)))%Z eqn:E; [|done]. apply Z.ltb_lt in E. lia.
Qed.

(** *** Contracts *)
(** One element of a contract and the check it stands for. *)
Record parses_check (v : json) (c : check) : Prop := ParsesCheck {
  pc_fields : ∃ m, v = JObj m ∧ only_fields m ["id"; "kind"; "description"] = true ∧
    key (field m "id") "check id" = Ok (c_id c) ∧ kind_of (field m "kind") = Some (c_kind c) ∧
    text (field m "description") "check description" 2000 = Ok (c_description c) }.

Lemma contract_go_ok seen l cs :
  contract_go seen l = Ok cs ↔
    Forall2 parses_check l cs ∧ NoDup (c_id <$> cs) ∧ ∀ c, c ∈ cs → c_id c ∉ seen.
Proof.
  revert seen cs. induction l as [|v l IH]; intros seen cs.
  - simpl. split.
    + intros [= <-]. split_and!; [done|constructor|by intros ? ?%elem_of_nil].
    + intros (H & _ & _). by inversion H.
  - split.
    + destruct v as [| | | | |m]; try done. cbn [contract_go]. intros H. res_inv_all.
      destruct (kind_of (field m "kind")) as [k|] eqn:Hk; [|done]. res_inv_all. bsimpl.
      match goal with H : contract_go _ _ = Ok _ |- _ => apply IH in H as (HF & Hnd & Hs) end.
      split_and!.
      * constructor; [|done]. split. by exists m.
      * simpl. constructor; [|done]. intros (c & E & Hc)%list_elem_of_fmap.
        apply (Hs _ Hc). simpl in E. set_solver.
      * intros c [->|Hc]%elem_of_cons; [done|]. specialize (Hs c Hc). set_solver.
    + intros (HF & Hnd & Hs). inversion HF as [|? c ? cs' [(m & -> & Hf & Hkey & Hkind & Htext)] HF']; subst.
      apply NoDup_cons in Hnd as [Hc Hnd]. cbn [contract_go].
      rewrite Hf, Hkey. simpl. rewrite Hkind. rewrite bool_decide_eq_true_2 by (apply Hs; left). simpl.
      rewrite Htext. simpl. assert (contract_go ({[c_id c]} ∪ seen) l = Ok cs') as ->; [|by destruct c].
      apply IH. split_and!; [done|done|]. intros d Hd Hin. apply elem_of_union in Hin as [Hin|Hin].
      * apply elem_of_singleton in Hin. apply Hc, list_elem_of_fmap. by exists d.
      * apply (Hs d); [by right|done].
Qed.

Lemma parses_check_json v c : parses_check v c → parses_check (check_json c) c.
Proof.
  intros [(m & -> & _ & Hk & _ & Ht)]. split. eexists. split; [reflexivity|].
  split_and!.
  - apply forallb_forall. intros [k x] Hin. apply bool_decide_eq_true_2.
    apply list_elem_of_In, elem_of_map_to_list, elem_of_list_to_map_2 in Hin. simpl.
    set_solver.
  - unfold key in *. destruct (field m "id"); try done. destruct (KEY s) eqn:E; [|done].
    injection Hk as E1. change (key (JStr (c_id c)) "check id" = Ok (c_id c)). unfold key. by rewrite <- E1, E.
  - unfold field. simpl. by destruct (c_kind c).
  - apply text_ok in Ht as (_ & _ & Ht). exact Ht.
Qed.

#[export] Instance check_le_trans : Transitive check_le.
Proof. intros c d e. unfold check_le. apply transitivity. Qed.
#[export] Instance check_le_total : Total check_le.
Proof. intros c d. unfold check_le. apply total. apply _. Qed.
Lemma check_sorted_unique cs ds :
  NoDup (c_id <$> cs) → StronglySorted check_le cs → StronglySorted check_le ds → cs ≡ₚ ds → cs = ds.
Proof.
  intros Hnd H1 H2 Hp. apply (StronglySorted_unique_strong check_le); [|done..].
  intros x y Hx Hy Hxy Hyx. rewrite <- Hp in Hy.
  assert (c_id x = c_id y) as E by (by apply (anti_symm String.le)).
  apply list_elem_of_lookup in Hx as [i Hi]. apply list_elem_of_lookup in Hy as [j Hj].
  assert (i = j); [|congruence]. apply (NoDup_lookup _ i j (c_id x) Hnd); [by rewrite list_lookup_fmap, Hi|by rewrite list_lookup_fmap, Hj, E].
Qed.

Lemma Forall2_permuted {A B} (R : A → B → Prop) l1 l2 k1 :
  l1 ≡ₚ l2 → Forall2 R l1 k1 → ∃ k2, k1 ≡ₚ k2 ∧ Forall2 R l2 k2.
Proof.
  intros Hp. revert k1. induction Hp as [|x l l' _ IH|x y l|l l' l'' _ IH1 _ IH2]; intros k1 HF.
  - by exists k1.
  - inversion HF as [|? b ? k Hb Hk]; subst. destruct (IH k Hk) as (k2 & ? & ?).
    exists (b :: k2). split; [by constructor|by constructor].
  - inversion HF as [|? b ? k Hb Hk]; subst. inversion Hk as [|? c ? k' Hc Hk']; subst.
    exists (c :: b :: k'). split; [constructor|by repeat constructor].
  - destruct (IH1 k1 HF) as (k2 & ? & H2). destruct (IH2 k2 H2) as (k3 & ? & ?).
    exists k3. split; [by transitivity k2|done].
Qed.

(** A contract is a sorted list of distinct checks, the same for every order of its elements. *)
Lemma contract_ok v cs : contract v = Ok cs ↔ ∃ l ds, v = JArr l ∧ 1 ≤ length l ≤ 64 ∧
  Forall2 parses_check l ds ∧ NoDup (c_id <$> ds) ∧ cs ≡ₚ ds ∧ StronglySorted check_le cs.
Proof.
  split.
  - destruct v as [| | | |l|]; try done. cbn [contract]. intros H. res_inv_all. bsimpl.
    match goal with H : contract_go _ _ = Ok ?ds |- _ =>
      apply contract_go_ok in H as (HF & Hnd & _); exists l, ds end.
    repeat match goal with H : (_ <=? _) = true |- _ => apply Nat.leb_le in H end.
    split_and!; try done; [by rewrite merge_sort_Permutation|apply StronglySorted_merge_sort; apply _].
  - intros (l & ds & -> & Hl & HF & Hnd & Hp & Hs). cbn [contract].
    assert ((1 <=? length l) && (length l <=? 64) = true) as ->.
    { apply andb_true_iff. rewrite !Nat.leb_le. lia. }
    simpl. assert (contract_go ∅ l = Ok ds) as ->; [by apply contract_go_ok; set_solver|].
    simpl. f_equal. symmetry. apply check_sorted_unique; [by rewrite Hp|done| |].
    + apply StronglySorted_merge_sort; apply _.
    + by rewrite merge_sort_Permutation.
Qed.
