(* ===== verification/Dag.v ===== *)
(** * Dependency graphs

    [_validate_dag], the facet rules and [shipping_gaps] of
    [core/state_graph.py], on a graph given as the dict from a node key to its
    list of dependencies.  [validate_dag_correct] says that Kahn's loop accepts
    exactly the bounded, closed, acyclic graphs; [explore] is the worklist that
    [shipping_gaps] and the recursive query of [_invalidate] share, with the
    theorem that it computes reachability and never runs out of fuel.

    A dict is a [gmap], so where several rules are broken the order in which
    they are reported is the map's, not the order of insertion. *)
From S2P Require Import Prelude Json Text.

Notation graph := (gmap string (list string)).

(** [graph.get(node, ())] *)
Definition preds (g : graph) (x : string) : list string := default [] (g !! x).
(** [edge g x y]: [x] depends on [y]. *)
Definition edge (g : graph) (x y : string) : Prop := y ∈ preds g x.

Definition closed (g : graph) : Prop := ∀ x y, edge g x y → is_Some (g !! y).
Definition acyclic (g : graph) : Prop := ∀ x, ¬ tc (edge g) x x.

(** ** Kahn's traversal *)
Fixpoint link_deps (g : graph) (node : string) (deps : list string) (children : graph)
    : res graph :=
  match deps with
  | [] => Ok children
  | dep :: deps =>
    ensure (bool_decide (is_Some (g !! dep)))
      (StateGraphError "unknown dependency in this project");;
    link_deps g node deps (alter (λ l, l ++ [node]) dep children)
  end.

Fixpoint link_nodes (g : graph) (items : list (string * list string))
    (children : graph) (degree : gmap string Z) : res (graph * gmap string Z) :=
  match items with
  | [] => Ok (children, degree)
  | (node, deps) :: items =>
    ensure (bool_decide (node ∉ deps)) (StateGraphError "a node cannot depend on itself");;
    children ← link_deps g node deps children;
    link_nodes g items children (<[node := Z.of_nat (length deps)]> degree)
  end.

Fixpoint relax (cs : list string) (degree : gmap string Z) (queue : list string)
    : gmap string Z * list string :=
  match cs with
  | [] => (degree, queue)
  | child :: cs =>
    let n := (degree !!! child - 1)%Z in
    relax cs (<[child := n]> degree) (if (n =? 0)%Z then queue ++ [child] else queue)
  end.

Fixpoint kahn (fuel : nat) (children : graph) (queue : list string)
    (degree : gmap string Z) (visited : nat) : option nat :=
  match queue with
  | [] => Some visited
  | node :: queue =>
    match fuel with
    | 0 => None
    | S fuel =>
      let '(degree, queue) := relax (preds children node) degree queue in
      kahn fuel children queue degree (S visited)
    end
  end.

Definition ready_queue (degree : gmap string Z) : list string :=
  fst <$> List.filter (λ p, (p.2 =? 0)%Z) (map_to_list degree).

Definition validate_dag (g : graph) : res unit :=
  ensure (size g <=? MAX_NODES) (StateGraphError "a project supports a bounded number of nodes");;
  '(children, degree) ← link_nodes g (map_to_list g) ((λ _, []) <$> g) ∅;
  ensure (bool_decide (kahn (size g) children (ready_queue degree) degree 0 = Some (size g)))
    (StateGraphError "dependency cycle; use a workflow loop, not a cyclic state dependency").

(** *** Linking *)
#[local] Notation occ := (count_occ String.string_dec).

Lemma occ_zero x l : occ l x = 0 ↔ x ∉ l.
Proof. rewrite list_elem_of_In. symmetry. apply count_occ_not_In. Qed.

Lemma link_deps_ok g node deps children :
  is_ok (link_deps g node deps children) = true ↔ ∀ d, d ∈ deps → is_Some (g !! d).
Proof.
  revert children. induction deps as [|d deps IH]; intros children; simpl.
  - split; [|done]. intros _ d Hd. by apply not_elem_of_nil in Hd.
  - case_bool_decide as Hd; simpl.
    + rewrite IH. split; intros H x; [|by intros; apply H; right].
      intros Hx. apply elem_of_cons in Hx as [->|]; auto.
    + split; [done|]. intros H. destruct Hd. apply H. left.
Qed.

Lemma link_deps_occ g node deps children children' p c :
  link_deps g node deps children = Ok children' → dom children = dom g →
  dom children' = dom g ∧
  occ (preds children' p) c =
    occ (preds children p) c + (if decide (c = node) then occ deps p else 0).
Proof.
  revert children. induction deps as [|d deps IH]; intros children H Hdom; simpl in H.
  - simplify_eq. split; [done|]. simpl. by case_decide; lia.
  - res_inv_all. bsimpl. apply IH in H as [? ->]; [|by rewrite dom_alter_L].
    split; [done|]. unfold preds. simpl. destruct (decide (d = p)) as [->|Hne].
    + rewrite lookup_alter_eq. rewrite <- Hdom in *.
      destruct (children !! p) as [l|] eqn:Hl.
      * simpl. rewrite count_occ_app. simpl.
        destruct (String.string_dec p p); [|done].
        destruct (String.string_dec node c); case_decide; subst; try done; lia.
      * match goal with H : is_Some (g !! p) |- _ => apply elem_of_dom in H end.
        rewrite <- Hdom in *. apply not_elem_of_dom in Hl. done.
    + rewrite lookup_alter_ne by done. destruct (String.string_dec d p); [done|]. lia.
Qed.

Lemma link_nodes_ok g items children degree :
  is_ok (link_nodes g items children degree) = true ↔
    ∀ n deps, (n, deps) ∈ items → n ∉ deps ∧ ∀ d, d ∈ deps → is_Some (g !! d).
Proof.
  revert children degree. induction items as [|[n deps] items IH]; intros ch deg; simpl.
  - split; [|done]. intros _ ? ? Hin. by apply not_elem_of_nil in Hin.
  - pose proof (link_deps_ok g n deps ch) as Hl.
    case_bool_decide as Hn; simpl.
    + destruct (link_deps g n deps ch) as [ch'|e]; simpl in *.
      * rewrite IH. split; intros H m ds Hin; [|by apply H; right].
        apply elem_of_cons in Hin as [[= -> ->]|]; [|auto]. split; [done|]. by apply Hl.
      * split; [done|]. intros H. apply Hl. eapply H. left.
    + split; [done|]. intros H. exfalso. by eapply (proj1 (H n deps ltac:(left))).
Qed.

Lemma link_nodes_degree g items children degree children' degree' n :
  link_nodes g items children degree = Ok (children', degree') → NoDup items.*1 →
  degree' !! n =
    match list_to_map (M := gmap string (list string)) items !! n with
    | Some deps => Some (Z.of_nat (length deps))
    | None => degree !! n
    end.
Proof.
  revert children degree. induction items as [|[m deps] items IH]; intros ch deg H Hnd;
    simpl in *; [by simplify_eq|].
  res_inv_all. apply NoDup_cons in Hnd as [Hm Hnd].
  erewrite IH by eauto. destruct (decide (n = m)) as [->|Hne].
  - rewrite lookup_insert_eq. rewrite not_elem_of_list_to_map_1 by done.
    by rewrite lookup_insert_eq.
  - by rewrite !lookup_insert_ne by done.
Qed.

Lemma link_nodes_occ g items children degree children' degree' p c :
  link_nodes g items children degree = Ok (children', degree') → NoDup items.*1 →
  dom children = dom g →
  dom children' = dom g ∧
  occ (preds children' p) c =
    occ (preds children p) c +
    (if list_to_map (M := gmap string (list string)) items !! c is Some deps
     then occ deps p else 0).
Proof.
  revert children degree. induction items as [|[m deps] items IH]; intros ch deg H Hnd Hdom;
    simpl in *; [simplify_eq; split; [done|by rewrite lookup_empty, Nat.add_0_r]|].
  res_inv_all. apply NoDup_cons in Hnd as [Hm Hnd].
  match goal with HL : link_deps _ _ _ _ = Ok _ |- _ =>
    apply (link_deps_occ _ _ _ _ _ p c) in HL as [Hdom' Hocc]; [|done] end.
  eapply IH in H as [Hd ->]; [|done|done]. split; [done|]. rewrite Hocc.
  destruct (decide (c = m)) as [->|Hne].
  - rewrite lookup_insert_eq, not_elem_of_list_to_map_1 by done. lia.
  - rewrite lookup_insert_ne by done. lia.
Qed.

(** *** The invariant of the loop *)
Definition pending (V deps : list string) : nat :=
  length (List.filter (λ d, bool_decide (d ∉ V)) deps).

Lemma pending_nil deps : pending [] deps = length deps.
Proof.
  unfold pending. induction deps as [|d deps IH]; [done|].
  cbn [List.filter]. rewrite bool_decide_eq_true_2 by apply not_elem_of_nil.
  simpl. by f_equal.
Qed.
Lemma pending_zero V deps : pending V deps = 0 ↔ ∀ d, d ∈ deps → d ∈ V.
Proof.
  unfold pending. induction deps as [|d deps IH]; simpl.
  - split; [|done]. intros _ d Hd. by apply not_elem_of_nil in Hd.
  - case_bool_decide as Hd; simpl.
    + split; [done|]. intros H. destruct Hd. apply H. left.
    + rewrite IH. split; intros H x.
      * intros Hx. apply elem_of_cons in Hx as [->|]; auto.
      * intros. apply H. by right.
Qed.
Lemma pending_cons V x deps :
  x ∉ V → pending V deps = pending (x :: V) deps + occ deps x.
Proof.
  intros Hx. unfold pending. induction deps as [|d deps IH]; [done|]. simpl.
  destruct (String.string_dec d x) as [->|Hne].
  - rewrite (bool_decide_eq_true_2 (x ∉ V)) by done.
    rewrite (bool_decide_eq_false_2 (x ∉ x :: V)) by (intros H; apply H; left).
    simpl. lia.
  - assert (bool_decide (d ∉ x :: V) = bool_decide (d ∉ V)) as ->.
    { apply bool_decide_ext. rewrite not_elem_of_cons. naive_solver. }
    case_bool_decide; simpl; lia.
Qed.

Lemma relax_spec (g : graph) (pend : string → nat) cs degree queue :
  (∀ n, is_Some (g !! n) → degree !! n = Some (Z.of_nat (pend n + occ cs n))) →
  (∀ n, n ∈ cs → is_Some (g !! n)) →
  ∃ degree' added, relax cs degree queue = (degree', queue ++ added) ∧
    (∀ n, is_Some (g !! n) → degree' !! n = Some (Z.of_nat (pend n))) ∧
    NoDup added ∧ ∀ n, n ∈ added ↔ n ∈ cs ∧ pend n = 0.
Proof.
  revert degree queue. induction cs as [|c cs IH]; intros deg Q Hdeg Hcs.
  - exists deg, []. rewrite app_nil_r. split_and!; [done| |constructor|].
    + intros n Hn. rewrite (Hdeg n Hn). simpl. do 2 f_equal. lia.
    + intros n. rewrite !elem_of_nil. naive_solver.
  - cbn [relax]. assert (is_Some (g !! c)) as Hc by (apply Hcs; left).
    assert (deg !!! c - 1 = Z.of_nat (pend c + occ cs c))%Z as ->.
    { rewrite (lookup_total_correct _ _ _ (Hdeg c Hc)). simpl.
      destruct (String.string_dec c c); [|done]. lia. }
    edestruct (IH (<[c := Z.of_nat (pend c + occ cs c)]> deg)
      (if (Z.of_nat (pend c + occ cs c) =? 0)%Z then Q ++ [c] else Q))
      as (deg' & added & E & H1 & Hnd & H2).
    { intros n Hn. destruct (decide (n = c)) as [->|Hne]; [by rewrite lookup_insert_eq|].
      rewrite lookup_insert_ne by done. rewrite (Hdeg n Hn). simpl.
      destruct (String.string_dec c n); [congruence|done]. }
    { intros n Hn. apply Hcs. by right. }
    rewrite E. destruct (Z.of_nat (pend c + occ cs c) =? 0)%Z eqn:E0.
    + apply Z.eqb_eq in E0. assert (pend c = 0 ∧ occ cs c = 0) as [Hp Hocc] by lia.
      apply occ_zero in Hocc. exists deg', (c :: added).
      rewrite <- (assoc_L (++)). split_and!; [done|done| |].
      * constructor; [|done]. rewrite H2. naive_solver.
      * intros n. rewrite !elem_of_cons, H2. naive_solver.
    + apply Z.eqb_neq in E0. exists deg', added. split_and!; [done|done|done|].
      intros n. rewrite H2, elem_of_cons. split; [naive_solver|].
      intros [[->|] Hp]; [|done]. split; [|done].
      destruct (decide (c ∈ cs)); [done|]. exfalso. apply E0.
      assert (occ cs c = 0) by by apply occ_zero. lia.
Qed.

(** Newest first, every visited node comes after its dependencies. *)
Fixpoint topo (g : graph) (V : list string) : Prop :=
  match V with
  | [] => True
  | x :: V => (∀ d, edge g x d → d ∈ V) ∧ topo g V
  end.

Record kahn_inv (g : graph) (V Q : list string) (degree : gmap string Z) : Prop := {
  ki_nodup : NoDup (V ++ Q);
  ki_front : ∀ n, n ∈ V ++ Q ↔ ∃ deps, g !! n = Some deps ∧ pending V deps = 0;
  ki_degree : ∀ n deps, g !! n = Some deps → degree !! n = Some (Z.of_nat (pending V deps));
  ki_topo : topo g V;
}.

Section kahn_correct.
Context (g children : graph).
Context (Hocc : ∀ p n deps, g !! n = Some deps → occ (preds children p) n = occ deps p).

Context (Hsub : ∀ p n, n ∈ preds children p → is_Some (g !! n)).

Lemma kahn_inv_size V Q degree : kahn_inv g V Q degree → length (V ++ Q) ≤ size g.
Proof.
  intros [Hnd Hf _ _]. rewrite <- size_dom.
  assert (list_to_set (C := gset string) (V ++ Q) ⊆ dom g) as Hs.
  { intros n Hn. apply elem_of_list_to_set, Hf in Hn as (deps & Hg & _).
    by apply elem_of_dom_2 in Hg. }
  apply subseteq_size in Hs. by rewrite size_list_to_set in Hs.
Qed.

Lemma kahn_inv_step V x Q degree :
  kahn_inv g V (x :: Q) degree →
  ∃ degree' added, relax (preds children x) degree Q = (degree', Q ++ added) ∧
    kahn_inv g (x :: V) (Q ++ added) degree'.
Proof.
  intros [Hnd Hf Hd Ht].
  assert (x ∉ V) as HxV.
  { intros HxV. apply NoDup_app in Hnd as (_ & H & _). eapply H; [done|left]. }
  assert (∀ n deps, g !! n = Some deps →
    pending V deps = pending (x :: V) deps + occ (preds children x) n) as Hpend.
  { intros n deps Hn. rewrite (Hocc _ _ _ Hn). by apply pending_cons. }
  destruct (relax_spec g (λ n, pending (x :: V) (preds g n)) (preds children x) degree Q)
    as (degree' & added & E & H1 & H2 & H3).
  { intros n [deps Hn]. rewrite (Hd _ _ Hn), (Hpend _ _ Hn). unfold preds at 2. by rewrite Hn. }
  { intros n Hn. by eapply Hsub. }
  assert (∀ n, n ∈ added ↔ ∃ deps, g !! n = Some deps ∧ pending V deps ≠ 0 ∧
    pending (x :: V) deps = 0) as Hadded.
  { intros n. rewrite H3. split.
    - intros [Hin Hp]. destruct (Hsub _ _ Hin) as [deps Hn]. exists deps.
      unfold preds in Hp at 1. rewrite Hn in Hp. simpl in Hp. split_and!; [done| |done].
      rewrite (Hpend _ _ Hn), Hp. simpl.
      intros H0. by apply occ_zero in H0.
    - intros (deps & Hn & Hp & Hp'). unfold preds at 2. rewrite Hn. split; [|done].
      rewrite (Hpend _ _ Hn), Hp' in Hp. simpl in Hp.
      destruct (decide (n ∈ preds children x)) as [|Hno]; [done|].
      by apply occ_zero in Hno. }
  exists degree', added. split; [done|]. split.
  - rewrite (assoc_L (++)). apply NoDup_app. split_and!; [|intros n Hn Hin|done].
    + simpl. rewrite <- Permutation_middle in Hnd. done.
    + apply Hadded in Hin as (deps & Hg & Hp & _).
      assert (n ∈ V ++ x :: Q) as Hin by (rewrite <- Permutation_middle; done).
      apply Hf in Hin as (deps' & Hg' & Hp'). by simplify_eq.
  - intros n.
    assert (n ∈ (x :: V) ++ Q ++ added ↔ n ∈ V ++ x :: Q ∨ n ∈ added) as ->.
    { rewrite !elem_of_app, !elem_of_cons. tauto. }
    rewrite Hf, Hadded. split.
    + intros [(deps & ? & ?)|(deps & ? & ? & ?)]; exists deps; split; try done.
      rewrite (Hpend n deps) in * by done. lia.
    + intros (deps & Hg & Hp). destruct (decide (pending V deps = 0)); [left|right]; eauto.
  - intros n deps Hn. rewrite H1 by (by eexists). unfold preds. by rewrite Hn.
  - simpl. split; [|done]. assert (x ∈ V ++ x :: Q) as Hx by (apply elem_of_app; right; left).
    apply Hf in Hx as (deps & Hg & Hp). intros d. unfold edge, preds. rewrite Hg.
    by apply pending_zero.
Qed.

(** The loop stops within one iteration per node left. *)
Lemma kahn_runs fuel V Q degree :
  kahn_inv g V Q degree → size g ≤ fuel + length V →
  ∃ V' degree', kahn fuel children Q degree (length V) = Some (length V') ∧
    kahn_inv g V' [] degree'.
Proof.
  revert V Q degree. induction fuel as [|fuel IH]; intros V Q degree Hinv Hfuel.
  - destruct Q as [|x Q]; [by eauto|]. exfalso.
    apply kahn_inv_size in Hinv. rewrite length_app in Hinv. simpl in Hinv. lia.
  - destruct Q as [|x Q]; [by eauto|]. simpl.
    destruct (kahn_inv_step _ _ _ _ Hinv) as (degree' & added & E & Hinv').
    rewrite E. apply (IH (x :: V)); [done|]. simpl. lia.
Qed.
End kahn_correct.

(** *** Acyclicity *)
Lemma topo_edge g V x y : topo g V → NoDup V → x ∈ V → edge g x y → y ∈ V.
Proof.
  induction V as [|z V IH]; simpl; [by intros _ _ ?%not_elem_of_nil|].
  intros [Hz Ht] Hnd Hx He. apply NoDup_cons in Hnd as [? ?].
  apply elem_of_cons in Hx as [->|]; right; eauto.
Qed.

Lemma topo_tc g V x y : topo g V → NoDup V → x ∈ V → tc (edge g) x y →
  ∃ V1 V2, V = V1 ++ x :: V2 ∧ y ∈ V2.
Proof.
  induction V as [|z V IH]; simpl; [by intros _ _ ?%not_elem_of_nil|].
  intros [Hz Ht] Hnd Hx He. apply NoDup_cons in Hnd as [? ?].
  destruct (decide (x = z)) as [->|Hne].
  - exists [], V. split; [done|].
    assert (∀ w v, w ∈ V → tc (edge g) w v → v ∈ V) as Htc.
    { intros w v Hw Hwv. induction Hwv; eauto using topo_edge. }
    destruct He; eauto.
  - apply elem_of_cons in Hx as [->|Hx]; [done|].
    destruct IH as (V1 & V2 & -> & ?); auto. by exists (z :: V1), V2.
Qed.

Lemma topo_acyclic g V :
  topo g V → NoDup V → (∀ x, is_Some (g !! x) → x ∈ V) → acyclic g.
Proof.
  intros Ht Hnd Hall x Hx.
  assert (is_Some (g !! x)) as Hin.
  { assert (∃ y, edge g x y) as [y Hy] by (inversion Hx; subst; eauto).
    unfold edge, preds in Hy. destruct (g !! x); [done|]. by apply not_elem_of_nil in Hy. }
  destruct (topo_tc g V x x) as (V1 & V2 & -> & Hx2); auto.
  apply NoDup_app in Hnd as (_ & _ & Hnd). by apply NoDup_cons in Hnd as [? _].
Qed.

Lemma acyclic_wf g : closed g → acyclic g → ∀ x, sn (edge g) x.
Proof.
  intros Hc Ha x. apply tc_finite_sn.
  - exact Ha.
  - exists (elements (dom g)). intros y Hy. apply elem_of_elements, elem_of_dom.
    induction Hy; eauto.
Qed.

Lemma NoDup_fst_filter {A B} (p : A * B → bool) l :
  NoDup l.*1 → NoDup (List.filter p l).*1.
Proof.
  induction l as [|x l IH]; [done|]. intros [Hx Hl]%NoDup_cons. simpl.
  destruct (p x); [|auto]. apply NoDup_cons. split; [|auto].
  intros (y & E & Hy)%list_elem_of_fmap. apply Hx. rewrite E.
  apply list_elem_of_In, filter_In in Hy as [Hy _].
  apply list_elem_of_fmap. exists y. by rewrite list_elem_of_In.
Qed.

(** The tables the loop starts from. *)
Lemma linked g children degree :
  link_nodes g (map_to_list g) ((λ _, []) <$> g) ∅ = Ok (children, degree) →
  (∀ p n deps, g !! n = Some deps → occ (preds children p) n = occ deps p) ∧
  (∀ p n, n ∈ preds children p → is_Some (g !! n)) ∧
  (∀ n, degree !! n = (λ deps, Z.of_nat (length deps)) <$> g !! n).
Proof.
  intros E. assert (NoDup (map_to_list g).*1) as Hnd by apply NoDup_fst_map_to_list.
  pose proof (λ n, link_nodes_degree _ _ _ _ _ _ n E Hnd) as Hdeg.
  pose proof (λ p c, link_nodes_occ _ _ _ _ _ _ p c E Hnd (dom_fmap_L _ _)) as Hocc.
  rewrite list_to_map_to_list in Hdeg. rewrite list_to_map_to_list in Hocc.
  assert (∀ p, preds ((λ _, []) <$> g) p = []) as Hempty.
  { intros p. unfold preds. rewrite lookup_fmap. by destruct (g !! p). }
  split_and!.
  - intros p n deps Hn. destruct (Hocc p n) as [_ ->]. by rewrite Hempty, Hn.
  - intros p n Hn. destruct (Hocc p n) as [_ H]. rewrite Hempty in H.
    destruct (g !! n) as [deps|] eqn:Hg; [by eexists|]. simpl in H.
    by apply occ_zero in H.
  - intros n. rewrite Hdeg. by destruct (g !! n).
Qed.

Lemma kahn_start g degree :
  (∀ n, degree !! n = (λ deps, Z.of_nat (length deps)) <$> g !! n) →
  kahn_inv g [] (ready_queue degree) degree.
Proof.
  intros Hdeg. unfold ready_queue. split.
  - apply NoDup_fst_filter, NoDup_fst_map_to_list.
  - intros n. simpl. rewrite list_elem_of_fmap. split.
    + intros ([m z] & -> & Hin). rewrite list_elem_of_In, filter_In in Hin. simpl in *.
      rewrite <- list_elem_of_In in Hin. destruct Hin as [Hin Hz].
      apply Z.eqb_eq in Hz. subst. apply elem_of_map_to_list in Hin.
      rewrite Hdeg in Hin. destruct (g !! m) as [deps|] eqn:Hg; [|done].
      exists deps. split; [done|]. rewrite pending_nil. injection Hin. lia.
    + intros (deps & Hg & Hp). exists (n, 0%Z). split; [done|].
      rewrite list_elem_of_In, filter_In. split; [|done]. apply list_elem_of_In.
      apply elem_of_map_to_list. rewrite pending_nil in Hp. rewrite Hdeg, Hg. simpl. by rewrite Hp.
  - intros n deps Hn. by rewrite Hdeg, Hn, pending_nil.
  - done.
Qed.

(** When the queue is empty, every node was visited just when there is no cycle. *)
Lemma kahn_end g V degree :
  closed g → kahn_inv g V [] degree → length V = size g ↔ acyclic g.
Proof.
  intros Hc [Hnd Hf _ Ht]. rewrite app_nil_r in *.
  assert (list_to_set (C := gset string) V ⊆ dom g) as Hsub.
  { intros n Hn. apply elem_of_list_to_set, Hf in Hn as (deps & Hg & _).
    by apply elem_of_dom_2 in Hg. }
  rewrite <- size_dom, <- (size_list_to_set (C := gset string)) by done. split.
  - intros Hsz. apply (topo_acyclic g V); [done|done|]. intros x Hx%elem_of_dom.
    rewrite <- (set_subseteq_size_eq _ _ Hsub) in Hx by lia. by apply elem_of_list_to_set in Hx.
  - intros Ha. f_equal. apply (anti_symm (⊆)); [done|]. intros x Hx.
    apply elem_of_list_to_set. induction (acyclic_wf g Hc Ha x) as [x _ IH].
    apply elem_of_dom in Hx as [deps Hg]. apply Hf. exists deps. split; [done|].
    apply pending_zero. intros d Hd. assert (edge g x d) as He by (unfold edge, preds; by rewrite Hg).
    apply IH; [done|]. apply elem_of_dom, (Hc _ _ He).
Qed.

Lemma link_nodes_total g :
  is_ok (link_nodes g (map_to_list g) ((λ _, []) <$> g) ∅) = true ↔
    closed g ∧ ∀ x, ¬ edge g x x.
Proof.
  rewrite link_nodes_ok. unfold closed, edge, preds. split.
  - intros H. split; [intros x y|intros x]; destruct (g !! x) as [deps|] eqn:Hg; simpl;
      try (by intros ?%not_elem_of_nil); apply elem_of_map_to_list in Hg;
      destruct (H x deps Hg); auto.
  - intros [Hc Hs] n deps Hn. apply elem_of_map_to_list in Hn.
    specialize (Hc n). specialize (Hs n). rewrite Hn in *. auto.
Qed.

(** [_validate_dag] accepts exactly the bounded, closed, acyclic graphs. *)
Lemma validate_dag_ok g :
  validate_dag g = Ok tt ↔ size g ≤ MAX_NODES ∧ closed g ∧ acyclic g.
Proof.
  unfold validate_dag. pose proof (link_nodes_total g) as Hok.
  destruct (link_nodes g (map_to_list g) ((λ _, []) <$> g) ∅) as [[children degree]|e] eqn:E.
  2: { split; [intros; by res_inv_all|]. intros (_ & Hc & Ha). exfalso.
    destruct Hok as [_ Hok]. discriminate Hok. split; [done|].
    intros x Hx. by apply (Ha x), tc_once. }
  destruct (proj1 Hok eq_refl) as [Hc _]. destruct (linked _ _ _ E) as (H1 & H2 & H3).
  destruct (kahn_runs g children H1 H2 (size g) [] (ready_queue degree) degree)
    as (V & degree' & HK & Hinv); [by apply kahn_start|simpl; lia|].
  simpl in HK. cbn [mbind res_bind]. rewrite HK.
  rewrite <- (kahn_end g V degree' Hc Hinv).
  destruct (size g <=? MAX_NODES) eqn:Hsz; simpl.
  - apply Nat.leb_le in Hsz. rewrite ensure_ok, bool_decide_eq_true. naive_solver.
  - apply Nat.leb_gt in Hsz. split; [done|]. intros [? _]. lia.
Qed.

(** ** Reachability by a worklist

    [explore] is the loop [while stack: current = stack.pop() ...]; the stack
    is kept top first.  The recursive query of [_invalidate], a union of the
    rows found so far with the rows one step away, runs the same worklist. *)
Lemma sum_list_perm (l1 l2 : list nat) : l1 ≡ₚ l2 → sum_list l1 = sum_list l2.
Proof. induction 1; simpl; lia. Qed.

Section explore.
Context (succ : string → list string).

Fixpoint explore (fuel : nat) (seen : gset string) (stack : list string)
    : option (gset string) :=
  match stack with
  | [] => Some seen
  | current :: stack =>
    match fuel with
    | 0 => None
    | S fuel =>
      if decide (current ∈ seen) then explore fuel seen stack
      else explore fuel ({[current]} ∪ seen) (reverse (succ current) ++ stack)
    end
  end.

(** Fuel: every entry is popped once, every node expands once. *)
Definition work (univ seen : gset string) (stack : list string) : nat :=
  length stack + sum_list ((λ x, length (succ x)) <$> elements (univ ∖ seen)).

Definition closure (univ : gset string) (starts : list string) : gset string :=
  default ∅ (explore (work univ ∅ starts) ∅ starts).

Definition step (x y : string) : Prop := y ∈ succ x.

Lemma work_expand univ seen x stack :
  x ∉ seen → (succ x ≠ [] → x ∈ univ) →
  work univ ({[x]} ∪ seen) (reverse (succ x) ++ stack) < work univ seen (x :: stack).
Proof.
  intros Hx Hu. unfold work. rewrite length_app, length_reverse. simpl.
  destruct (decide (x ∈ univ)) as [Hin|Hout].
  - assert (univ ∖ seen = {[x]} ∪ (univ ∖ ({[x]} ∪ seen))) as E.
    { apply set_eq. intros y. destruct (decide (y = x)); set_solver. }
    rewrite (sum_list_perm ((λ x0, length (succ x0)) <$> elements (univ ∖ seen))
      (length (succ x) :: ((λ x0, length (succ x0)) <$> elements (univ ∖ ({[x]} ∪ seen))))).
    + simpl. lia.
    + rewrite E at 1. rewrite elements_union_singleton by set_solver. done.
  - destruct (decide (succ x = [])) as [->|]; [|by destruct Hout; auto].
    simpl. assert (univ ∖ ({[x]} ∪ seen) = univ ∖ seen) as -> by set_solver. lia.
Qed.

Lemma work_skip univ seen x stack : work univ seen stack < work univ seen (x :: stack).
Proof. unfold work. simpl. lia. Qed.

Lemma explore_spec univ (R : string → Prop) fuel seen stack :
  (∀ x, succ x ≠ [] → x ∈ univ) →
  work univ seen stack ≤ fuel →
  (∀ x y, x ∈ seen → step x y → y ∈ seen ∨ y ∈ stack) →
  (∀ x, R x → ∀ y, step x y → R y) →
  (∀ x, x ∈ seen ∨ x ∈ stack → R x) →
  ∃ out, explore fuel seen stack = Some out ∧
    (∀ x, x ∈ seen ∨ x ∈ stack → x ∈ out) ∧
    (∀ x y, x ∈ out → step x y → y ∈ out) ∧ (∀ x, x ∈ out → R x).
Proof.
  intros Hu. revert seen stack. induction fuel as [|fuel IH]; intros seen stack Hf Hs HR Hin.
  - destruct stack; [|unfold work in Hf; simpl in Hf; lia].
    exists seen. split_and!; [done| | |naive_solver].
    + intros x [|?%elem_of_nil]; done.
    + intros x y Hx Hxy. by destruct (Hs x y Hx Hxy) as [|?%elem_of_nil].
  - destruct stack as [|x stack].
    { exists seen. split_and!; [done| | |naive_solver].
      + intros x [|?%elem_of_nil]; done.
      + intros x y Hx Hxy. by destruct (Hs x y Hx Hxy) as [|?%elem_of_nil]. }
    simpl. destruct (decide (x ∈ seen)) as [Hx|Hx].
    + destruct (IH seen stack) as (out & E & H1 & H2 & H3).
      * pose proof (work_skip univ seen x stack). lia.
      * intros y z Hy Hz. destruct (Hs y z Hy Hz) as [|Hz']; [by left|].
        apply elem_of_cons in Hz' as [->|]; auto.
      * done.
      * intros y [|]; apply Hin; [by left|right; by right].
      * exists out. split_and!; try done. intros y [|Hy]; [auto|].
        apply elem_of_cons in Hy as [->|]; auto.
    + destruct (IH ({[x]} ∪ seen) (reverse (succ x) ++ stack)) as (out & E & H1 & H2 & H3).
      * pose proof (work_expand univ seen x stack Hx (Hu x)). lia.
      * intros y z [->%elem_of_singleton|Hy]%elem_of_union Hz.
        -- right. apply elem_of_app. left. by apply elem_of_reverse.
        -- destruct (Hs y z Hy Hz) as [|[->|]%elem_of_cons]; [left; set_solver|left; set_solver|].
           right. apply elem_of_app. by right.
      * done.
      * assert (R x) as HRx by (apply Hin; right; left).
        intros y. rewrite elem_of_union, elem_of_singleton, elem_of_app, elem_of_reverse.
        intros [[->|Hy]|[Hy|Hy]];
          [done|by apply Hin; left|by apply (HR x HRx)|apply Hin; right; by right].
      * exists out. split_and!; try done. intros y [Hy|[->|Hy]%elem_of_cons]; apply H1;
          [left; set_solver|left; set_solver|right; apply elem_of_app; by right].
Qed.

Lemma elem_of_closure univ starts x :
  (∀ x, succ x ≠ [] → x ∈ univ) →
  x ∈ closure univ starts ↔ ∃ s, s ∈ starts ∧ rtc step s x.
Proof.
  intros Hu. unfold closure.
  destruct (explore_spec univ (λ x, ∃ s, s ∈ starts ∧ rtc step s x)
    (work univ ∅ starts) ∅ starts) as (out & -> & H1 & H2 & H3); [done|done|set_solver| | |].
  - intros y (s & Hs & Hy) z Hz. exists s. split; [done|]. by eapply rtc_r.
  - intros y [?%not_elem_of_empty|Hy]; [done|]. by exists y.
  - simpl. split; [apply H3|]. intros (s & Hs & Hr).
    assert (s ∈ out) as Hso by (apply H1; by right). clear Hs.
    induction Hr; eauto.
Qed.
End explore.

(** ** Facets *)
Notation facets := (gmap string (option facet)).

(** [s.endswith(suffix)] and [s[:-n]] *)
Definition ends_with (suffix s : string) : bool :=
  (String.length suffix <=? String.length s) &&
  bool_decide (String.substring (String.length s - String.length suffix)
                 (String.length suffix) s = suffix).
Definition drop_last (n : nat) (s : string) : string :=
  String.substring 0 (String.length s - n) s.

Definition FACET_SUFFIXES : list (string * facet) :=
  [(".contract", FContract); (".test", FTest)].

(** One message of [facet_violations], with the values it interpolates. *)
Inductive violation : Type :=
  | SuffixFacet (node suffix : string) (expected own : facet)
  | Unfaceted (node : string) (own : facet) (dep : string)
  | NotBuildable (node : string) (own : facet) (dep : string) (target : facet)
  | MissingSibling (node sibling : string).

Definition facet_at (fs : facets) (node : string) : option facet := mjoin (fs !! node).

Definition suffix_violations (node : string) (own : facet) : list violation :=
  flat_map (λ p, if ends_with p.1 node && bool_decide (own ≠ p.2)
                 then [SuffixFacet node p.1 p.2 own] else []) FACET_SUFFIXES.

Definition stem_of (node : string) : string :=
  if ends_with ".test" node then drop_last 5 node else node.

Definition own_part (node dep : string) : bool :=
  bool_decide (dep = node +:+ ".test") || bool_decide (dep = node +:+ ".contract")
  || ends_with ".test" node && bool_decide (dep = stem_of node +:+ ".contract").

Definition edge_violations (fs : facets) (node : string) (own : facet) (dep : string)
    : list violation :=
  match facet_at fs dep with
  | None => [Unfaceted node own dep]
  | Some target =>
    if bool_decide (own = FIntegration) || BUILDABLE target then []
    else if own_part node dep then []
    else [NotBuildable node own dep target]
  end.

Definition siblings (node : string) (own : facet) : list string :=
  match own with
  | FContent => [stem_of node +:+ ".contract"; node +:+ ".test"]
  | FTest => [stem_of node +:+ ".contract"]
  | _ => []
  end.

Definition sibling_violations (fs : facets) (deps : list string) (node : string) (own : facet)
    : list violation :=
  flat_map (λ sibling,
    if bool_decide (is_Some (fs !! sibling)) && bool_decide (sibling ≠ node)
         && bool_decide (sibling ∉ deps)
    then [MissingSibling node sibling] else []) (siblings node own).

Definition node_violations (fs : facets) (g : graph) (p : string * option facet)
    : list violation :=
  match p with
  | (_, None) => []
  | (node, Some own) =>
    suffix_violations node own
    ++ flat_map (edge_violations fs node own) (sorted_set (list_to_set (preds g node)))
    ++ sibling_violations fs (preds g node) node own
  end.

Definition facet_violations (fs : facets) (g : graph) : list violation :=
  flat_map (node_violations fs g) (map_to_list fs).

Definition check_facets (fs : facets) (g : graph) : res unit :=
  match facet_violations fs g with
  | [] => Ok tt
  | _ => Err (StateGraphError "facet rules")
  end.

(** *** The rules *)
Record facet_rules (fs : facets) (g : graph) (node : string) (own : facet) : Prop := {
  fr_suffix : ∀ stem suffix expected, (suffix, expected) ∈ FACET_SUFFIXES →
    node = stem +:+ suffix → own = expected;
  fr_edge : ∀ dep, edge g node dep → ∃ target, fs !! dep = Some (Some target) ∧
    (own = FIntegration ∨ target = FContract ∨ target = FDesign ∨
     dep = node +:+ ".test" ∨ dep = node +:+ ".contract" ∨
     ∃ stem, node = stem +:+ ".test" ∧ dep = stem +:+ ".contract");
  fr_test : ∀ stem, own = FTest → node = stem +:+ ".test" →
    is_Some (fs !! (stem +:+ ".contract")) → edge g node (stem +:+ ".contract");
  fr_content : own = FContent → is_Some (fs !! (node +:+ ".contract")) →
    edge g node (node +:+ ".contract");
  fr_tested : own = FContent → is_Some (fs !! (node +:+ ".test")) →
    edge g node (node +:+ ".test");
  fr_plain_test : own = FTest → ends_with ".test" node = false →
    is_Some (fs !! (node +:+ ".contract")) → edge g node (node +:+ ".contract");
}.
Definition facet_clean (fs : facets) (g : graph) : Prop :=
  ∀ node own, fs !! node = Some (Some own) → facet_rules fs g node own.

Lemma substring_full s : String.substring 0 (String.length s) s = s.
Proof. induction s as [|c s IH]; [done|]. simpl. by f_equal. Qed.
Lemma substring_app_right s t :
  String.substring (String.length s) (String.length t) (s +:+ t) = t.
Proof. induction s as [|c s IH]; [apply substring_full|]. done. Qed.
Lemma substring_app_left s t : String.substring 0 (String.length s) (s +:+ t) = s.
Proof.
  induction s as [|c s IH]; [by destruct t|]. rewrite string_app_cons. simpl. by f_equal.
Qed.
Lemma substring_split s n :
  n ≤ String.length s →
  s = String.substring 0 n s +:+ String.substring n (String.length s - n) s.
Proof.
  revert n. induction s as [|c s IH]; intros [|n] Hn; try (simpl in *; lia); try done.
  - by rewrite Nat.sub_0_r, substring_full.
  - simpl in *. rewrite string_app_cons. f_equal. apply IH. lia.
Qed.

Lemma ends_with_iff suffix s : ends_with suffix s = true ↔ ∃ stem, s = stem +:+ suffix.
Proof.
  unfold ends_with. rewrite andb_true_iff, bool_decide_eq_true, Nat.leb_le. split.
  - intros [Hl E]. exists (String.substring 0 (String.length s - String.length suffix) s).
    pose proof (substring_split s (String.length s - String.length suffix) ltac:(lia)) as Hs.
    replace (String.length s - (String.length s - String.length suffix))
      with (String.length suffix) in Hs by lia.
    by rewrite E in Hs.
  - intros [stem ->]. rewrite string_length_app. split; [lia|].
    rewrite Nat.add_sub. apply substring_app_right.
Qed.
Lemma drop_last_app stem suffix : drop_last (String.length suffix) (stem +:+ suffix) = stem.
Proof.
  unfold drop_last. rewrite string_length_app, Nat.add_sub. apply substring_app_left.
Qed.
Lemma stem_of_test stem : stem_of (stem +:+ ".test") = stem.
Proof.
  unfold stem_of. rewrite (proj2 (ends_with_iff _ _)) by eauto.
  apply (drop_last_app stem ".test").
Qed.

Lemma flat_map_nil {A B} (f : A → list B) l : flat_map f l = [] ↔ ∀ x, x ∈ l → f x = [].
Proof.
  induction l as [|x l IH]; simpl.
  - split; [|done]. by intros _ x ?%elem_of_nil.
  - rewrite app_nil, IH. setoid_rewrite elem_of_cons. naive_solver.
Qed.

Lemma string_app_ne_self s t : t ≠ "" → s +:+ t ≠ s.
Proof.
  intros Ht E. apply (f_equal String.length) in E. rewrite string_length_app in E.
  destruct t; [done|]. simpl in E. lia.
Qed.
Lemma string_app_inj_l s t1 t2 : s +:+ t1 = s +:+ t2 → t1 = t2.
Proof.
  induction s as [|c s IH]; [done|]. rewrite !string_app_cons. intros E. apply IH. congruence.
Qed.

Lemma suffix_violations_nil node own :
  suffix_violations node own = [] ↔
    ∀ stem suffix expected, (suffix, expected) ∈ FACET_SUFFIXES →
      node = stem +:+ suffix → own = expected.
Proof.
  unfold suffix_violations. rewrite flat_map_nil. split.
  - intros H stem suffix expected Hin ->. specialize (H _ Hin). simpl in H.
    rewrite (proj2 (ends_with_iff _ _)) in H by eauto. simpl in H.
    case_bool_decide as Hne; done.
  - intros H [suffix expected] Hin. simpl.
    destruct (ends_with suffix node) eqn:E; [|done].
    apply ends_with_iff in E as [stem E]. rewrite (H _ _ _ Hin E).
    by rewrite bool_decide_eq_false_2 by auto.
Qed.

Lemma own_part_iff node dep :
  own_part node dep = true ↔
    dep = node +:+ ".test" ∨ dep = node +:+ ".contract" ∨
    ∃ stem, node = stem +:+ ".test" ∧ dep = stem +:+ ".contract".
Proof.
  unfold own_part. rewrite !orb_true_iff, andb_true_iff, !bool_decide_eq_true, ends_with_iff.
  split.
  - intros [[|]|[[stem ->] E]]; [by left|by right; left|]. right; right.
    rewrite stem_of_test in E. eauto.
  - intros [|[|(stem & -> & ->)]]; [by left; left|by left; right|right].
    rewrite stem_of_test. eauto.
Qed.

Lemma edge_violations_nil fs node own dep :
  edge_violations fs node own dep = [] ↔
    ∃ target, fs !! dep = Some (Some target) ∧
      (own = FIntegration ∨ target = FContract ∨ target = FDesign ∨
       dep = node +:+ ".test" ∨ dep = node +:+ ".contract" ∨
       ∃ stem, node = stem +:+ ".test" ∧ dep = stem +:+ ".contract").
Proof.
  unfold edge_violations, facet_at. destruct (fs !! dep) as [[target|]|]; simpl;
    [|naive_solver..].
  pose proof (own_part_iff node dep) as Ho.
  destruct (bool_decide (own = FIntegration)) eqn:Hi; bsimpl; [naive_solver|].
  destruct target; simpl; try (destruct (own_part node dep)); naive_solver.
Qed.

Lemma sibling_violations_nil fs deps node own :
  sibling_violations fs deps node own = [] ↔
    ∀ sibling, sibling ∈ siblings node own → is_Some (fs !! sibling) → sibling ≠ node →
      sibling ∈ deps.
Proof.
  unfold sibling_violations. rewrite flat_map_nil.
  apply forall_proper; intros sibling. repeat case_bool_decide; naive_solver.
Qed.

Lemma content_no_test node :
  (∀ stem suffix expected, (suffix, expected) ∈ FACET_SUFFIXES →
     node = stem +:+ suffix → FContent = expected) → stem_of node = node.
Proof.
  intros H. unfold stem_of. destruct (ends_with ".test" node) eqn:E; [|done].
  apply ends_with_iff in E as [stem E].
  assert (FContent = FTest); [|done]. eapply (H stem ".test"); [|done]. right. left.
Qed.

Lemma node_violations_nil fs g node own :
  node_violations fs g (node, Some own) = [] ↔ facet_rules fs g node own.
Proof.
  cbn [node_violations].
  rewrite !app_nil, suffix_violations_nil, flat_map_nil, sibling_violations_nil.
  setoid_rewrite elem_of_sorted_set. setoid_rewrite elem_of_list_to_set.
  setoid_rewrite edge_violations_nil. fold (edge g node). split.
  - intros (H1 & H2 & H3). split; [done|done| | | |].
    + intros stem -> -> Hs. apply H3; [|done|].
      * simpl. rewrite stem_of_test. left.
      * by intros E%string_app_inj_l.
    + intros -> Hs. apply H3; [|done|by apply string_app_ne_self].
      simpl. rewrite content_no_test by done. left.
    + intros -> Hs. apply H3; [|done|by apply string_app_ne_self]. simpl. right. left.
    + intros -> E Hs. apply H3; [|done|by apply string_app_ne_self].
      simpl. unfold stem_of. rewrite E. left.
  - intros [H1 H2 H3 H4 H5 H6]. split_and!; [done|done|]. intros sibling Hin Hs Hne.
    destruct own; simpl in Hin; try by apply elem_of_nil in Hin.
    + apply list_elem_of_singleton in Hin as ->. unfold stem_of in *.
      destruct (ends_with ".test" node) eqn:E; [|by apply H6].
      apply ends_with_iff in E as [stem ->].
      pose proof (drop_last_app stem ".test") as E. change (String.length ".test") with 5 in E.
      rewrite E in *. by apply H3.
    + rewrite content_no_test in Hin by done.
      apply elem_of_cons in Hin as [->|Hin]; [by apply H4|].
      apply list_elem_of_singleton in Hin as ->. by apply H5.
Qed.

(** [facet_violations] reports nothing exactly when every rule holds. *)
Lemma facet_violations_nil fs g : facet_violations fs g = [] ↔ facet_clean fs g.
Proof.
  unfold facet_violations, facet_clean. rewrite flat_map_nil. split.
  - intros H node own Hn. apply node_violations_nil, H. by apply elem_of_map_to_list.
  - intros H [node [own|]] Hin; [|done]. apply node_violations_nil, H.
    by apply elem_of_map_to_list.
Qed.
Lemma check_facets_ok fs g : check_facets fs g = Ok tt ↔ facet_clean fs g.
Proof.
  rewrite <- facet_violations_nil. unfold check_facets. by destruct (facet_violations fs g).
Qed.

(** ** Shipping gaps *)
Definition facet_stem (node_key : string) (fs : facets) : string :=
  if bool_decide (facet_at fs node_key = Some FContract) && ends_with ".contract" node_key
  then drop_last 9 node_key
  else if bool_decide (facet_at fs node_key = Some FTest) && ends_with ".test" node_key
  then drop_last 5 node_key
  else node_key.

(** Nodes with dependencies are keys of the dict. *)
Definition reachable_from (g : graph) (node : string) : gset string :=
  closure (preds g) (dom g) (reverse (preds g node)).

Definition gap (fs : facets) (g : graph) (node c : string) : bool :=
  bool_decide (facet_at fs c = Some FContract) &&
  bool_decide (is_Some (fs !! facet_stem c fs)) &&
  bool_decide (facet_at fs (facet_stem c fs) ≠ Some FContract) &&
  bool_decide (facet_stem c fs ≠ node) && bool_decide (facet_stem c fs ∉ preds g node).

Definition missing_of (fs : facets) (g : graph) (node : string) : list string :=
  sorted_set (list_to_set
    ((λ c, facet_stem c fs) <$>
       List.filter (gap fs g node) (elements (reachable_from g node)))).

Definition node_gaps (fs : facets) (g : graph) (node : string) (own : option facet)
    : option (list string) :=
  if bool_decide (own = Some FIntegration) then
    match missing_of fs g node with [] => None | missing => Some missing end
  else None.

Definition shipping_gaps (fs : facets) (g : graph) : gmap string (list string) :=
  map_imap (node_gaps fs g) fs.

(** The warnings, each with the node and the implementations it names. *)
Definition facet_warnings (fs : facets) (g : graph) : list (string * list string) :=
  map_to_list (shipping_gaps fs g).

Lemma elem_of_reachable_from g node x : x ∈ reachable_from g node ↔ tc (edge g) node x.
Proof.
  unfold reachable_from. rewrite elem_of_closure.
  - setoid_rewrite elem_of_reverse. split.
    + intros (s & Hs & Hr). by eapply tc_rtc_r; [apply tc_once|].
    + intros Ht. inversion Ht as [? He|? y ? He Hr]; subst; [by exists x|].
      exists y. split; [done|]. by apply tc_rtc.
  - intros y Hy. apply elem_of_dom. unfold preds in Hy. by destruct (g !! y).
Qed.

(** [m] is reported for [node] exactly when [node] is an integration node,
    reaches a contract whose implementation [m] is, and does not depend on [m]. *)
Lemma shipping_gaps_spec fs g node m :
  (∃ missing, shipping_gaps fs g !! node = Some missing ∧ m ∈ missing) ↔
    fs !! node = Some (Some FIntegration) ∧
    ∃ c, tc (edge g) node c ∧ fs !! c = Some (Some FContract) ∧ facet_stem c fs = m ∧
      is_Some (fs !! m) ∧ fs !! m ≠ Some (Some FContract) ∧ m ≠ node ∧ ¬ edge g node m.
Proof.
  assert (∀ c f, facet_at fs c = Some f ↔ fs !! c = Some (Some f)) as Hat.
  { intros c f. unfold facet_at. destruct (fs !! c) as [[]|]; naive_solver. }
  assert (m ∈ missing_of fs g node ↔ ∃ c, tc (edge g) node c ∧ fs !! c = Some (Some FContract) ∧
    facet_stem c fs = m ∧ is_Some (fs !! m) ∧ fs !! m ≠ Some (Some FContract) ∧ m ≠ node ∧
    ¬ edge g node m) as Hm.
  { unfold missing_of. rewrite elem_of_sorted_set, elem_of_list_to_set, list_elem_of_fmap.
    apply exist_proper; intros c. rewrite list_elem_of_In, filter_In, <- list_elem_of_In.
    rewrite elem_of_elements, elem_of_reachable_from. unfold gap.
    rewrite !andb_true_iff, !bool_decide_eq_true, !Hat. unfold edge. naive_solver. }
  unfold shipping_gaps. rewrite map_lookup_imap. unfold node_gaps.
  destruct (fs !! node) as [own|]; simpl; [|naive_solver].
  case_bool_decide as Hi; [subst|naive_solver].
  destruct (missing_of fs g node) as [|a l] eqn:E.
  - split; [naive_solver|]. intros [_ H]. apply Hm in H. by apply elem_of_nil in H.
  - rewrite <- Hm. naive_solver.
Qed.
