(* ===== verification/Store.v ===== *)
(** * The State database

    One constructor field per table of the State schema ([core/state_graph.py],
    [core/state_metadata.py], [core/state_attempt_schema.py],
    [core/state_claims.py], [core/state_design.py], [core/driver_presence.py],
    [core/drivers.py], [core/state_handoffs.py], [core/state_subagents.py],
    [core/driver_inbox.py], [core/state_issues.py]).
    A table with a primary key the code looks rows up by is a [gmap]; a table
    read in [seq] order, or whose rows are only appended, is a list in that
    order.  A [*_json] column holds the value [json.loads] returns for it (see
    [Json.loads_canonical]); a timestamp is an instant in microseconds.

    [Host] is what the process asks of its environment: the successive readings
    of the clock, the successive random UUIDs and tokens, SHA-256 and HMAC.  [ticks] and
    [draws] count how many of each were consumed. *)
From S2P Require Import Prelude Json Text Dag.

Class Host : Type := {
  clock : nat → Z;
  uuid : nat → string;
  sha256 : string → string;
  hmac_sha256 : string → string → string;    (* keyed digest, as hexadecimal *)
  secret : nat → string;                     (* [secrets.token_urlsafe] *)
}.

(** ** Enumerations (the CHECK constraints) *)
Inductive visibility : Set := Private | Public.
Inductive node_status : Set := OPEN | CANDIDATE | VERIFIED | STALE | SUPERSEDED.
Inductive dispatch_mode : Set := DActive | DHold | DArchive.
Inductive attempt_status : Set :=
  | Reserved | Launching | Running | Paused | Unknown
  | Candidate | Failed | Superseded | Abandoned.
Inductive execution_kind : Set := Skillflow | External.
Inductive artifact_kind : Set := GitSha1 | Sha256.
Inductive abandon_kind : Set := ConfirmedStopped | QuiescenceUnknown.
Inductive verdict : Set := Pass | Fail | Skip.
Inductive owner_status : Set := OActive | OPaused | OUnknown | OSettled | OAbandoned.
Inductive purpose : Set := Implement | Review | Investigate | Plan.
Inductive claim_status : Set := Live | Released | Expired | Transferred | Revoked | TakenOver.
Inductive driver_kind : Set := Lan | PublicCf.
Inductive driver_status : Set := DriverActive | DriverSuspended | DriverRetired.
Inductive handoff_status : Set := Offered | HandoffAccepted | Declined | Withdrawn | HandoffExpired.
Inductive delivery_status : Set := Unread | Acknowledged | Resolved.

#[export] Instance visibility_eq_dec : EqDecision visibility.
Proof. solve_decision. Defined.
#[export] Instance node_status_eq_dec : EqDecision node_status.
Proof. solve_decision. Defined.
#[export] Instance dispatch_mode_eq_dec : EqDecision dispatch_mode.
Proof. solve_decision. Defined.
#[export] Instance attempt_status_eq_dec : EqDecision attempt_status.
Proof. solve_decision. Defined.
#[export] Instance execution_kind_eq_dec : EqDecision execution_kind.
Proof. solve_decision. Defined.
#[export] Instance artifact_kind_eq_dec : EqDecision artifact_kind.
Proof. solve_decision. Defined.
#[export] Instance abandon_kind_eq_dec : EqDecision abandon_kind.
Proof. solve_decision. Defined.
#[export] Instance verdict_eq_dec : EqDecision verdict.
Proof. solve_decision. Defined.
#[export] Instance owner_status_eq_dec : EqDecision owner_status.
Proof. solve_decision. Defined.
#[export] Instance purpose_eq_dec : EqDecision purpose.
Proof. solve_decision. Defined.
#[export] Instance claim_status_eq_dec : EqDecision claim_status.
Proof. solve_decision. Defined.
#[export] Instance driver_kind_eq_dec : EqDecision driver_kind.
Proof. solve_decision. Defined.
#[export] Instance driver_status_eq_dec : EqDecision driver_status.
Proof. solve_decision. Defined.
#[export] Instance handoff_status_eq_dec : EqDecision handoff_status.
Proof. solve_decision. Defined.
#[export] Instance delivery_status_eq_dec : EqDecision delivery_status.
Proof. solve_decision. Defined.

Definition node_status_text (s : node_status) : string :=
  match s with
  | OPEN => "OPEN" | CANDIDATE => "CANDIDATE" | VERIFIED => "VERIFIED"
  | STALE => "STALE" | SUPERSEDED => "SUPERSEDED"
  end.
Definition attempt_status_text (s : attempt_status) : string :=
  match s with
  | Reserved => "reserved" | Launching => "launching" | Running => "running"
  | Paused => "paused" | Unknown => "unknown" | Candidate => "candidate"
  | Failed => "failed" | Superseded => "superseded" | Abandoned => "abandoned"
  end.
Definition purpose_text (p : purpose) : string :=
  match p with
  | Implement => "implement" | Review => "review"
  | Investigate => "investigate" | Plan => "plan"
  end.
Definition verdict_text (v : verdict) : string :=
  match v with Pass => "pass" | Fail => "fail" | Skip => "skip" end.
Definition kind_name (k : execution_kind) : string :=
  match k with Skillflow => "skillflow" | External => "external" end.
Definition artifact_kind_text (k : artifact_kind) : string :=
  match k with GitSha1 => "git-sha1" | Sha256 => "sha256" end.
Definition dispatch_text (d : dispatch_mode) : string :=
  match d with DActive => "active" | DHold => "hold" | DArchive => "archive" end.

(** [ACTIVE]: the statuses of an attempt that still owns its node. *)
Definition ACTIVE (s : attempt_status) : bool :=
  match s with
  | Reserved | Launching | Running | Paused | Unknown => true
  | Candidate | Failed | Superseded | Abandoned => false
  end.

(** ** Rows *)
Record project_row : Type := ProjectRow {
  pr_title : string; pr_source : option string; pr_created : Z }.
Record access_row : Type := AccessRow {
  ac_visibility : visibility; ac_opened_by : option string; ac_opened_at : option Z;
  ac_changed_by : string; ac_changed_at : Z }.
Record node_row : Type := NodeRow {
  n_revision : Z; n_goal : string; n_contract : list check; n_hash : string;
  n_status : node_status; n_priority : Z; n_receipt : option string;
  n_created : Z; n_updated : Z; n_facet : option facet }.
Record revision_row : Type := RevisionRow {
  r_project : string; r_node : string; r_revision : Z; r_goal : string;
  r_contract : list check; r_hash : string; r_deps : list string; r_created : Z }.
Record event_row : Type := EventRow {
  e_seq : nat; e_project : string; e_node : option string; e_type : string;
  e_payload : json; e_created : Z }.
Record policy_row : Type := PolicyRow {
  po_revision : Z; po_dispatch : dispatch_mode; po_reason : string;
  po_actor : string; po_updated : option Z }.
Record enforcement_row : Type := EnforcementRow {
  en_claims : bool; en_reason : string; en_actor : string; en_updated : Z;
  en_review : bool }.
Record hold_row : Type := HoldRow {
  ho_revision : Z; ho_held : bool; ho_reason : string; ho_actor : string;
  ho_updated : option Z }.
Record binding_row : Type := BindingRow {
  sb_revision : Z; sb_repo : string; sb_common : string; sb_actor : string;
  sb_updated : Z }.
Record link_row : Type := LinkRow {
  li_node : string; li_kind : string; li_ref : string; li_label : string;
  li_observed : string; li_artifact : option string; li_report : option string;
  li_provenance : string; li_recorded_by : string; li_revision : Z;
  li_protection : bool; li_hash : string; li_created : Z }.
Record retirement_row : Type := RetirementRow {
  rt_project : string; rt_reference : string; rt_node : string; rt_revision : Z;
  rt_hash : string; rt_run : string; rt_foreign_project : string;
  rt_foreign_attempt : string; rt_foreign_execution : string;
  rt_request_key : string; rt_request_hash : string; rt_actor : string;
  rt_reason : string; rt_created : Z }.
Record attempt_row : Type := AttemptRow {
  a_id : string; a_project : string; a_node : string; a_revision : Z;
  a_hash : string; a_snapshot : string; a_context : json;
  a_request_key : string; a_request_hash : string; a_workflow : option string;
  a_execution : option string; a_run : option string;
  a_graph_version : option Z; a_graph_digest : option string;
  a_status : attempt_status; a_artifact : option string; a_error : option string;
  a_created : Z; a_updated : Z; a_kind : execution_kind;
  a_harness : option string; a_external : option string; a_reporter : option string;
  a_version : Z; a_artifact_kind : option artifact_kind;
  a_terminal : option string; a_abandon : option abandon_kind;
  a_owner : option string; a_fence : Z; a_lease : option Z; a_heartbeat : option Z }.
Record evidence_row : Type := EvidenceRow {
  v_id : string; v_attempt : string; v_criterion : string; v_kind : check_kind;
  v_verdict : verdict; v_artifact : string; v_report_ref : string;
  v_report_sha : string; v_reviewer : string; v_detail : string; v_hash : string;
  v_created : Z; v_director : option string }.
Record acceptance_row : Type := AcceptanceRow {
  rc_project : string; rc_node : string; rc_revision : Z; rc_attempt : string;
  rc_artifact : string; rc_hash : string; rc_snapshot : string;
  rc_evidence : list string; rc_reviewer : string; rc_created : Z;
  rc_provenance : json }.
Record owner_row : Type := OwnerRow {
  ow_project : string; ow_node : string; ow_harness : string; ow_external : string;
  ow_status : owner_status; ow_admitted : Z; ow_updated : Z; ow_settled : option Z }.
Record observation_row : Type := ObservationRow {
  ob_attempt : string; ob_id : string; ob_version : Z; ob_status : attempt_status;
  ob_result : attempt_status; ob_quiescent : bool; ob_artifact : option string;
  ob_artifact_kind : option artifact_kind; ob_report_ref : string;
  ob_report_sha : string; ob_actor : string; ob_detail : string; ob_hash : string;
  ob_context : string; ob_created : Z; ob_late : bool; ob_fence : option Z }.
Record blob_row : Type := BlobRow { bl_bytes : string; bl_ref : string; bl_created : Z }.
Record claim_row : Type := ClaimRow {
  cl_id : string; cl_project : string; cl_node : string; cl_driver : string;
  cl_purpose : purpose; cl_status : claim_status; cl_fence : Z; cl_revision : Z;
  cl_attempt : option string; cl_workspace : string; cl_subagent : option string;
  cl_lease : Z; cl_expires : Z; cl_heartbeat : Z; cl_request_key : string;
  cl_request_hash : string; cl_created : Z; cl_updated : Z }.
Record history_row : Type := HistoryRow {
  hi_claim : string; hi_project : string; hi_node : string; hi_driver : string;
  hi_purpose : purpose; hi_status : claim_status; hi_fence : Z; hi_expires : Z;
  hi_actor : string; hi_reason : string; hi_created : Z }.
Record declaration_row : Type := DeclarationRow {
  de_since : Z; de_reason : string; de_return : option Z }.
Record wait_row : Type := WaitRow {
  wa_id : string; wa_driver : string; wa_started : Z; wa_until : Z; wa_ended : option Z }.
(** [driver_audit]: the operation with its closed payload. *)
Inductive audit_operation : Set :=
  | AuditPresence (status cause : string)
  | AuditRegister (kind : driver_kind) (is_admin : bool)
  | AuditRotate (legacy : bool)
  | AuditStatus (status previous : driver_status)
  | AuditAdmin (is_admin : bool)
  | AuditMembership (membership_ref : nat) (is_member : bool).
Record audit_row : Type := AuditRow {
  au_driver : string; au_operation : audit_operation; au_actor : string; au_created : Z }.
Record driver_row : Type := DriverRow {
  drv_name : string; drv_kind : driver_kind; drv_admin : bool; drv_token : option string;
  drv_rotated : option Z; drv_host : string; drv_capabilities : json; drv_status : driver_status;
  drv_revision : Z; drv_created : Z; drv_seen : option Z }.
Record member_row : Type := MemberRow {
  mb_project : string; mb_driver : string; mb_member : bool; mb_revision : Z;
  mb_actor : string; mb_updated : Z }.
Record handoff_row : Type := HandoffRow {
  hf_id : string; hf_project : string; hf_attempt : option string; hf_claim : option string;
  hf_node : string; hf_from : string; hf_to : string; hf_status : handoff_status;
  hf_package : json; hf_fence : Z; hf_request_key : string; hf_request_hash : string;
  hf_expires : Z; hf_created : Z; hf_updated : Z; hf_decided : option string;
  hf_reason : option string }.
Record subagent_row : Type := SubagentRow {
  sa_id : string; sa_driver : string; sa_project : string; sa_attempt : string;
  sa_node : string; sa_workspace : string; sa_hash : string; sa_created : Z }.
(** A message; [im_text] is its subject and body, but for a notice, whose prose is not kept. *)
Record message_row : Type := MessageRow {
  im_id : string; im_thread : string; im_sender : option string; im_project : option string;
  im_kind : string; im_mode : string; im_text : option (string * string); im_refs : json;
  im_reply : option string; im_created : Z; im_to_user : bool; im_from_user : bool; im_segments : json }.
Record delivery_row : Type := DeliveryRow {
  dl_id : string; dl_message : string; dl_target : string; dl_seq : nat;
  dl_status : delivery_status; dl_version : Z }.
Record request_row : Type := RequestRow { rq_payload : json; rq_result : json }.
Record read_row : Type := ReadRow { cr_created : Z; cr_message : string; cr_updated : Z }.
Record issue_row : Type := IssueRow {
  is_id : string; is_project : string; is_request_key : string; is_request_hash : string;
  is_kind : string; is_title : string; is_body : string; is_source : option string;
  is_status : string; is_version : Z; is_resolution : option json; is_actor : string;
  is_director : string; is_created : Z; is_updated : Z }.
Record design_row : Type := DesignRow {
  dr_payload : json; dr_hash : string; dr_author : string; dr_created : Z }.
Record baseline_row : Type := BaselineRow {
  bs_manifest : json; bs_hash : string; bs_author : string; bs_created : Z }.
Record design_binding_row : Type := DesignBindingRow { bd_snapshot : json; bd_hash : string }.

(** *** Eta-expansions, for the update notation *)
#[export] Instance eta_project_row : Eta project_row := λ r,
  ProjectRow (pr_title r) (pr_source r) (pr_created r).
#[export] Instance eta_access_row : Eta access_row := λ r,
  AccessRow (ac_visibility r) (ac_opened_by r) (ac_opened_at r) (ac_changed_by r)
    (ac_changed_at r).
#[export] Instance eta_node_row : Eta node_row := λ r,
  NodeRow (n_revision r) (n_goal r) (n_contract r) (n_hash r) (n_status r) (n_priority
    r) (n_receipt r) (n_created r) (n_updated r) (n_facet r).
#[export] Instance eta_revision_row : Eta revision_row := λ r,
  RevisionRow (r_project r) (r_node r) (r_revision r) (r_goal r) (r_contract r) (r_hash
    r) (r_deps r) (r_created r).
#[export] Instance eta_event_row : Eta event_row := λ r,
  EventRow (e_seq r) (e_project r) (e_node r) (e_type r) (e_payload r) (e_created r).
#[export] Instance eta_policy_row : Eta policy_row := λ r,
  PolicyRow (po_revision r) (po_dispatch r) (po_reason r) (po_actor r) (po_updated r).
#[export] Instance eta_enforcement_row : Eta enforcement_row := λ r,
  EnforcementRow (en_claims r) (en_reason r) (en_actor r) (en_updated r) (en_review r).
#[export] Instance eta_hold_row : Eta hold_row := λ r,
  HoldRow (ho_revision r) (ho_held r) (ho_reason r) (ho_actor r) (ho_updated r).
#[export] Instance eta_binding_row : Eta binding_row := λ r,
  BindingRow (sb_revision r) (sb_repo r) (sb_common r) (sb_actor r) (sb_updated r).
#[export] Instance eta_link_row : Eta link_row := λ r,
  LinkRow (li_node r) (li_kind r) (li_ref r) (li_label r) (li_observed r) (li_artifact
    r) (li_report r) (li_provenance r) (li_recorded_by r) (li_revision r) (li_protection
    r) (li_hash r) (li_created r).
#[export] Instance eta_retirement_row : Eta retirement_row := λ r,
  RetirementRow (rt_project r) (rt_reference r) (rt_node r) (rt_revision r) (rt_hash r)
    (rt_run r) (rt_foreign_project r) (rt_foreign_attempt r) (rt_foreign_execution r)
    (rt_request_key r) (rt_request_hash r) (rt_actor r) (rt_reason r) (rt_created r).
#[export] Instance eta_attempt_row : Eta attempt_row := λ r,
  AttemptRow (a_id r) (a_project r) (a_node r) (a_revision r) (a_hash r) (a_snapshot r)
    (a_context r) (a_request_key r) (a_request_hash r) (a_workflow r) (a_execution r)
    (a_run r) (a_graph_version r) (a_graph_digest r) (a_status r) (a_artifact r)
    (a_error r) (a_created r) (a_updated r) (a_kind r) (a_harness r) (a_external r)
    (a_reporter r) (a_version r) (a_artifact_kind r) (a_terminal r) (a_abandon r)
    (a_owner r) (a_fence r) (a_lease r) (a_heartbeat r).
#[export] Instance eta_evidence_row : Eta evidence_row := λ r,
  EvidenceRow (v_id r) (v_attempt r) (v_criterion r) (v_kind r) (v_verdict r)
    (v_artifact r) (v_report_ref r) (v_report_sha r) (v_reviewer r) (v_detail r) (v_hash
    r) (v_created r) (v_director r).
#[export] Instance eta_acceptance_row : Eta acceptance_row := λ r,
  AcceptanceRow (rc_project r) (rc_node r) (rc_revision r) (rc_attempt r) (rc_artifact
    r) (rc_hash r) (rc_snapshot r) (rc_evidence r) (rc_reviewer r) (rc_created r)
    (rc_provenance r).
#[export] Instance eta_owner_row : Eta owner_row := λ r,
  OwnerRow (ow_project r) (ow_node r) (ow_harness r) (ow_external r) (ow_status r)
    (ow_admitted r) (ow_updated r) (ow_settled r).
#[export] Instance eta_observation_row : Eta observation_row := λ r,
  ObservationRow (ob_attempt r) (ob_id r) (ob_version r) (ob_status r) (ob_result r)
    (ob_quiescent r) (ob_artifact r) (ob_artifact_kind r) (ob_report_ref r)
    (ob_report_sha r) (ob_actor r) (ob_detail r) (ob_hash r) (ob_context r) (ob_created
    r) (ob_late r) (ob_fence r).
#[export] Instance eta_blob_row : Eta blob_row := λ r,
  BlobRow (bl_bytes r) (bl_ref r) (bl_created r).
#[export] Instance eta_claim_row : Eta claim_row := λ r,
  ClaimRow (cl_id r) (cl_project r) (cl_node r) (cl_driver r) (cl_purpose r) (cl_status
    r) (cl_fence r) (cl_revision r) (cl_attempt r) (cl_workspace r) (cl_subagent r)
    (cl_lease r) (cl_expires r) (cl_heartbeat r) (cl_request_key r) (cl_request_hash r)
    (cl_created r) (cl_updated r).
#[export] Instance eta_history_row : Eta history_row := λ r,
  HistoryRow (hi_claim r) (hi_project r) (hi_node r) (hi_driver r) (hi_purpose r)
    (hi_status r) (hi_fence r) (hi_expires r) (hi_actor r) (hi_reason r) (hi_created r).
#[export] Instance eta_declaration_row : Eta declaration_row := λ r,
  DeclarationRow (de_since r) (de_reason r) (de_return r).
#[export] Instance eta_wait_row : Eta wait_row := λ r,
  WaitRow (wa_id r) (wa_driver r) (wa_started r) (wa_until r) (wa_ended r).
#[export] Instance eta_audit_row : Eta audit_row := λ r,
  AuditRow (au_driver r) (au_operation r) (au_actor r) (au_created r).
#[export] Instance eta_driver_row : Eta driver_row := λ r,
  DriverRow (drv_name r) (drv_kind r) (drv_admin r) (drv_token r) (drv_rotated r) (drv_host r)
    (drv_capabilities r) (drv_status r) (drv_revision r) (drv_created r) (drv_seen r).
#[export] Instance eta_member_row : Eta member_row := λ r,
  MemberRow (mb_project r) (mb_driver r) (mb_member r) (mb_revision r) (mb_actor r) (mb_updated r).
#[export] Instance eta_handoff_row : Eta handoff_row := λ r,
  HandoffRow (hf_id r) (hf_project r) (hf_attempt r) (hf_claim r) (hf_node r) (hf_from r)
    (hf_to r) (hf_status r) (hf_package r) (hf_fence r) (hf_request_key r) (hf_request_hash r)
    (hf_expires r) (hf_created r) (hf_updated r) (hf_decided r) (hf_reason r).
#[export] Instance eta_delivery_row : Eta delivery_row := λ r,
  DeliveryRow (dl_id r) (dl_message r) (dl_target r) (dl_seq r) (dl_status r) (dl_version r).
#[export] Instance eta_issue_row : Eta issue_row := λ r,
  IssueRow (is_id r) (is_project r) (is_request_key r) (is_request_hash r) (is_kind r)
    (is_title r) (is_body r) (is_source r) (is_status r) (is_version r) (is_resolution r)
    (is_actor r) (is_director r) (is_created r) (is_updated r).
#[export] Instance eta_design_row : Eta design_row := λ r,
  DesignRow (dr_payload r) (dr_hash r) (dr_author r) (dr_created r).
#[export] Instance eta_baseline_row : Eta baseline_row := λ r,
  BaselineRow (bs_manifest r) (bs_hash r) (bs_author r) (bs_created r).
#[export] Instance eta_design_binding_row : Eta design_binding_row := λ r,
  DesignBindingRow (bd_snapshot r) (bd_hash r).

(** ** The database *)
Record db : Type := Db {
  ticks : nat;                                     (* clock readings so far *)
  draws : nat;                                     (* UUIDs drawn so far *)
  projects : gmap string project_row;
  access : gmap string access_row;
  nodes : gmap (string * string) node_row;         (* (project, node key) *)
  deps : gmap (string * string) (gset string);     (* state_dependencies *)
  revisions : list revision_row;
  events : list event_row;
  policies : gmap string policy_row;
  enforcement : gmap string enforcement_row;
  holds : gmap (string * string) hold_row;
  bindings : gmap string binding_row;
  links : gmap (string * string) link_row;         (* (project, reference id) *)
  retirements : list retirement_row;
  attempts : list attempt_row;
  evidence : list evidence_row;
  acceptances : gmap string acceptance_row;
  owners : gmap string owner_row;                  (* by attempt id *)
  observations : list observation_row;
  blobs : gmap string blob_row;                    (* by SHA-256 *)
  claims : list claim_row;
  claim_history : list history_row;
  declarations : gmap string declaration_row;      (* by driver *)
  drivers : gmap string driver_row;
  members : list member_row;                       (* project_drivers, by rowid *)
  waits : list wait_row;
  audit : list audit_row;
  design_revisions : gmap (string * string * Z) design_row;
  design_baselines : gmap (string * string) baseline_row;
  design_heads : gmap string string;
  design_bindings : gmap (string * string * Z) design_binding_row;
  run_paths : gmap string string;                  (* runs.repo_path, by project *)
  handoffs : list handoff_row;
  subagents : list subagent_row;
  messages : list message_row;
  deliveries : list delivery_row;
  inbox_requests : gmap (string * string * string) request_row;   (* (actor, operation, request key) *)
  read_marks : gmap string read_row;               (* by project *)
  issues : list issue_row;
  issue_nodes : gmap string (gset string)          (* node keys, by issue id *) }.
#[export] Instance eta_db : Eta db := λ s,
  Db (ticks s) (draws s) (projects s) (access s) (nodes s) (deps s) (revisions s)
    (events s) (policies s) (enforcement s) (holds s) (bindings s) (links s)
    (retirements s) (attempts s) (evidence s) (acceptances s) (owners s)
    (observations s) (blobs s) (claims s) (claim_history s) (declarations s)
    (drivers s) (members s) (waits s) (audit s) (design_revisions s) (design_baselines s)
    (design_heads s) (design_bindings s) (run_paths s) (handoffs s) (subagents s)
    (messages s) (deliveries s) (inbox_requests s) (read_marks s) (issues s) (issue_nodes s).

Definition empty_db : db :=
  Db 0 0 ∅ ∅ ∅ ∅ [] [] ∅ ∅ ∅ ∅ ∅ [] [] [] ∅ ∅ [] ∅ [] [] ∅ ∅ [] [] [] ∅ ∅ ∅ ∅ ∅ [] [] [] [] ∅ ∅ [] ∅.

(** Rows of one project of a table keyed by project and another key. *)
Definition slice {A} (m : gmap (string * string) A) (p : string) : gmap string A :=
  default ∅ (map_curry (M1 := gmap string) (M2 := gmap string) m !! p).
Lemma lookup_slice {A} (m : gmap (string * string) A) p k : slice m p !! k = m !! (p, k).
Proof.
  unfold slice. rewrite <- (lookup_map_curry (M1 := gmap string) (M2 := gmap string)).
  by destruct (map_curry m !! p).
Qed.

(** ** Frames

    [untouched f m]: the operation [m] leaves the part [f] of the state alone. *)
Definition untouched {A B} (f : db → B) (m : M db A) : Prop :=
  ∀ s, wp m (λ _ s', f s' = f s) s.

Lemma untouched_at {A B} (f : db → B) (m : M db A) s : untouched f m → wp m (λ _ s', f s' = f s) s.
Proof. intros Hm. apply Hm. Qed.

Section untouched.
Context {B : Type} (f : db → B).

Lemma untouched_wp {A} (m : M db A) s (Q : A → db → Prop) :
  untouched f m → wp m Q s → wp m (λ a s', Q a s' ∧ f s' = f s) s.
Proof. intros Hf HQ. apply wp_conj; auto. Qed.

Lemma untouched_ret {A} (a : A) : untouched f (mret a).
Proof. done. Qed.
Lemma untouched_raise {A} e : untouched f (raise (A := A) e).
Proof. done. Qed.
Lemma untouched_gets {A} (g : db → A) : untouched f (gets g).
Proof. done. Qed.
Lemma untouched_lift {A} (r : res A) : untouched f (lift r).
Proof. intros s. by apply wp_lift. Qed.
Lemma untouched_require b e : untouched f (require b e).
Proof. intros s. by apply wp_require. Qed.
Lemma untouched_get_some {A} (o : option A) e : untouched f (get_some o e).
Proof. intros s. by apply wp_get_some. Qed.
Lemma untouched_modify g : (∀ s, f (g s) = f s) → untouched f (modify g).
Proof. intros H s. by apply wp_modify. Qed.
Lemma untouched_bind {A C} (m : M db A) (k : A → M db C) :
  untouched f m → (∀ a, untouched f (k a)) → untouched f (m ≫= k).
Proof.
  intros Hm Hk s. apply wp_bind. eapply wp_mono; [apply Hm|].
  intros a s' <-. apply Hk.
Qed.
Lemma untouched_when b m : untouched f m → untouched f (when b m).
Proof. intros Hm s. apply wp_when; intros _; [apply Hm|done]. Qed.
Lemma untouched_for_each {A} (g : A → M db unit) l :
  (∀ a, untouched f (g a)) → untouched f (for_each g l).
Proof.
  intros Hg. induction l as [|x l IH]; [apply untouched_ret|].
  apply untouched_bind; auto.
Qed.
Lemma untouched_collect {A C} (g : A → M db (list C)) l :
  (∀ a, untouched f (g a)) → untouched f (collect g l).
Proof.
  intros Hg. induction l as [|x l IH]; [apply untouched_ret|].
  apply untouched_bind; [auto|]. intros ys. apply untouched_bind; auto. intros; apply untouched_ret.
Qed.
End untouched.

Create HintDb untouched discriminated.
#[export] Hint Resolve untouched_ret untouched_raise untouched_gets untouched_lift
  untouched_require untouched_get_some untouched_for_each : untouched.

(** Discharges [untouched f m] for a concrete projection [f], by following the
    program; called operations are looked up in the hint database. *)
Ltac frame :=
  repeat first
    [ progress intros
    | solve [eauto 2 with untouched nocore]
    | apply untouched_bind
    | apply untouched_when
    | apply untouched_for_each
    | apply untouched_collect
    | apply untouched_modify; intros; reflexivity
    | match goal with
      | |- untouched _ (match ?x with _ => _ end) => destruct x
      | |- untouched _ (let _ := _ in _) => cbv zeta
      end ].

(** [keeps R m]: whenever [m] returns, its final state is [R]-related to the
    initial one.  [R] is a preorder; [untouched f] is the case of equal [f]. *)
Definition keeps {A} (R : relation db) (m : M db A) : Prop := ∀ s, wp m (λ _ s', R s s') s.

Section keeps.
Context (R : relation db) `{!PreOrder R}.

Lemma keeps_ret {A} (a : A) : keeps R (mret a).
Proof. intros s. apply wp_ret. reflexivity. Qed.
Lemma keeps_raise {A} e : keeps R (raise (A := A) e).
Proof. intros s. apply wp_raise. Qed.
Lemma keeps_gets {A} (g : db → A) : keeps R (gets g).
Proof. intros s. apply wp_gets. reflexivity. Qed.
Lemma keeps_lift {A} (r : res A) : keeps R (lift r).
Proof. intros s. apply wp_lift. reflexivity. Qed.
Lemma keeps_require b e : keeps R (require b e).
Proof. intros s. apply wp_require. reflexivity. Qed.
Lemma keeps_get_some {A} (o : option A) e : keeps R (get_some o e).
Proof. intros s. apply wp_get_some. reflexivity. Qed.
Lemma keeps_modify g : (∀ s, R s (g s)) → keeps R (modify g).
Proof. intros H s. by apply wp_modify. Qed.
Lemma keeps_bind {A C} (m : M db A) (k : A → M db C) :
  keeps R m → (∀ a, keeps R (k a)) → keeps R (m ≫= k).
Proof.
  intros Hm Hk s. apply wp_bind. eapply wp_mono; [apply Hm|]. intros a s1 H1.
  eapply wp_mono; [apply Hk|]. intros c s2 H2. by transitivity s1.
Qed.
Lemma keeps_when b m : keeps R m → keeps R (when b m).
Proof. destruct b; [done|]. intros _. apply keeps_ret. Qed.
Lemma keeps_for_each {A} (g : A → M db unit) l :
  (∀ a, keeps R (g a)) → keeps R (for_each g l).
Proof.
  intros Hg. induction l as [|x l IH]; [apply keeps_ret|]. by apply keeps_bind.
Qed.
Lemma keeps_collect {A C} (g : A → M db (list C)) l :
  (∀ a, keeps R (g a)) → keeps R (collect g l).
Proof.
  intros Hg. induction l as [|x l IH]; [apply keeps_ret|].
  apply keeps_bind; [done|]. intros ys. apply keeps_bind; [done|]. intros; apply keeps_ret.
Qed.

(** The rest of a program, run from a state already related to the first one. *)
Lemma keeps_from {A} (m : M db A) s0 s : R s0 s → keeps R m → wp m (λ _ s', R s0 s') s.
Proof. intros H0 Hm. eapply wp_mono; [apply Hm|]. intros a s' H1. by transitivity s. Qed.
End keeps.

Create HintDb keeps discriminated.

(** Discharges [keeps R m] by following the program; [tac] settles the updates. *)
Ltac keep_with tac :=
  repeat first
    [ progress intros
    | solve [eauto 2 with keeps nocore]
    | apply keeps_ret; apply _ | apply keeps_raise; apply _ | apply keeps_gets; apply _
    | apply keeps_lift; apply _ | apply keeps_require; apply _ | apply keeps_get_some; apply _
    | apply keeps_bind; [apply _| |]
    | apply keeps_when; [apply _|]
    | apply keeps_for_each; [apply _|]
    | apply keeps_collect; [apply _|]
    | apply keeps_modify; intros; solve [tac]
    | match goal with
      | |- keeps _ (match ?x with _ => _ end) => destruct x
      | |- keeps _ (let _ := _ in _) => cbv zeta
      end ].

(** ** The clock and the random source *)
Section host.
Context `{Host}.

Definition now : M db Z := λ s, Ok (clock (ticks s), s <| ticks ::= S |>).
Definition uuid4 : M db string := λ s, Ok (uuid (draws s), s <| draws ::= S |>).
Definition digest (value : json) : string := sha256 (canonical value).

Lemma wp_now (Q : Z → db → Prop) s :
  (∀ t, Q t (s <| ticks ::= S |>)) → wp now Q s.
Proof. intros HQ. apply HQ. Qed.
Lemma wp_uuid4 (Q : string → db → Prop) s :
  (∀ t, Q t (s <| draws ::= S |>)) → wp uuid4 Q s.
Proof. intros HQ. apply HQ. Qed.
End host.
