(* ===== verification/Graph.v ===== *)
(** * Projects, nodes and revisions

    [StateGraphStore] of [core/state_graph.py].  Every operation is one write
    transaction; [_add], [_set_facet], [_revise], [_split] and [_supersede] are
    the bodies that handoffs and reviews also run inside their own transactions. *)
From S2P Require Import Prelude Json Text Dag Store.

(** ** Reads shared by every component *)
Definition fetch_project (pid : string) : M db (option project_row) :=
  gets (λ s, projects s !! pid).
Definition fetch_node (pid nk : string) : M db (option node_row) :=
  gets (λ s, nodes s !! (pid, nk)).

(** [_project] *)
Definition project (pid : string) : M db project_row :=
  pid ← lift (key pid "key");
  row ← fetch_project pid;
  get_some row (StateNotFound "state project not found").

(** [_node] *)
Definition node (pid nk : string) : M db node_row :=
  pid ← lift (key pid "key");
  nk ← lift (key nk "key");
  row ← fetch_node pid nk;
  get_some row (StateNotFound "state node not found").

Definition deps_at (s : db) (pid nk : string) : gset string := default ∅ (deps s !! (pid, nk)).

(** [_graph]: the nodes of a project and the dependency lists of [ORDER BY]. *)
Definition nodes_of (s : db) (pid : string) : gmap string node_row := slice (nodes s) pid.
Definition graph_of (s : db) (pid : string) : graph :=
  map_imap (λ nk _, Some (sorted_set (deps_at s pid nk))) (nodes_of s pid).
Definition facets_of (ns : gmap string node_row) : facets := n_facet <$> ns.

(** [dependency_snapshot]: one entry per dependency that has a node row. *)
Record dep_view : Type := DepView {
  dv_revision : Z; dv_hash : string; dv_status : node_status; dv_receipt : option string }.
Definition view_of (n : node_row) : dep_view :=
  DepView (n_revision n) (n_hash n) (n_status n) (n_receipt n).
Definition dependency_snapshot (s : db) (pid nk : string) : gmap string dep_view :=
  view_of <$> filter (λ kv, kv.1 ∈ deps_at s pid nk) (nodes_of s pid).
Definition dep_view_json (nk : string) (d : dep_view) : json :=
  jobj [("node_key", JStr nk); ("revision", JInt (dv_revision d));
        ("contract_hash", JStr (dv_hash d)); ("status", JStr (node_status_text (dv_status d)));
        ("verified_receipt", jopt JStr (dv_receipt d))].
Definition snapshot_json (m : gmap string dep_view) : json :=
  JObj (map_imap (λ nk d, Some (dep_view_json nk d)) m).
Definition snapshot_verified (m : gmap string dep_view) : bool :=
  forallb (λ p, bool_decide (dv_status p.2 = VERIFIED) && bool_decide (is_Some (dv_receipt p.2)))
    (map_to_list m).

(** Rows of [state_dependencies] that point at [k]. *)
Definition dependents_at (s : db) (pid k : string) : list string :=
  (map_to_list (filter (λ kv, k ∈ kv.2) (slice (deps s) pid))).*1.
Definition dependency_keys (s : db) (pid : string) : gset string :=
  ⋃ (map_to_list (slice (deps s) pid)).*2.

(** The recursive query of [_invalidate]: the node and its transitive dependents. *)
Definition affected (s : db) (pid nk : string) : list string :=
  sorted_set (closure (dependents_at s pid) (dependency_keys s pid) [nk]).

(** ** Writes *)
Section writes.
Context `{Host}.

(** [_event] *)
Definition event (pid : string) (nk : option string) (ty : string) (payload : json)
    : M db unit :=
  stamp ← now;
  modify (λ s, s <| events ::= (λ l, l ++ [EventRow (S (length l)) pid nk ty payload stamp]) |>).

Definition update_node (pid nk : string) (f : node_row → node_row) : M db unit :=
  modify (λ s, s <| nodes ::= alter f (pid, nk) |>).
Definition insert_deps (pid nk : string) (ds : list string) : M db unit :=
  modify (λ s, s <| deps ::= partial_alter (λ o, Some (default ∅ o ∪ list_to_set ds)) (pid, nk) |>).
Definition delete_deps (pid nk : string) : M db unit :=
  modify (λ s, s <| deps ::= delete (pid, nk) |>).

(** [_snapshot_revision] *)
Definition snapshot_revision (pid nk : string) (n : node_row) (ds : list string) : M db unit :=
  stamp ← now;
  modify (λ s, s <| revisions ::= (λ l, l ++ [RevisionRow pid nk (n_revision n) (n_goal n)
    (n_contract n) (n_hash n) ds stamp]) |>).

(** One row of the [executemany] of [_invalidate]. *)
Definition stale (stamp : Z) (n : node_row) : node_row :=
  if bool_decide (n_status n = SUPERSEDED) then n
  else n <| n_status := STALE |> <| n_receipt := None |> <| n_updated := stamp |>.

Definition invalidate (pid nk : string) : M db (list string) :=
  keys ← gets (λ s, affected s pid nk);
  for_each (λ k, stamp ← now; update_node pid k (stale stamp)) keys;;
  mret keys.

(** *** Projects *)
Definition create_project (pid : string) (title : json) (source : option string)
    : M db project_row :=
  _ ← lift (key pid "key");
  title ← lift (text title "title" 400);
  match source with
  | Some src => _ ← lift (key src "source project"); mret tt
  | None => mret tt
  end;;
  existing ← fetch_project pid;
  match existing with
  | Some row =>
    require (bool_decide (pr_title row = title) && bool_decide (pr_source row = source))
      (StateConflict "project identity already exists with different settings");;
    mret row
  | None =>
    stamp ← now;
    modify (λ s, s <| projects ::= <[pid := ProjectRow title source stamp]> |>);;
    event pid None "project_created"
      (jobj [("title", JStr title); ("source_project_id", jopt JStr source)]);;
    project pid
  end.

Definition visibility_of (s : db) (pid : string) : visibility :=
  match access s !! pid with Some row => ac_visibility row | None => Private end.

(** [list_projects]: identifiers in [ORDER BY project_id] order. *)
Definition list_projects (trusted : bool) (public_only : option bool) (s : db) : list string :=
  let public_only := if trusted then default false public_only else true in
  List.filter (λ pid, negb public_only || bool_decide (visibility_of s pid = Public))
    (sorted_set (dom (projects s))).

Definition is_project_public (pid : string) : M db bool :=
  pid ← lift (key pid "key");
  gets (λ s, bool_decide (visibility_of s pid = Public)).

Definition public_project_ids (s : db) : gset string :=
  dom (filter (λ kv, ac_visibility kv.2 = Public) (access s)).

Definition parse_visibility (v : string) : option visibility :=
  if bool_decide (v = "private") then Some Private
  else if bool_decide (v = "public") then Some Public else None.

Definition set_project_access (pid vis actor : string) : M db access_row :=
  v ← get_some (parse_visibility vis) (StateGraphError "visibility must be 'private' or 'public'");
  pid ← lift (key pid "key");
  stamp ← now;
  _ ← project pid;
  row ← gets (λ s, access s !! pid);
  let opening := bool_decide (v = Public) &&
    negb (bool_decide (ac_visibility <$> row = Some Public)) in
  let opened_by := if opening then Some actor else row ≫= ac_opened_by in
  let opened_at := if opening then Some stamp else row ≫= ac_opened_at in
  let new := AccessRow v opened_by opened_at actor stamp in
  modify (λ s, s <| access ::= <[pid := new]> |>);;
  event pid None (if bool_decide (v = Public) then "project_opened" else "project_closed")
    (jobj [("visibility", JStr vis); ("actor", JStr actor)]);;
  mret new.
End writes.

(** ** Adding nodes *)
Record prepared : Type := Prepared {
  p_key : string; p_goal : string; p_checks : list check; p_deps : list string;
  p_priority : Z; p_facet : option facet }.

Definition SPEC_FIELDS : list string :=
  ["key"; "goal"; "acceptance"; "dependencies"; "priority"; "facet"].

Definition superseded_in (old : gmap string node_row) (d : string) : bool :=
  bool_decide (n_status <$> old !! d = Some SUPERSEDED).

(** One element of [specs]: the validators in the order of the source. *)
Definition prepare_one (old : gmap string node_row) (spec : json) (g : graph) : res prepared :=
  match spec with
  | JObj m =>
    ensure (only_fields m SPEC_FIELDS)
      (StateGraphError "unknown node fields; workflow progress is not a state-node property");;
    nk ← key (field m "key") "node key";
    ensure (bool_decide (g !! nk = None)) (StateConflict "duplicate node key");;
    goal ← text (field m "goal") "goal" 20000;
    checks ← contract (field m "acceptance");
    ds ← dependencies (default (JArr []) (m !! "dependencies"));
    priority ← integer (default (JInt 0) (m !! "priority")) "priority" (-100000) 100000;
    own ← check_facet (field m "facet");
    ensure (negb (existsb (superseded_in old) ds))
      (StateConflict "cannot depend on a superseded node");;
    Ok (Prepared nk goal checks ds priority own)
  | _ => Err (StateGraphError "unknown node fields; workflow progress is not a state-node property")
  end.

Fixpoint prepare (old : gmap string node_row) (specs : list json) (g : graph) (fs : facets)
    : res (list prepared * graph * facets) :=
  match specs with
  | [] => Ok ([], g, fs)
  | spec :: specs =>
    p ← prepare_one old spec g;
    '(ps, g, fs) ← prepare old specs (<[p_key p := p_deps p]> g) (<[p_key p := p_facet p]> fs);
    Ok (p :: ps, g, fs)
  end.

Section operations.
Context `{Host}.

Definition contract_digest (cs : list check) : string := digest (contract_json_of cs).

Definition new_node (p : prepared) (stamp : Z) : node_row :=
  NodeRow 1 (p_goal p) (p_checks p) (contract_digest (p_checks p)) OPEN (p_priority p)
    None stamp stamp (p_facet p).
Definition insert_node (pid : string) (p : prepared) : M db unit :=
  stamp ← now;
  modify (λ s, s <| nodes ::= <[(pid, p_key p) := new_node p stamp]> |>).

Definition insert_edges (pid : string) (p : prepared) : M db unit :=
  insert_deps pid (p_key p) (p_deps p);;
  n ← node pid (p_key p);
  snapshot_revision pid (p_key p) n (p_deps p);;
  event pid (Some (p_key p)) "node_created"
    (jobj [("revision", JInt 1); ("dependencies", jstrs (p_deps p));
           ("contract_hash", JStr (contract_digest (p_checks p)));
           ("facet", jopt (JStr ∘ facet_text) (p_facet p))]).

(** [_add] *)
Definition add (pid : string) (specs : json) : M db (list string) :=
  _ ← project pid;
  match specs with
  | JArr l =>
    require ((1 <=? length l) && (length l <=? 200))
      (StateGraphError "add_nodes requires 1-200 nodes per transaction");;
    old ← gets (λ s, nodes_of s pid);
    g ← gets (λ s, graph_of s pid);
    '(ps, g, fs) ← lift (prepare old l g (facets_of old));
    lift (validate_dag g);;
    lift (check_facets fs g);;
    for_each (insert_node pid) ps;;
    for_each (insert_edges pid) ps;;
    mret (p_key <$> ps)
  | _ => raise (StateGraphError "add_nodes requires 1-200 nodes per transaction")
  end.
Definition add_nodes : string → json → M db (list string) := add.

(** ** Facets and priorities *)
Record facet_result : Type := FacetResult {
  fa_facet : facet; fa_previous : option facet; fa_changed : bool }.

(** [_set_facet] *)
Definition set_facet (pid nk : string) (value : json) : M db facet_result :=
  own ← lift (check_facet value);
  own ← get_some own (StateGraphError "facet is required");
  n ← node pid nk;
  if bool_decide (n_facet n = Some own) then mret (FacetResult own (Some own) false)
  else
    require (bool_decide (n_facet n = None) || bool_decide (n_receipt n = None))
      (StateConflict "a verified node keeps its facet");;
    ns ← gets (λ s, nodes_of s pid);
    g ← gets (λ s, graph_of s pid);
    lift (check_facets (<[nk := Some own]> (facets_of ns)) g);;
    stamp ← now;
    update_node pid nk (λ r, r <| n_facet := Some own |> <| n_updated := stamp |>);;
    event pid (Some nk) "node_facet_set"
      (jobj [("facet", JStr (facet_text own)); ("previous", jopt (JStr ∘ facet_text) (n_facet n));
             ("revision", JInt (n_revision n))]);;
    mret (FacetResult own (n_facet n) true).
Definition set_node_facet : string → string → json → M db facet_result := set_facet.

Record priority_result : Type := PriorityResult {
  pp_priority : Z; pp_previous : Z; pp_revision : Z; pp_changed : bool }.

Definition set_node_priority (pid nk : string) (priority expected_priority reason : json)
    (actor director_identity : option string) : M db priority_result :=
  priority ← lift (integer priority "priority" (-100000) 100000);
  expected ← lift (integer expected_priority "expected_priority" (-100000) 100000);
  reason ← lift (text reason "priority reason" 4000);
  n ← node pid nk;
  let current := n_priority n in
  require (bool_decide (current = expected))
    (StateConflict "node priority changed; reload before reprioritizing");;
  if bool_decide (current = priority)
  then mret (PriorityResult priority current (n_revision n) false)
  else
    stamp ← now;
    update_node pid nk (λ r, r <| n_priority := priority |> <| n_updated := stamp |>);;
    event pid (Some nk) "node_priority_set"
      (jobj ([("previous", JInt current); ("current", JInt priority);
              ("revision", JInt (n_revision n)); ("reason", JStr reason)]
             ++ match actor with Some a => [("actor", JStr a)] | None => [] end
             ++ match director_identity with
                | Some d => [("director_identity", JStr d)] | None => [] end));;
    mret (PriorityResult priority current (n_revision n) true).

(** ** Revisions *)
Record revise_result : Type := ReviseResult { re_revision : Z; re_invalidated : list string }.

(** [_revise]; [None] for a keyword the caller left out. *)
Definition revise (pid nk : string) (expected_revision reason : json)
    (goal acceptance ds : option json) : M db revise_result :=
  old ← node pid nk;
  expected ← lift (integer expected_revision "expected_revision" 1 1000000);
  reason ← lift (text reason "revision reason" 4000);
  require (bool_decide (n_revision old = expected))
    (StateConflict "node revision changed; reload before editing");;
  require (bool_decide (n_status old ≠ SUPERSEDED))
    (StateConflict "a superseded node cannot be revised");;
  ns ← gets (λ s, nodes_of s pid);
  g ← gets (λ s, graph_of s pid);
  g ← match ds with
      | Some ds => ds ← lift (dependencies ds); mret (<[nk := ds]> g)
      | None => mret g
      end;
  require (negb (existsb (superseded_in ns) (preds g nk)))
    (StateConflict "cannot depend on a superseded node");;
  lift (validate_dag g);;
  lift (check_facets (facets_of ns) g);;
  new_goal ← match goal with
             | Some goal => lift (text goal "goal" 20000)
             | None => mret (n_goal old)
             end;
  checks ← match acceptance with
           | Some acceptance => lift (contract acceptance)
           | None => mret (n_contract old)
           end;
  let revision := (expected + 1)%Z in
  invalidated ← invalidate pid nk;
  stamp ← now;
  update_node pid nk (λ r, r <| n_revision := revision |> <| n_goal := new_goal |>
    <| n_contract := checks |> <| n_hash := contract_digest checks |> <| n_updated := stamp |>);;
  delete_deps pid nk;;
  insert_deps pid nk (preds g nk);;
  n ← node pid nk;
  snapshot_revision pid nk n (preds g nk);;
  event pid (Some nk) "node_revised"
    (jobj [("revision", JInt revision); ("reason", JStr reason);
           ("invalidated", jstrs invalidated)]);;
  mret (ReviseResult revision invalidated).
Definition revise_node : string → string → json → json →
    option json → option json → option json → M db revise_result := revise.

(** [_split]: children first, then the parent's new dependency list. *)
Definition split (pid nk : string) (expected_revision children reason : json)
    : M db (revise_result * list string) :=
  _ ← node pid nk;
  new_keys ← add pid children;
  g ← gets (λ s, graph_of s pid);
  result ← revise pid nk expected_revision reason None None
             (Some (jstrs (sorted_set (list_to_set (preds g nk) ∪ list_to_set new_keys))));
  mret (result, new_keys).
Definition split_node : string → string → json → json → json →
    M db (revise_result * list string) := split.

(** [_supersede]: [None] when the node already was superseded. *)
Definition supersede (pid nk : string) (expected_revision reason : json)
    : M db (option (list string)) :=
  old ← node pid nk;
  expected ← lift (integer expected_revision "expected_revision" 1 1000000);
  reason ← lift (text reason "supersession reason" 4000);
  require (bool_decide (n_revision old = expected)) (StateConflict "node revision changed");;
  if bool_decide (n_status old = SUPERSEDED) then mret None
  else
    invalidated ← invalidate pid nk;
    stamp ← now;
    update_node pid nk (λ r, r <| n_status := SUPERSEDED |> <| n_updated := stamp |>);;
    event pid (Some nk) "node_superseded"
      (jobj [("reason", JStr reason); ("invalidated", jstrs invalidated)]);;
    mret (Some invalidated).
Definition supersede_node : string → string → json → json → M db (option (list string)) :=
  supersede.

(** [events]: the page after [after], oldest first. *)
Definition list_events (pid : string) (after limit : json) : M db (list event_row) :=
  after ← lift (integer after "after" 0 (2 ^ 63 - 1));
  limit ← lift (integer limit "limit" 1 500);
  _ ← project pid;
  rows ← gets (λ s, select (λ e, bool_decide (e_project e = pid) &&
                                 (after <? Z.of_nat (e_seq e))%Z) (events s));
  mret (take (Z.to_nat limit) rows).
End operations.

(** ** Basic facts *)
Lemma key_ok v label k : key v label = Ok k ↔ v = JStr k ∧ KEY k = true.
Proof.
  unfold key. destruct v as [| | |s| |]; try (by split; [|intros [? _]]).
  destruct (KEY s) eqn:E; split; [by intros [= ->]|by intros [[= ->] _]|done|].
  intros [[= ->] ?]. congruence.
Qed.
Lemma dependencies_ok v ds :
  dependencies v = Ok ds → NoDup ds ∧ StronglySorted String.le ds.
Proof.
  unfold dependencies. destruct v; try done. intros H. res_inv_all. bsimpl.
  split; [by apply py_sorted_NoDup|apply py_sorted_sorted].
Qed.
Lemma dependencies_set v ds : dependencies v = Ok ds → sorted_set (list_to_set ds) = ds.
Proof.
  intros [Hn Hs]%dependencies_ok. rewrite sorted_set_list by done. by apply py_sorted_id.
Qed.

Lemma lookup_nodes_of s pid k : nodes_of s pid !! k = nodes s !! (pid, k).
Proof. apply lookup_slice. Qed.
Lemma lookup_graph_of s pid k :
  graph_of s pid !! k = (λ _, sorted_set (deps_at s pid k)) <$> nodes s !! (pid, k).
Proof.
  unfold graph_of. rewrite map_lookup_imap, lookup_nodes_of.
  by destruct (nodes s !! (pid, k)).
Qed.
Lemma lookup_facets_of s pid k :
  facets_of (nodes_of s pid) !! k = n_facet <$> nodes s !! (pid, k).
Proof. unfold facets_of. by rewrite lookup_fmap, lookup_nodes_of. Qed.

Section basics.
Context {A : Type}.
Lemma wp_fetch_node pid nk (Q : option node_row → db → Prop) s :
  Q (nodes s !! (pid, nk)) s → wp (fetch_node pid nk) Q s.
Proof. done. Qed.
Lemma wp_project pid (Q : project_row → db → Prop) s :
  (∀ row, projects s !! pid = Some row → KEY pid = true → Q row s) → wp (project pid) Q s.
Proof.
  intros HQ. unfold project, fetch_project. wp_run_all.
  match goal with H : key _ _ = Ok _ |- _ => apply key_ok in H as [E ?] end.
  simplify_eq. by apply HQ.
Qed.
Lemma wp_node pid nk (Q : node_row → db → Prop) s :
  (∀ n, nodes s !! (pid, nk) = Some n → KEY pid = true → KEY nk = true → Q n s) →
  wp (node pid nk) Q s.
Proof.
  intros HQ. unfold node, fetch_node. wp_run_all.
  repeat match goal with H : key _ _ = Ok _ |- _ => apply key_ok in H as [? ?] end.
  simplify_eq. by apply HQ.
Qed.
End basics.

Lemma untouched_project {B} (f : db → B) pid : untouched f (project pid).
Proof. intros s. by apply wp_project. Qed.
Lemma untouched_node {B} (f : db → B) pid nk : untouched f (node pid nk).
Proof. intros s. by apply wp_node. Qed.
#[export] Hint Resolve untouched_project untouched_node : untouched.

Ltac wp_store :=
  first
    [ wp_step
    | lazymatch goal with
      | |- wp now _ _ => apply wp_now; intros ?
      | |- wp uuid4 _ _ => apply wp_uuid4; intros ?
      | |- wp (project _) _ _ => apply wp_project; intros ???
      | |- wp (node _ _) _ _ => apply wp_node; intros ????
      | |- wp (fetch_node _ _) _ _ => apply wp_fetch_node
      end ].
Ltac wp_all := repeat (wp_store; cbv beta).

(** The part of the state the graph rules talk about. *)
Definition shape (s : db) : gmap (string * string) (option facet) * gmap (string * string) (gset string) :=
  (n_facet <$> nodes s, deps s).

Lemma graph_of_shape s s' pid : shape s = shape s' → graph_of s pid = graph_of s' pid.
Proof.
  intros E. injection E as En Ed. apply map_eq. intros k. rewrite !lookup_graph_of.
  unfold deps_at. rewrite Ed. apply (f_equal (lookup (pid, k))) in En.
  rewrite !lookup_fmap in En. destruct (nodes s !! _), (nodes s' !! _); naive_solver.
Qed.
Lemma facets_of_shape s s' pid :
  shape s = shape s' → facets_of (nodes_of s pid) = facets_of (nodes_of s' pid).
Proof.
  intros E. injection E as En Ed. apply map_eq. intros k. rewrite !lookup_facets_of.
  apply (f_equal (lookup (pid, k))) in En. by rewrite !lookup_fmap in En.
Qed.

Lemma fmap_alter_id {K A B} `{Countable K} (g : A → B) (f : A → A) (k : K) (m : gmap K A) :
  (∀ x, m !! k = Some x → g (f x) = g x) → g <$> alter f k m = g <$> m.
Proof.
  intros Hf. apply map_eq. intros j. rewrite !lookup_fmap.
  destruct (decide (j = k)) as [->|]; [|by rewrite lookup_alter_ne].
  rewrite lookup_alter_eq. destruct (m !! k) eqn:E; simpl; [|done]. f_equal. by apply Hf.
Qed.

(** ** Frames *)
Section frames.
Context `{Host} {B : Type}.

Lemma untouched_event (f : db → B) pid nk ty payload :
  (∀ s t, f (s <| ticks := t |>) = f s) → (∀ s e, f (s <| events := e |>) = f s) →
  untouched f (event pid nk ty payload).
Proof.
  intros Ht He. apply untouched_bind.
  - intros s. apply Ht.
  - intros stamp. apply untouched_modify. intros s. apply He.
Qed.
Lemma untouched_now (f : db → B) : (∀ s t, f (s <| ticks := t |>) = f s) → untouched f now.
Proof. intros Ht s. apply Ht. Qed.

Lemma untouched_update_node (f : db → B) pid nk g :
  (∀ s v, f (s <| nodes := v |>) = f s) → untouched f (update_node pid nk g).
Proof. intros Hf. apply untouched_modify. intros. apply Hf. Qed.
Lemma untouched_shape_update_node pid nk g :
  (∀ n, n_facet (g n) = n_facet n) → untouched shape (update_node pid nk g).
Proof.
  intros Hg. apply untouched_modify. intros s. unfold shape. simpl. f_equal.
  apply fmap_alter_id. auto.
Qed.
End frames.
#[export] Hint Extern 1 (untouched _ (event _ _ _ _)) =>
  apply untouched_event; intros; reflexivity : untouched.
#[export] Hint Extern 1 (untouched _ now) => apply untouched_now; intros; reflexivity : untouched.
#[export] Hint Extern 1 (untouched shape (update_node _ _ _)) =>
  apply untouched_shape_update_node; intros; reflexivity : untouched.
#[export] Hint Extern 2 (untouched _ (update_node _ _ _)) =>
  apply untouched_update_node; intros; reflexivity : untouched.

(** ** What a revision invalidates *)
Definition depends_on (s : db) (pid : string) (x y : string) : Prop := y ∈ deps_at s pid x.

Lemma elem_of_dependents_at s pid k x : x ∈ dependents_at s pid k ↔ depends_on s pid x k.
Proof.
  unfold dependents_at, depends_on, deps_at. rewrite list_elem_of_fmap. split.
  - intros ([y D] & -> & Hy). apply elem_of_map_to_list in Hy.
    apply map_lookup_filter_Some in Hy as [Hy Hk]. rewrite lookup_slice in Hy.
    simpl in *. by rewrite Hy.
  - intros Hk. destruct (deps s !! (pid, x)) as [D|] eqn:E; [|done].
    exists (x, D). split; [done|]. apply elem_of_map_to_list, map_lookup_filter_Some.
    by rewrite lookup_slice.
Qed.

Lemma elem_of_affected s pid nk x : x ∈ affected s pid nk ↔ rtc (depends_on s pid) x nk.
Proof.
  unfold affected. rewrite elem_of_sorted_set, elem_of_closure.
  - setoid_rewrite list_elem_of_singleton. split.
    + intros (? & -> & Hr). induction Hr as [|a b c Hab _ IH]; [done|].
      apply elem_of_dependents_at in Hab. by eapply rtc_r.
    + intros Hr. exists nk. split; [done|]. induction Hr as [|a b c Hab _ IH]; [done|].
      eapply rtc_r; [done|]. by apply elem_of_dependents_at.
  - intros k Hk. destruct (dependents_at s pid k) as [|x' l] eqn:E; [done|].
    assert (x' ∈ dependents_at s pid k) as Hx by (rewrite E; left).
    apply elem_of_dependents_at in Hx. unfold depends_on, deps_at in Hx.
    destruct (deps s !! (pid, x')) as [D|] eqn:HD; [|done].
    unfold dependency_keys. apply elem_of_union_list. exists D. split; [|done].
    apply list_elem_of_fmap. exists (x', D). split; [done|].
    apply elem_of_map_to_list. by rewrite lookup_slice.
Qed.

Lemma affected_NoDup s pid nk : NoDup (affected s pid nk).
Proof. apply sorted_set_NoDup. Qed.

(** The node set after [_invalidate]. *)
Record invalidated (pid nk : string) (s s' : db) : Prop := {
  iv_hit : ∀ k, k ∈ affected s pid nk → ∃ t, nodes s' !! (pid, k) = stale t <$> nodes s !! (pid, k);
  iv_miss : ∀ q k, q ≠ pid ∨ k ∉ affected s pid nk → nodes s' !! (q, k) = nodes s !! (q, k);
  iv_rest : s' = s <| nodes := nodes s' |> <| ticks := ticks s' |>;
}.

Lemma stale_facet t n : n_facet (stale t n) = n_facet n.
Proof. unfold stale. by case_bool_decide. Qed.

Section invalidate.
Context `{Host}.

Lemma invalidate_run pid nk s :
  wp (invalidate pid nk) (λ keys s', keys = affected s pid nk ∧ invalidated pid nk s s') s.
Proof.
  unfold invalidate. wp_step. wp_step. cbv beta. wp_step.
  pose proof (affected_NoDup s pid nk) as Hnd.
  eapply wp_mono.
  - apply (wp_for_each _ (affected s pid nk) (λ done s',
      (∀ k, k ∈ done → ∃ t, nodes s' !! (pid, k) = stale t <$> nodes s !! (pid, k)) ∧
      (∀ q k, q ≠ pid ∨ k ∉ done → nodes s' !! (q, k) = nodes s !! (q, k)) ∧
      s' = s <| nodes := nodes s' |> <| ticks := ticks s' |>)).
    { split_and!; [by intros k ?%elem_of_nil|done|by destruct s]. }
    intros done x rest s' Hl (H1 & H2 & H3). wp_all.
    unfold update_node. wp_all. rewrite Hl in Hnd.
    assert (x ∉ done) as Hx.
    { apply NoDup_app in Hnd as (_ & Hd & _). intros Hx. eapply Hd; [done|left]. }
    split_and!.
    + intros k. rewrite elem_of_app, list_elem_of_singleton. simpl. intros [Hk| ->].
      * rewrite lookup_alter_ne by naive_solver. auto.
      * rewrite lookup_alter_eq. eexists. by rewrite H2 by auto.
    + intros q k Hqk. rewrite elem_of_app, list_elem_of_singleton in Hqk. simpl.
      rewrite lookup_alter_ne by naive_solver. apply H2. naive_solver.
    + rewrite H3. by destruct s.
  - intros [] s' (H1 & H2 & H3). wp_all. split; [done|]. by split.
Qed.

Lemma untouched_invalidate {B} (f : db → B) pid nk :
  (∀ s t, f (s <| ticks := t |>) = f s) → (∀ s v, f (s <| nodes := v |>) = f s) →
  untouched f (invalidate pid nk).
Proof.
  intros Ht Hn. unfold invalidate. apply untouched_bind; [done|]. intros keys.
  apply untouched_bind; [|done]. apply untouched_for_each. intros k.
  apply untouched_bind; [by apply untouched_now|]. intros t. by apply untouched_update_node.
Qed.
Lemma untouched_shape_invalidate pid nk : untouched shape (invalidate pid nk).
Proof.
  unfold invalidate. frame. apply untouched_shape_update_node. intros. apply stale_facet.
Qed.
End invalidate.
#[export] Hint Resolve untouched_shape_invalidate : untouched.
#[export] Hint Extern 2 (untouched _ (invalidate _ _)) =>
  apply untouched_invalidate; intros; reflexivity : untouched.

(** ** The graph invariant *)
Record graph_inv (s : db) : Prop := {
  gi_rows : ∀ p k, nodes s !! (p, k) = None → deps_at s p k = ∅;
  gi_size : ∀ p, size (graph_of s p) ≤ MAX_NODES;
  gi_closed : ∀ p, closed (graph_of s p);
  gi_acyclic : ∀ p, acyclic (graph_of s p);
  gi_facets : ∀ p, facet_clean (facets_of (nodes_of s p)) (graph_of s p);
}.

Lemma graph_inv_shape s s' : shape s' = shape s → graph_inv s → graph_inv s'.
Proof.
  intros E [H1 H2 H3 H4 H5].
  assert (∀ p, graph_of s' p = graph_of s p) as Eg by (intros; by apply graph_of_shape).
  split; try (intros p; rewrite Eg; auto).
  - intros p k Hn. injection E as En Ed. unfold deps_at. rewrite Ed. apply H1.
    apply (f_equal (lookup (p, k))) in En. rewrite !lookup_fmap, Hn in En.
    by destruct (nodes s !! (p, k)).
  - rewrite (facets_of_shape s' s) by done. auto.
Qed.

Lemma graph_inv_empty : graph_inv empty_db.
Proof.
  assert (∀ p, graph_of empty_db p = ∅) as Eg.
  { intros p. apply map_eq. intros k. by rewrite lookup_graph_of. }
  split; try (intros p; rewrite Eg).
  - done.
  - rewrite map_size_empty. lia.
  - intros x y. unfold edge, preds. rewrite lookup_empty. by intros ?%elem_of_nil.
  - intros x Hx. assert (∃ y, edge ∅ x y) as [y Hy] by (inversion Hx; subst; eauto).
    unfold edge, preds in Hy. rewrite lookup_empty in Hy. by apply elem_of_nil in Hy.
  - intros k own. by rewrite lookup_facets_of.
Qed.

(** ** Preparation *)
Record prepares (old : gmap string node_row) (g : graph) (fs : facets)
    (ps : list prepared) (g' : graph) (fs' : facets) : Prop := {
  pr_nodup : NoDup (p_key <$> ps);
  pr_fresh : ∀ p, p ∈ ps → g !! p_key p = None;
  pr_graph : ∀ p, p ∈ ps → g' !! p_key p = Some (p_deps p);
  pr_facet : ∀ p, p ∈ ps → fs' !! p_key p = Some (p_facet p);
  pr_graph_old : ∀ k, k ∉ p_key <$> ps → g' !! k = g !! k;
  pr_facet_old : ∀ k, k ∉ p_key <$> ps → fs' !! k = fs !! k;
  pr_sorted : ∀ p, p ∈ ps → sorted_set (list_to_set (p_deps p)) = p_deps p;
  pr_alive : ∀ p d, p ∈ ps → d ∈ p_deps p → superseded_in old d = false;
}.

Lemma prepare_one_ok old spec g p :
  prepare_one old spec g = Ok p →
  g !! p_key p = None ∧ KEY (p_key p) = true ∧
  sorted_set (list_to_set (p_deps p)) = p_deps p ∧
  ∀ d, d ∈ p_deps p → superseded_in old d = false.
Proof.
  unfold prepare_one. destruct spec; try done. intros H. res_inv_all. bsimpl. simpl.
  repeat match goal with H : key _ _ = Ok _ |- _ => apply key_ok in H as [? ?] end.
  split_and!; [done|done|by eapply dependencies_set|].
  intros d Hd. destruct (superseded_in old d) eqn:Hs; [|done].
  match goal with H : existsb _ _ = false |- _ => rewrite <- H end. symmetry.
  apply existsb_exists. exists d. by rewrite <- list_elem_of_In.
Qed.

Lemma prepare_ok old specs g fs ps g' fs' :
  prepare old specs g fs = Ok (ps, g', fs') → prepares old g fs ps g' fs'.
Proof.
  revert g fs ps g' fs'. induction specs as [|spec specs IH]; intros g fs ps g' fs' H.
  - simpl in H. simplify_eq. split; try (by intros ? ?%elem_of_nil); try done.
    + constructor.
    + by intros ? ? ?%elem_of_nil.
  - cbn [prepare] in H. apply res_bind_ok in H as (p & Hp & H).
    apply res_bind_ok in H as ([[ps1 g1] fs1] & H1 & H). simplify_eq.
    apply prepare_one_ok in Hp as (Hf & _ & Hs & Ha).
    apply IH in H1 as [I1 I2 I3 I4 I5 I6 I7 I8].
    assert (∀ q, q ∈ ps1 → p_key q ≠ p_key p) as Hne.
    { intros q Hq E. apply I2 in Hq. rewrite E, lookup_insert_eq in Hq. done. }
    assert (p_key p ∉ p_key <$> ps1) as Hnotin.
    { intros (q & E & Hq)%list_elem_of_fmap. by apply (Hne q). }
    split; try (intros q; rewrite elem_of_cons; intros [->|Hq]).
    + apply NoDup_cons. done.
    + done.
    + specialize (I2 _ Hq). rewrite lookup_insert_ne in I2; [done|]. intros E.
      by apply (Hne q).
    + by rewrite I5, lookup_insert_eq.
    + auto.
    + by rewrite I6, lookup_insert_eq.
    + auto.
    + intros k. rewrite fmap_cons, elem_of_cons. intros Hk.
      rewrite I5, lookup_insert_ne by naive_solver. done.
    + intros k. rewrite fmap_cons, elem_of_cons. intros Hk.
      rewrite I6, lookup_insert_ne by naive_solver. done.
    + done.
    + auto.
    + intros q d. rewrite elem_of_cons. intros [->|Hq]; eauto.
Qed.

(** ** What [_add] does *)
Section add.
Context `{Host}.

Definition new_revision (pid : string) (p : prepared) (stamp : Z) : revision_row :=
  RevisionRow pid (p_key p) 1 (p_goal p) (p_checks p) (contract_digest (p_checks p))
    (p_deps p) stamp.

Record added (pid : string) (ps : list prepared) (g : graph) (fs : facets) (s s' : db) : Prop := {
  ad_prep : prepares (nodes_of s pid) (graph_of s pid) (facets_of (nodes_of s pid)) ps g fs;
  ad_dag : validate_dag g = Ok tt;
  ad_clean : facet_clean fs g;
  ad_nodes : ∀ p, p ∈ ps → ∃ t, nodes s' !! (pid, p_key p) = Some (new_node p t);
  ad_nodes_old : ∀ q k, q ≠ pid ∨ k ∉ p_key <$> ps → nodes s' !! (q, k) = nodes s !! (q, k);
  ad_deps : ∀ p, p ∈ ps →
    deps_at s' pid (p_key p) = deps_at s pid (p_key p) ∪ list_to_set (p_deps p);
  ad_deps_old : ∀ q k, q ≠ pid ∨ k ∉ p_key <$> ps → deps s' !! (q, k) = deps s !! (q, k);
  ad_revs : ∃ ts, length ts = length ps ∧
    revisions s' = revisions s ++ zip_with (new_revision pid) ps ts;
  ad_events : events s `prefix_of` events s';
  ad_rest : s' = s <| nodes := nodes s' |> <| deps := deps s' |>
    <| revisions := revisions s' |> <| events := events s' |> <| ticks := ticks s' |>;
}.

Lemma insert_nodes_run pid ps s :
  NoDup (p_key <$> ps) →
  wp (for_each (insert_node pid) ps) (λ _ s',
    (∀ p, p ∈ ps → ∃ t, nodes s' !! (pid, p_key p) = Some (new_node p t)) ∧
    (∀ q k, q ≠ pid ∨ k ∉ p_key <$> ps → nodes s' !! (q, k) = nodes s !! (q, k)) ∧
    s' = s <| nodes := nodes s' |> <| ticks := ticks s' |>) s.
Proof.
  intros Hnd. apply (wp_for_each _ ps (λ done s',
    (∀ p, p ∈ done → ∃ t, nodes s' !! (pid, p_key p) = Some (new_node p t)) ∧
    (∀ q k, q ≠ pid ∨ k ∉ p_key <$> done → nodes s' !! (q, k) = nodes s !! (q, k)) ∧
    s' = s <| nodes := nodes s' |> <| ticks := ticks s' |>)).
  { split_and!; [by intros ? ?%elem_of_nil|done|by destruct s]. }
  intros done x rest s' -> (H1 & H2 & H3). unfold insert_node. wp_all.
  rewrite fmap_app, fmap_cons in Hnd.
  assert (∀ p, p ∈ done → p_key p ≠ p_key x) as Hx.
  { intros p Hp E. apply NoDup_app in Hnd as (_ & Hd & _). apply (Hd (p_key x)); [|left].
    rewrite <- E. by apply list_elem_of_fmap_2. }
  split_and!; simpl.
  - intros p. rewrite elem_of_app, list_elem_of_singleton. intros [Hp| ->].
    + rewrite lookup_insert_ne by (intros [=]; by eapply Hx). auto.
    + rewrite lookup_insert_eq. by eexists.
  - intros q k Hqk. rewrite fmap_app, list_fmap_singleton, elem_of_app, list_elem_of_singleton in Hqk.
    rewrite lookup_insert_ne by naive_solver. apply H2. naive_solver.
  - rewrite H3. by destruct s.
Qed.

Lemma insert_edges_run pid ps s :
  NoDup (p_key <$> ps) →
  (∀ p, p ∈ ps → ∃ t, nodes s !! (pid, p_key p) = Some (new_node p t)) →
  wp (for_each (insert_edges pid) ps) (λ _ s',
    (∀ p, p ∈ ps →
       deps_at s' pid (p_key p) = deps_at s pid (p_key p) ∪ list_to_set (p_deps p)) ∧
    (∀ q k, q ≠ pid ∨ k ∉ p_key <$> ps → deps s' !! (q, k) = deps s !! (q, k)) ∧
    (∃ ts, length ts = length ps ∧
       revisions s' = revisions s ++ zip_with (new_revision pid) ps ts) ∧
    events s `prefix_of` events s' ∧
    s' = s <| deps := deps s' |> <| revisions := revisions s' |>
           <| events := events s' |> <| ticks := ticks s' |>) s.
Proof.
  intros Hnd Hnodes. apply (wp_for_each _ ps (λ done s',
    (∀ p, p ∈ done →
       deps_at s' pid (p_key p) = deps_at s pid (p_key p) ∪ list_to_set (p_deps p)) ∧
    (∀ q k, q ≠ pid ∨ k ∉ p_key <$> done → deps s' !! (q, k) = deps s !! (q, k)) ∧
    (∃ ts, length ts = length done ∧
       revisions s' = revisions s ++ zip_with (new_revision pid) done ts) ∧
    events s `prefix_of` events s' ∧
    s' = s <| deps := deps s' |> <| revisions := revisions s' |>
           <| events := events s' |> <| ticks := ticks s' |>)).
  { split_and!; [by intros ? ?%elem_of_nil|done| |done|by destruct s].
    exists []. by rewrite app_nil_r. }
  intros done x rest s' -> (H1 & H2 & (ts & Hts & H3) & H4 & H5).
  unfold insert_edges, insert_deps, snapshot_revision, event. wp_all.
  match goal with Hn : nodes _ !! (pid, p_key x) = Some ?n |- _ => simpl in Hn end.
  rewrite fmap_app, fmap_cons in Hnd.
  assert (∀ p, p ∈ done → p_key p ≠ p_key x) as Hx.
  { intros p Hp E. apply NoDup_app in Hnd as (_ & Hd & _). apply (Hd (p_key x)); [|left].
    rewrite <- E. by apply list_elem_of_fmap_2. }
  destruct (Hnodes x) as [tx Htx]; [apply elem_of_app; right; left|].
  assert (nodes s' = nodes s) as En by (rewrite H5; done).
  rewrite En in *. simplify_eq.
  split_and!; simpl.
  - intros p. unfold deps_at. simpl. rewrite elem_of_app, list_elem_of_singleton.
    intros [Hp| ->].
    + rewrite lookup_partial_alter_ne by (intros [=]; by eapply Hx). by apply H1.
    + rewrite lookup_partial_alter_eq. simpl. rewrite H2; [done|]. right.
      intros (p & E & Hp)%list_elem_of_fmap. by apply (Hx p).
  - intros q k Hqk. rewrite fmap_app, list_fmap_singleton, elem_of_app, list_elem_of_singleton in Hqk.
    rewrite lookup_partial_alter_ne by naive_solver. apply H2. naive_solver.
  - eexists (ts ++ [_]). rewrite !length_app, Hts. split; [done|].
    rewrite zip_with_app by done. rewrite H3, <- (assoc_L (++)). done.
  - by apply prefix_app_r.
  - rewrite H5. by destruct s.
Qed.

Lemma add_run pid specs s :
  wp (add pid specs) (λ keys s', ∃ ps g fs, keys = p_key <$> ps ∧ added pid ps g fs s s') s.
Proof.
  unfold add. apply wp_bind, wp_project. intros row Hrow HK.
  destruct specs as [| | | |l|]; try apply wp_raise.
  apply wp_bind, wp_require; intros _. apply wp_bind, wp_gets, wp_bind, wp_gets.
  apply wp_bind, wp_lift; intros [[ps g] fs] Hp%prepare_ok.
  apply wp_bind, wp_lift; intros [] Hdag. apply wp_bind, wp_lift; intros [] Hcl%check_facets_ok.
  pose proof (pr_nodup _ _ _ _ _ _ Hp) as Hnd.
  apply wp_bind. eapply wp_mono; [by apply insert_nodes_run|]. intros [] s1 (H1 & H2 & H3).
  apply wp_bind. eapply wp_mono; [by apply insert_edges_run|]. intros [] s2 (H4 & H5 & H6 & H7 & H8). wp_all.
  exists ps, g, fs. split; [done|].
  assert (nodes s2 = nodes s1) as En by (rewrite H8; done).
  assert (deps s1 = deps s) as Ed by (rewrite H3; done).
  split; rewrite ?En; try done.
  - intros p Hp'. rewrite H4 by done. unfold deps_at. by rewrite Ed.
  - intros q k Hqk. by rewrite H5, Ed.
  - destruct H6 as (ts & ? & ->). exists ts. split; [done|]. by rewrite H3.
  - by rewrite H3 in H7.
  - rewrite H8, H3. by destruct s.
Qed.
End add.

Lemma deps_at_delete_insert (m : gmap (string * string) (gset string)) pk ds q :
  default ∅ (partial_alter (λ o, Some (default ∅ o ∪ list_to_set ds)) pk (delete pk m) !! q) =
    if decide (q = pk) then list_to_set ds else default ∅ (m !! q).
Proof.
  case_decide as E; [subst|].
  - rewrite lookup_partial_alter_eq, lookup_delete_eq. simpl. set_solver.
  - by rewrite lookup_partial_alter_ne, lookup_delete_ne by done.
Qed.

(** ** What [_revise] and [_supersede] do *)
Section revise.
Context `{Host}.

Record revised (pid nk : string) (old : node_row) (goal : string) (checks : list check)
    (ds : list string) (s s' : db) : Prop := {
  rv_old : nodes s !! (pid, nk) = Some old;
  rv_open : n_status old ≠ SUPERSEDED;
  rv_sorted : sorted_set (list_to_set ds) = ds;
  rv_dag : validate_dag (<[nk := ds]> (graph_of s pid)) = Ok tt;
  rv_clean : facet_clean (facets_of (nodes_of s pid)) (<[nk := ds]> (graph_of s pid));
  rv_alive : ∀ d, d ∈ ds → superseded_in (nodes_of s pid) d = false;
  rv_node : ∃ t, nodes s' !! (pid, nk) =
    Some (NodeRow (n_revision old + 1) goal checks (contract_digest checks) STALE
      (n_priority old) None (n_created old) t (n_facet old));
  rv_hit : ∀ k, k ∈ affected s pid nk → k ≠ nk →
    ∃ t, nodes s' !! (pid, k) = stale t <$> nodes s !! (pid, k);
  rv_miss : ∀ q k, q ≠ pid ∨ k ∉ affected s pid nk → nodes s' !! (q, k) = nodes s !! (q, k);
  rv_deps : deps_at s' pid nk = list_to_set ds;
  rv_deps_old : ∀ q k, (q, k) ≠ (pid, nk) → deps_at s' q k = deps_at s q k;
  rv_revs : ∃ t, revisions s' = revisions s ++
    [RevisionRow pid nk (n_revision old + 1) goal checks (contract_digest checks) ds t];
  rv_events : events s `prefix_of` events s';
  rv_rest : s' = s <| nodes := nodes s' |> <| deps := deps s' |>
    <| revisions := revisions s' |> <| events := events s' |> <| ticks := ticks s' |>;
}.

(** The inputs [_revise] accepted. *)
Record revise_request (expected goal acceptance ds : option json) (old : node_row)
    (new_goal : string) (checks : list check) : Prop := {
  rq_goal : match goal with
            | Some g => text g "goal" 20000 = Ok new_goal
            | None => new_goal = n_goal old end;
  rq_checks : match acceptance with
              | Some c => contract c = Ok checks
              | None => checks = n_contract old end;
  rq_expected : expected = Some (JInt (n_revision old));
}.

Lemma integer_ok v label lo hi z :
  integer v label lo hi = Ok z ↔ v = JInt z ∧ (lo ≤ z ≤ hi)%Z.
Proof.
  unfold integer. destruct v as [| |i| | |]; try by split; [|intros [? _]].
  destruct ((lo <=? i)%Z && (i <=? hi)%Z) eqn:E.
  - apply andb_true_iff in E as [?%Z.leb_le ?%Z.leb_le]. split; [by intros [= ->]|].
    by intros [[= ->] _].
  - split; [done|]. intros [[= ->] [?%Z.leb_le ?%Z.leb_le]].
    by rewrite andb_false_iff in E; destruct E; congruence.
Qed.

Lemma self_affected s pid nk : nk ∈ affected s pid nk.
Proof. by apply elem_of_affected. Qed.

Lemma existsb_superseded ns ds :
  negb (existsb (superseded_in ns) ds) = true → ∀ d, d ∈ ds → superseded_in ns d = false.
Proof.
  intros E%negb_true_iff d Hd. destruct (superseded_in ns d) eqn:Hs; [|done].
  rewrite <- E. symmetry. apply existsb_exists. exists d. by rewrite <- list_elem_of_In.
Qed.

Lemma revise_run pid nk expected reason goal acceptance ds s :
  wp (revise pid nk expected reason goal acceptance ds) (λ r s', ∃ old goal' checks ds',
    r = ReviseResult (n_revision old + 1) (affected s pid nk) ∧
    match ds with
    | Some v => dependencies v = Ok ds'
    | None => ds' = sorted_set (deps_at s pid nk) end ∧
    revise_request (Some expected) goal acceptance ds old goal' checks ∧
    revised pid nk old goal' checks ds' s s') s.
Proof.
  unfold revise. apply wp_bind, wp_node. intros old Hold _ _.
  apply wp_bind, wp_lift. intros e [-> He]%integer_ok. apply wp_bind, wp_lift. intros reason' _.
  apply wp_bind, wp_require. intros Hrev%bool_decide_eq_true.
  apply wp_bind, wp_require. intros Hopen%bool_decide_eq_true.
  apply wp_bind, wp_gets, wp_bind, wp_gets, wp_bind.
  apply (wp_mono _ (λ g s', s' = s ∧ ∃ ds', g = <[nk := ds']> (graph_of s pid) ∧
    sorted_set (list_to_set ds') = ds' ∧
    match ds with
    | Some v => dependencies v = Ok ds'
    | None => ds' = sorted_set (deps_at s pid nk) end)).
  { destruct ds as [v|].
    - apply wp_bind, wp_lift. intros ds' Hds. wp_all. split; [done|]. exists ds'.
      split_and!; [done|by eapply dependencies_set|done].
    - wp_all. split; [done|]. exists (sorted_set (deps_at s pid nk)). split_and!; [|..|done].
      + rewrite insert_id; [done|]. by rewrite lookup_graph_of, Hold.
      + f_equal. apply set_eq. intros x. by rewrite elem_of_list_to_set, elem_of_sorted_set. }
  intros g s0 (-> & ds' & -> & Hsorted & Hds).
  assert (preds (<[nk := ds']> (graph_of s pid)) nk = ds') as Ep.
  { unfold preds. by rewrite lookup_insert_eq. }
  rewrite Ep. apply wp_bind, wp_require. intros Halive.
  apply wp_bind, wp_lift. intros [] Hdag. apply wp_bind, wp_lift. intros [] Hcl%check_facets_ok.
  apply wp_bind.
  apply (wp_mono _ (λ goal' s', s' = s ∧ match goal with
            | Some g => text g "goal" 20000 = Ok goal'
            | None => goal' = n_goal old end)); [by destruct goal; wp_all|].
  intros goal' s0 [-> Hgoal]. apply wp_bind.
  apply (wp_mono _ (λ checks s', s' = s ∧ match acceptance with
              | Some c => contract c = Ok checks
              | None => checks = n_contract old end)); [by destruct acceptance; wp_all|].
  intros checks s0 [-> Hchecks]. cbv zeta. apply wp_bind.
  eapply wp_mono; [apply invalidate_run|]. intros keys s1 (-> & [Hhit Hmiss Hrest]).
  unfold update_node, delete_deps, insert_deps, snapshot_revision, event. wp_all.
  exists old, goal', checks, ds'. subst e. split_and!; [done|done|done|].
  destruct (Hhit nk (self_affected s pid nk)) as [tx Htx].
  match goal with Hn : nodes _ !! (pid, nk) = Some ?n |- _ =>
    simpl in Hn; rewrite lookup_alter_eq, Htx, Hold in Hn; simpl in Hn; injection Hn as <- end.
  split; try done; simpl.
  - by apply existsb_superseded.
  - eexists. rewrite lookup_alter_eq, Htx, Hold. simpl. unfold stale.
    by rewrite bool_decide_eq_false_2 by done.
  - intros k Hk Hne. rewrite lookup_alter_ne by congruence. auto.
  - intros q k Hqk. rewrite lookup_alter_ne; [auto|]. intros [= <- <-].
    destruct Hqk as [|Hqk]; [done|]. apply Hqk, self_affected.
  - unfold deps_at. simpl. rewrite deps_at_delete_insert. by case_decide.
  - intros q k Hne. unfold deps_at. simpl. rewrite deps_at_delete_insert.
    rewrite decide_False by done. by rewrite Hrest.
  - eexists. by rewrite Hrest.
  - rewrite Hrest. by apply prefix_app_r.
  - rewrite Hrest. by destruct s.
Qed.

(** A superseded node, and its stale dependents. *)
Record superseded (pid nk : string) (old : node_row) (s s' : db) : Prop := {
  sp_old : nodes s !! (pid, nk) = Some old;
  sp_node : ∃ t, nodes s' !! (pid, nk) =
    Some (old <| n_status := SUPERSEDED |> <| n_receipt := None |> <| n_updated := t |>);
  sp_hit : ∀ k, k ∈ affected s pid nk → k ≠ nk →
    ∃ t, nodes s' !! (pid, k) = stale t <$> nodes s !! (pid, k);
  sp_miss : ∀ q k, q ≠ pid ∨ k ∉ affected s pid nk → nodes s' !! (q, k) = nodes s !! (q, k);
  sp_events : events s `prefix_of` events s';
  sp_rest : s' = s <| nodes := nodes s' |> <| events := events s' |> <| ticks := ticks s' |>;
}.

Lemma supersede_run pid nk expected reason s :
  wp (supersede pid nk expected reason) (λ r s', ∃ old,
    expected = JInt (n_revision old) ∧ nodes s !! (pid, nk) = Some old ∧
    if bool_decide (n_status old = SUPERSEDED) then r = None ∧ s' = s
    else r = Some (affected s pid nk) ∧ superseded pid nk old s s') s.
Proof.
  unfold supersede. apply wp_bind, wp_node. intros old Hold _ _.
  apply wp_bind, wp_lift. intros e [-> He]%integer_ok. apply wp_bind, wp_lift. intros reason' _.
  apply wp_bind, wp_require. intros <-%bool_decide_eq_true.
  destruct (bool_decide (n_status old = SUPERSEDED)) eqn:Hst.
  { wp_all. exists old. by rewrite Hst. }
  apply bool_decide_eq_false in Hst. apply wp_bind.
  eapply wp_mono; [apply invalidate_run|]. intros keys s1 (-> & [Hhit Hmiss Hrest]).
  unfold update_node, event. wp_all. exists old. split_and!; [done|done|].
  rewrite bool_decide_eq_false_2 by done. split; [done|].
  destruct (Hhit nk (self_affected s pid nk)) as [tx Htx].
  split; try done; simpl.
  - eexists. rewrite lookup_alter_eq, Htx, Hold. simpl. unfold stale.
    by rewrite bool_decide_eq_false_2 by done.
  - intros k Hk Hne. rewrite lookup_alter_ne by congruence. auto.
  - intros q k Hqk. rewrite lookup_alter_ne; [auto|]. intros [= <- <-].
    destruct Hqk as [|Hqk]; [done|]. apply Hqk, self_affected.
  - rewrite Hrest. by apply prefix_app_r.
  - rewrite Hrest. by destruct s.
Qed.
End revise.

(** ** Preservation of the graph invariant *)
Section graph_invariant.
Context `{Host}.

(** A project's graph and facets, from the rows and edges they are read from. *)
Lemma graph_of_ext s s' p :
  (∀ k, n_facet <$> nodes s' !! (p, k) = n_facet <$> nodes s !! (p, k)) →
  (∀ k, is_Some (nodes s !! (p, k)) → deps_at s' p k = deps_at s p k) →
  graph_of s' p = graph_of s p ∧ facets_of (nodes_of s' p) = facets_of (nodes_of s p).
Proof.
  intros Hn Hd. split; apply map_eq; intros k.
  - rewrite !lookup_graph_of. specialize (Hn k). specialize (Hd k).
    destruct (nodes s !! (p, k)), (nodes s' !! (p, k)); try done. simpl. by rewrite Hd.
  - by rewrite !lookup_facets_of.
Qed.

Lemma added_graph pid ps g fs s s' :
  graph_inv s → added pid ps g fs s s' →
  graph_of s' pid = g ∧ facets_of (nodes_of s' pid) = fs ∧
  ∀ q, q ≠ pid → graph_of s' q = graph_of s q ∧
                 facets_of (nodes_of s' q) = facets_of (nodes_of s q).
Proof.
  intros Hinv [Hp Hdag Hcl Hn Hno Hd Hdo _ _ _]. split_and!; [..|intros q Hq].
  - apply map_eq. intros k. rewrite lookup_graph_of.
    destruct (decide (k ∈ p_key <$> ps)) as [Hk|Hk].
    + apply list_elem_of_fmap in Hk as (p & -> & Hin). destruct (Hn p Hin) as [t ->].
      rewrite Hd by done. rewrite (gi_rows _ Hinv), (left_id_L ∅ (∪)).
      * simpl. rewrite (pr_sorted _ _ _ _ _ _ Hp) by done.
        by rewrite (pr_graph _ _ _ _ _ _ Hp).
      * pose proof (pr_fresh _ _ _ _ _ _ Hp p Hin) as E. rewrite lookup_graph_of in E.
        by apply fmap_None in E.
    + rewrite Hno by auto. rewrite (pr_graph_old _ _ _ _ _ _ Hp) by done.
      unfold deps_at. rewrite Hdo by auto. by rewrite lookup_graph_of.
  - apply map_eq. intros k. rewrite lookup_facets_of.
    destruct (decide (k ∈ p_key <$> ps)) as [Hk|Hk].
    + apply list_elem_of_fmap in Hk as (p & -> & Hin). destruct (Hn p Hin) as [t ->].
      by rewrite (pr_facet _ _ _ _ _ _ Hp).
    + rewrite Hno by auto. rewrite (pr_facet_old _ _ _ _ _ _ Hp) by done.
      by rewrite lookup_facets_of.
  - apply graph_of_ext; intros k; [by rewrite Hno by auto|].
    intros _. unfold deps_at. by rewrite Hdo by auto.
Qed.

Lemma graph_inv_added pid ps g fs s s' :
  graph_inv s → added pid ps g fs s s' → graph_inv s'.
Proof.
  intros Hinv Had. destruct (added_graph _ _ _ _ _ _ Hinv Had) as (Eg & Ef & Eo).
  destruct Had as [Hp Hdag Hcl Hn Hno Hd Hdo _ _ _].
  apply validate_dag_ok in Hdag as (Hsz & Hclo & Hac).
  split; try (intros p; destruct (decide (p = pid)) as [->|Hne];
    [rewrite ?Eg, ?Ef; done|destruct (Eo p Hne) as [E1 E2]; rewrite ?E1, ?E2; by apply Hinv]).
  intros p k Hk. destruct (decide (p = pid ∧ k ∈ p_key <$> ps)) as [[-> Hin]|Hnot].
  - apply list_elem_of_fmap in Hin as (x & -> & Hin). destruct (Hn x Hin) as [t E]. congruence.
  - assert (p ≠ pid ∨ k ∉ p_key <$> ps) as Ho.
    { destruct (decide (p = pid)); [right|by left]. naive_solver. }
    rewrite Hno in Hk by done. unfold deps_at. rewrite Hdo by done.
    by apply (gi_rows _ Hinv).
Qed.

Lemma add_graph_inv pid specs s :
  graph_inv s → wp (add pid specs) (λ _ s', graph_inv s') s.
Proof.
  intros Hinv. eapply wp_mono; [apply add_run|].
  intros keys s' (ps & g & fs & _ & Had). by eapply graph_inv_added.
Qed.

(** A relabelled node keeps every other column but [updated_at]. *)
Lemma set_facet_run pid nk value s :
  wp (set_facet pid nk value) (λ r s', ∃ n own,
    nodes s !! (pid, nk) = Some n ∧ r = FacetResult own (n_facet n) (fa_changed r) ∧
    if fa_changed r then
      (n_facet n = None ∨ n_receipt n = None) ∧
      facet_clean (<[nk := Some own]> (facets_of (nodes_of s pid))) (graph_of s pid) ∧
      ∃ t, nodes s' = <[(pid, nk) := n <| n_facet := Some own |> <| n_updated := t |>]> (nodes s) ∧
        events s `prefix_of` events s' ∧
        s' = s <| nodes := nodes s' |> <| events := events s' |> <| ticks := ticks s' |>
    else n_facet n = Some own ∧ s' = s) s.
Proof.
  unfold set_facet. apply wp_bind, wp_lift. intros o _.
  apply wp_bind, wp_get_some. intros own ->. apply wp_bind, wp_node. intros n Hn _ _.
  destruct (bool_decide (n_facet n = Some own)) eqn:Hf.
  { apply bool_decide_eq_true in Hf. wp_all. exists n, own. by rewrite Hf. }
  apply wp_bind, wp_require. intros Hreq. apply wp_bind, wp_gets, wp_bind, wp_gets, wp_bind, wp_lift.
  intros [] Hcl%check_facets_ok. unfold update_node, event. wp_all. exists n, own.
  split_and!; [done|done|]. simpl. split; [by apply orb_true_iff in Hreq; rewrite !bool_decide_eq_true in Hreq|].
  split; [done|]. eexists. split_and!; [|by apply prefix_app_r|by destruct s].
  apply map_eq. intros k. destruct (decide (k = (pid, nk))) as [->|].
  - by rewrite lookup_alter_eq, Hn, lookup_insert_eq.
  - by rewrite lookup_alter_ne, lookup_insert_ne by done.
Qed.

Lemma set_facet_graph_inv pid nk value s :
  graph_inv s → wp (set_facet pid nk value) (λ _ s', graph_inv s') s.
Proof.
  intros Hinv. eapply wp_mono; [apply set_facet_run|].
  intros r s' (n & own & Hn & _ & Hr). destruct (fa_changed r); [|by destruct Hr as [_ ->]].
  destruct Hr as (_ & Hcl & t & En & _ & Er).
  assert (∀ q k, deps_at s' q k = deps_at s q k) as Ed by (intros; by rewrite Er).
  assert (∀ q, graph_of s' q = graph_of s q) as Eg.
  { intros q. apply map_eq. intros k. rewrite !lookup_graph_of, Ed, En.
    destruct (decide ((q, k) = (pid, nk))) as [[= -> ->]|].
    - by rewrite lookup_insert_eq, Hn.
    - by rewrite lookup_insert_ne by congruence. }
  split; try (intros p; rewrite Eg; by apply Hinv).
  - intros p k Hk. rewrite Ed. apply (gi_rows _ Hinv). rewrite En in Hk.
    by apply lookup_insert_None in Hk as [? _].
  - intros p. rewrite Eg. destruct (decide (p = pid)) as [->|Hne].
    + assert (facets_of (nodes_of s' pid) = <[nk := Some own]> (facets_of (nodes_of s pid))) as ->; [|done].
      apply map_eq. intros k. rewrite lookup_facets_of, En. destruct (decide (k = nk)) as [->|].
      * by rewrite !lookup_insert_eq.
      * by rewrite !lookup_insert_ne, lookup_facets_of by congruence.
    + assert (facets_of (nodes_of s' p) = facets_of (nodes_of s p)) as ->; [|by apply Hinv].
      apply map_eq. intros k. rewrite !lookup_facets_of, En.
      by rewrite lookup_insert_ne by congruence.
Qed.

Lemma graph_inv_revised pid nk old goal checks ds s s' :
  graph_inv s → revised pid nk old goal checks ds s s' → graph_inv s'.
Proof.
  intros Hinv [Hold Hopen Hs Hdag Hcl Hal [t Ht] Hhit Hmiss Hd Hdo _ _ _].
  assert (∀ q k, n_facet <$> nodes s' !! (q, k) = n_facet <$> nodes s !! (q, k)) as Ef.
  { intros q k. destruct (decide ((q, k) = (pid, nk))) as [[= -> ->]|Hne]; [by rewrite Ht, Hold|].
    destruct (decide (q = pid ∧ k ∈ affected s pid nk)) as [[-> Hin]|Hnot].
    - destruct (Hhit k Hin) as [t' ->]; [congruence|].
      destruct (nodes s !! (pid, k)); [|done]. simpl. by rewrite stale_facet.
    - rewrite Hmiss; [done|]. destruct (decide (q = pid)); [right|by left]. naive_solver. }
  assert (graph_of s' pid = <[nk := ds]> (graph_of s pid)) as Eg.
  { apply map_eq. intros k. rewrite lookup_graph_of. specialize (Ef pid k).
    destruct (decide (k = nk)) as [->|Hne].
    - by rewrite lookup_insert_eq, Ht, Hd, Hs.
    - rewrite lookup_insert_ne, lookup_graph_of by done.
      rewrite Hdo by congruence. destruct (nodes s' !! (pid, k)), (nodes s !! (pid, k)); naive_solver. }
  assert (∀ q, facets_of (nodes_of s' q) = facets_of (nodes_of s q)) as Efs.
  { intros q. apply map_eq. intros k. by rewrite !lookup_facets_of. }
  assert (∀ q, q ≠ pid → graph_of s' q = graph_of s q) as Eo.
  { intros q Hq. apply graph_of_ext; [done|]. intros k _. apply Hdo. congruence. }
  apply validate_dag_ok in Hdag as (Hsz & Hclo & Hac).
  split; try (intros p; rewrite ?Efs; destruct (decide (p = pid)) as [->|Hne];
    [by rewrite ?Eg|rewrite Eo by done; by apply Hinv]).
  intros p k Hk. destruct (decide ((p, k) = (pid, nk))) as [[= -> ->]|Hne]; [congruence|].
  rewrite Hdo by done. apply (gi_rows _ Hinv). specialize (Ef p k). rewrite Hk in Ef.
  by destruct (nodes s !! (p, k)).
Qed.

Lemma revise_graph_inv pid nk e reason goal acceptance ds s :
  graph_inv s → wp (revise pid nk e reason goal acceptance ds) (λ _ s', graph_inv s') s.
Proof.
  intros Hinv. eapply wp_mono; [apply revise_run|].
  intros r s' (old & goal' & checks & ds' & _ & _ & _ & Hrv). by eapply graph_inv_revised.
Qed.

Lemma split_graph_inv pid nk e children reason s :
  graph_inv s → wp (split pid nk e children reason) (λ _ s', graph_inv s') s.
Proof.
  intros Hinv. unfold split. apply wp_bind, wp_node. intros n _ _ _. apply wp_bind.
  eapply wp_mono; [by apply add_graph_inv|]. intros keys s1 Hinv1.
  apply wp_bind, wp_gets, wp_bind. eapply wp_mono; [by apply revise_graph_inv|].
  intros r s2 Hinv2. by wp_all.
Qed.

Lemma supersede_shape pid nk e reason : untouched shape (supersede pid nk e reason).
Proof. unfold supersede. frame. Qed.

Lemma set_node_priority_shape pid nk p e reason actor director :
  untouched shape (set_node_priority pid nk p e reason actor director).
Proof. unfold set_node_priority. frame. Qed.

(** An operation that leaves [shape] alone keeps the invariant. *)
Lemma graph_inv_untouched {A} (m : M db A) s :
  untouched shape m → graph_inv s → wp m (λ _ s', graph_inv s') s.
Proof.
  intros Hm Hinv. eapply wp_mono; [apply Hm|]. intros a s' E. by apply (graph_inv_shape s).
Qed.
End graph_invariant.
