(* ===== verification/History.v ===== *)
(** * The revision history

    [state_node_revisions] is append-only (two triggers refuse UPDATE and
    DELETE), so the numbering of its rows is decided by the code that inserts
    them.  [history_inv] says that the rows of a node are numbered 1 to the
    node's revision, in order, and that the last one is the node as it stands;
    [_add], [_revise] and everything else preserve it. *)
From S2P Require Import Prelude Json Text Dag Store Graph.

Definition rev_of (pid nk : string) (r : revision_row) : bool :=
  bool_decide (r_project r = pid) && bool_decide (r_node r = nk).

(** The columns of a node its revision rows repeat. *)
Definition content_of (n : node_row) : Z * string * list check * string :=
  (n_revision n, n_goal n, n_contract n, n_hash n).
Definition content (s : db) :
    gmap (string * string) (Z * string * list check * string) *
    gmap (string * string) (gset string) * list revision_row :=
  (content_of <$> nodes s, deps s, revisions s).

Section history.
Context `{Host}.

Record describes (s : db) (pid nk : string) (n : node_row) (r : revision_row) : Prop := {
  ds_revision : r_revision r = n_revision n;
  ds_goal : r_goal r = n_goal n;
  ds_contract : r_contract r = n_contract n;
  ds_hash : r_hash r = n_hash n;
  ds_digest : n_hash n = contract_digest (n_contract n);
  ds_deps : r_deps r = sorted_set (deps_at s pid nk);
}.

Definition node_history (s : db) (pid nk : string) (n : node_row) : Prop :=
  (1 ≤ n_revision n)%Z ∧
  r_revision <$> select (rev_of pid nk) (revisions s) = seqZ 1 (n_revision n) ∧
  ∃ r, select_last (rev_of pid nk) (revisions s) = Some r ∧ describes s pid nk n r.

Definition history_inv (s : db) : Prop :=
  ∀ pid nk, match nodes s !! (pid, nk) with
            | None => select (rev_of pid nk) (revisions s) = []
            | Some n => node_history s pid nk n
            end.

Lemma history_inv_empty : history_inv empty_db.
Proof. by intros pid nk. Qed.

Lemma node_history_ext s s' pid nk n n' :
  content_of n' = content_of n → deps_at s' pid nk = deps_at s pid nk →
  select (rev_of pid nk) (revisions s') = select (rev_of pid nk) (revisions s) →
  node_history s pid nk n → node_history s' pid nk n'.
Proof.
  intros Ec Ed Er (H1 & H2 & r & H3 & [D1 D2 D3 D4 D5 D6]). injection Ec as E1 E2 E3 E4.
  unfold node_history, select_last in *. rewrite Er, E1. split_and!; [done|done|].
  exists r. split; [done|]. split; by congruence.
Qed.

Lemma history_inv_content s s' : content s' = content s → history_inv s → history_inv s'.
Proof.
  intros E Hinv pid nk. injection E as En Ed Er. specialize (Hinv pid nk).
  apply (f_equal (lookup (pid, nk))) in En. rewrite !lookup_fmap in En.
  destruct (nodes s !! (pid, nk)) as [n|], (nodes s' !! (pid, nk)) as [n'|]; try done.
  - injection En as E1 E2 E3 E4. eapply (node_history_ext s); [| |by rewrite Er|done].
    + unfold content_of. congruence.
    + unfold deps_at. by rewrite Ed.
  - by rewrite Er.
Qed.

Lemma history_inv_untouched {A} (m : M db A) s :
  untouched content m → history_inv s → wp m (λ _ s', history_inv s') s.
Proof.
  intros Hm Hinv. eapply wp_mono; [apply Hm|]. intros a s' E.
  by apply (history_inv_content s).
Qed.

Lemma untouched_content_update_node pid nk g :
  (∀ n, content_of (g n) = content_of n) → untouched content (update_node pid nk g).
Proof.
  intros Hg. apply untouched_modify. intros s. unfold content. simpl. do 2 f_equal.
  apply fmap_alter_id. auto.
Qed.
Lemma stale_content t n : content_of (stale t n) = content_of n.
Proof. unfold stale. by case_bool_decide. Qed.
Lemma untouched_content_invalidate pid nk : untouched content (invalidate pid nk).
Proof.
  unfold invalidate. frame. apply untouched_content_update_node. intros. apply stale_content.
Qed.

(** *** Rows added for other nodes do not matter *)
Lemma select_rev_app s pid nk rows :
  Forall (λ r, rev_of pid nk r = false) rows →
  select (rev_of pid nk) (revisions s ++ rows) = select (rev_of pid nk) (revisions s).
Proof.
  intros HF. rewrite select_app. assert (select (rev_of pid nk) rows = []) as ->.
  { induction HF as [|r rows Hr _ IH]; [done|]. simpl. by rewrite Hr. }
  by rewrite app_nil_r.
Qed.

Lemma new_revisions_other pid nk q ps ts :
  length ts = length ps → q ≠ pid ∨ nk ∉ p_key <$> ps →
  Forall (λ r, rev_of q nk r = false) (zip_with (new_revision pid) ps ts).
Proof.
  intros Hl Hne. apply Forall_forall. intros r Hr.
  apply elem_of_lookup_zip_with in Hr as (i & p & t & -> & Hp & _). unfold rev_of. simpl.
  rewrite andb_false_iff, !bool_decide_eq_false.
  destruct Hne as [|Hne]; [left; congruence|right]. intros <-. apply Hne.
  apply list_elem_of_fmap. exists p. split; [done|]. by eapply list_elem_of_lookup_2.
Qed.

Lemma new_revisions_own pid ps ts p :
  length ts = length ps → NoDup (p_key <$> ps) → p ∈ ps →
  ∃ t, select (rev_of pid (p_key p)) (zip_with (new_revision pid) ps ts) = [new_revision pid p t].
Proof.
  revert ts. induction ps as [|q ps IH]; intros [|t ts] Hl Hnd Hp; try done.
  { by apply elem_of_nil in Hp. }
  rewrite fmap_cons in Hnd. apply NoDup_cons in Hnd as [Hq Hnd]. simpl in Hl.
  apply elem_of_cons in Hp as [->|Hp].
  - exists t. cbn [zip_with select List.filter]. unfold rev_of at 1. simpl.
    rewrite !bool_decide_eq_true_2 by done. simpl. f_equal.
    pose proof (select_rev_app empty_db pid (p_key q) (zip_with (new_revision pid) ps ts)) as E.
    apply E. apply new_revisions_other; auto.
  - cbn [zip_with]. destruct (IH ts) as [t' E]; [lia|done|done|]. exists t'. rewrite <- E.
    unfold select at 1. cbn [List.filter]. unfold rev_of at 1. simpl.
    rewrite (bool_decide_eq_false_2 (p_key q = p_key p)); [by rewrite andb_false_r|].
    intros Eq. apply Hq. rewrite Eq. by apply list_elem_of_fmap_2.
Qed.

Lemma history_inv_added pid ps g fs s s' :
  graph_inv s → history_inv s → added pid ps g fs s s' → history_inv s'.
Proof.
  intros Hg Hinv [Hp _ _ Hn Hno Hd Hdo (ts & Hts & Hr) _ _] q k.
  destruct (decide (q = pid ∧ k ∈ p_key <$> ps)) as [[-> Hin]|Hnot].
  - apply list_elem_of_fmap in Hin as (p & -> & Hin). destruct (Hn p Hin) as [t ->].
    assert (nodes s !! (pid, p_key p) = None) as Hfresh.
    { pose proof (pr_fresh _ _ _ _ _ _ Hp p Hin) as E. rewrite lookup_graph_of in E.
      by apply fmap_None in E. }
    specialize (Hinv pid (p_key p)). rewrite Hfresh in Hinv.
    destruct (new_revisions_own pid ps ts p Hts (pr_nodup _ _ _ _ _ _ Hp) Hin) as [t' E].
    unfold node_history, select_last. rewrite Hr, select_app, Hinv, E. simpl.
    split_and!; [done|done|]. eexists. split; [done|]. split; try done. simpl.
    rewrite Hd by done. rewrite (gi_rows _ Hg) by done. rewrite (left_id_L ∅ (∪)).
    by rewrite (pr_sorted _ _ _ _ _ _ Hp).
  - assert (q ≠ pid ∨ k ∉ p_key <$> ps) as Ho.
    { destruct (decide (q = pid)); [right|by left]. naive_solver. }
    specialize (Hinv q k). rewrite Hno by done.
    pose proof (select_rev_app s q k _ (new_revisions_other pid k q ps ts Hts Ho)) as E.
    rewrite <- Hr in E. destruct (nodes s !! (q, k)) as [n|]; [|congruence].
    eapply (node_history_ext s); [done| |done|done]. unfold deps_at. by rewrite Hdo.
Qed.

Lemma add_history_inv pid specs s :
  graph_inv s → history_inv s → wp (add pid specs) (λ _ s', history_inv s') s.
Proof.
  intros Hg Hinv. eapply wp_mono; [apply add_run|].
  intros keys s' (ps & g & fs & _ & Had). by eapply history_inv_added.
Qed.

Lemma history_inv_revised pid nk old goal checks ds s s' :
  history_inv s → revised pid nk old goal checks ds s s' → history_inv s'.
Proof.
  intros Hinv [Hold _ Hs _ _ _ [t Ht] Hhit Hmiss Hd Hdo [t' Hr] _ _] q k.
  set (row := RevisionRow _ _ _ _ _ _ _ _) in Hr.
  destruct (decide ((q, k) = (pid, nk))) as [[= -> ->]|Hne].
  - rewrite Ht. specialize (Hinv pid nk). rewrite Hold in Hinv.
    destruct Hinv as (H1 & H2 & _).
    assert (select (rev_of pid nk) [row] = [row]) as E.
    { unfold select. simpl. unfold rev_of. simpl. by rewrite !bool_decide_eq_true_2. }
    unfold node_history, select_last. rewrite Hr, select_app, E, fmap_app, H2. simpl.
    split_and!; [lia| |].
    + rewrite (seqZ_app 1 (n_revision old) 1) by lia. f_equal.
      rewrite Z.add_comm. by rewrite seqZ_cons by lia.
    + exists row. rewrite last_snoc. split; [done|]. split; try done. by rewrite Hd, Hs.
  - assert (rev_of q k row = false) as Er.
    { unfold rev_of. rewrite andb_false_iff, !bool_decide_eq_false. simpl.
      destruct (decide (pid = q)); [right; congruence|by left]. }
    pose proof (select_rev_app s q k [row] ltac:(by constructor)) as E. rewrite <- Hr in E.
    specialize (Hinv q k).
    assert (∃ n', nodes s' !! (q, k) = n' ∧ content_of <$> n' = content_of <$> nodes s !! (q, k))
      as (n' & -> & En).
    { eexists. split; [done|]. destruct (decide (q = pid ∧ k ∈ affected s pid nk)) as [[-> Hin]|Hnot].
      - destruct (Hhit k Hin) as [t1 ->]; [congruence|]. destruct (nodes s !! (pid, k)); [|done].
        simpl. by rewrite stale_content.
      - rewrite Hmiss; [done|]. destruct (decide (q = pid)); [right|by left]. naive_solver. }
    destruct (nodes s !! (q, k)) as [n|], n' as [n'|]; try done.
    + injection En as E1 E2 E3 E4. eapply (node_history_ext s); [|by apply Hdo|done|done].
      unfold content_of. congruence.
    + congruence.
Qed.

Lemma revise_history_inv pid nk e reason goal acceptance ds s :
  history_inv s → wp (revise pid nk e reason goal acceptance ds) (λ _ s', history_inv s') s.
Proof.
  intros Hinv. eapply wp_mono; [apply revise_run|].
  intros r s' (old & goal' & checks & ds' & _ & _ & _ & Hrv). by eapply history_inv_revised.
Qed.

Lemma split_history_inv pid nk e children reason s :
  graph_inv s → history_inv s → wp (split pid nk e children reason) (λ _ s', history_inv s') s.
Proof.
  intros Hg Hinv. unfold split. apply wp_bind, wp_node. intros n _ _ _. apply wp_bind.
  eapply wp_mono; [by apply add_history_inv|]. intros keys s1 Hinv1.
  apply wp_bind, wp_gets, wp_bind. eapply wp_mono; [by apply revise_history_inv|].
  intros r s2 Hinv2. by wp_all.
Qed.
End history.
#[export] Hint Resolve untouched_content_invalidate : untouched.
#[export] Hint Extern 1 (untouched content (update_node _ _ _)) =>
  apply untouched_content_update_node; intros; reflexivity : untouched.

Section history_frames.
Context `{Host}.
Lemma supersede_content pid nk e reason : untouched content (supersede pid nk e reason).
Proof. unfold supersede. frame. Qed.
Lemma set_facet_content pid nk v : untouched content (set_facet pid nk v).
Proof. unfold set_facet. frame. Qed.
Lemma set_node_priority_content pid nk p e reason actor director :
  untouched content (set_node_priority pid nk p e reason actor director).
Proof. unfold set_node_priority. frame. Qed.
End history_frames.
