(* ===== verification/Portfolio.v ===== *)
(** * Policies, holds and references

    The scheduling metadata of [core/state_metadata.py] and the writes of
    [core/state_portfolio.py].  [actor], [is_admin] and [trusted] are what the
    owning service resolved for the caller ([self.actor], [service.is_admin],
    [service.project_read_trusted]). *)
From S2P Require Import Prelude Json Text Dag Store Graph.

(** ** Reading the policy *)
Definition claim_enforcement (s : db) (pid : string) : bool :=
  match enforcement s !! pid with Some row => en_claims row | None => false end.
Definition review_independence (s : db) (pid : string) : bool :=
  match enforcement s !! pid with Some row => en_review row | None => false end.

Record policy_view : Type := PolicyView {
  pv_row : policy_row; pv_claims : bool; pv_review : bool }.

Definition no_policy : policy_row := PolicyRow 0 DActive "" "" None.
Definition policy_at (s : db) (pid : string) : policy_row := default no_policy (policies s !! pid).
Definition project_policy (s : db) (pid : string) : policy_view :=
  PolicyView (policy_at s pid) (claim_enforcement s pid) (review_independence s pid).

Definition no_hold : hold_row := HoldRow 0 false "" "" None.
Definition node_hold (s : db) (pid nk : string) : hold_row := default no_hold (holds s !! (pid, nk)).

(** [dispatch_block]: the scope and the row that hold dispatch, if any. *)
Inductive block : Type :=
  | ProjectBlock (policy : policy_view)
  | NodeBlock (hold : hold_row).
Definition dispatch_block (s : db) (pid nk : string) : option block :=
  if bool_decide (po_dispatch (policy_at s pid) ≠ DActive) then Some (ProjectBlock (project_policy s pid))
  else if ho_held (node_hold s pid nk) then Some (NodeBlock (node_hold s pid nk))
  else None.

Definition require_dispatch (pid nk : string) : M db unit :=
  b ← gets (λ s, dispatch_block s pid nk);
  match b with
  | None => mret tt
  | Some (ProjectBlock _) => raise (StateConflict "dispatch is held at project level")
  | Some (NodeBlock _) => raise (StateConflict "dispatch is held at node level")
  end.

(** [effective_run_references], in [ORDER BY reference_id] order. *)
Definition retired (s : db) (pid ref hash : string) : bool :=
  existsb (λ r, bool_decide (rt_project r = pid) && bool_decide (rt_reference r = ref)
                && bool_decide (rt_hash r = hash)) (retirements s).
Definition effective_run_references (s : db) (pid nk : string) : list (string * string * string) :=
  (λ p, (p.1, li_hash p.2, li_ref p.2)) <$>
  List.filter (λ p, bool_decide (li_node p.2 = nk) && bool_decide (li_kind p.2 = "run")
                    && li_protection p.2 && negb (retired s pid p.1 (li_hash p.2)))
    (sort_items (map_to_list (slice (links s) pid))).

(** [StatePortfolio._source] *)
Definition binding_json (pid : string) (b : binding_row) : json :=
  jobj [("project_id", JStr pid); ("revision", JInt (sb_revision b)); ("repo_path", JStr (sb_repo b));
        ("common_dir", JStr (sb_common b)); ("actor", JStr (sb_actor b));
        ("updated_at", JInt (sb_updated b)); ("kind", JStr "stable_binding")].
Definition source_of (s : db) (pid : string) (row : project_row) : json :=
  match bindings s !! pid with
  | Some b => binding_json pid b
  | None =>
    jobj [("kind", JStr (if pr_source row then "legacy_binding" else "none"));
          ("source_project_id", jopt JStr (pr_source row));
          ("repo_path", jopt JStr (pr_source row ≫= λ legacy, run_paths s !! legacy));
          ("common_dir", JNull); ("revision", JInt 0)]
  end.

Section portfolio.
Context `{Host}.

Definition bind_source (actor pid repo_path common_dir : string) (expected_revision : json)
    : M db binding_row :=
  expected ← lift (integer expected_revision "expected_revision" 0 1000000);
  _ ← project pid;
  prior ← gets (λ s, bindings s !! pid);
  let actual := default 0%Z (sb_revision <$> prior) in
  require (bool_decide (actual = expected)) (StateConflict "source binding revision changed");;
  used ← gets (λ s, existsb (λ a, bool_decide (a_project a = pid)) (attempts s));
  require (negb used)
    (StateConflict "source bindings cannot be retargeted after attempts exist; preserve old provenance");;
  stamp ← now;
  let row := BindingRow (actual + 1) repo_path common_dir actor stamp in
  modify (λ s, s <| bindings ::= <[pid := row]> |>);;
  event pid None "source_bound"
    (jobj [("revision", JInt (actual + 1)); ("repo_path", JStr repo_path);
           ("common_dir", JStr common_dir); ("actor", JStr actor)]);;
  mret row.

Definition parse_dispatch (v : json) : option dispatch_mode :=
  match v with
  | JStr v => if bool_decide (v = "active") then Some DActive
              else if bool_decide (v = "hold") then Some DHold
              else if bool_decide (v = "archive") then Some DArchive else None
  | _ => None
  end.

(** The policy upsert; [None] keeps the [dispatch] column of an existing row. *)
Definition write_policy (pid : string) (revision : Z) (mode : option dispatch_mode)
    (fallback : dispatch_mode) (reason actor : string) : M db unit :=
  stamp ← now;
  modify (λ s, s <| policies ::= partial_alter (λ o, Some
    (PolicyRow revision
       (default (match o with Some row => po_dispatch row | None => fallback end) mode)
       reason actor (Some stamp))) pid |>).

Definition set_dispatch (actor pid : string) (mode expected_revision reason : json)
    : M db policy_view :=
  d ← get_some (parse_dispatch mode) (StateGraphError "dispatch must be active, hold or archive");
  expected ← lift (integer expected_revision "expected_revision" 0 1000000);
  reason ← lift (text reason "dispatch reason" 4000);
  _ ← project pid;
  old ← gets (λ s, policy_at s pid);
  require (bool_decide (po_revision old = expected)) (StateConflict "project policy revision changed");;
  write_policy pid (expected + 1) (Some d) d reason actor;;
  event pid None "dispatch_policy_changed"
    (jobj [("dispatch", JStr (dispatch_text d)); ("reason", JStr reason);
           ("revision", JInt (expected + 1)); ("actor", JStr actor)]);;
  gets (λ s, project_policy s pid).

Definition parse_switch (on : string) (v : json) : option bool :=
  match v with
  | JStr v => if bool_decide (v = "off") then Some false
              else if bool_decide (v = on) then Some true else None
  | _ => None
  end.

Definition set_claim_enforcement (actor : string) (is_admin : bool) (pid : string)
    (value expected_revision reason : json) : M db policy_view :=
  require is_admin (ClaimError "admin_required");;
  enable ← get_some (parse_switch "on" value) (StateGraphError "claim_enforcement must be off or on");
  expected ← lift (integer expected_revision "expected_revision" 0 1000000);
  reason ← lift (text reason "claim_enforcement reason" 4000);
  _ ← project pid;
  old ← gets (λ s, policy_at s pid);
  require (bool_decide (po_revision old = expected)) (StateConflict "project policy revision changed");;
  write_policy pid (expected + 1) None (po_dispatch old) reason actor;;
  stamp ← now;
  modify (λ s, s <| enforcement ::= partial_alter (λ o, Some
    (EnforcementRow enable reason actor stamp
       (match o with Some row => en_review row | None => false end))) pid |>);;
  event pid None "claim_enforcement_policy_changed"
    (jobj [("claim_enforcement", JStr (if (enable : bool) then "on" else "off")); ("reason", JStr reason);
           ("revision", JInt (expected + 1)); ("actor", JStr actor)]);;
  gets (λ s, project_policy s pid).

Definition set_review_independence (actor : string) (is_admin : bool) (pid : string)
    (value expected_revision reason : json) : M db policy_view :=
  require is_admin (ClaimError "admin_required");;
  advisory ← get_some (parse_switch "advisory" value)
               (StateGraphError "review_independence must be off or advisory");
  expected ← lift (integer expected_revision "expected_revision" 0 1000000);
  reason ← lift (text reason "review_independence reason" 4000);
  _ ← project pid;
  old ← gets (λ s, project_policy s pid);
  require (bool_decide (po_revision (pv_row old) = expected))
    (StateConflict "project policy revision changed");;
  write_policy pid (expected + 1) None (po_dispatch (pv_row old)) reason actor;;
  stamp ← now;
  modify (λ s, s <| enforcement ::= partial_alter (λ o, Some
    (EnforcementRow (match o with Some row => en_claims row | None => pv_claims old end)
       reason actor stamp advisory)) pid |>);;
  event pid None "review_independence_policy_changed"
    (jobj [("review_independence", JStr (if (advisory : bool) then "advisory" else "off"));
           ("reason", JStr reason); ("revision", JInt (expected + 1)); ("actor", JStr actor)]);;
  gets (λ s, project_policy s pid).

(** [_hold] *)
Definition hold (actor pid nk : string) (held expected_revision reason : json) : M db hold_row :=
  _ ← node pid nk;
  held ← get_some (match held with JBool b => Some b | _ => None end)
           (StateGraphError "held must be a boolean");
  expected ← lift (integer expected_revision "expected_revision" 0 1000000);
  reason ← lift (text reason "hold reason" 4000);
  old ← gets (λ s, node_hold s pid nk);
  require (bool_decide (ho_revision old = expected)) (StateConflict "node hold revision changed");;
  stamp ← now;
  modify (λ s, s <| holds ::= <[(pid, nk) := HoldRow (expected + 1) held reason actor (Some stamp)]> |>);;
  event pid (Some nk) "node_hold_changed"
    (jobj [("held", JBool held); ("reason", JStr reason); ("revision", JInt (expected + 1));
           ("actor", JStr actor)]);;
  gets (λ s, node_hold s pid nk).
Definition set_hold : string → string → string → json → json → json → M db hold_row := hold.

(** *** Historical references *)
Definition REFERENCE_KINDS : list string := ["run"; "commit"; "report"; "note"].
Definition parse_reference_kind (v : json) : option string :=
  match v with
  | JStr k => if bool_decide (k ∈ REFERENCE_KINDS) then Some k else None
  | _ => None
  end.

(** An optional exact digest of one of the given lengths. *)
Definition optional_digest (v : json) (lengths : list nat) (label : string) : res (option string) :=
  match v with
  | JNull => Ok None
  | JStr d =>
    ensure (bool_decide (String.length d ∈ lengths) && all_chars is_hex d)
      (StateGraphError (label +:+ " must be an exact lowercase digest"));;
    Ok (Some d)
  | _ => Err (StateGraphError (label +:+ " must be an exact lowercase digest"))
  end.

Definition reference_payload (nk kind ref label provenance observed : string)
    (artifact report : option string) (protect : bool) : list (string * json) :=
  [("node_key", JStr nk); ("kind", JStr kind); ("ref", JStr ref); ("label", JStr label);
   ("provenance_actor", JStr provenance); ("observed_status", JStr observed);
   ("artifact_ref", jopt JStr artifact); ("report_sha256", jopt JStr report);
   ("protection", JInt (Z.b2z protect))].

Definition add_reference (actor pid nk : string)
    (reference_id kind ref label provenance observed artifact report protect : json)
    : M db link_row :=
  rid ← lift (key reference_id "reference id");
  kind ← get_some (parse_reference_kind kind)
           (StateGraphError "reference kind must be run, commit, report or note");
  ref ← lift (text ref "reference" 2000);
  label ← lift (text label "reference label" 2000);
  provenance ← lift (text provenance "provenance actor" 300);
  observed ← lift (text observed "observed status" 100);
  protect ← get_some (match protect with JBool b => Some b | _ => None end)
              (StateGraphError "protect must be a boolean");
  artifact ← lift (optional_digest artifact [40; 64] "artifact_ref");
  report ← lift (optional_digest report [64] "report_sha256");
  let payload := reference_payload nk kind ref label provenance observed artifact report protect in
  let fingerprint := digest (jobj payload) in
  n ← node pid nk;
  previous ← gets (λ s, links s !! (pid, rid));
  match previous with
  | Some row =>
    require (bool_decide (li_hash row = fingerprint))
      (StateConflict "reference id already records different history; append a new correction");;
    mret row
  | None =>
    stamp ← now;
    let row := LinkRow nk kind ref label observed artifact report provenance actor
                 (n_revision n) protect fingerprint stamp in
    modify (λ s, s <| links ::= <[(pid, rid) := row]> |>);;
    when protect (
      old ← gets (λ s, node_hold s pid nk);
      _ ← hold actor pid nk (JBool true) (JInt (ho_revision old))
            (JStr ("Existing external work: " +:+ label));
      mret tt);;
    event pid (Some nk) "historical_reference_added"
      (jobj (payload ++ [("reference_id", JStr rid); ("acceptance", JBool false)]));;
    mret row
  end.

Definition retirement_json (r : retirement_row) : json :=
  jobj [("project_id", JStr (rt_project r)); ("reference_id", JStr (rt_reference r));
        ("node_key", JStr (rt_node r)); ("node_revision", JInt (rt_revision r));
        ("original_payload_hash", JStr (rt_hash r)); ("run_id", JStr (rt_run r));
        ("foreign_project_id", JStr (rt_foreign_project r));
        ("foreign_attempt_id", JStr (rt_foreign_attempt r));
        ("foreign_execution_project_id", JStr (rt_foreign_execution r));
        ("request_key", JStr (rt_request_key r)); ("request_hash", JStr (rt_request_hash r));
        ("actor", JStr (rt_actor r)); ("reason", JStr (rt_reason r));
        ("created_at", JInt (rt_created r))].

(** The one attempt bound to [run], wholly of another State project. *)
Definition foreign_binding (pid : string) (rows : list attempt_row)
    : option (attempt_row * string) :=
  match rows with
  | [a] =>
    match a_execution a, a_workflow a with
    | Some execution, Some _ =>
      if bool_decide (a_kind a = Skillflow) && bool_decide (a_project a ≠ pid)
      then Some (a, execution) else None
    | _, _ => None
    end
  | _ => None
  end.

Definition protects (nk run : string) (l : link_row) : bool :=
  bool_decide (li_node l = nk) && bool_decide (li_ref l = run) &&
  bool_decide (li_kind l = "run") && li_protection l.

Definition retire_context_run_protection (actor : string) (is_admin trusted : bool)
    (pid nk rid run_id : string) (expected_revision : json) (expected_hash : json)
    (request_key : string) (reason : json) : M db retirement_row :=
  require (is_admin && trusted) (ClaimError "admin_required");;
  _ ← lift (key pid "project_id");
  _ ← lift (key nk "node_key");
  _ ← lift (key rid "reference_id");
  _ ← lift (key run_id "run_id");
  _ ← lift (key request_key "request_key");
  expected ← lift (integer expected_revision "expected_revision" 1 1000000);
  hash ← get_some (match expected_hash with
                   | JStr h => if hex_of 64 h then Some h else None
                   | _ => None end)
           (StateGraphError "expected_payload_hash must be an exact lowercase sha256");
  reason ← lift (text reason "retirement reason" 4000);
  let request_hash := digest (jobj
    [("project_id", JStr pid); ("node_key", JStr nk); ("reference_id", JStr rid);
     ("run_id", JStr run_id); ("expected_revision", JInt expected);
     ("expected_payload_hash", JStr hash); ("reason", JStr reason); ("actor", JStr actor)]) in
  prior ← gets (λ s, select_one (λ r, bool_decide (rt_project r = pid) &&
                       bool_decide (rt_request_key r = request_key)) (retirements s));
  match prior with
  | Some row =>
    require (bool_decide (rt_request_hash row = request_hash))
      (StateConflict "retirement request key already records a different correction");;
    mret row
  | None =>
    n ← node pid nk;
    require (bool_decide (n_revision n = expected)) (StateConflict "node revision changed");;
    link ← gets (λ s, links s !! (pid, rid));
    link ← get_some (match link with
                     | Some l => if protects nk run_id l then Some l else None
                     | None => None end)
             (StateConflict "correction requires this node's exact protected run reference");
    require (bool_decide (li_hash link = hash)) (StateConflict "reference payload hash changed");;
    taken ← gets (λ s, existsb (λ r, bool_decide (rt_project r = pid) &&
                         bool_decide (rt_reference r = rid)) (retirements s));
    require (negb taken) (StateConflict "reference protection already retired by a different request");;
    rows ← gets (λ s, select (λ a, bool_decide (a_run a = Some run_id)) (attempts s));
    '(binding, execution) ← get_some (foreign_binding pid rows)
      (StateConflict "run lacks an unambiguous binding wholly to another State project");
    stamp ← now;
    let row := RetirementRow pid rid nk expected hash run_id (a_project binding) (a_id binding)
                 execution request_key request_hash actor reason stamp in
    modify (λ s, s <| retirements ::= (λ l, l ++ [row]) |>);;
    event pid (Some nk) "context_run_protection_retired" (retirement_json row);;
    mret row
  end.

(** [references]: one page, with the protection each reference still has. *)
Record reference_view : Type := ReferenceView {
  rf_id : string; rf_row : link_row; rf_protection : bool; rf_retired : bool;
  rf_audit : option retirement_row }.
Definition view_reference (trusted : bool) (s : db) (pid : string) (p : string * link_row)
    : reference_view :=
  let gone := retired s pid p.1 (li_hash p.2) in
  ReferenceView p.1 p.2 (li_protection p.2 && negb gone) gone
    (if trusted then select_one (λ r, bool_decide (rt_project r = pid) &&
                       bool_decide (rt_reference r = p.1)) (retirements s) else None).

Definition references (trusted : bool) (pid : string) (nk : option string) (after : string) (limit : json)
    : M db (list reference_view * option string) :=
  limit ← lift (integer limit "limit" 1 200);
  (if bool_decide (after = "") then mret tt else _ ← lift (key after "after"); mret tt);;
  _ ← project pid;
  match nk with Some nk => _ ← node pid nk; mret tt | None => mret tt end;;
  rows ← gets (λ s, take (S (Z.to_nat limit))
    (List.filter (λ p, negb (bool_decide (String.le p.1 after)) &&
                       match nk with Some nk => bool_decide (li_node p.2 = nk) | None => true end)
      (sort_items (map_to_list (slice (links s) pid)))));
  let page := take (Z.to_nat limit) rows in
  views ← gets (λ s, view_reference trusted s pid <$> page);
  mret (views, if (Z.of_nat (length rows) <=? limit)%Z then None else fst <$> last page).

(** [run_owners]: the attempts and the references that name a run. *)
Definition run_owners (run_id : string) : M db (list (string * string * string)) :=
  _ ← lift (key run_id "run_id");
  own ← gets (λ s, (λ a, (a_project a, a_node a, a_id a)) <$>
    select (λ a, bool_decide (a_run a = Some run_id)) (attempts s));
  refs ← gets (λ s, (λ p, (p.1.1, li_node p.2, p.1.2)) <$>
    List.filter (λ p, bool_decide (li_kind p.2 = "run") && bool_decide (li_ref p.2 = run_id))
      (map_to_list (links s)));
  mret (own ++ refs).

(** [StateGraphStore.project_for_attempt] and [projects_for_run] *)
Definition project_for_attempt (aid : string) : M db (option string) :=
  _ ← lift (key aid "key");
  gets (λ s, a_project <$> select_one (λ a, bool_decide (a_id a = aid)) (attempts s)).
Definition projects_for_run (run_id : string) : M db (gset string) :=
  rid ← lift (key run_id "key");
  gets (λ s,
    list_to_set (a_project <$> select (λ a, bool_decide (a_run a = Some rid)) (attempts s))
    ∪ list_to_set ((λ p, p.1.1) <$>
        List.filter (λ p, bool_decide (li_kind p.2 = "run") && bool_decide (li_ref p.2 = rid))
          (map_to_list (links s)))).

(** [StatePortfolio.projects]: one page of the catalogue. *)
Record catalog_entry : Type := CatalogEntry {
  ce_project : string; ce_row : project_row; ce_nodes : nat; ce_verified : nat;
  ce_source : json; ce_policy : policy_view }.
Definition catalog_entry_of (s : db) (pid : string) (row : project_row) : catalog_entry :=
  CatalogEntry pid row (size (nodes_of s pid))
    (length (List.filter (λ p, bool_decide (n_status p.2 = VERIFIED)) (map_to_list (nodes_of s pid))))
    (source_of s pid row) (project_policy s pid).
Definition catalog (trusted : bool) (repo_path : option string) (after : string) (limit : json)
    : M db (list catalog_entry * option string) :=
  limit ← lift (integer limit "limit" 1 200);
  (if bool_decide (after = "") then mret tt else _ ← lift (key after "after"); mret tt);;
  entries ← gets (λ s,
    (λ p, catalog_entry_of s p.1 p.2) <$>
      List.filter (λ p, negb (bool_decide (String.le p.1 after)) &&
                        (trusted || bool_decide (visibility_of s p.1 = Public)))
        (sort_items (map_to_list (projects s))));
  let kept := List.filter (λ e, match repo_path with
    | None => true
    | Some path => bool_decide (jget "repo_path" (ce_source e) = Some (JStr path)) end) entries in
  let page := take (Z.to_nat limit) kept in
  mret (page, if (Z.of_nat (length kept) <=? limit)%Z then None else ce_project <$> last page).
End portfolio.
