(* ===== verification/Presence.v ===== *)
(** * Driver presence

    [core/driver_presence.py], with [presence_of] of [core/drivers.py]: what a
    driver declared, whether it is waiting, and when it was last seen, combined
    into the status that takeovers act on.  Stamps are instants in microseconds,
    so an unreadable stamp does not occur; the three thresholds come from the
    environment. *)
From S2P Require Import Prelude Json Text Dag Store Graph.

Local Open Scope Z_scope.

Definition SECOND : Z := 1000000.

Inductive presence_status : Set := Online | Away | Offline.
#[export] Instance presence_status_eq_dec : EqDecision presence_status.
Proof. solve_decision. Defined.
Definition presence_text (p : presence_status) : string :=
  match p with Online => "online" | Away => "away" | Offline => "offline" end.

(** [presence_thresholds]: a positive number or the default; [stale] must exceed [online]. *)
Definition PRESENCE_ONLINE_DEFAULT : Z := 900.
Definition PRESENCE_OFFLINE_DEFAULT : Z := 21600.
Definition PRESENCE_FUTURE_SKEW_SECONDS : Z := 60.
Definition WAIT_GRACE_DEFAULT : Z := 120.
Definition WAIT_SLACK_SECONDS : Z := 30.
Definition WAIT_ROW_KEEP_SECONDS : Z := 3600.
Definition MAX_REASON_CHARS : Z := 200.

(** The environment variables, already read as integers ([None]: not a number). *)
Record environment : Type := Environment {
  env_online : option Z; env_offline : option Z; env_grace : option Z;
  env_identity : bool                (* [feature_enabled]: the switch and a pepper *) }.

Definition positive_seconds (raw : option Z) (default : Z) : Z :=
  match raw with Some v => if 0 <? v then v else default | None => default end.
Definition presence_thresholds (env : environment) : Z * Z :=
  let online := positive_seconds (env_online env) PRESENCE_ONLINE_DEFAULT in
  let stale := positive_seconds (env_offline env) PRESENCE_OFFLINE_DEFAULT in
  if stale <=? online then (PRESENCE_ONLINE_DEFAULT, PRESENCE_OFFLINE_DEFAULT) else (online, stale).
Definition wait_grace_seconds (env : environment) : Z :=
  positive_seconds (env_grace env) WAIT_GRACE_DEFAULT.

(** [presence_of]: the status and the whole seconds since the driver was seen. *)
Definition presence_of (seen : option Z) (current online_seconds stale_seconds : Z)
    : presence_status * option Z :=
  match seen with
  | None => (Offline, None)
  | Some seen =>
    let delta := current - seen in
    if delta <? - (PRESENCE_FUTURE_SKEW_SECONDS * SECOND) then (Offline, None)
    else
      let age := Z.max 0 (Z.quot delta SECOND) in
      (if age <=? online_seconds then Online
       else if age <=? stale_seconds then Away else Offline, Some age)
  end.
Definition presence_now (env : environment) (seen : option Z) (current : Z)
    : presence_status * option Z :=
  let '(online, stale) := presence_thresholds env in presence_of seen current online stale.

Definition PUBLIC_DRIVER_ID : string := "public".
Definition shared_identity (driver : string) : bool := bool_decide (driver = PUBLIC_DRIVER_ID).

(** [_wait_state]: is a wait running, and the end of the latest finished one. *)
Definition wait_step (current : Z) (acc : bool * option Z) (w : wait_row) : bool * option Z :=
  let '(waiting, ended) := acc in
  match wa_ended w with
  | None =>
    if current <=? wa_until w then (true, ended)
    else (waiting, match ended with
                   | Some e => if e <? wa_until w then Some (wa_until w) else Some e
                   | None => Some (wa_until w) end)
  | Some end_ =>
    (waiting, match ended with
              | Some e => if e <? end_ then Some end_ else Some e
              | None => Some end_ end)
  end.
Definition wait_state (s : db) (driver : string) (current : Z) : bool * option Z :=
  foldl (wait_step current) (false, None)
    (select (λ w, bool_decide (wa_driver w = driver)) (waits s)).

Inductive basis : Set := ByWait | ByDeclaration | ByLastSeen.
#[export] Instance basis_eq_dec : EqDecision basis.
Proof. solve_decision. Defined.

Record presence : Type := Presence {
  ps_status : presence_status; ps_basis : basis; ps_derived : presence_status;
  ps_last_seen : option Z; ps_seconds : option Z; ps_determinable : bool;
  ps_declared : option declaration_row; ps_waiting : bool; ps_wait_end : option Z }.

Definition effective_presence (env : environment) (s : db) (driver : string) (current : Z)
    : presence :=
  let row := drivers s !! driver in
  let seen := row ≫= drv_seen in
  let '(derived, seconds) := presence_now env seen current in
  let declaration := declarations s !! driver in
  let '(waiting, ended) := wait_state s driver current in
  let recent := match ended with
                | Some e => (current - e) <=? wait_grace_seconds env * SECOND
                | None => false end in
  let '(status, by_) :=
    if waiting || recent then (Online, ByWait)
    else match declaration with
         | Some _ => (Offline, ByDeclaration)
         | None => (derived, ByLastSeen) end in
  Presence status by_ derived seen seconds
    (negb (bool_decide (by_ = ByLastSeen)) || bool_decide (is_Some row) && bool_decide (is_Some seconds))
    declaration waiting ended.

Section presence.
Context `{Host}.

Definition presence_audit (driver status cause actor : string) : M db unit :=
  stamp ← now;
  modify (λ s, s <| audit ::= (λ l, (l ++ [AuditRow driver (AuditPresence status cause) actor stamp])%list) |>).

(** [_clear] *)
Definition clear (driver cause actor : string) : M db bool :=
  old ← gets (λ s, declarations s !! driver);
  match old with
  | None => mret false
  | Some _ =>
    modify (λ s, s <| declarations ::= delete driver |>);;
    presence_audit driver "online" cause actor;;
    mret true
  end.

(** [mark_back]: the driver acted, inside the caller's write transaction. *)
Definition mark_back (driver : option string) (cause : string) : M db unit :=
  match driver with
  | None => mret tt
  | Some driver =>
    if bool_decide (driver = "") then mret tt
    else
      _ ← clear driver cause ("driver:" +:+ driver);
      stamp ← now;
      modify (λ s, s <| drivers ::= alter (λ r, r <| drv_seen := Some stamp |>) driver |>)
  end.

(** [declare]; [expected_return] is the instant the ISO text denotes. *)
Definition declare (driver : string) (status : string) (reason : json)
    (expected_return : option Z) (actor : option string) : M db bool :=
  require (negb (bool_decide (driver = ""))) (ClaimError "driver_identity_required");;
  require (negb (shared_identity driver)) (ClaimError "shared_identity");;
  require (bool_decide (status = "offline") || bool_decide (status = "online"))
    (StateGraphError "status must be offline or online");;
  reason ← get_some (match reason with
                     | JNull => Some ""
                     | JStr r => if Z.of_nat (py_len r) <=? MAX_REASON_CHARS then Some r else None
                     | _ => None end)
             (StateGraphError "reason must be text of bounded length");
  require (bool_decide (expected_return = None) || bool_decide (status = "offline"))
    (StateGraphError "expected_return belongs to an offline declaration");;
  let actor := default ("driver:" +:+ driver) actor in
  old ← gets (λ s, declarations s !! driver);
  if bool_decide (status = "online") then clear driver "declared" actor
  else match old with
  | None =>
    stamp ← now;
    modify (λ s, s <| declarations ::= <[driver := DeclarationRow stamp reason expected_return]> |>);;
    presence_audit driver "offline" "declared" actor;;
    mret true
  | Some row =>
    if bool_decide (de_reason row = reason) && bool_decide (de_return row = expected_return)
    then mret false
    else
      modify (λ s, s <| declarations ::=
        alter (λ r, r <| de_reason := reason |> <| de_return := expected_return |>) driver |>);;
      presence_audit driver "offline" "declared" actor;;
      mret true
  end.

(** One try of [_wait_begin] that commits; [timeout] in microseconds. *)
Definition wait_begin (env : environment) (driver : string) (timeout : Z) : M db string :=
  u ← uuid4;
  current ← now;
  let wid := "wait-" +:+ u in
  let keep := current - Z.max WAIT_ROW_KEEP_SECONDS (2 * wait_grace_seconds env) * SECOND in
  modify (λ s, s <| waits ::= (λ l,
    (select (λ w, negb (bool_decide (wa_driver w = driver) &&
                        (default (wa_until w) (wa_ended w) <? keep))) l
     ++ [WaitRow wid driver current (current + timeout + WAIT_SLACK_SECONDS * SECOND) None])%list) |>);;
  _ ← clear driver "wait" ("driver:" +:+ driver);
  mret wid.

(** [_wait_end] *)
Definition wait_end (wid : string) : M db unit :=
  stamp ← now;
  modify (λ s, s <| waits ::= update_where (λ w, bool_decide (wa_id w = wid))
                                (λ w, w <| wa_ended := Some stamp |>) |>).
End presence.
