(* ===== verification/Claims.v ===== *)
(** * Node claims, leases and heartbeats

    [core/state_claims.py].  A claim is a driver's declaration that it works on
    a node; its lease says how long the declaration holds without a heartbeat;
    its fence grows with every new claim on the node.  Stamps are fixed-width,
    so comparing them as strings compares instants. *)
From S2P Require Import Prelude Json Text Dag Store Graph Presence.

Local Open Scope Z_scope.

Definition EXCLUSIVE (p : purpose) : bool :=
  match p with Implement | Plan => true | Review | Investigate => false end.
Definition DEFAULT_LEASE_SECONDS : Z := 7200.
Definition MIN_LEASE_SECONDS : Z := 60.
Definition MAX_LEASE_SECONDS : Z := 86400.
Definition GRACE_SECONDS : Z := 900.
Definition MAX_HEARTBEAT_ITEMS : nat := 100.

Definition add_seconds (value seconds : Z) : Z := value + seconds * SECOND.

(** ** Lease states *)
Inductive lease : Set := LHealthy | LExpired | LReclaimable | LLegacy.
#[export] Instance lease_eq_dec : EqDecision lease.
Proof. solve_decision. Defined.
Definition lease_text (l : lease) : string :=
  match l with
  | LHealthy => "healthy" | LExpired => "expired"
  | LReclaimable => "reclaimable" | LLegacy => "legacy_unleased"
  end.

Definition lease_state (expires : option Z) (current : Z) : lease :=
  match expires with
  | None => LLegacy
  | Some e =>
    if current <? e then LHealthy
    else if current <? add_seconds e GRACE_SECONDS then LExpired
    else LReclaimable
  end.

Record lease_view : Type := LeaseView {
  lv_owner : option string; lv_fence : option Z; lv_expires : option Z;
  lv_state : option lease; lv_reclaimable : option Z }.
Definition attempt_lease_view (a : attempt_row) (current : Z) : lease_view :=
  if ACTIVE (a_status a)
  then LeaseView (a_owner a) (Some (a_fence a)) (a_lease a) (Some (lease_state (a_lease a) current))
         ((λ e, add_seconds e GRACE_SECONDS) <$> a_lease a)
  else LeaseView (a_owner a) None (a_lease a) None None.

Record claim_view : Type := ClaimView {
  cv_row : claim_row; cv_state : option lease; cv_reclaimable : Z }.
Definition claim_view_of (current : Z) (c : claim_row) : claim_view :=
  ClaimView c
    (if bool_decide (cl_status c = Live) then Some (lease_state (Some (cl_expires c)) current) else None)
    (add_seconds (cl_expires c) GRACE_SECONDS).

Definition on_node (pid nk : string) (c : claim_row) : bool :=
  bool_decide (cl_project c = pid) && bool_decide (cl_node c = nk).
Definition is_live (c : claim_row) : bool := bool_decide (cl_status c = Live).

(** [ORDER BY created_at, claim_id] *)
Definition claim_le (c d : claim_row) : Prop :=
  cl_created c < cl_created d ∨ (cl_created c = cl_created d ∧ String.le (cl_id c) (cl_id d)).
#[export] Instance claim_le_dec : RelDecision claim_le.
Proof. intros c d. unfold claim_le. apply _. Defined.

Definition live_claims (s : db) (pid : string) (nk : option string) (current : Z) : list claim_view :=
  claim_view_of current <$> merge_sort claim_le
    (select (λ c, bool_decide (cl_project c = pid) && is_live c &&
                  match nk with Some nk => bool_decide (cl_node c = nk) | None => true end) (claims s)).

(** ** Lazy expiry *)
Definition payload_is (k : string) (v : json) (payload : json) : bool :=
  bool_decide (jget k payload = Some v).
Definition expiry_seen (s : db) (pid nk lease_id : string) (expires : Z) (phase : lease) : bool :=
  existsb (λ e, bool_decide (e_project e = pid) && bool_decide (e_node e = Some nk) &&
    bool_decide (e_type e = "lease_expired") &&
    payload_is "lease_id" (JStr lease_id) (e_payload e) &&
    payload_is "lease_expires_at" (JInt expires) (e_payload e) &&
    payload_is "phase" (JStr (lease_text phase)) (e_payload e)) (events s).

Inductive subject : Type :=
  | DueClaim (c : claim_row) (phase : lease)
  | DueAttempt (a : attempt_row) (expires : Z) (phase : lease).

Definition in_node (nk : option string) (k : string) : bool :=
  match nk with Some nk => bool_decide (k = nk) | None => true end.

Definition due_claims (s : db) (pid : string) (current : Z) (nk : option string) : list subject :=
  flat_map (λ c,
    let phase := lease_state (Some (cl_expires c)) current in
    if bool_decide (phase = LReclaimable) ||
       negb (expiry_seen s pid (cl_node c) (cl_id c) (cl_expires c) phase)
    then [DueClaim c phase] else [])
    (select (λ c, bool_decide (cl_project c = pid) && is_live c && (cl_expires c <=? current)
                  && in_node nk (cl_node c)) (claims s)).
Definition due_attempts (s : db) (pid : string) (current : Z) (nk : option string) : list subject :=
  flat_map (λ a,
    match a_lease a with
    | Some e =>
      if e <=? current then
        let phase := lease_state (Some e) current in
        if expiry_seen s pid (a_node a) (a_id a) e phase then [] else [DueAttempt a e phase]
      else []
    | None => []
    end)
    (select (λ a, bool_decide (a_project a = pid) && ACTIVE (a_status a) && in_node nk (a_node a))
       (attempts s)).
Definition due (s : db) (pid : string) (current : Z) (nk : option string) : list subject :=
  (due_claims s pid current nk ++ due_attempts s pid current nk)%list.

Section claims.
Context `{Host}.

Definition update_claim (cid : string) (f : claim_row → claim_row) : M db unit :=
  modify (λ s, s <| claims ::= update_where (λ c, bool_decide (cl_id c = cid)) f |>).

(** [_history] *)
Definition history (actor : string) (c : claim_row) (status : claim_status) (reason : string)
    : M db unit :=
  stamp ← now;
  modify (λ s, s <| claim_history ::= (λ l, (l ++ [HistoryRow (cl_id c) (cl_project c) (cl_node c)
    (cl_driver c) (cl_purpose c) status (cl_fence c) (cl_expires c) actor reason stamp])%list) |>).

Definition expiry_payload (subject lease_id : string) (phase : lease) (expires : Z)
    : list (string * json) :=
  [("subject", JStr subject); ("lease_id", JStr lease_id); ("phase", JStr (lease_text phase));
   ("lease_expires_at", JInt expires); ("reclaimable_at", JInt (add_seconds expires GRACE_SECONDS))].

(** One iteration of [_sweep_conn]. *)
Definition expire (actor pid : string) (current : Z) (x : subject) : M db unit :=
  match x with
  | DueClaim c phase =>
    when (bool_decide (phase = LReclaimable)) (
      update_claim (cl_id c) (λ r, r <| cl_status := Expired |> <| cl_updated := current |>);;
      history actor c Expired "lease expired and its grace passed");;
    event pid (Some (cl_node c)) "lease_expired"
      (jobj (expiry_payload "claim" (cl_id c) phase (cl_expires c) ++
        [("claim_id", JStr (cl_id c)); ("driver_id", JStr (cl_driver c));
         ("purpose", JStr (purpose_text (cl_purpose c))); ("fence", JInt (cl_fence c))]))
  | DueAttempt a expires phase =>
    event pid (Some (a_node a)) "lease_expired"
      (jobj (expiry_payload "attempt" (a_id a) phase expires ++
        [("attempt_id", JStr (a_id a)); ("driver_id", jopt JStr (a_owner a));
         ("fence", JInt (a_fence a)); ("attempt_status", JStr (attempt_status_text (a_status a)))]))
  end.

(** [_sweep_conn] *)
Definition sweep_conn (actor pid : string) (current : Z) (nk : option string) : M db (list subject) :=
  xs ← gets (λ s, due s pid current nk);
  for_each (expire actor pid current) xs;;
  mret xs.

Definition sweep (actor : string) (trusted : bool) (pid : string) : M db (list subject) :=
  if trusted then
    current ← now;
    xs ← gets (λ s, due s pid current None);
    match xs with
    | [] => mret []
    | _ => current ← now; sweep_conn actor pid current None
    end
  else mret [].

(** ** Claiming *)
Definition parse_purpose (v : string) : option purpose :=
  find (λ p, bool_decide (purpose_text p = v)) [Implement; Review; Investigate; Plan].

Definition starts_with (prefix s : string) : bool := String.prefix prefix s.

(** [subagent] is ['<driver>/<label>']. *)
Definition own_subagent (driver label : string) : bool :=
  starts_with (driver +:+ "/") label &&
  (Z.of_nat (py_len driver) + 1 <? Z.of_nat (py_len label)).

(** [_refuse_exclusive_holder]: the refusal names the holder. *)
Definition refuse_exclusive_holder (pid nk driver : string) : M db unit :=
  holder ← gets (λ s, select_one (λ c, on_node pid nk c && is_live c && EXCLUSIVE (cl_purpose c)) (claims s));
  match holder with
  | None => mret tt
  | Some c => raise (ClaimError (if bool_decide (cl_driver c = driver)
                                 then "already_held" else "claimed_by_other"))
  end.

Definition max_fence (s : db) (pid nk : string) : Z :=
  foldr Z.max 0 (cl_fence <$> select (on_node pid nk) (claims s)).

(** The primary key, the unique requests and the partial unique index of [state_node_claims]. *)
Definition claim_clash (c d : claim_row) : bool :=
  bool_decide (cl_id d = cl_id c) ||
  on_node (cl_project c) (cl_node c) d &&
    (bool_decide (cl_driver d = cl_driver c) && bool_decide (cl_request_key d = cl_request_key c)
     || is_live d && EXCLUSIVE (cl_purpose d) && is_live c && EXCLUSIVE (cl_purpose c)).
Definition claim_conflict (s : db) (c : claim_row) : bool := existsb (claim_clash c) (claims s).

Definition claim_request (p : string) (expected_revision : Z) (lease_seconds : Z)
    (workspace : string) (subagent : option string) : json :=
  jobj [("purpose", JStr p); ("revision", JInt expected_revision);
        ("lease_seconds", JInt lease_seconds); ("workspace", JStr workspace);
        ("subagent", jopt JStr subagent)].

Definition require_driver (driver : option string) : M db string :=
  match driver with
  | Some d => if bool_decide (d = "") then raise (ClaimError "driver_identity_required") else mret d
  | None => raise (ClaimError "driver_identity_required")
  end.

(** The insert: the next fence, a fresh id, and the refusal of a unique conflict. *)
Definition insert_claim (pid nk driver : string) (fresh : Z → string → claim_row) : M db claim_row :=
  top ← gets (λ s, max_fence s pid nk);
  u ← uuid4;
  let c := fresh (1 + top) ("claim-" +:+ u) in
  conflict ← gets (λ s, claim_conflict s c);
  (if (conflict : bool)
   then refuse_exclusive_holder pid nk driver;; raise (ClaimError "claimed_by_other")
   else modify (λ s, s <| claims ::= (λ l, (l ++ [c])%list) |>));;
  mret c.

Definition claim_node (actor : string) (driver : option string) (pid nk purpose_ : string)
    (expected_revision : Z) (request_key : string) (lease_seconds : json)
    (workspace : json) (subagent : option string) : M db (claim_view * bool) :=
  driver ← require_driver driver;
  p ← get_some (parse_purpose purpose_)
        (StateGraphError "purpose must be implement, review, investigate or plan");
  seconds ← lift (integer lease_seconds "lease_seconds" MIN_LEASE_SECONDS MAX_LEASE_SECONDS);
  _ ← lift (key request_key "request_key");
  workspace ← get_some (match workspace with
                        | JStr w => if Z.of_nat (py_len w) <=? 500 then Some w else None
                        | _ => None end)
                (StateGraphError "workspace must be text of at most 500 characters");
  require (match subagent with
           | Some label => own_subagent driver label && (Z.of_nat (py_len label) <=? 320)
           | None => true end) (ClaimError "not_your_subagent");;
  let request_hash := digest (claim_request purpose_ expected_revision seconds workspace subagent) in
  mark_back (Some driver) "claim_node";;
  n ← node pid nk;
  old ← gets (λ s, select_one (λ c, on_node pid nk c && bool_decide (cl_driver c = driver) &&
                     bool_decide (cl_request_key c = request_key)) (claims s));
  match old with
  | Some c =>
    require (bool_decide (cl_request_hash c = request_hash)) (ClaimError "request_key_reused");;
    current ← now;
    mret (claim_view_of current c, true)
  | None =>
    require (bool_decide (n_revision n = expected_revision)) (ClaimError "revision_changed");;
    require (negb (bool_decide (n_status n = SUPERSEDED) ||
                   bool_decide (p = Implement) && bool_decide (n_status n = VERIFIED)))
      (ClaimError "node_closed");;
    current ← now;
    _ ← sweep_conn actor pid current (Some nk);
    when (EXCLUSIVE p) (refuse_exclusive_holder pid nk driver);;
    c ← insert_claim pid nk driver (λ fence cid,
      ClaimRow cid pid nk driver p Live fence (n_revision n) None workspace
        subagent seconds (add_seconds current seconds) current request_key request_hash
        current current);
    history actor c Live "";;
    event pid (Some nk) "claim_acquired"
      (jobj [("claim_id", JStr (cl_id c)); ("driver_id", JStr driver); ("purpose", JStr purpose_);
             ("fence", JInt (cl_fence c)); ("lease_expires_at", JInt (cl_expires c));
             ("workspace", JStr workspace); ("subagent", jopt JStr subagent); ("actor", JStr actor)]);;
    mret (claim_view_of current c, false)
  end.

(** [_claim] *)
Definition claim_at (pid cid : string) : M db claim_row :=
  cid ← lift (key cid "claim_id");
  row ← gets (λ s, select_one (λ c, bool_decide (cl_id c = cid) && bool_decide (cl_project c = pid)) (claims s));
  get_some row (StateNotFound "claim not found in project").

(** ** Releasing *)
Definition release_claim (actor : string) (driver : option string) (is_admin : bool)
    (pid cid : string) (fence reason : json) : M db (claim_view * bool) :=
  reason ← lift (text reason "release reason" 2000);
  (if is_admin then mret tt else _ ← require_driver driver; mret tt);;
  _ ← project pid;
  c ← claim_at pid cid;
  let own := bool_decide (Some (cl_driver c) = driver) in
  require (own || is_admin) (ClaimError "not_claim_owner");;
  require (bool_decide (fence = JInt (cl_fence c))) (ClaimError "stale_fence");;
  match cl_status c with
  | Released => current ← now; mret (claim_view_of current c, true)
  | TakenOver => raise (ClaimError "stale_fence")
  | Live =>
    current ← now;
    update_claim cid (λ r, r <| cl_status := Released |> <| cl_updated := current |>);;
    let c' := c <| cl_status := Released |> <| cl_updated := current |> in
    history actor c' Released reason;;
    event pid (Some (cl_node c)) "claim_released"
      (jobj [("claim_id", JStr cid); ("driver_id", JStr (cl_driver c));
             ("purpose", JStr (purpose_text (cl_purpose c))); ("fence", JInt (cl_fence c));
             ("reason", JStr reason); ("actor", JStr actor); ("break_glass", JBool (negb own))]);;
    mret (claim_view_of current c', false)
  | _ => raise (ClaimError "claim_not_live")
  end.

(** ** Heartbeats

    One outcome per item, in order; [renewed] and [refused] are the two
    kinds of outcome. *)
Inductive outcome : Type :=
  | RenewedItem (kind id : string) (fence expires : Z)
  | RefusedItem (kind id code : string).

Definition renew_claim (current : Z) (c : claim_row) : M db (list outcome) :=
  let expires := add_seconds current (cl_lease c) in
  update_claim (cl_id c) (λ r, r <| cl_expires := expires |> <| cl_heartbeat := current |>);;
  mret [RenewedItem "claim" (cl_id c) (cl_fence c) expires].

Definition claim_code (driver : string) (fence : Z) (row : option claim_row) : option string :=
  match row with
  | None => Some "not_found"
  | Some c =>
    if negb (bool_decide (cl_driver c = driver)) then Some "not_claim_owner"
    else if negb (bool_decide (cl_fence c = fence)) || bool_decide (cl_status c = TakenOver)
    then Some "stale_fence"
    else if negb (is_live c) then Some "claim_not_live" else None
  end.

Definition beat_claim (pid driver : string) (current : Z) (item : string * Z)
    : M db (list outcome) :=
  row ← gets (λ s, select_one (λ c, bool_decide (cl_id c = item.1) && bool_decide (cl_project c = pid)) (claims s));
  match claim_code driver item.2 row, row with
  | None, Some c => renew_claim current c
  | Some code, _ => mret [RefusedItem "claim" item.1 code]
  | None, None => mret []
  end.

Definition attempt_code (driver : string) (fence : Z) (row : option attempt_row) : option string :=
  match row with
  | None => Some "not_found"
  | Some a =>
    if negb (ACTIVE (a_status a)) then Some "attempt_not_active"
    else if bool_decide (a_owner a = None) || bool_decide (a_lease a = None) then Some "legacy_unleased"
    else if negb (bool_decide (a_owner a = Some driver)) then Some "not_attempt_owner"
    else if negb (bool_decide (a_fence a = fence)) then Some "stale_fence" else None
  end.

Definition update_attempt (aid : string) (f : attempt_row → attempt_row) : M db unit :=
  modify (λ s, s <| attempts ::= update_where (λ a, bool_decide (a_id a = aid)) f |>).

Definition beat_attempt (pid driver : string) (current : Z) (item : string * Z)
    : M db (list outcome) :=
  row ← gets (λ s, select_one (λ a, bool_decide (a_id a = item.1) && bool_decide (a_project a = pid)) (attempts s));
  match attempt_code driver item.2 row, row with
  | None, Some a =>
    let expires := add_seconds current DEFAULT_LEASE_SECONDS in
    update_attempt item.1 (λ r, r <| a_lease := Some expires |> <| a_heartbeat := Some current |>);;
    mret [RenewedItem "attempt" item.1 (a_fence a) expires]
  | Some code, _ => mret [RefusedItem "attempt" item.1 code]
  | None, None => mret []
  end.

Definition beat_subagent (pid driver : string) (current : Z) (label : string)
    : M db (list outcome) :=
  if own_subagent driver label then
    rows ← gets (λ s, merge_sort (λ c d : claim_row, String.le (cl_id c) (cl_id d))
      (select (λ c, bool_decide (cl_project c = pid) && bool_decide (cl_driver c = driver) &&
                    bool_decide (cl_subagent c = Some label) && is_live c) (claims s)));
    match rows with
    | [] => mret [RefusedItem "subagent" label "no_live_claims"]
    | _ => collect (renew_claim current) rows
    end
  else mret [RefusedItem "subagent" label "not_your_subagent"].

Definition heartbeat (driver : option string) (pid : string)
    (claim_items attempt_items : list (string * Z)) (subagents : list string)
    : M db (list outcome * Z) :=
  driver ← require_driver driver;
  let total := (length claim_items + length attempt_items + length subagents)%nat in
  require ((1 <=? total)%nat && (total <=? MAX_HEARTBEAT_ITEMS)%nat)
    (StateGraphError "heartbeat takes 1 to 100 items");;
  _ ← project pid;
  mark_back (Some driver) "heartbeat";;
  current ← now;
  xs ← collect (beat_claim pid driver current) claim_items;
  ys ← collect (beat_attempt pid driver current) attempt_items;
  zs ← collect (beat_subagent pid driver current) subagents;
  mret ((xs ++ ys ++ zs)%list, current).

(** ** Reads *)
Definition newest_first (c d : claim_row) : Prop :=
  cl_created d < cl_created c ∨ (cl_created c = cl_created d ∧ String.le (cl_id c) (cl_id d)).
#[export] Instance newest_first_dec : RelDecision newest_first.
Proof. intros c d. unfold newest_first. apply _. Defined.

Definition list_claims (env : environment) (actor : string) (trusted : bool) (pid : string)
    (node_keys : option (list string)) (statuses : list claim_status) (driver : option string)
    (limit : nat) : M db (list (claim_view * presence) * bool * Z) :=
  node_keys ← lift (match node_keys with
                    | Some ks => ks ← mapM (λ k, key (JStr k) "node_key") ks; Ok (Some ks)
                    | None => Ok None end);
  _ ← sweep actor trusted pid;
  current ← now;
  _ ← project pid;
  let statuses := match statuses with [] => [Live] | _ => statuses end in
  rows ← gets (λ s, take (S limit) (merge_sort newest_first
    (select (λ c, bool_decide (cl_project c = pid) && bool_decide (cl_status c ∈ statuses) &&
      match node_keys with Some ks => bool_decide (cl_node c ∈ ks) | None => true end &&
      match driver with Some d => bool_decide (cl_driver c = d) | None => true end) (claims s))));
  stamp ← now;
  views ← gets (λ s, (λ c, (claim_view_of current c, effective_presence env s (cl_driver c) stamp))
                       <$> take limit rows);
  mret (views, (limit <? length rows)%nat, current).

Definition get_claim (env : environment) (actor : string) (trusted : bool) (pid cid : string)
    : M db (claim_view * presence * list history_row) :=
  _ ← sweep actor trusted pid;
  current ← now;
  _ ← project pid;
  c ← claim_at pid cid;
  stamp ← now;
  p ← gets (λ s, effective_presence env s (cl_driver c) stamp);
  rows ← gets (λ s, select (λ h, bool_decide (hi_claim h = cid)) (claim_history s));
  mret (claim_view_of current c, p, rows).
End claims.
