(* ===== verification/Enforcement.v ===== *)
(** * Claim enforcement

    [core/state_enforcement.py]: the rules that turn recorded claims into
    refusals, behind the one switch [enforced]. *)
From S2P Require Import Prelude Json Text Dag Store Graph Portfolio Presence Claims.

Definition MAX_OVERRIDE_REASON : Z := 2000.

Definition enforced (s : db) (pid : string) : bool := claim_enforcement s pid.

Definition override_reason_text (value : json) : res (option string) :=
  match value with
  | JNull => Ok None
  | _ => r ← text value "override_reason" MAX_OVERRIDE_REASON; Ok (Some r)
  end.

(** ** Rule 1: dispatch *)
(** [live_implement_claim]: the claim that authorizes now, and the one that lapsed. *)
Definition live_implement_claim (s : db) (pid nk : string) (current : Z)
    : option claim_row * option claim_row :=
  match select_one (λ c, on_node pid nk c && is_live c && bool_decide (cl_purpose c = Implement)) (claims s) with
  | None => (None, None)
  | Some c =>
    if bool_decide (lease_state (Some (cl_expires c)) current = LReclaimable)
    then (None, Some c) else (Some c, None)
  end.

Definition fence_ok (fence : option Z) (c : claim_row) : bool :=
  match fence with Some f => bool_decide (f = cl_fence c) | None => true end.

(** The review claim an external candidate review names. *)
Definition named_review (s : db) (pid nk : string) (cid : option string) : option claim_row :=
  match cid with
  | Some cid => select_one (λ c, bool_decide (cl_id c = cid) && on_node pid nk c &&
                              bool_decide (cl_purpose c = Review)) (claims s)
  | None => None
  end.

Definition check_review (s : db) (pid nk : string) (driver : option string) (fence : option Z)
    (current : Z) (c : claim_row) : res claim_row :=
  ensure (bool_decide (Some (cl_driver c) = driver)) (ClaimError "not_claim_owner");;
  ensure (bool_decide (fence = Some (cl_fence c))) (ClaimError "stale_fence");;
  ensure (negb (bool_decide (cl_status c = TakenOver))) (ClaimError "stale_fence");;
  ensure (is_live c && negb (bool_decide (lease_state (Some (cl_expires c)) current = LReclaimable)))
    (ClaimError "claim_required");;
  ensure (bool_decide (n_revision <$> nodes s !! (pid, nk) = Some (cl_revision c)))
    (ClaimError "stale_fence");;
  Ok c.

(** The checks on a claim the caller named for an implement dispatch. *)
Definition check_named (driver : option string) (cid : option string) (fence : option Z)
    (live lapsed : option claim_row) : res unit :=
  match cid with
  | None => Ok tt
  | Some cid =>
    match live with
    | Some c =>
      if bool_decide (cl_id c = cid) then
        ensure (bool_decide (Some (cl_driver c) = driver)) (ClaimError "not_claim_owner");;
        ensure (fence_ok fence c) (ClaimError "stale_fence")
      else Err (ClaimError "stale_fence")
    | None =>
      match lapsed with
      | Some c => Err (ClaimError (if bool_decide (cl_id c = cid) then "claim_required" else "stale_fence"))
      | None => Err (ClaimError "stale_fence")
      end
    end
  end.

(** [dispatch_claim]: the claim a dispatch rides on, and [break_glass]. *)
Definition dispatch_claim (s : db) (pid nk : string) (driver : option string) (is_admin : bool)
    (cid : option string) (fence : option Z) (current : Z) (allow_review : bool)
    : res (option claim_row * bool) :=
  let '(live, lapsed) := live_implement_claim s pid nk current in
  match (if allow_review then named_review s pid nk cid else None) with
  | Some review => c ← check_review s pid nk driver fence current review; Ok (Some c, false)
  | None =>
    check_named driver cid fence live lapsed;;
    if negb (enforced s pid) then Ok (if cid then live else None, false)
    else
      match live with
      | Some c =>
        if bool_decide (Some (cl_driver c) = driver) then
          ensure (fence_ok fence c) (ClaimError "stale_fence");; Ok (Some c, false)
        else if is_admin then Ok (None, true)
        else Err (ClaimError "claimed_by_other")
      | None =>
        if is_admin then Ok (None, true) else Err (ClaimError "claim_required")
      end
  end.

(** [launch_authorization]: [break_glass] and the claim to bind. *)
Definition launch_authorization (s : db) (a : attempt_row) (driver : option string) (is_admin : bool)
    (cid : option string) (fence : option Z) (current : Z) : res (bool * option claim_row) :=
  match (if enforced s (a_project a) then a_owner a else None) with
  | None =>
    if bool_decide (is_Some cid) || bool_decide (is_Some fence) then
      _ ← dispatch_claim s (a_project a) (a_node a) driver is_admin cid fence current false;
      Ok (false, None)
    else Ok (false, None)
  | Some owner =>
    if bool_decide (Some owner = driver) then
      match (live_implement_claim s (a_project a) (a_node a) current).1 with
      | Some c =>
        if bool_decide (Some (cl_driver c) = driver) then
          ensure (match cid with Some cid => bool_decide (cid = cl_id c) | None => true end)
            (ClaimError "stale_fence");;
          ensure (fence_ok fence c) (ClaimError "stale_fence");;
          if bool_decide (cl_attempt c = Some (a_id a)) then Ok (false, None)
          else if bool_decide (cid = Some (cl_id c)) then Ok (false, Some c)
          else Err (ClaimError "claim_required")
        else if is_admin then Ok (true, None) else Err (ClaimError "claim_required")
      | None => if is_admin then Ok (true, None) else Err (ClaimError "claim_required")
      end
    else if is_admin then Ok (true, None)
    else Err (ClaimError "not_attempt_owner")
  end.

(** ** Membership: asked only while driver identities are on *)
Definition is_member (s : db) (pid driver : string) : bool :=
  existsb (λ m, bool_decide (mb_project m = pid) && bool_decide (mb_driver m = driver) && mb_member m)
    (members s).
Definition project_membership (env : environment) (s : db) (pid : string) (driver : option string)
    : option bool :=
  match truthy driver with
  | Some d => if env_identity env then Some (is_member s pid d) else None
  | None => None
  end.
Definition require_member (env : environment) (s : db) (pid : string) (driver : option string)
    (is_admin : bool) : res bool :=
  match project_membership env s pid driver with
  | None | Some true => Ok false
  | Some false => if is_admin then Ok true else Err (ClaimError "not_project_member")
  end.

(** ** Rules 4 and 5: structural writes *)
(** [dependents]: the node and everything a revision invalidates. *)
Definition dependents (s : db) (pid nk : string) : list string := affected s pid nk.

Inductive holder : Type :=
  | ClaimHolder (c : claim_row)
  | AttemptHolder (a : attempt_row) (owner : string).
Definition holder_driver (h : holder) : string :=
  match h with ClaimHolder c => cl_driver c | AttemptHolder _ owner => owner end.

Definition holders (s : db) (pid : string) (keys : list string) (driver : option string) : list holder :=
  (ClaimHolder <$> select (λ c, bool_decide (cl_project c = pid) && is_live c &&
      bool_decide (cl_node c ∈ keys) && negb (bool_decide (Some (cl_driver c) = driver))) (claims s))
  ++ flat_map (λ a, match a_owner a with
       | Some owner => if bool_decide (Some owner = driver) then [] else [AttemptHolder a owner]
       | None => [] end)
     (select (λ a, bool_decide (a_project a = pid) && bool_decide (a_node a ∈ keys)
                   && ACTIVE (a_status a)) (attempts s)).

(** [structural_owner_check]: what an admin writes around. *)
Definition structural_owner_check (s : db) (pid nk : string) (driver : option string) (is_admin : bool)
    : res (option (list holder)) :=
  if negb (enforced s pid) then Ok None
  else
    match holders s pid (dependents s pid nk) driver with
    | [] => Ok None
    | held => if is_admin then Ok (Some held) else Err (ClaimError "not_owner")
    end.

Record hold_override : Type := HoldOverride {
  hv_placer : string; hv_driver : option string; hv_reason : option string; hv_break_glass : bool }.

Definition placer_driver (placer : string) : option string :=
  if starts_with "driver:" placer
  then Some (String.substring 7 (String.length placer - 7) placer) else None.

Definition hold_release_check (s : db) (pid nk actor : string) (driver : option string)
    (is_admin : bool) (override_reason : option string) : res (option hold_override) :=
  if negb (enforced s pid) then Ok None
  else
    match holds s !! (pid, nk) with
    | None => Ok None
    | Some row =>
      if negb (ho_held row) || bool_decide (ho_actor row = actor) then Ok None
      else if bool_decide (placer_driver (ho_actor row) = driver) then Ok None
      else
        match override_reason with
        | None =>
          if is_admin then Ok (Some (HoldOverride (ho_actor row) (placer_driver (ho_actor row)) None true))
          else Err (ClaimError "override_reason_required")
        | Some r => Ok (Some (HoldOverride (ho_actor row) (placer_driver (ho_actor row)) (Some r) false))
        end
    end.

(** ** Rule 9: one controller per run *)
Inductive controller : Type :=
  | Unconstrained (attempt : option string)
  | Controlled (attempt owner : string) (fence : Z) (break_glass : bool).

Section controller.
Context `{Host}.

Definition checkpoint_controller (run : string) (driver : option string) (is_admin : bool)
    (actor : string) : M db controller :=
  if bool_decide (run = "") then mret (Unconstrained None)
  else
    row ← gets (λ s, select_one (λ a, bool_decide (a_run a = Some run)) (attempts s));
    match row with
    | None => mret (Unconstrained None)
    | Some a =>
      on ← gets (λ s, enforced s (a_project a));
      match (if (on : bool) then a_owner a else None) with
      | None => mret (Unconstrained (Some (a_id a)))
      | Some owner =>
        if bool_decide (Some owner = driver) then mret (Controlled (a_id a) owner (a_fence a) false)
        else
          require is_admin (ClaimError "not_attempt_owner");;
          event (a_project a) (Some (a_node a)) "checkpoint_break_glass"
            (jobj [("attempt_id", JStr (a_id a)); ("run_id", JStr run); ("actor", JStr actor);
                   ("owner_driver_id", JStr owner); ("owner_fence", JInt (a_fence a));
                   ("break_glass", JBool true)]);;
          mret (Controlled (a_id a) owner (a_fence a) true)
      end
    end.
End controller.
