(* ===== verification/Review.v ===== *)
(** * Prior candidates and review independence

    [core/state_prior_candidate.py]: the account of a node's previous Git
    candidate that a fresh attempt carries, and
    [core/state_review_independence.py]: the advisory marking of a receipt whose
    review evidence came from an owner of the attempt.  Git is a parameter. *)
From S2P Require Import Prelude Json Text Dag Store Graph Portfolio Claims Enforcement.

(** ** The previous candidate *)
(** The rows with a smaller [seq] than the attempt; none when it is unknown. *)
Fixpoint rows_before (aid : string) (rows : list attempt_row) : option (list attempt_row) :=
  match rows with
  | [] => None
  | a :: rows =>
    if bool_decide (a_id a = aid) then Some [] else cons a <$> rows_before aid rows
  end.

Definition git_candidate (pid nk : string) (a : attempt_row) : bool :=
  bool_decide (a_project a = pid) && bool_decide (a_node a = nk) &&
  match a_artifact a with Some ref => bool_decide (String.length ref = 40) | None => false end.

Definition latest_prior (s : db) (pid nk : string) (before : option string) : option attempt_row :=
  let rows := match before with
              | Some aid => default [] (rows_before aid (attempts s))
              | None => attempts s end in
  select_last (git_candidate pid nk) rows.

Inductive base_origin : Set := RequestedBase | ProvisionedBase | Unresolved.
Definition origin_text (o : base_origin) : string :=
  match o with
  | RequestedBase => "requested_base" | ProvisionedBase => "provisioned_base"
  | Unresolved => "unresolved"
  end.
Inductive relation_state : Set := Included | Excluded | UnknownState.
#[export] Instance relation_state_eq_dec : EqDecision relation_state.
Proof. solve_decision. Defined.
Definition state_text (r : relation_state) : string :=
  match r with Included => "included" | Excluded => "excluded" | UnknownState => "unknown" end.

Definition account_fields (prior : attempt_row) (base : option string) (origin : base_origin)
    (state : relation_state) (reason : string) : list (string * json) :=
  [("version", JInt 1); ("prior_attempt_id", JStr (a_id prior));
   ("prior_attempt_status", JStr (attempt_status_text (a_status prior)));
   ("prior_artifact", jopt JStr (a_artifact prior)); ("selected_base", jopt JStr base);
   ("base_origin", JStr (origin_text origin)); ("state", JStr (state_text state));
   ("reason", JStr reason)].

Definition unresolved (prior : attempt_row) (reason : string) (pending : bool)
    (base : option string) (origin : base_origin) : json :=
  jobj (account_fields prior base origin UnknownState reason
        ++ if pending then [("pending_base", JBool true)] else []).

Definition json_true (j : option json) : bool :=
  match j with Some (JBool b) => b | _ => false end.
Definition needs_receipt (value : json) (actual_base : option string) : bool :=
  json_true (jget "pending_base" value) ||
  negb (bool_decide (default JNull (jget "selected_base" value) = jopt JStr actual_base)).

(** The two Git questions; [None] when Git could not answer. *)
Record git : Type := Git {
  resolve_commit : string → string → option (option string);
  is_ancestor : string → string → string → option Z }.

Definition commit_id (s : string) : bool := hex_of 40 s.

Definition account (g : git) (prior : attempt_row) (source base : option string) (origin : base_origin)
    : json :=
  let say b o st reason := jobj (account_fields prior b o st reason) in
  match a_artifact prior with
  | None => say base origin UnknownState "previous candidate artifact is not an exact Git commit"
  | Some ref =>
    if negb (commit_id ref)
    then say base origin UnknownState "previous candidate artifact is not an exact Git commit"
    else match base with
    | None => say None Unresolved UnknownState
                "no selected base is known; it is not inferred from the source HEAD"
    | Some b =>
      match (if bool_decide (source = Some "") then None else source) with
      | None => say base origin UnknownState "no bound source repository to judge ancestry in"
      | Some src =>
        if negb (commit_id b) then say base origin UnknownState "selected base is not an exact Git commit"
        else match resolve_commit g src ref with
        | None => say base origin UnknownState "Git could not answer"
        | Some found =>
          if negb (bool_decide (found = Some ref))
          then say base origin UnknownState "previous candidate commit is unavailable in the source repository"
          else match resolve_commit g src b with
          | None => say base origin UnknownState "Git could not answer"
          | Some found =>
            if negb (bool_decide (found = Some b))
            then say base origin UnknownState "selected base is not a commit in the source repository"
            else match is_ancestor g src ref b with
            | None => say base origin UnknownState "Git could not answer"
            | Some 0%Z => say base origin Included "previous candidate is an ancestor of the selected base"
            | Some 1%Z => say base origin Excluded
                "previous candidate is NOT an ancestor of the selected base; this attempt will not build on it"
            | Some _ => say base origin UnknownState "Git ancestry check failed"
            end
          end
        end
      end
    end
  end.

Definition prior_event_type (value : json) : string :=
  if bool_decide (jget "state" value = Some (JStr "included"))
  then "prior_candidate_included" else "prior_candidate_unreconciled".

Section emit.
Context `{Host}.

Definition emit (pid nk aid : string) (value : json) (reconciled : bool) : M db unit :=
  event pid (Some nk) (prior_event_type value)
    (jobj ([("attempt_id", JStr aid); ("prior_candidate", value)]
           ++ if reconciled then [("reconciled_from_provision_receipt", JBool true)] else [])).
End emit.

(** ** Review independence *)
Fixpoint before_slash (s : string) : string :=
  match s with
  | "" => ""
  | String c s => if bool_decide (c = "/"%char) then "" else String c (before_slash s)
  end.

(** The drivers an evidence row is attributable to. *)
Definition evidence_drivers (v : evidence_row) : gset string :=
  (match placer_driver (v_reviewer v) with
   | Some d => if bool_decide (d = "") then ∅ else {[ d ]}
   | None => ∅ end)
  ∪ match v_director v with
    | Some identity => if bool_decide (identity = "") then ∅ else {[ before_slash identity ]}
    | None => ∅ end.

Definition driver_of (j : option json) : gset string :=
  match j with Some (JStr d) => if bool_decide (d = "") then ∅ else {[ d ]} | _ => ∅ end.

(** The current owner and every owner a transfer event names. *)
Definition attempt_owners (s : db) (a : attempt_row) : gset string :=
  (match a_owner a with Some d => if bool_decide (d = "") then ∅ else {[ d ]} | None => ∅ end)
  ∪ ⋃ ((λ e, driver_of (jget "from_driver_id" (e_payload e)) ∪ driver_of (jget "to_driver_id" (e_payload e)))
       <$> select (λ e, bool_decide (e_project e = a_project a) &&
                        bool_decide (e_type e = "attempt_ownership_transferred") &&
                        payload_is "attempt_id" (JStr (a_id a)) (e_payload e)) (events s)).

(** [review_marking]: the flagged criteria, [None] when the project is [off]. *)
Definition flagged (owners : gset string) (latest : gmap string evidence_row) (required : list check)
    : list string :=
  py_sorted (c_id <$> List.filter (λ c, bool_decide (c_kind c = KReview) &&
    match latest !! c_id c with
    | Some v => negb (bool_decide (evidence_drivers v ∩ owners = ∅))
    | None => false end) required).

Definition review_marking (s : db) (a : attempt_row) (latest : gmap string evidence_row)
    (required : list check) : option (list (string * json)) :=
  if review_independence s (a_project a) then
    let names := flagged (attempt_owners s a) latest required in
    Some [("review_independence", JStr "advisory"); ("self_reviewed", JBool (negb (bool_decide (names = []))));
          ("self_reviewed_criteria", jstrs names)]
  else None.

Definition self_reviewed_count (s : db) (pid : string) : nat :=
  length (List.filter (λ p, bool_decide (rc_project p.2 = pid) &&
                            payload_is "self_reviewed" (JBool true) (rc_provenance p.2))
            (map_to_list (acceptances s))).
