(* ===== verification/Attempts.v ===== *)
(** * Attempts, evidence and acceptance

    [core/state_attempts.py].  [reserve_once] is the one write transaction that
    admits an attempt; [settle_run] and [External.observe_commit] record what an
    executor reports; [verify] issues the receipt.  The SkillFlow engine is a
    parameter ([engine]): the code only calls its public API. *)
From S2P Require Import Prelude Json Text Dag Store Graph Portfolio Presence Claims Enforcement Review.

(** ** Views and lookups *)
Record public_view : Type := PublicView {
  pb_row : attempt_row; pb_context_hash : string; pb_lease : option lease }.

Definition attempt_at (s : db) (aid : string) : option attempt_row :=
  select_one (λ a, bool_decide (a_id a = aid)) (attempts s).
Definition of_node (pid nk : string) (a : attempt_row) : bool :=
  bool_decide (a_project a = pid) && bool_decide (a_node a = nk).

(** [guard_generic_recovery] *)
Definition guard_generic_recovery (s : db) (project_id run_id : option string) (allow_active : bool)
    : res unit :=
  let rows := select (λ a,
    match a_execution a with Some x => bool_decide (Some x = project_id) | None => false end ||
    match a_run a with Some r => bool_decide (Some r = run_id) | None => false end) (attempts s) in
  if bool_decide (rows ≠ []) && (negb allow_active || existsb (λ a, negb (ACTIVE (a_status a))) rows)
  then Err (RecoveryRefused "Generic recovery is unavailable; use an explicit State successor disposition.")
  else Ok tt.

(** [_pins_current] *)
Definition pins_current (s : db) (a : attempt_row) : bool :=
  match nodes s !! (a_project a, a_node a) with
  | None => false
  | Some n =>
    bool_decide (n_revision n = a_revision a) && bool_decide (n_hash n = a_hash a) &&
    negb (bool_decide (n_status n = SUPERSEDED)) &&
    let snapshot := dependency_snapshot s (a_project a) (a_node a) in
    bool_decide (canonical (snapshot_json snapshot) = a_snapshot a) && snapshot_verified snapshot
  end.

(** The latest attempt of a node ([ORDER BY seq DESC LIMIT 1]). *)
Definition latest_attempt (s : db) (pid nk : string) : option attempt_row :=
  select_last (of_node pid nk) (attempts s).

Definition observation_at (s : db) (aid : string) (oid : option string) : option observation_row :=
  match oid with
  | Some oid => select_one (λ o, bool_decide (ob_attempt o = aid) && bool_decide (ob_id o = oid)) (observations s)
  | None => None
  end.

Section attempts.
Context `{Host}.

Definition public (a : attempt_row) : M db public_view :=
  match (if ACTIVE (a_status a) then a_lease a else None) with
  | Some e =>
    current ← now;
    mret (PublicView a (digest (a_context a)) (Some (lease_state (Some e) current)))
  | None =>
    mret (PublicView a (digest (a_context a)) (if ACTIVE (a_status a) then Some LLegacy else None))
  end.

(** [_attempt] *)
Definition attempt (aid : string) : M db attempt_row :=
  aid ← lift (key aid "attempt id");
  row ← gets (λ s, attempt_at s aid);
  get_some row (StateNotFound "attempt not found").

Definition get (aid : string) : M db public_view := a ← attempt aid; public a.

Definition acceptance_row_at (rid : string) : M db (option acceptance_row) :=
  gets (λ s, acceptances s !! rid).

(** [list]: newest first. *)
Definition list_attempts (pid nk : string) (limit : json) : M db (list public_view) :=
  limit ← lift (integer limit "limit" 1 500);
  _ ← node pid nk;
  rows ← gets (λ s, take (Z.to_nat limit) (reverse (select (of_node pid nk) (attempts s))));
  collect (λ a, v ← public a; mret [v]) rows.

(** [retained_producer] *)
Definition retained_producer (pid aid artifact : string) : M db attempt_row :=
  row ← gets (λ s, attempt_at s aid);
  a ← get_some row (StateConflict "review input producer attempt is not a retained terminal candidate of this State project");
  require (bool_decide (a_project a = pid))
    (StateConflict "review input producer attempt is not a retained terminal candidate of this State project");;
  require (bool_decide (a_status a = Candidate) && SHA artifact && bool_decide (a_artifact a = Some artifact))
    (StateConflict "review input producer has no matching retained terminal candidate artifact");;
  match a_kind a with
  | External =>
    report ← gets (λ s, observation_at s aid (a_terminal a));
    require (match report with
             | Some o => bool_decide (ob_status o = Candidate) && ob_quiescent o &&
                         bool_decide (ob_artifact o = a_artifact a)
             | None => false end)
      (StateConflict "review input producer lacks a quiescent terminal observation")
  | Skillflow => mret tt
  end;;
  mret a.

(** [release_bound_claims]: the live claims bound to exactly this attempt. *)
Definition still_bound (a : attempt_row) (c d : claim_row) : bool :=
  bool_decide (cl_id d = cl_id c) && bool_decide (cl_attempt d = Some (a_id a)) && is_live d.
Definition release_bound (actor : string) (a : attempt_row) (reason : string) (c : claim_row)
    : M db (list string) :=
  stamp ← now;
  hit ← gets (λ s, existsb (still_bound a c) (claims s));
  if (hit : bool) then
    modify (λ s, s <| claims ::= update_where (still_bound a c)
      (λ d, d <| cl_status := Released |> <| cl_updated := stamp |>) |>);;
    history actor c Released reason;;
    event (a_project a) (Some (a_node a)) "claim_released"
      (jobj [("claim_id", JStr (cl_id c)); ("driver_id", JStr (cl_driver c));
             ("purpose", JStr (purpose_text (cl_purpose c))); ("fence", JInt (cl_fence c));
             ("reason", JStr reason); ("attempt_id", JStr (a_id a)); ("actor", JStr actor);
             ("break_glass", JBool false)]);;
    mret [cl_id c]
  else mret [].

Definition bound_to (a : attempt_row) (c : claim_row) : bool :=
  bool_decide (cl_attempt c = Some (a_id a)) && on_node (a_project a) (a_node a) c && is_live c.

Definition release_bound_claims (actor : string) (a : attempt_row) (status : attempt_status) : M db nat :=
  rows ← gets (λ s, select (bound_to a) (claims s));
  released ← collect (release_bound actor a ("attempt settled as " +:+ attempt_status_text status)) rows;
  mret (length released).
End attempts.

(** ** Reservation *)
Record ext_identity : Type := ExtIdentity {
  x_harness : string; x_external : string; x_reporter : string }.
Definition ext_json (x : ext_identity) : list (string * json) :=
  [("harness", JStr (x_harness x)); ("external_id", JStr (x_external x));
   ("reporting_actor", JStr (x_reporter x))].

Record reserve_args : Type := ReserveArgs {
  ra_project : string; ra_node : string; ra_revision : json; ra_workflow : option string;
  ra_request_key : string; ra_instruction : json; ra_external : option ext_identity;
  ra_continue : option string; ra_relay_digest : option json; ra_frozen : option json;
  ra_base : option string; ra_handoff : option json; ra_driver : option string;
  ra_claim : option string; ra_fence : option Z; ra_admin : bool }.

Definition is_object (j : json) : bool := match j with JObj _ => true | _ => false end.
Definition opt_field {A} (k : string) (f : A → json) (o : option A) : list (string * json) :=
  match o with Some a => [(k, f a)] | None => [] end.

(** The validated request and its expected revision and instruction. *)
Definition reserve_request (r : reserve_args) : res (json * Z * string) :=
  _ ← key (ra_request_key r) "request key";
  revision ← integer (ra_revision r) "expected_revision" 1 1000000;
  instruction ← match ra_instruction r with
                | JStr i => ensure (Z.of_nat (py_len i) <=? 20000)%Z
                              (StateGraphError "instruction must be text of at most 20000 characters");; Ok i
                | _ => Err (StateGraphError "instruction must be text of at most 20000 characters") end;
  match ra_frozen r with
  | Some f =>
    ensure (bool_decide (ra_external r = None))
      (StateGraphError "frozen_prerequisites apply to SkillFlow attempts only");;
    ensure (is_object f) (StateGraphError "frozen_prerequisites must be an object")
  | None => Ok tt end;;
  match ra_handoff r with
  | Some h =>
    ensure (negb (bool_decide (ra_external r = None)))
      (StateGraphError "relay_handoff applies to external attempts only");;
    ensure (is_object h) (StateGraphError "relay_handoff must be an object")
  | None => Ok tt end;;
  match ra_continue r with
  | Some _ =>
    ensure (bool_decide (ra_external r = None))
      (StateGraphError "continue_from applies to SkillFlow attempts only");;
    match ra_relay_digest r with
    | Some (JStr d) => ensure (hex_of 64 d) (StateGraphError "relay_digest must be the 64-hex digest from relay_inventory")
    | Some _ => Err (StateGraphError "relay_digest must be the 64-hex digest from relay_inventory")
    | None => Ok tt end
  | None => Ok tt end;;
  Ok (jobj ([("revision", JInt revision); ("workflow", jopt JStr (ra_workflow r));
             ("instruction", JStr instruction)]
            ++ opt_field "base_sha" JStr (ra_base r)
            ++ opt_field "frozen_prerequisites" id (ra_frozen r)
            ++ opt_field "external" (λ x, jobj (ext_json x)) (ra_external r)
            ++ opt_field "relay_handoff" id (ra_handoff r)
            ++ opt_field "continue_from" JStr (ra_continue r)
            ++ match ra_continue r with
               | Some _ => opt_field "relay_digest" id (ra_relay_digest r) | None => [] end),
      revision, instruction).

Section reserve.
Context `{Host}.

(** [_relay_source]: the failed attempt a relay continues. *)
Definition relay_source (prior_id pid nk : string) (workflow : option string) (n : node_row)
    (ds : gmap string dep_view) : M db (list (string * json)) :=
  _ ← lift (key prior_id "continue_from");
  row ← gets (λ s, attempt_at s prior_id);
  prior ← get_some (match row with
                    | Some a => if of_node pid nk a then Some a else None
                    | None => None end)
            (StateConflict "continue_from must name an attempt of this node");
  run ← get_some (if bool_decide (a_status prior = Failed) && bool_decide (a_kind prior = Skillflow)
                  then truthy (a_run prior) else None)
          (StateConflict "continue_from must name a FAILED SkillFlow attempt with a bound run");
  require (bool_decide (a_workflow prior = workflow))
    (StateConflict "a relay must reuse the failed attempt's workflow; its draft is keyed by that workflow's steps");;
  require (bool_decide (a_revision prior = n_revision n) && bool_decide (a_hash prior = n_hash n) &&
           bool_decide (a_snapshot prior = canonical (snapshot_json ds)))
    (StateConflict "the failed attempt targeted a different revision, contract or dependency snapshot");;
  let prior_relay := match jget "relay_of" (a_context prior) with
                     | Some (JObj m) => m | _ => ∅ end in
  let nonempty (j : option json) : option json :=
    match j with Some j => if py_true j then Some j else None | None => None end in
  let first := match nonempty (prior_relay !! "first_failure_run_id") with
               | Some j => j
               | None => match nonempty (prior_relay !! "run_id") with
                         | Some j => j | None => JStr run end end in
  mret [("attempt_id", JStr (a_id prior)); ("run_id", JStr run); ("first_failure_run_id", first);
        ("execution_project_id", jopt JStr (a_execution prior)); ("error", jopt JStr (a_error prior))].

(** [checkout_of]: [host:path#branch] to [host:path]. *)
Fixpoint checkout_of (workspace : string) : string :=
  match workspace with
  | "" => ""
  | String c s => if bool_decide (c = "#"%char) then "" else String c (checkout_of s)
  end.

Definition later_created (c d : claim_row) : Prop := (cl_created d ≤ cl_created c)%Z.
#[export] Instance later_created_dec : RelDecision later_created.
Proof. intros c d. unfold later_created. apply _. Defined.

(** [_after_unknown_abandon]: two possibly live workers never share a checkout. *)
Definition after_unknown_abandon (s : db) (pid nk : string) (claim : option claim_row)
    (base : option string) (is_admin : bool) : res unit :=
  match latest_attempt s pid nk with
  | None => Ok tt
  | Some last =>
    if negb (bool_decide (a_abandon last = Some QuiescenceUnknown)) || is_admin then Ok tt
    else
      let old := cl_workspace <$> head (merge_sort later_created
        (select (λ c, bool_decide (cl_attempt c = Some (a_id last)) &&
                      negb (bool_decide (cl_workspace c = ""))) (claims s))) in
      let declared := match claim with
                      | Some c => truthy (Some (cl_workspace c)) | None => None end in
      let elsewhere := match declared, old with
                       | None, _ => false
                       | Some w, Some o => negb (bool_decide (checkout_of w = checkout_of o))
                       | Some _, None => true end in
      ensure (bool_decide (is_Some base) && elsewhere) (ClaimError "workspace_in_use")
  end.

(** [state_design.binding_snapshot]: the newest design binding of the node. *)
Definition binding_revisions (s : db) (pid nk : string) : list (Z * design_binding_row) :=
  omap (λ p, if bool_decide (p.1.1 = (pid, nk)) then Some (p.1.2, p.2) else None)
    (map_to_list (design_bindings s)).
Definition newer (p q : Z * design_binding_row) : Z * design_binding_row :=
  if (p.1 <? q.1)%Z then q else p.
Definition binding_snapshot (s : db) (pid nk : string) : option json :=
  match binding_revisions s pid nk with
  | [] => None
  | p :: ps => Some (bd_snapshot (foldl newer p ps).2)
  end.

(** The unique constraints and the CHECK of [state_attempts]. *)
Definition same_some (o o' : option string) : bool :=
  match o with Some x => bool_decide (o' = Some x) | None => false end.
Definition attempt_clash (a b : attempt_row) : bool :=
  bool_decide (a_id b = a_id a) || same_some (a_execution a) (a_execution b)
  || of_node (a_project a) (a_node a) b &&
     (bool_decide (a_request_key b = a_request_key a)
      || ACTIVE (a_status a) && ACTIVE (a_status b)
      || bool_decide (a_kind a = External) && bool_decide (a_kind b = External)
         && bool_decide (a_harness b = a_harness a) && bool_decide (a_external b = a_external a)).
Definition attempt_conflict (s : db) (a : attempt_row) : bool :=
  bool_decide (a_kind a = Skillflow) && bool_decide (a_workflow a = None)
  || existsb (attempt_clash a) (attempts s).

Definition insert_attempt (a : attempt_row) : M db unit :=
  conflict ← gets (λ s, attempt_conflict s a);
  require (negb conflict)
    (StateConflict "node has an active attempt or this external execution identity was already registered");;
  modify (λ s, s <| attempts ::= (λ l, l ++ [a]) |>).

(** A replay of [request_key]: the row it made, if the caller may have it. *)
Definition replay (r : reserve_args) (request_hash : string) (old : attempt_row) : M db public_view :=
  require (bool_decide (a_request_hash old = request_hash))
    (StateConflict "request key already used with a different launch request");;
  on ← gets (λ s, enforced s (ra_project r));
  require (match truthy (a_owner old) with
           | Some owner => bool_decide (ra_driver r = Some owner) || ra_admin r || negb on
           | None => true end) (ClaimError "not_attempt_owner");;
  let pin := match jget "review_claim" (a_context old) with
             | Some JNull | None => None | Some pin => Some pin end in
  require (match pin with
           | Some pin => bool_decide (jget "claim_id" pin = JStr <$> ra_claim r) &&
                         bool_decide (jget "fence" pin = JInt <$> ra_fence r)
           | None => true end) (ClaimError "stale_fence");;
  if bool_decide (is_Some pin) && negb (ACTIVE (a_status old)) then public old
  else
    when (bool_decide (is_Some (ra_claim r)) || bool_decide (is_Some (ra_fence r))) (
      current ← now;
      s ← gets id;
      '(named, _) ← lift (dispatch_claim s (ra_project r) (ra_node r) (ra_driver r) (ra_admin r)
        (ra_claim r) (ra_fence r) current (bool_decide (is_Some (ra_external r)) && bool_decide (is_Some pin)));
      match named with
      | Some c =>
        when (ACTIVE (a_status old) &&
              (bool_decide (cl_attempt c = None) || bool_decide (cl_attempt c = Some (a_id old)))) (
          stamp ← now;
          update_claim (cl_id c) (λ d, d <| cl_attempt := Some (a_id old) |> <| cl_updated := stamp |>))
      | None => mret tt
      end);;
    public old.

(** The frozen context of a new attempt. *)
Definition base_context (r : reserve_args) (revision : Z) (instruction : string) (n : node_row)
    (ds : gmap string dep_view) : list (string * json) :=
  [("state_project_id", JStr (ra_project r)); ("node_key", JStr (ra_node r));
   ("revision", JInt revision); ("goal", JStr (n_goal n));
   ("acceptance", contract_json_of (n_contract n)); ("contract_hash", JStr (n_hash n));
   ("dependencies", snapshot_json ds); ("instruction", JStr instruction)].
Definition claim_context (claim : option claim_row) : list (string * json) :=
  match claim with
  | Some c => if bool_decide (cl_purpose c = Review)
              then [("review_claim", jobj [("claim_id", JStr (cl_id c)); ("fence", JInt (cl_fence c));
                                           ("purpose", JStr "review")])] else []
  | None => []
  end.
Definition design_context (design : option json) : list (string * json) :=
  match design with
  | Some d => [("design_context", d); ("binding_snapshot_hash", JStr (digest d))]
  | None => []
  end.
End reserve.

Inductive admission : Type :=
  | Plain                       (* no preflight *)
  | CheckOnly                   (* the first pass of a preflight *)
  | Commit (source : json).     (* the second pass, with the source the first saw *)

Inductive reserved : Type :=
  | Replayed (v : public_view)
  | Checked (source : json)
  | Accepted (v : public_view).

(** What the caller observed before the transaction: the previous candidate it
    judged, and its account of it. *)
Definition prior_report : Type := option (string * option string) * json.

Section admission.
Context `{Host}.

(** The guards a fresh reservation passes. *)
Definition admission_guards (r : reserve_args) (revision : Z) (n : node_row)
    : M db (gmap string dep_view * option claim_row * bool) :=
  require_dispatch (ra_project r) (ra_node r);;
  require (bool_decide (n_revision n = revision) &&
           negb (bool_decide (n_status n = VERIFIED) || bool_decide (n_status n = SUPERSEDED)))
    (StateConflict "node is closed or revision changed; revise/reload before attempting it");;
  ds ← gets (λ s, dependency_snapshot s (ra_project r) (ra_node r));
  require (snapshot_verified ds) (StateConflict "dependencies are not verified");;
  current ← now;
  s ← gets id;
  '(claim, break_glass) ← lift (dispatch_claim s (ra_project r) (ra_node r) (ra_driver r) (ra_admin r)
    (ra_claim r) (ra_fence r) current
    (bool_decide (is_Some (ra_external r)) && bool_decide (n_status n = CANDIDATE)));
  when (enforced s (ra_project r))
    (lift (after_unknown_abandon s (ra_project r) (ra_node r) claim (ra_base r) (ra_admin r)));;
  mret (ds, claim, break_glass).

Definition admission_context (r : reserve_args) (revision : Z) (instruction : string) (n : node_row)
    (ds : gmap string dep_view) (claim : option claim_row)
    : M db (list (string * json) * option json) :=
  relay ← match ra_continue r with
          | Some prior =>
            fields ← relay_source prior (ra_project r) (ra_node r) (ra_workflow r) n ds;
            mret (Some (jobj (fields ++ opt_field "expected_digest" id (ra_relay_digest r))))
          | None => mret None
          end;
  design ← gets (λ s, binding_snapshot s (ra_project r) (ra_node r));
  mret (base_context r revision instruction n ds ++ claim_context claim
        ++ opt_field "base_sha" JStr (ra_base r)
        ++ opt_field "frozen_prerequisites" id (ra_frozen r)
        ++ opt_field "relay_of" id relay
        ++ opt_field "relay_handoff" id (ra_handoff r)
        ++ design_context design, relay).

(** With a preflight, what the insert would refuse is refused before the import. *)
Definition preflight_guard (r : reserve_args) (mode : admission) : M db (option json) :=
  match mode with
  | Plain => mret None
  | _ =>
    busy ← gets (λ s, existsb (λ a, of_node (ra_project r) (ra_node r) a && ACTIVE (a_status a)) (attempts s));
    require (negb busy) (StateConflict "node has an active attempt");;
    known ← gets (λ s, match ra_external r with
      | Some x => existsb (λ a, of_node (ra_project r) (ra_node r) a &&
                    bool_decide (a_harness a = Some (x_harness x)) &&
                    bool_decide (a_external a = Some (x_external x))) (attempts s)
      | None => false end);
    require (negb known) (StateConflict "external execution identity was already registered");;
    row ← project (ra_project r);
    source ← gets (λ s, source_of s (ra_project r) row);
    match mode with
    | Commit seen =>
      require (bool_decide (source = seen))
        (StateConflict "source binding changed during artifact preflight; reload before admission");;
      mret None
    | _ => mret (Some source)
    end
  end.

(** The account of the previous candidate a fresh attempt carries. *)
Definition prior_context (s : db) (r : reserve_args) (report : option prior_report) : option json :=
  match report, latest_prior s (ra_project r) (ra_node r) None with
  | Some (seen, value), Some prior =>
    if bool_decide (seen = Some (a_id prior, a_artifact prior)) then Some value
    else Some (unresolved prior "the previous candidate changed while admission was judged; not evaluated"
                 false (ra_base r)
                 (match truthy (ra_base r) with Some _ => RequestedBase | None => Unresolved end))
  | _, _ => None
  end.

(** The insert and the writes that go with it. *)
Definition admit_attempt (r : reserve_args) (revision : Z) (request_hash : string) (n : node_row)
    (ds : gmap string dep_view) (claim : option claim_row) (break_glass : bool)
    (ctx : list (string * json)) (relay prior : option json) : M db public_view :=
  uid ← uuid4;
  let aid := "attempt-" +:+ uid in
  let execution := match ra_external r with Some _ => None | None => Some ("sg-" +:+ uid) end in
  let kind := match ra_external r with Some _ => External | None => Skillflow end in
  let ctx := ctx ++ opt_field "prior_candidate" id prior
                 ++ opt_field "executor" (λ x, jobj (("kind", JStr (kind_name kind)) :: ext_json x)) (ra_external r) in
  created ← now;
  updated ← now;
  lease ← match truthy (ra_driver r) with
          | Some d => current ← now; mret (Some (d, current, add_seconds current DEFAULT_LEASE_SECONDS))
          | None => mret None
          end;
  insert_attempt (AttemptRow aid (ra_project r) (ra_node r) revision (n_hash n)
    (canonical (snapshot_json ds)) (jobj ctx) (ra_request_key r) request_hash (ra_workflow r)
    execution None None None (match ra_external r with Some _ => Running | None => Reserved end)
    None None created updated kind (x_harness <$> ra_external r) (x_external <$> ra_external r)
    (x_reporter <$> ra_external r) 0 None None None
    ((λ l, l.1.1) <$> lease) (match lease with Some _ => 1 | None => 0 end)
    (snd <$> lease) ((λ l, l.1.2) <$> lease));;
  match claim with
  | Some c => stamp ← now;
    update_claim (cl_id c) (λ d, d <| cl_attempt := Some aid |> <| cl_updated := stamp |>)
  | None => mret tt end;;
  match ra_external r with
  | Some x =>
    modify (λ s, s <| owners ::= <[aid := OwnerRow (ra_project r) (ra_node r) (x_harness x)
      (x_external x) OActive created updated None]> |>)
  | None => mret tt end;;
  stamp ← now;
  update_node (ra_project r) (ra_node r) (λ m, m <| n_status := OPEN |> <| n_updated := stamp |>);;
  event (ra_project r) (Some (ra_node r))
    (match ra_external r with Some _ => "external_attempt_registered" | None => "attempt_reserved" end)
    (jobj ([("attempt_id", JStr aid); ("execution_project_id", jopt JStr execution);
            ("execution_kind", JStr (kind_name kind)); ("workflow", jopt JStr (ra_workflow r));
            ("revision", JInt revision);
            ("external", jopt (λ x, jobj (ext_json x)) (ra_external r));
            ("relay_of", jopt id relay)]
           ++ match lease with
              | Some (d, _, expires) => [("owner_driver_id", JStr d); ("owner_fence", JInt 1);
                                         ("lease_expires_at", JInt expires)]
              | None => [] end
           ++ opt_field "claim_id" (λ c, JStr (cl_id c)) claim
           ++ if break_glass then [("break_glass", JBool true)] else []));;
  match prior with
  | Some value => emit (ra_project r) (ra_node r) aid value false
  | None => mret tt end;;
  a ← attempt aid;
  public a.

(** [_reserve_once] *)
Definition reserve_once (r : reserve_args) (mode : admission) (report : option prior_report)
    : M db reserved :=
  '(request, revision, instruction) ← lift (reserve_request r);
  let request_hash := digest request in
  when (bool_decide (is_Some (ra_external r))) (mark_back (ra_driver r) "start_external_attempt");;
  n ← node (ra_project r) (ra_node r);
  old ← gets (λ s, select_one (λ a, of_node (ra_project r) (ra_node r) a &&
                     bool_decide (a_request_key a = ra_request_key r)) (attempts s));
  match old with
  | Some old => v ← replay r request_hash old; mret (Replayed v)
  | None =>
    '(ds, claim, break_glass) ← admission_guards r revision n;
    '(ctx, relay) ← admission_context r revision instruction n ds claim;
    checked ← preflight_guard r mode;
    match checked with
    | Some source => mret (Checked source)
    | None =>
      prior ← gets (λ s, prior_context s r report);
      v ← admit_attempt r revision request_hash n ds claim break_glass ctx relay prior;
      mret (Accepted v)
    end
  end.

(** [_reserve]: with a preflight, judge, import outside the transaction, then
    admit; [preflight] is what the import did. *)
Definition reserve (r : reserve_args) (preflight : option (res unit)) (report : option prior_report)
    : M db public_view :=
  let finish mode :=
    out ← reserve_once r mode report;
    match out with
    | Replayed v | Accepted v => mret v
    | Checked _ => raise (StateConflict "unreachable")
    end in
  match preflight with
  | None => finish Plain
  | Some outcome =>
    out ← reserve_once r CheckOnly None;
    match out with
    | Replayed v | Accepted v => mret v
    | Checked source => lift outcome;; finish (Commit source)
    end
  end.
Definition reserve_workflow (r : reserve_args) : M db public_view :=
  _ ← match ra_workflow r with
      | Some w => lift (key w "workflow")
      | None => raise (StateGraphError "workflow must be 1-128 letters/digits/._-, starting with a letter or digit")
      end;
  reserve r None None.
End admission.

(** ** Before the launch *)
Definition context_with (k : string) (v : json) (context : json) : json := jset k v context.

Section before_launch.
Context `{Host}.

Definition record_preflight (aid : string) (report : json) (error : json) : M db public_view :=
  require (is_object report) (StateGraphError "preflight report must be an object");;
  a ← attempt aid;
  require (bool_decide (a_status a = Reserved) && bool_decide (truthy (a_run a) = None))
    (StateConflict "preflight belongs to an unlaunched reserved attempt");;
  failure ← match error with
            | JNull => mret None
            | _ =>
              e ← lift (text error "preflight failure" 4000);
              stamp ← now;
              update_attempt aid (λ r, r <| a_status := Failed |> <| a_error := Some e |>
                                        <| a_updated := stamp |>);;
              mret (Some e)
            end;
  event (a_project a) (Some (a_node a))
    (if bool_decide (failure = None) then "attempt_preflight_passed" else "attempt_preflight_failed")
    (jobj ([("attempt_id", JStr aid); ("report", report)] ++ opt_field "error" JStr failure));;
  a ← attempt aid;
  public a.

(** The columns a relay descriptor is compared on. *)
Definition bound_relay (relay : json) : json :=
  match relay with JObj m => JObj (delete "mainline_ahead_by" m) | j => j end.

Definition pin_relay (aid : string) (relay : json) : M db public_view :=
  require (match jget "base_sha" relay with Some j => py_true j | None => false end)
    (StateGraphError "invalid relay descriptor");;
  a ← attempt aid;
  source ← get_some (jget "relay_of" (a_context a))
             (StateConflict "attempt was not reserved with continue_from");
  match (match jget "relay" (a_context a) with Some JNull => None | o => o end) with
  | Some old =>
    require (bool_decide (bound_relay old = bound_relay relay))
      (StateConflict "relay inventory changed between preparation and dispatch");;
    public a
  | None =>
    require (bool_decide (a_status a = Reserved)) (StateConflict "relay must be pinned before dispatch");;
    stamp ← now;
    update_attempt aid (λ r, r <| a_context := context_with "relay" relay (a_context a) |>
                              <| a_updated := stamp |>);;
    event (a_project a) (Some (a_node a)) "attempt_relay_prepared"
      (jobj [("attempt_id", JStr aid); ("relay_of", default JNull (jget "attempt_id" source));
             ("relay", relay)]);;
    a ← attempt aid;
    public a
  end.

Definition prior_candidate_pending (aid : string) : M db (option attempt_row) :=
  a ← attempt aid;
  if bool_decide (is_Some (jget "prior_candidate" (a_context a))) || negb (bool_decide (a_status a = Reserved))
  then mret None
  else gets (λ s, latest_prior s (a_project a) (a_node a) (Some aid)).

Definition pin_prior_candidate (aid : string) (prior : string * option string) (value : json)
    : M db public_view :=
  a ← attempt aid;
  if bool_decide (is_Some (jget "prior_candidate" (a_context a))) || negb (bool_decide (a_status a = Reserved))
  then public a
  else
    current ← gets (λ s, latest_prior s (a_project a) (a_node a) (Some aid));
    match current with
    | None => public a
    | Some c =>
      let value := if bool_decide (prior = (a_id c, a_artifact c)) then value
                   else unresolved c "the previous candidate changed while admission was judged; not evaluated"
                          true None Unresolved in
      stamp ← now;
      update_attempt aid (λ r, r <| a_context := context_with "prior_candidate" value (a_context a) |>
                                <| a_updated := stamp |>);;
      emit (a_project a) (a_node a) aid value false;;
      a ← attempt aid;
      public a
    end.

Definition reconcile_prior_candidate (aid : string) (expected value : json) : M db public_view :=
  a ← attempt aid;
  if negb (bool_decide (default JNull (jget "prior_candidate" (a_context a)) = expected)) then public a
  else
    stamp ← now;
    update_attempt aid (λ r, r <| a_context := context_with "prior_candidate" value (a_context a) |>
                              <| a_updated := stamp |>);;
    emit (a_project a) (a_node a) aid value true;;
    a ← attempt aid;
    public a.

Definition HOST_FIELDS : list string :=
  ["source_repo"; "seed_file"; "output_step"; "scheduler_owned"; "repo_mode"].
Definition optional_text (v : json) (label : string) : res unit :=
  match v with JNull => Ok tt | _ => _ ← text v label 4000; Ok tt end.
Definition host_descriptor (d : json) : res (gmap string json) :=
  match d with
  | JObj m =>
    ensure (only_fields m HOST_FIELDS && (size m =? 5) &&
            match m !! "scheduler_owned" with Some (JBool _) => true | _ => false end &&
            match m !! "repo_mode" with Some (JStr k) => bool_decide (k = "code" ∨ k = "none") | _ => false end)
      (StateGraphError "invalid host launch descriptor");;
    optional_text (field m "source_repo") "source_repo";;
    optional_text (field m "seed_file") "seed_file";;
    optional_text (field m "output_step") "output_step";;
    optional_text (field m "repo_mode") "repo_mode";;
    Ok m
  | _ => Err (StateGraphError "invalid host launch descriptor")
  end.

Definition pin_host_contract (aid : string) (descriptor : json) : M db public_view :=
  m ← lift (host_descriptor descriptor);
  a ← attempt aid;
  binding ← gets (λ s, bindings s !! a_project a);
  require (match binding with
           | Some b => bool_decide (field m "source_repo" = JStr (sb_repo b))
           | None => true end)
    (StateConflict "source binding changed between planning and reservation");;
  match (match jget "host_contract" (a_context a) with Some JNull => None | o => o end) with
  | Some old =>
    require (bool_decide (old = descriptor))
      (StateConflict "host launch contract changed; retire the unlaunched intent and choose a new request");;
    public a
  | None =>
    require (bool_decide (a_status a = Reserved)) (StateConflict "host contract must be pinned before dispatch");;
    stamp ← now;
    update_attempt aid (λ r, r <| a_context := context_with "host_contract" descriptor (a_context a) |>
                              <| a_updated := stamp |>);;
    event (a_project a) (Some (a_node a)) "host_contract_pinned"
      (jobj [("attempt_id", JStr aid); ("descriptor", descriptor)]);;
    a ← attempt aid;
    public a
  end.

(** ** Launching *)
Definition claim_launch (aid : string) (driver : option string) (is_admin : bool) (actor : option string)
    (cid : option string) (fence : option Z) : M db bool :=
  a ← attempt aid;
  if negb (bool_decide (a_status a = Reserved)) then mret false
  else
    current ← now;
    s ← gets id;
    '(break_glass, rebind) ← lift (launch_authorization s a driver is_admin cid fence current);
    require_dispatch (a_project a) (a_node a);;
    _ ← node (a_project a) (a_node a);
    if negb (pins_current s a) then
      stamp ← now;
      update_attempt aid (λ r, r <| a_status := Superseded |> <| a_updated := stamp |>);;
      event (a_project a) (Some (a_node a)) "reservation_superseded" (jobj [("attempt_id", JStr aid)]);;
      mret false
    else
      stamp ← now;
      update_attempt aid (λ r, r <| a_status := Launching |> <| a_updated := stamp |>);;
      match rebind with
      | Some c => stamp ← now;
        update_claim (cl_id c) (λ d, d <| cl_attempt := Some aid |> <| cl_updated := stamp |>)
      | None => mret tt end;;
      event (a_project a) (Some (a_node a)) "attempt_launching"
        (jobj ([("attempt_id", JStr aid)]
               ++ opt_field "claim_id" (λ c : claim_row, JStr (cl_id c)) rebind
               ++ if (break_glass : bool) then [("break_glass", JBool true); ("launched_by", jopt JStr driver);
                                       ("actor", jopt JStr actor);
                                       ("owner_driver_id", jopt JStr (a_owner a))] else []));;
      mret true.

Definition retire_reservation (aid : string) (reason : json) : M db public_view :=
  reason ← lift (text reason "reservation retirement reason" 4000);
  a ← attempt aid;
  let unbound := bool_decide (truthy (a_run a) = None) in
  if bool_decide (a_status a = Superseded) && unbound then public a
  else
    require (bool_decide (a_status a = Reserved) && unbound)
      (StateConflict "only an unlaunched reservation can be retired; recover/stop the actual run first");;
    stamp ← now;
    update_attempt aid (λ r, r <| a_status := Superseded |> <| a_error := Some reason |>
                              <| a_updated := stamp |>);;
    event (a_project a) (Some (a_node a)) "reservation_retired"
      (jobj [("attempt_id", JStr aid); ("reason", JStr reason)]);;
    a ← attempt aid;
    public a.

Definition launch_uncertain (aid : string) (reason : json) : M db public_view :=
  reason ← lift (text reason "launch uncertainty" 4000);
  a ← attempt aid;
  if bool_decide (is_Some (truthy (a_run a))) ||
     negb (bool_decide (a_status a = Launching) || bool_decide (a_status a = Unknown))
  then public a
  else
    stamp ← now;
    update_attempt aid (λ r, r <| a_status := Unknown |> <| a_error := Some reason |>
                              <| a_updated := stamp |>);;
    event (a_project a) (Some (a_node a)) "launch_uncertain"
      (jobj [("attempt_id", JStr aid); ("reason", JStr reason)]);;
    a ← attempt aid;
    public a.
End before_launch.

(** ** Observing a workflow run

    SkillFlow's public API: each call returns what it returned, or [None] for an
    exception. *)
Record engine : Type := Engine {
  get_run : string → option json;
  get_graph_version : string → Z → option json;
  graph_digest : json → option string;
  audit_operation_owners : string → option json }.

Inductive run_status : Set := RPending | RRunning | RPaused | RCompleted | RFailed | RCancelled.
#[export] Instance run_status_eq_dec : EqDecision run_status.
Proof. solve_decision. Defined.
Definition parse_run_status (j : option json) : option run_status :=
  match j with
  | Some (JStr v) =>
    if bool_decide (v = "pending") then Some RPending
    else if bool_decide (v = "running") then Some RRunning
    else if bool_decide (v = "paused") then Some RPaused
    else if bool_decide (v = "completed") then Some RCompleted
    else if bool_decide (v = "failed") then Some RFailed
    else if bool_decide (v = "cancelled" ∨ v = "canceled") then Some RCancelled else None
  | _ => None
  end.

(** A run row that passed [_engine_row]. *)
Record run_row : Type := RunRow {
  rn_id : string; rn_status : run_status; rn_status_text : json; rn_version : Z; rn_digest : string;
  rn_current : json; rn_error : json }.

Definition sha256_pin (s : string) : bool :=
  starts_with "sha256:" s && hex_of 64 (String.substring 7 (String.length s - 7) s).

Definition dict_get (k : string) (j : json) : json := default JNull (jget k j).

(** [_engine_row] *)
Definition engine_row (sf : engine) (run : string) (a : attempt_row) : res run_row :=
  match get_run sf run with
  | None => Err (StateConflict "cannot observe workflow")
  | Some row =>
    ensure (bool_decide (jget "id" row = Some (JStr run)))
      (StateConflict "workflow run is unknown; a missing run is not successful");;
    ensure (bool_decide (dict_get "project_id" row = jopt JStr (a_execution a)) &&
            bool_decide (dict_get "graph_name" row = jopt JStr (a_workflow a)))
      (StateConflict "run belongs to a different execution project or workflow");;
    match parse_run_status (jget "status" row) with
    | None => Err (StateConflict "unsupported workflow status; retain the attempt")
    | Some st =>
      match jget "graph_version" row, jget "graph_digest" row with
      | Some (JInt version), Some (JStr pin) =>
        ensure ((1 <=? version)%Z && sha256_pin pin)
          (StateConflict "workflow has no valid version/digest pin");;
        match get_graph_version sf (default "" (a_workflow a)) version with
        | None => Err (StateConflict "cannot verify workflow graph version history")
        | Some v =>
          ensure (is_object v) (StateConflict "pinned workflow graph version is missing or inconsistent");;
          ensure (bool_decide (jget "digest" v = Some (JStr pin)))
            (StateConflict "pinned workflow graph version is missing or inconsistent");;
          match jget "graph" v ≫= graph_digest sf with
          | None => Err (StateConflict "cannot verify workflow graph version history")
          | Some d =>
            ensure (bool_decide (d = pin))
              (StateConflict "pinned workflow graph version is missing or inconsistent");;
            Ok (RunRow run st (dict_get "status" row) version pin (dict_get "current_node" row)
                  (dict_get "error_reason" row))
          end
        end
      | _, _ => Err (StateConflict "workflow has no valid version/digest pin")
      end
    end
  end.

Inductive quiescence : Set := Quiet | Busy.
#[export] Instance quiescence_eq_dec : EqDecision quiescence.
Proof. solve_decision. Defined.

(** The audit of a finished run: complete, and nothing alive, lost or unknown. *)
Definition audit_run (sf : engine) (run : string) : res quiescence :=
  match audit_operation_owners sf run with
  | None => Err (StateConflict "cannot audit operation quiescence")
  | Some audit =>
    match jget "lost" audit, jget "unknown" audit, jget "alive" audit with
    | Some (JArr lost), Some (JArr unknown), Some (JInt alive) =>
      ensure (0 <=? alive)%Z (StateConflict "operation audit is incomplete; quiescence is unknown");;
      Ok (if bool_decide (lost = []) && bool_decide (unknown = []) && bool_decide (alive = 0%Z)
          then Quiet else Busy)
    | _, _, _ => Err (StateConflict "operation audit is incomplete; quiescence is unknown")
    end
  end.

(** The attempt status a run's status and audit stand for. *)
Definition outcome_status (st : run_status) (q : quiescence) : attempt_status :=
  match st with
  | RPending | RRunning => Running
  | RPaused => Paused
  | RCompleted => if bool_decide (q = Quiet) then Candidate else Unknown
  | RFailed | RCancelled => if bool_decide (q = Quiet) then Failed else Unknown
  end.

(** The read phase of [reconcile]. *)
Definition observe_run (sf : engine) (a : attempt_row) (candidate : option string)
    : res (run_row * attempt_status) :=
  ensure (bool_decide (a_kind a = Skillflow))
    (StateConflict "use the external observation adapter, not SkillFlow reconciliation");;
  match truthy (a_run a) with
  | None => Err (StateConflict "attempt has no run; recover its launch first")
  | Some run =>
    row ← engine_row sf run a;
    ensure (bool_decide (a_graph_version a = Some (rn_version row)) &&
            bool_decide (a_graph_digest a = Some (rn_digest row)))
      (StateConflict "workflow definition pin changed");;
    match candidate with Some c => _ ← artifact_ref (JStr c); Ok tt | None => Ok tt end;;
    q ← match rn_status row with
        | RCompleted | RFailed | RCancelled => audit_run sf run
        | _ => Ok Quiet end;
    Ok (row, outcome_status (rn_status row) q)
  end.

Section runs.
Context `{Host}.

Definition bind_run (sf : engine) (aid run : string) : M db public_view :=
  run ← lift (key run "run id");
  before ← attempt aid;
  require (bool_decide (a_kind before = Skillflow))
    (StateConflict "an external attempt cannot be bound to a SkillFlow run");;
  row ← lift (engine_row sf run before);
  current ← attempt aid;
  match truthy (a_run current) with
  | Some bound =>
    require (bool_decide (bound = run)) (StateConflict "attempt is already bound to another run");;
    public current
  | None =>
    require (ACTIVE (a_status current)) (StateConflict "terminal attempt cannot be rebound");;
    taken ← gets (λ s, existsb (λ b, negb (bool_decide (a_id b = aid)) && bool_decide (a_run b = Some run))
                         (attempts s));
    require (negb taken) (StateConflict "run is already assigned to an attempt");;
    stamp ← now;
    update_attempt aid (λ r, r <| a_run := Some run |> <| a_graph_version := Some (rn_version row) |>
      <| a_graph_digest := Some (rn_digest row) |>
      <| a_status := if bool_decide (rn_status row = RPaused) then Paused else Running |>
      <| a_error := None |> <| a_updated := stamp |>);;
    event (a_project current) (Some (a_node current)) "attempt_bound"
      (jobj [("attempt_id", JStr aid); ("run_id", JStr run); ("graph_version", JInt (rn_version row));
             ("graph_digest", JStr (rn_digest row))]);;
    a ← attempt aid;
    public a
  end.

(** The last [attempt_observed] event of the attempt. *)
Definition last_observed (s : db) (a : attempt_row) : option json :=
  e_payload <$> select_last (λ e, bool_decide (e_project e = a_project a) &&
    bool_decide (e_node e = Some (a_node a)) && bool_decide (e_type e = "attempt_observed") &&
    payload_is "attempt_id" (JStr (a_id a)) (e_payload e)) (events s).

Definition terminal (st : attempt_status) : bool := negb (ACTIVE st).

(** An accepted attempt that is no longer a candidate takes its receipt along. *)
Definition retract_acceptance (a : attempt_row) (reason : string) : M db unit :=
  n ← node (a_project a) (a_node a);
  receipt ← gets (λ s, n_receipt n ≫= λ rid, acceptances s !! rid);
  when (bool_decide (rc_attempt <$> receipt = Some (a_id a))) (
    invalidated ← invalidate (a_project a) (a_node a);
    event (a_project a) (Some (a_node a)) "acceptance_invalidated"
      (jobj [("reason", JStr reason); ("invalidated", jstrs invalidated); ("attempt_id", JStr (a_id a))])).

Definition mark_candidate (pid nk : string) : M db unit :=
  stamp ← now;
  update_node pid nk (λ n, if bool_decide (n_status n = VERIFIED) then n
    else n <| n_status := CANDIDATE |> <| n_updated := stamp |>).

(** The write transaction of [reconcile]. *)
Definition settle_run (aid : string) (actor : option string) (row : run_row) (observed : attempt_status)
    (candidate : option string) : M db (public_view * bool) :=
  a ← attempt aid;
  require (bool_decide (a_run a = Some (rn_id row))) (StateConflict "attempt binding changed");;
  _ ← node (a_project a) (a_node a);
  fresh ← gets (λ s, pins_current s a);
  let quiescent := bool_decide (observed = Candidate) || bool_decide (observed = Failed) in
  let status := if quiescent && negb fresh then Superseded else observed in
  require (negb (terminal (a_status a) && ACTIVE status))
    (StateConflict "terminal attempt's run was revived; use a new attempt");;
  require (negb (bool_decide (a_status a = Abandoned)))
    (StateConflict "attempt was abandoned; its run outcome is historical - use a new attempt");;
  artifact ← match (if bool_decide (status = Candidate) then candidate else None) with
             | None => mret (a_artifact a)
             | Some c =>
               require (match truthy (a_artifact a) with Some old => bool_decide (old = c) | None => true end)
                 (StateConflict "candidate artifact is immutable; create another attempt");;
               mret (Some c)
             end;
  let observation := jobj [("workflow_status", rn_status_text row); ("current_node", rn_current row);
                           ("error_reason", rn_error row)] in
  last ← gets (λ s, last_observed s a);
  let attention := (bool_decide (status = Paused) || bool_decide (status = Unknown) ||
                    bool_decide (status = Failed)) &&
                   negb (bool_decide ((last ≫= jget "workflow_observation") = Some observation)) in
  when (negb (bool_decide (a_status a = status)) || negb (bool_decide (artifact = a_artifact a)) || attention) (
    when (negb (bool_decide (status = Candidate)))
      (retract_acceptance a "accepted workflow no longer has a valid candidate outcome");;
    stamp ← now;
    update_attempt aid (λ r, r <| a_status := status |> <| a_artifact := artifact |>
      <| a_error := jstr_of (rn_error row) |> <| a_updated := stamp |>);;
    when (bool_decide (status = Candidate)) (mark_candidate (a_project a) (a_node a));;
    event (a_project a) (Some (a_node a)) "attempt_observed"
      (jobj [("attempt_id", JStr aid); ("status", JStr (attempt_status_text status));
             ("artifact_ref", jopt JStr artifact); ("stale_inputs", JBool (negb fresh));
             ("workflow_observation", observation)]));;
  when quiescent (_ ← release_bound_claims (default "workflow-reconcile" (truthy actor)) a status; mret tt);;
  a' ← attempt aid;
  v ← public a';
  mret (v, negb fresh).

(** [reconcile] *)
Definition reconcile (sf : engine) (aid : string) (candidate actor : option string)
    : M db (public_view * bool) :=
  before ← attempt aid;
  '(row, observed) ← lift (observe_run sf before candidate);
  settle_run aid actor row observed candidate.
End runs.
