(* ===== verification/Returns.v ===== *)
(** * Reads and records that always return

    What the reads and the bookkeeping writes shared by the operations do, for the
    theorems that say an operation returns. *)
From S2P Require Import Prelude Json Text Dag Store Graph Portfolio Presence Claims.
From S2P Require Import Enforcement Review Attempts.

Section returns.
Context `{Host}.

Lemma twp_to_wp {A} (m : M db A) Q s : twp m Q s → wp m Q s.
Proof. unfold twp, wp. by destruct (m s) as [[]|]. Qed.
Lemma twp_project pid (Q : project_row → db → Prop) s row :
  KEY pid = true → projects s !! pid = Some row → Q row s → twp (project pid) Q s.
Proof. intros HK Hr HQ. unfold twp, project, fetch_project, lift, key, gets, get_some. rewrite HK. simpl.
  unfold mbind, M_bind. by rewrite Hr. Qed.
Lemma twp_node pid nk (Q : node_row → db → Prop) s n :
  KEY pid = true → KEY nk = true → nodes s !! (pid, nk) = Some n → Q n s → twp (node pid nk) Q s.
Proof. intros HK HK' Hn HQ. unfold twp, node, fetch_node, lift, key, gets, get_some. rewrite HK, HK'. simpl.
  unfold mbind, M_bind. by rewrite Hn. Qed.
Lemma twp_attempt aid a (Q : attempt_row → db → Prop) s :
  KEY aid = true → attempt_at s aid = Some a → Q a s → twp (attempt aid) Q s.
Proof.
  intros HK Ha HQ. unfold twp, attempt, lift, key, gets, get_some, mbind, M_bind. rewrite HK. simpl.
  by rewrite Ha.
Qed.
Lemma twp_now (Q : Z → db → Prop) s : Q (clock (ticks s)) (s <| ticks ::= S |>) → twp now Q s.
Proof. done. Qed.
Lemma twp_event pid nk ty p (Q : unit → db → Prop) s :
  (∀ e k, Q tt (s <| ticks := k |> <| events := e |>)) → twp (event pid nk ty p) Q s.
Proof. intros HQ. unfold twp, event. simpl. apply HQ. Qed.
Lemma twp_public a (Q : public_view → db → Prop) s :
  (∀ v s', Q v s') → twp (public a) Q s.
Proof. intros HQ. unfold public, twp. destruct (if ACTIVE (a_status a) then a_lease a else None); apply HQ. Qed.

Lemma attempt_at_update s aid f a :
  (∀ x, a_id (f x) = a_id x) → attempt_at s aid = Some a →
  select_one (λ x, bool_decide (a_id x = aid)) (update_where (λ x, bool_decide (a_id x = aid)) f (attempts s))
    = Some (f a).
Proof.
  intros Hf Ha. rewrite select_one_update_where by (intros; by rewrite Hf). unfold attempt_at in Ha.
  rewrite Ha. simpl. apply select_one_Some in Ha as [_ Ha]. by rewrite Ha.
Qed.
Lemma attempt_at_same s s' aid : attempts s' = attempts s → attempt_at s' aid = attempt_at s aid.
Proof. unfold attempt_at. by intros ->. Qed.
Lemma wp_attempt_at aid (Q : attempt_row → db → Prop) s :
  (∀ a, attempt_at s aid = Some a → KEY aid = true → Q a s) → wp (attempt aid) Q s.
Proof.
  intros HQ. unfold attempt. apply wp_bind, wp_lift. intros x [[= ->] HK]%key_ok.
  apply wp_bind, wp_gets, wp_get_some. intros a Ha. by apply HQ.
Qed.
Lemma wp_public a (Q : public_view → db → Prop) s :
  (∀ v t, pb_row v = a → Q v (s <| ticks := t |>)) → wp (public a) Q s.
Proof.
  intros HQ. unfold public. destruct (if ACTIVE (a_status a) then a_lease a else None).
  - apply wp_bind, wp_now. intros t. apply wp_ret. by apply (HQ _ (S (ticks s))).
  - apply wp_ret. assert (s = s <| ticks := ticks s |>) as E by by destruct s. rewrite E. by apply HQ.
Qed.

Lemma clear_returns d c a s : twp (clear d c a) (λ _ s', s' = s <| declarations := declarations s' |>
  <| audit := audit s' |> <| ticks := ticks s' |> ∧ ticks s ≤ ticks s') s.
Proof.
  unfold clear, presence_audit. apply twp_bind, twp_gets. destruct (declarations s !! d).
  - twp_all. unfold twp. simpl. split; [by destruct s|lia].
  - apply twp_ret. split; [by destruct s|lia].
Qed.
Lemma mark_back_returns d cause s : twp (mark_back d cause) (λ _ s',
  s' = s <| declarations := declarations s' |> <| audit := audit s' |> <| drivers := drivers s' |>
         <| ticks := ticks s' |> ∧ ticks s ≤ ticks s') s.
Proof.
  unfold mark_back. destruct d as [d|]; [|apply twp_ret; split; [by destruct s|lia]].
  case_bool_decide; [apply twp_ret; split; [by destruct s|lia]|].
  apply twp_bind. eapply twp_mono; [apply clear_returns|]. intros b s1 [-> Ht].
  unfold twp. simpl. split; [done|simpl in Ht; lia].
Qed.
End returns.
