(* ===== verification/Evidence.v ===== *)
(** * Evidence and acceptance

    The second half of [core/state_attempts.py]: who may record evidence for an
    attempt, the append of one verifier attestation, the receipt that [verify]
    issues, and the reads of both; with [store_report_blob] of
    [core/state_report_integrity.py]. *)
From S2P Require Import Prelude Json Text Dag Store Graph Portfolio Presence Claims.
From S2P Require Import Enforcement Review Attempts.

Definition evidence_of (s : db) (aid : string) : list evidence_row :=
  select (λ v, bool_decide (v_attempt v = aid)) (evidence s).

(** [{r["criterion_id"]: r for r in rows}]: the last row of each criterion. *)
Definition latest_by_criterion (rows : list evidence_row) : gmap string evidence_row :=
  foldl (λ m v, <[v_criterion v := v]> m) ∅ rows.

Definition is_latest (s : db) (a : attempt_row) : bool :=
  bool_decide (a_id <$> latest_attempt s (a_project a) (a_node a) = Some (a_id a)).

(** The kind of a criterion of the contract the attempt's context pinned. *)
Definition pinned_kind (a : attempt_row) (cid : string) : option check_kind :=
  match jget "acceptance" (a_context a) with
  | Some (JArr checks) =>
    select_last (λ c, bool_decide (jget "id" c = Some (JStr cid))) checks ≫= λ c, kind_of (dict_get "kind" c)
  | _ => None
  end.

Definition parse_verdict (v : json) : option verdict :=
  match v with
  | JStr v => find (λ w, bool_decide (verdict_text w = v)) [Pass; Fail; Skip]
  | _ => None
  end.

Section eligibility.
Context `{Host}.

(** The retained bytes of a report digest: present, hashed again, same reference. *)
Definition retained_bytes (s : db) (sha ref : string) : bool :=
  match blobs s !! sha with
  | Some b => negb (bool_decide (bl_bytes b = "")) && bool_decide (sha256 (bl_bytes b) = sha)
              && bool_decide (bl_ref b = ref)
  | None => false
  end.

(** [_eligible_candidate] *)
Definition eligible_candidate (s : db) (a : attempt_row) : res unit :=
  match a_kind a with
  | External =>
    match observation_at s (a_id a) (a_terminal a) with
    | Some o =>
      ensure (bool_decide (ob_status o = Candidate) && ob_quiescent o &&
              bool_decide (ob_artifact o = a_artifact a) &&
              bool_decide (ob_artifact_kind o = a_artifact_kind a))
        (StateConflict "external candidate lacks a complete scoped quiescent observation");;
      ensure (retained_bytes s (ob_report_sha o) (ob_report_ref o))
        (StateConflict "external candidate lacks immutable validated report bytes")
    | None => Err (StateConflict "external candidate lacks a complete scoped quiescent observation")
    end
  | Skillflow => Ok tt
  end;;
  ensure (bool_decide (a_status a = Candidate) && bool_decide (is_Some (truthy (a_artifact a))))
    (StateConflict "a completed candidate with a pinned artifact is required");;
  ensure (pins_current s a)
    (StateConflict "candidate inputs are stale; re-run/re-validate against current dependencies");;
  ensure (is_latest s a) (StateConflict "a newer attempt supersedes this candidate").

(** The run of a failed attempt is still that failed run, and nothing of it is alive. *)
Definition failed_run (sf : option engine) (a : attempt_row) : res unit :=
  match sf, truthy (a_run a) with
  | Some sf, Some run =>
    row ← engine_row sf run a;
    ensure (bool_decide (rn_status_text row = JStr "failed") &&
            bool_decide (a_graph_version a = Some (rn_version row)) &&
            bool_decide (a_graph_digest a = Some (rn_digest row)))
      (StateConflict "failed workflow outcome or definition pin changed");;
    match audit_operation_owners sf run with
    | None => Err (StateConflict "cannot confirm failed workflow operation quiescence")
    | Some audit =>
      ensure (bool_decide (jget "lost" audit = Some (JArr [])) &&
              bool_decide (jget "unknown" audit = Some (JArr [])) &&
              bool_decide (jget "alive" audit = Some (JInt 0)))
        (StateConflict "failed workflow has unretired or unknown operations")
    end
  | _, _ => Err (StateConflict "failed workflow evidence requires its bound execution runtime")
  end.

Definition settled_owner (s : db) (aid : string) : bool :=
  match owners s !! aid with
  | Some o => bool_decide (ow_status o = OSettled) && bool_decide (is_Some (ow_settled o))
  | None => false
  end.

Definition failed_report (s : db) (a : attempt_row) : res unit :=
  match observation_at s (a_id a) (a_terminal a) with
  | Some o =>
    ensure (bool_decide (ob_status o = Failed) && bool_decide (ob_result o = Failed) &&
            ob_quiescent o && settled_owner s (a_id a))
      (StateConflict "failed external attempt lacks a complete scoped quiescent observation");;
    ensure (retained_bytes s (ob_report_sha o) (ob_report_ref o))
      (StateConflict "failed external attempt lacks immutable validated report bytes")
  | None => Err (StateConflict "failed external attempt lacks a complete scoped quiescent observation")
  end.

(** [_eligible_failed_evidence] *)
Definition eligible_failed_evidence (s : db) (a : attempt_row) (artifact : string) (sf : option engine)
    : res unit :=
  ensure (bool_decide (a_status a = Failed))
    (StateConflict "a completed candidate with a pinned artifact is required");;
  match a_kind a with
  | Skillflow => failed_run sf a
  | External => failed_report s a
  end;;
  ensure (pins_current s a)
    (StateConflict "failed attempt inputs are stale; evidence must match the current contract");;
  ensure (is_latest s a) (StateConflict "a newer attempt supersedes this failed attempt");;
  let scoped := match truthy (a_artifact a) with
                | Some ref => Some ref
                | None => truthy (v_artifact <$> head (evidence_of s (a_id a))) end in
  ensure (match scoped with Some ref => bool_decide (ref = artifact) | None => true end)
    (StateConflict "failed-attempt criterion evidence must describe the same artifact").

(** [store_report_blob] *)
Definition store_report_blob (ref sha bytes : string) : M db unit :=
  retained ← gets (λ s, blobs s !! sha);
  match retained with
  | Some b =>
    require (bool_decide (bl_bytes b = bytes) && bool_decide (bl_ref b = ref))
      (StateConflict "persistent report bytes conflict with the supplied digest")
  | None =>
    stamp ← now;
    modify (λ s, s <| blobs ::= <[sha := BlobRow bytes ref stamp]> |>)
  end.
Definition store_optional_blob (ref sha : string) (bytes : option string) : M db unit :=
  match bytes with Some bytes => store_report_blob ref sha bytes | None => mret tt end.
End eligibility.

(** ** Recording *)
Record evidence_args : Type := EvidenceArgs {
  ea_attempt : string; ea_id : string; ea_criterion : string; ea_verdict : json;
  ea_artifact : string; ea_ref : json; ea_sha : json; ea_reviewer : json; ea_detail : json;
  ea_bytes : option string; ea_director : json }.

(** The validated attestation, before the attempt is looked at. *)
Record attestation : Type := Attestation {
  at_verdict : verdict; at_ref : string; at_sha : string; at_reviewer : string;
  at_detail : string; at_director : option string }.

Definition check_attestation (e : evidence_args) : res attestation :=
  director ← evidence_director_identity (ea_director e);
  _ ← key (ea_id e) "evidence id";
  _ ← key (ea_criterion e) "criterion id";
  _ ← artifact_ref (ea_artifact e);
  match parse_verdict (ea_verdict e) with
  | None => Err (StateGraphError "verdict must be pass, fail or skip")
  | Some v =>
    match ea_sha e with
    | JStr sha =>
      ensure (hex_of 64 sha) (StateGraphError "report_sha256 must pin the complete report bytes");;
      ref ← text (ea_ref e) "report reference" 2000;
      reviewer ← text (ea_reviewer e) "verifier identity" 300;
      match ea_detail e with
      | JStr detail =>
        ensure (Z.of_nat (py_len detail) <=? 8000)%Z (StateGraphError "evidence detail must be bounded text");;
        Ok (Attestation v ref sha reviewer detail director)
      | _ => Err (StateGraphError "evidence detail must be bounded text")
      end
    | _ => Err (StateGraphError "report_sha256 must pin the complete report bytes")
    end
  end.

Definition attestation_payload (e : evidence_args) (t : attestation) : list (string * json) :=
  [("attempt_id", JStr (ea_attempt e)); ("criterion_id", JStr (ea_criterion e));
   ("verdict", JStr (verdict_text (at_verdict t))); ("artifact_ref", JStr (ea_artifact e));
   ("report_ref", JStr (at_ref t)); ("report_sha256", JStr (at_sha t));
   ("reviewer", JStr (at_reviewer t)); ("detail", JStr (at_detail t))]
  ++ opt_field "director_identity" JStr (at_director t).

Section evidence.
Context `{Host}.

(** The guards on a new row, by the outcome of the attempt. *)
Definition evidence_guards (e : evidence_args) (t : attestation) (a : attempt_row) (sf : option engine)
    (s : db) : res unit :=
  (if bool_decide (a_status a = Failed) then
     ensure (negb (bool_decide (at_verdict t = Skip)))
       (StateGraphError "failed-attempt criterion evidence verdict must be pass or fail");;
     eligible_failed_evidence s a (ea_artifact e) sf;;
     ensure (negb (existsb (λ v, bool_decide (v_criterion v = ea_criterion e)) (evidence_of s (a_id a))))
       (StateConflict "failed attempt already has evidence for this criterion; exactly one row is permitted")
   else
     eligible_candidate s a;;
     ensure (bool_decide (a_artifact a = Some (ea_artifact e)))
       (StateConflict "evidence describes a different artifact"));;
  ensure (negb (existsb (λ o, bool_decide (ob_report_sha o = at_sha t)) (observations s)))
    (StateConflict "verifier evidence must have a report independent of every external candidate observation").

Definition record_evidence (e : evidence_args) (sf : option engine) : M db evidence_row :=
  t ← lift (check_attestation e);
  let payload := attestation_payload e t in
  let payload_hash := digest (jobj payload) in
  a ← attempt (ea_attempt e);
  prior ← gets (λ s, select_one (λ v, bool_decide (v_id v = ea_id e)) (evidence s));
  match prior with
  | Some v =>
    require (bool_decide (v_hash v = payload_hash))
      (StateConflict "evidence id already used with different content");;
    store_optional_blob (at_ref t) (at_sha t) (ea_bytes e);;
    mret v
  | None =>
    s ← gets id;
    lift (evidence_guards e t a sf s);;
    store_optional_blob (at_ref t) (at_sha t) (ea_bytes e);;
    kind ← get_some (pinned_kind a (ea_criterion e))
             (StateGraphError "evidence criterion is not in the pinned acceptance contract");
    stamp ← now;
    let row := EvidenceRow (ea_id e) (ea_attempt e) (ea_criterion e) kind (at_verdict t)
                 (ea_artifact e) (at_ref t) (at_sha t) (at_reviewer t) (at_detail t) payload_hash
                 stamp (at_director t) in
    modify (λ s, s <| evidence ::= (λ l, l ++ [row]) |>);;
    n ← node (a_project a) (a_node a);
    when (bool_decide (is_Some (truthy (n_receipt n))) && negb (bool_decide (a_status a = Failed))) (
      invalidated ← invalidate (a_project a) (a_node a);
      event (a_project a) (Some (a_node a)) "acceptance_invalidated"
        (jobj [("reason", JStr "new evidence supersedes an accepted observation");
               ("invalidated", jstrs invalidated)]));;
    event (a_project a) (Some (a_node a)) "evidence_recorded"
      (jobj (payload ++ [("evidence_id", JStr (ea_id e)); ("actor", JStr (at_reviewer t))]));;
    mret row
  end.

(** ** Acceptance *)
(** Criteria without a passing latest row. *)
Definition failing (required : list check) (latest : gmap string evidence_row) : list string :=
  c_id <$> List.filter (λ c, match latest !! c_id c with
                             | Some v => negb (bool_decide (v_verdict v = Pass))
                             | None => true end) required.

Definition design_provenance (context : json) : res (list (string * json)) :=
  match jget "design_context" context with
  | None => Ok []
  | Some design =>
    match jget "baseline_id" design, jget "manifest_hash" design, jget "binding_snapshot_hash" context with
    | Some b, Some m, Some h =>
      Ok [("design", jobj [("baseline_id", b); ("manifest_hash", m); ("binding_snapshot_hash", h)])]
    | _, _, _ => Err (KeyError "design_context")
    end
  end.

Definition executor_provenance (s : db) (a : attempt_row) : res (list (string * json)) :=
  match a_kind a with
  | External =>
    match observation_at s (a_id a) (a_terminal a) with
    | Some o =>
      Ok [("harness", jopt JStr (a_harness a)); ("external_id", jopt JStr (a_external a));
          ("reporting_actor", jopt JStr (a_reporter a));
          ("artifact_kind", jopt (JStr ∘ artifact_kind_text) (a_artifact_kind a));
          ("context_hash", JStr (digest (a_context a))); ("observation_id", JStr (ob_id o));
          ("report_ref", JStr (ob_report_ref o)); ("report_sha256", JStr (ob_report_sha o));
          ("quiescent", JBool true)]
    | None => Err (TypeError "NoneType")
    end
  | Skillflow =>
    Ok [("run_id", jopt JStr (a_run a)); ("workflow", jopt JStr (a_workflow a));
        ("graph_version", jopt JInt (a_graph_version a)); ("graph_digest", jopt JStr (a_graph_digest a))]
  end.

Definition provenance_of (s : db) (a : attempt_row) (latest : gmap string evidence_row)
    (required : list check) : res json :=
  design ← design_provenance (a_context a);
  executor ← executor_provenance s a;
  Ok (jobj (("execution_kind", JStr (kind_name (a_kind a))) :: design ++ executor
            ++ default [] (review_marking s a latest required))).

(** The insert, with the primary key of the table. *)
Definition insert_acceptance (rid : string) (row : acceptance_row) : M db unit :=
  taken ← acceptance_row_at rid;
  require (bool_decide (taken = None)) (IntegrityError "UNIQUE constraint failed: receipt_id");;
  modify (λ s, s <| acceptances ::= <[rid := row]> |>).

Definition verify (pid nk : string) (expected_revision : json) (aid : string) (reviewer : json)
    (require_bytes : bool) : M db (string * acceptance_row) :=
  expected ← lift (integer expected_revision "expected_revision" 1 1000000);
  reviewer ← lift (text reviewer "acceptance reviewer" 300);
  n ← node pid nk;
  a ← attempt aid;
  require (of_node pid nk a && bool_decide (n_revision n = expected))
    (StateConflict "acceptance target or revision mismatch");;
  s ← gets id;
  lift (eligible_candidate s a);;
  let latest := latest_by_criterion (evidence_of s aid) in
  let required := n_contract n in
  require (bool_decide (failing required latest = []))
    (StateConflict "missing/failed/skipped acceptance evidence");;
  require (negb require_bytes ||
           forallb (λ p, retained_bytes s (v_report_sha p.2) (v_report_ref p.2)) (map_to_list latest))
    (StateConflict "acceptance evidence lacks immutable validated report bytes");;
  let evidence_ids := omap (λ c, v_id <$> latest !! c_id c) required in
  match truthy (n_receipt n) with
  | Some rid =>
    receipt ← acceptance_row_at rid;
    match receipt with
    | Some r =>
      require (bool_decide (rc_attempt r = aid) && bool_decide (rc_evidence r = evidence_ids))
        (StateConflict "different acceptance already exists; revise or record correcting evidence first");;
      mret (rid, r)
    | None => raise (StateConflict "different acceptance already exists; revise or record correcting evidence first")
    end
  | None =>
    u ← uuid4;
    let rid := "receipt-" +:+ u in
    provenance ← lift (provenance_of s a latest required);
    stamp ← now;
    let row := AcceptanceRow pid nk expected aid (default "" (a_artifact a)) (n_hash n) (a_snapshot a)
                 evidence_ids reviewer stamp provenance in
    insert_acceptance rid row;;
    updated ← now;
    update_node pid nk (λ m, m <| n_status := VERIFIED |> <| n_receipt := Some rid |>
                               <| n_updated := updated |>);;
    event pid (Some nk) "node_verified"
      (jobj [("receipt_id", JStr rid); ("attempt_id", JStr aid); ("revision", JInt expected);
             ("artifact_ref", jopt JStr (a_artifact a)); ("reviewer", JStr reviewer)]);;
    mret (rid, row)
  end.

(** ** Reads *)
(** [StateAttempts.evidence] *)
Definition list_evidence (aid : string) : M db (list evidence_row) :=
  _ ← attempt aid;
  gets (λ s, evidence_of s aid).

(** What a receipt's evidence row says ([RECEIPT_EVIDENCE]). *)
Record receipt_evidence : Type := ReceiptEvidence {
  re_id : string; re_criterion : string; re_kind : check_kind; re_verdict : verdict;
  re_artifact : string; re_sha : string }.
Definition receipt_evidence_of (v : evidence_row) : receipt_evidence :=
  ReceiptEvidence (v_id v) (v_criterion v) (v_kind v) (v_verdict v) (v_artifact v) (v_report_sha v).

Definition receipt (pid rid : string) : M db (acceptance_row * list receipt_evidence) :=
  pid ← lift (key pid "project_id");
  rid ← lift (key rid "receipt id");
  row ← gets (λ s, acceptances s !! rid);
  row ← get_some (match row with
                  | Some r => if bool_decide (rc_project r = pid) then Some r else None
                  | None => None end) (StateNotFound "acceptance receipt not found in project");
  recorded ← gets (λ s, evidence_of s (rc_attempt row));
  rows ← lift (mapM (λ eid,
    match select_last (λ v, bool_decide (v_id v = eid)) recorded with
    | Some v => Ok (receipt_evidence_of v)
    | None => Err (StateNotFound "acceptance receipt names evidence that does not exist")
    end) (rc_evidence row));
  mret (row, rows).
End evidence.
