(* ===== verification/External.v ===== *)
(** * External attempts

    [core/state_external.py]: registering an execution the harness owns, who may
    report on it, and the append of one observation; with [actor_continues] of
    [core/drivers.py] and [validate_external_semantics] of
    [core/state_report_integrity.py].

    [observe] is two transactions with the report's file handling between them:
    [observe_check] reads and judges, [collect_report] is the file handling, and
    [observe_commit] judges again and writes.  The file system and Git are the
    parameter [archive]: each call returns what it returned, or its refusal. *)
From S2P Require Import Prelude Json Text Dag Store Graph Portfolio Presence Claims.
From S2P Require Import Enforcement Review Attempts Evidence.

Definition LEGACY_ACTOR : string := "authorized-state-operator".

(** [actor_continues] *)
Definition actor_continues (owner_actor : option string) (actor : string) : bool :=
  bool_decide (owner_actor = Some actor)
  || bool_decide (owner_actor = Some LEGACY_ACTOR) && starts_with "driver:" actor
  || match truthy owner_actor with
     | Some o => bool_decide (actor = "owner:" +:+ o)
     | None => false
     end.

(** The authenticated reporter ([ExternalAttempts.__init__]). *)
Record reporter : Type := Reporter { rp_actor : string; rp_driver : option string; rp_admin : bool }.

(** [_authorize_report]: [true] when the attempt was abandoned. *)
Definition authorize_report (s : db) (x : reporter) (a : attempt_row) (fence : option Z) : res bool :=
  let continues := actor_continues (a_reporter a) (rp_actor x) in
  match a_owner a, rp_driver x with
  | Some owner, Some driver =>
    if bool_decide (a_status a = Abandoned) then
      ensure (continues || bool_decide (owner = driver))
        (StateConflict "external observation belongs to a different authenticated reporter");;
      Ok true
    else if negb (bool_decide (owner = driver)) then
      Err (ClaimError (if continues then "stale_fence" else "not_attempt_owner"))
    else
      match fence with
      | None => ensure (negb (enforced s (a_project a))) (ClaimError "fence_required");; Ok false
      | Some f => ensure (bool_decide (f = a_fence a)) (ClaimError "stale_fence");; Ok false
      end
  | _, _ =>
    ensure continues (StateConflict "external observation belongs to a different authenticated reporter");;
    ensure (match fence with
            | Some f => bool_decide (a_fence a = 0%Z) || bool_decide (f = a_fence a)
            | None => true end) (ClaimError "stale_fence");;
    Ok (bool_decide (a_status a = Abandoned))
  end.

(** ** Registration *)
Definition external_identity (x : reporter) (harness external_id : json) : res ext_identity :=
  h ← key harness "harness";
  e ← text external_id "external execution identity" 500;
  Ok (ExtIdentity h e (rp_actor x)).

Section register.
Context `{Host}.

Definition register (x : reporter) (pid nk : string) (expected_revision harness external_id : json)
    (request_key : string) (instruction : json) (base_sha : option string)
    (preflight : option (res unit)) (claim : option string) (fence : option Z)
    (report : option prior_report) : M db public_view :=
  identity ← lift (external_identity x harness external_id);
  reserve (ReserveArgs pid nk expected_revision None request_key instruction (Some identity)
    None None None base_sha None (rp_driver x) claim fence (rp_admin x)) preflight report.

Definition register_relay_handoff (x : reporter) (pid nk : string)
    (expected_revision harness external_id : json) (request_key : string)
    (instruction relay_handoff : json) : M db public_view :=
  identity ← lift (external_identity x harness external_id);
  reserve (ReserveArgs pid nk expected_revision None request_key instruction (Some identity)
    None None None None (Some relay_handoff) (rp_driver x) None None false) None None.
End register.

(** ** Reports *)
Record report_args : Type := ReportArgs {
  ga_attempt : string; ga_id : string; ga_version : json; ga_context : json; ga_status : json;
  ga_ref : json; ga_sha : json; ga_quiescent : json; ga_artifact : json; ga_kind : json;
  ga_detail : json; ga_fence : json }.

Record report : Type := Report {
  g_attempt : string; g_id : string; g_version : Z; g_context : string; g_status : attempt_status;
  g_ref : string; g_sha : string; g_quiescent : bool; g_artifact : json; g_kind : json;
  g_detail : string; g_fence : option Z }.
#[export] Instance eta_report : Eta report := λ r,
  Report (g_attempt r) (g_id r) (g_version r) (g_context r) (g_status r) (g_ref r) (g_sha r)
    (g_quiescent r) (g_artifact r) (g_kind r) (g_detail r) (g_fence r).

Definition REPORTABLE : list attempt_status := [Running; Paused; Unknown; Candidate; Failed].
Definition parse_report_status (v : json) : option attempt_status :=
  match v with
  | JStr v => find (λ w, bool_decide (attempt_status_text w = v)) REPORTABLE
  | _ => None
  end.
Definition hex64 (v : json) (label : string) : res string :=
  match v with
  | JStr s => ensure (hex_of 64 s) (StateGraphError (label +:+ " must be 64 lowercase hexadecimal characters"));; Ok s
  | _ => Err (StateGraphError (label +:+ " must be 64 lowercase hexadecimal characters"))
  end.
Definition bounded_detail (v : json) : res string :=
  match v with
  | JStr d => ensure (Z.of_nat (py_len d) <=? 8000)%Z (StateGraphError "detail must be bounded text");; Ok d
  | _ => Err (StateGraphError "detail must be bounded text")
  end.
Definition parse_fence (v : json) : res (option Z) :=
  match v with
  | JNull => Ok None
  | JInt f => Ok (Some f)
  | _ => Err (StateGraphError "fence must be an integer")
  end.

(** A terminal report: [candidate] or [failed]. *)
Definition final (st : attempt_status) : bool := bool_decide (st = Candidate) || bool_decide (st = Failed).

(** The validators at the head of [observe]. *)
Definition parse_report (r : report_args) : res report :=
  _ ← key (ga_id r) "observation id";
  version ← integer (ga_version r) "expected observation version" 0 (2 ^ 31 - 2);
  match parse_report_status (ga_status r), ga_quiescent r with
  | Some status, JBool quiescent =>
    context ← hex64 (ga_context r) "context hash";
    sha ← hex64 (ga_sha r) "report SHA-256";
    ref ← text (ga_ref r) "report reference" 2000;
    detail ← bounded_detail (ga_detail r);
    fence ← parse_fence (ga_fence r);
    ensure (negb (final status) || quiescent)
      (StateConflict "terminal result needs the external harness to attest all relevant workers/operations are quiescent");;
    Ok (Report (ga_attempt r) (ga_id r) version context status ref sha quiescent (ga_artifact r)
          (ga_kind r) detail fence)
  | None, _ => Err (StateGraphError "external status must be running, paused, unknown, candidate or failed; never VERIFIED")
  | Some _, _ => Err (StateGraphError "quiescent must be an explicit boolean")
  end.

(** The payload whose digest identifies the observation. *)
Definition report_payload (x : reporter) (g : report) (ref : string) : json :=
  jobj [("attempt_id", JStr (g_attempt g)); ("observation_id", JStr (g_id g));
        ("expected_version", JInt (g_version g)); ("context_hash", JStr (g_context g));
        ("status", JStr (attempt_status_text (g_status g))); ("report_ref", JStr ref);
        ("report_sha256", JStr (g_sha g)); ("quiescent", JBool (g_quiescent g));
        ("artifact", g_artifact g); ("artifact_kind", g_kind g); ("detail", JStr (g_detail g));
        ("actor", JStr (rp_actor x))].

(** The declared artifact of a candidate; no other report may declare one. *)
Definition parse_artifact_kind (v : json) : option artifact_kind :=
  match v with
  | JStr k => find (λ w, bool_decide (artifact_kind_text w = k)) [GitSha1; Sha256]
  | _ => None
  end.
Definition artifact_size (k : artifact_kind) : nat := match k with GitSha1 => 40 | Sha256 => 64 end.
Definition declared_artifact (g : report) : res (option (string * artifact_kind)) :=
  if bool_decide (g_status g = Candidate) then
    match parse_artifact_kind (g_kind g), g_artifact g with
    | Some k, JStr ref =>
      ensure (hex_of (artifact_size k) ref)
        (StateGraphError "candidate requires an exact artifact digest and explicit git-sha1 or sha256 kind");;
      Ok (Some (ref, k))
    | _, _ => Err (StateGraphError "candidate requires an exact artifact digest and explicit git-sha1 or sha256 kind")
    end
  else
    ensure (bool_decide (g_artifact g = JNull) && bool_decide (g_kind g = JNull))
      (StateGraphError "only a candidate report may declare the immutable artifact");;
    Ok None.

(** *** The files between the two transactions *)
Record archive : Type := Archive {
  retain_report : string → string → bool → res (string * string);   (* reference, digest, completed *)
  decode_report : string → option json;                             (* [json.loads] of the bytes *)
  retain_candidate : string → string → res unit;                    (* the Git bundle of the commit *)
  store_candidate : string → res unit }.

Definition is_blank (c : ascii) : bool := in_ranges (N_of_ascii c) [(9, 13); (32, 32)]%N.
Fixpoint lstrip_bytes (s : string) : string :=
  match s with
  | String c s' => if is_blank c then lstrip_bytes s' else s
  | "" => ""
  end.

(** [validate_external_semantics]: a structured report may not contradict the observation. *)
Definition validate_external_semantics (fs : archive) (bytes : string) (status : attempt_status)
    (artifact : json) : res unit :=
  if negb (starts_with "{" (lstrip_bytes bytes)) then Ok tt
  else
    match decode_report fs bytes with
    | Some (JObj m) =>
      let allowed := if bool_decide (status = Candidate) then ["candidate"; "completed"] else ["failed"] in
      match field m "status" with
      | JNull => Ok tt
      | JArr _ | JObj _ => Err (TypeError "unhashable type")
      | JStr v => ensure (bool_decide (v ∈ allowed))
                    (StateConflict "external report status conflicts with the terminal observation")
      | _ => Err (StateConflict "external report status conflicts with the terminal observation")
      end;;
      let reported := default (field m "artifact") (m !! "artifact_ref") in
      ensure (bool_decide (artifact = JNull) || bool_decide (reported = JNull) || bool_decide (reported = artifact))
        (StateConflict "external report artifact conflicts with the terminal observation")
    | _ => Ok tt
    end.

(** What the file handling leaves for the write: the retained reference and bytes. *)
Record collected : Type := Collected {
  co_ref : string; co_bytes : option string; co_artifact : option (string * artifact_kind) }.

Definition collect_report (fs : archive) (g : report) (late : bool) : res collected :=
  retained ← (if final (g_status g) then
      '(ref, bytes) ← retain_report fs (g_ref g) (g_sha g) true;
      validate_external_semantics fs bytes (g_status g) (g_artifact g);;
      Ok (ref, Some bytes)
    else if g_quiescent g && late then
      '(ref, bytes) ← retain_report fs (g_ref g) (g_sha g) false;
      Ok (ref, Some bytes)
    else Ok (g_ref g, None));
  declared ← declared_artifact g;
  match declared with
  | Some (ref, GitSha1) => retain_candidate fs (default "" retained.2) ref
  | _ => Ok tt
  end;;
  Ok (Collected retained.1 retained.2 declared).

(** ** Observing *)
Record observed : Type := Observed {
  ov_view : public_view; ov_row : observation_row; ov_idempotent : bool;
  ov_stale : bool; ov_late : bool; ov_settled : bool }.

Definition report_used (s : db) (g : report) (own : bool) : bool :=
  match select_one (λ o, bool_decide (ob_report_sha o = g_sha g)) (observations s) with
  | Some o => negb (own && bool_decide (ob_attempt o = g_attempt g) && bool_decide (ob_id o = g_id g))
  | None => false
  end.

Section observe.
Context `{Host}.

(** The read transaction: a retry's answer, or whether the report is late. *)
Definition observe_check (x : reporter) (g : report) : M db (observed + bool) :=
  a ← attempt (g_attempt g);
  require (bool_decide (a_kind a = External))
    (StateConflict "external reports cannot complete or override a SkillFlow attempt");;
  s ← gets id;
  late ← lift (authorize_report s x a (g_fence g));
  require (bool_decide (g_context g = digest (a_context a)))
    (StateConflict "report describes a different frozen goal/contract/dependency context");;
  match observation_at s (g_attempt g) (Some (g_id g)) with
  | Some o =>
    require (bool_decide (digest (report_payload x g (ob_report_ref o)) = ob_hash o))
      (StateConflict "observation ID was already used with a different payload; append a new correction");;
    v ← public a;
    mret (inl (Observed v o true false false false))
  | None =>
    require (bool_decide (a_version a = g_version g))
      (StateConflict "external observation version changed; reload before appending");;
    require (negb (bool_decide (a_status a = Failed) || bool_decide (a_status a = Superseded)))
      (StateConflict "this external attempt is terminal; use a new attempt");;
    require (negb (bool_decide (g_status g = Candidate) && report_used s g true))
      (StateConflict "candidate report digest was already bound to an earlier observation");;
    mret (inr late)
  end.

(** The row appended, and the unique version of the attempt's observations. *)
Definition insert_observation (o : observation_row) : M db unit :=
  taken ← gets (λ s, existsb (λ p, bool_decide (ob_attempt p = ob_attempt o) &&
    (bool_decide (ob_id p = ob_id o) || bool_decide (ob_version p = ob_version o))) (observations s));
  require (negb taken) (IntegrityError "UNIQUE constraint failed");;
  modify (λ s, s <| observations ::= (λ l, l ++ [o]) |>).

Definition observed_payload (x : reporter) (g : report) (version : Z) (result : attempt_status)
    (stale : bool) : list (string * json) :=
  [("attempt_id", JStr (g_attempt g)); ("observation_id", JStr (g_id g)); ("version", JInt version);
   ("status", JStr (attempt_status_text result)); ("report_sha256", JStr (g_sha g));
   ("quiescent", JBool (g_quiescent g)); ("actor", JStr (rp_actor x)); ("stale_inputs", JBool stale);
   ("fence", jopt JInt (g_fence g))].

(** After an abandon the report is kept, but the attempt stays abandoned. *)
Definition commit_late (x : reporter) (g : report) (a : attempt_row) (o : observation_row) (stale : bool)
    : M db observed :=
  stamp ← now;
  update_attempt (g_attempt g) (λ r, r <| a_version := ob_version o |> <| a_updated := stamp |>);;
  settled ← (if g_quiescent g then
      updated ← now;
      settled_at ← now;
      owner ← gets (λ s, owners s !! g_attempt g);
      if bool_decide (ow_status <$> owner = Some OAbandoned) then
        modify (λ s, s <| owners ::= alter (λ r, r <| ow_status := OSettled |> <| ow_updated := updated |>
                                               <| ow_settled := Some settled_at |>) (g_attempt g) |>);;
        mret true
      else mret false
    else mret false);
  event (a_project a) (Some (a_node a)) "external_attempt_observed"
    (jobj (observed_payload x g (ob_version o) Superseded stale
      ++ [("reported_status", JStr (attempt_status_text (g_status g))); ("late_after_abandon", JBool true);
          ("owner_settled", JBool settled)]));;
  a ← attempt (g_attempt g);
  v ← public a;
  mret (Observed v o false stale true settled).

Definition owner_status_of (result : attempt_status) : owner_status :=
  match result with
  | Running => OActive | Paused => OPaused | Unknown => OUnknown | _ => OSettled
  end.

(** An accepted candidate that the harness retracts. *)
Definition retract_external (a : attempt_row) (n : node_row) : M db unit :=
  receipt ← gets (λ s, truthy (n_receipt n) ≫= λ rid, acceptances s !! rid);
  when (bool_decide (rc_attempt <$> receipt = Some (a_id a))) (
    invalidated ← invalidate (a_project a) (a_node a);
    event (a_project a) (Some (a_node a)) "acceptance_invalidated"
      (jobj [("reason", JStr "external harness retracted its accepted candidate");
             ("attempt_id", JStr (a_id a)); ("invalidated", jstrs invalidated)])).

Definition commit_current (x : reporter) (g : report) (a : attempt_row) (o : observation_row)
    (artifact : option (string * artifact_kind)) (stale : bool) : M db observed :=
  let result := ob_result o in
  let owner := owner_status_of result in
  updated ← now;
  settled_at ← (if bool_decide (owner = OSettled) then t ← now; mret (Some t) else mret None);
  row ← gets (λ s, owners s !! g_attempt g);
  require (bool_decide (is_Some row)) (StateConflict "external attempt has no durable owner registration");;
  modify (λ s, s <| owners ::= alter (λ r, r <| ow_status := owner |> <| ow_updated := updated |>
                                         <| ow_settled := settled_at |>) (g_attempt g) |>);;
  n ← node (a_project a) (a_node a);
  when (negb (bool_decide (result = Candidate))) (retract_external a n);;
  stamp ← now;
  update_attempt (g_attempt g) (λ r, r <| a_status := result |> <| a_version := ob_version o |>
    <| a_artifact := match artifact with Some p => Some p.1 | None => a_artifact a end |>
    <| a_artifact_kind := match artifact with Some p => Some p.2 | None => a_artifact_kind a end |>
    <| a_terminal := if final (g_status g) then Some (g_id g) else a_terminal a |>
    <| a_error := if bool_decide (g_status g = Failed) then Some (g_detail g) else None |>
    <| a_updated := stamp |>);;
  when (bool_decide (result = Candidate)) (
    newest ← gets (λ s, is_latest s a);
    when (newest && negb (bool_decide (n_status n = VERIFIED))) (
      stamp ← now;
      update_node (a_project a) (a_node a) (λ m, m <| n_status := CANDIDATE |> <| n_updated := stamp |>)));;
  event (a_project a) (Some (a_node a)) "external_attempt_observed"
    (jobj (observed_payload x g (ob_version o) result stale));;
  when (final (g_status g) && bool_decide (is_Some (truthy (a_owner a))))
    (_ ← release_bound_claims (rp_actor x) a result; mret tt);;
  a ← attempt (g_attempt g);
  v ← public a;
  mret (Observed v o false stale false false).

(** The guards of the write transaction on a new observation. *)
Definition observe_guards (s : db) (g : report) (a : attempt_row) : res unit :=
  ensure (bool_decide (g_context g = digest (a_context a)))
    (StateConflict "report describes a different frozen goal/contract/dependency context");;
  ensure (bool_decide (a_version a = g_version g))
    (StateConflict "external observation version changed; reload before appending");;
  ensure (negb (bool_decide (a_status a = Failed) || bool_decide (a_status a = Superseded)))
    (StateConflict "this external attempt is terminal; use a new attempt");;
  ensure (negb (bool_decide (a_status a = Candidate)) || bool_decide (g_status g = Failed))
    (StateConflict "candidate completion is immutable; record evidence or start a new attempt");;
  ensure (negb (bool_decide (g_status g = Candidate) && report_used s g false))
    (StateConflict "candidate report digest was already bound to an earlier observation").

(** The status the attempt takes: stale inputs and late reports supersede. *)
Definition result_status (g : report) (current late : bool) : attempt_status :=
  if late then Superseded else if final (g_status g) && negb current then Superseded else g_status g.

Definition observe_commit (x : reporter) (g : report) (c : collected) (stored : res unit) : M db observed :=
  mark_back (rp_driver x) "report_external_attempt";;
  a ← attempt (g_attempt g);
  require (bool_decide (a_kind a = External))
    (StateConflict "external reports cannot complete or override a SkillFlow attempt");;
  s ← gets id;
  late ← lift (authorize_report s x a (g_fence g));
  require (negb (late && g_quiescent g && bool_decide (co_bytes c = None)))
    (StateConflict "a quiescence attestation on an abandoned attempt needs its retained report");;
  let fingerprint := digest (report_payload x g (co_ref c)) in
  match observation_at s (g_attempt g) (Some (g_id g)) with
  | Some o =>
    require (bool_decide (ob_hash o = fingerprint))
      (StateConflict "observation ID was already used with a different payload; append a new correction");;
    v ← public a;
    mret (Observed v o true false false false)
  | None =>
    lift (observe_guards s g a);;
    let current := pins_current s a in
    let result := result_status g current late in
    store_optional_blob (co_ref c) (g_sha g) (co_bytes c);;
    lift stored;;
    stamp ← now;
    let o := ObservationRow (g_attempt g) (g_id g) (g_version g + 1) (g_status g) result
               (g_quiescent g) (fst <$> co_artifact c) (snd <$> co_artifact c) (co_ref c) (g_sha g)
               (rp_actor x) (g_detail g) fingerprint (g_context g) stamp late (g_fence g) in
    insert_observation o;;
    if late then commit_late x g a o (negb current)
    else commit_current x g a o (co_artifact c) (negb current)
  end.

(** [observe] *)
Definition observe (fs : archive) (x : reporter) (r : report_args) : M db observed :=
  g ← lift (parse_report r);
  checked ← observe_check x g;
  match checked with
  | inl retry => mret retry
  | inr late =>
    c ← lift (collect_report fs g late);
    observe_commit x g c (match co_artifact c with
                          | Some (ref, GitSha1) => store_candidate fs ref | _ => Ok tt end)
  end.

(** [inspect] *)
Definition inspect (aid : string) : M db (public_view * bool * option observation_row) :=
  a ← attempt aid;
  require (bool_decide (a_kind a = External)) (StateConflict "not an external attempt");;
  last ← gets (λ s, select_last (λ o, bool_decide (ob_attempt o = aid)) (observations s));
  v ← public a;
  stale ← gets (λ s, negb (pins_current s a));
  mret (v, stale, last).
End observe.
