(* ===== verification/Registry.v ===== *)
(** * The driver registry

    [DriverRegistry] of [core/drivers.py]: who may drive State, with which
    credential, as a member of which projects.  Only the keyed digest of a token is
    stored.  Every write appends a line with a closed payload to the audit, which
    refuses a value that is a known credential.  The in-process throttle of
    [last_seen_at] is the parameter [due] of the lookups.  A removed member of a
    director message quorum is not followed into the messages. *)
From S2P Require Import Prelude Json Text Dag Store Graph Presence Claims Enforcement.

Local Open Scope Z_scope.

Definition OWNER_CLI_DRIVER_ID : string := "owner-cli".
Definition TOKEN_PREFIX : string := "aitd_".

(** ** Texts *)
(** [_DRIVER_ID]: [[a-z0-9][a-z0-9_.-]{0,63}\Z] *)
Definition is_id_head (c : ascii) : bool := in_ranges (N_of_ascii c) [(48, 57); (97, 122)]%N.
Definition is_id_char (c : ascii) : bool := is_id_head c || in_ranges (N_of_ascii c) [(45, 46); (95, 95)]%N.
Definition DRIVER_ID (s : string) : bool :=
  match s with
  | "" => false
  | String c r => is_id_head c && all_chars is_id_char r && (String.length r <=? 63)%nat
  end.
Definition driver_id_of (value : json) : res string :=
  match value with
  | JStr s => if DRIVER_ID s then Ok s else Err (DriverError "driver_id must match [a-z0-9][a-z0-9_.-]{0,63}")
  | _ => Err (DriverError "driver_id must match [a-z0-9][a-z0-9_.-]{0,63}")
  end.

(** [_text] *)
Definition driver_text (value : json) (label : string) (maximum : Z) (empty : bool) : res string :=
  match value with
  | JStr s =>
    ensure (negb (maximum <? Z.of_nat (py_len s)) && (empty || negb (bool_decide (strip s = ""))))
      (DriverError (label +:+ " must be text of bounded length"));;
    Ok (strip s)
  | _ => Err (DriverError (label +:+ " must be text of bounded length"))
  end.

(** The blanks [json.dumps] puts after commas and colons. *)
Fixpoint dumps_blanks (j : json) : nat :=
  match j with
  | JArr l => (length l - 1 + foldr Nat.add 0 (dumps_blanks <$> l))%nat
  | JObj m => (size m + (size m - 1) + foldr Nat.add 0 (map_to_list (dumps_blanks <$> m)).*2)%nat
  | _ => 0%nat
  end.
Definition capabilities (value : json) : res json :=
  match (match value with JNull => JObj ∅ | _ => value end) with
  | JObj m =>
    ensure ((py_len (canonical (JObj m)) + dumps_blanks (JObj m) <=? Z.to_nat 8000)%nat)
      (DriverError "capabilities must be at most 8000 characters of JSON");;
    Ok (JObj m)
  | _ => Err (DriverError "capabilities must be an object")
  end.

Definition driver_status_text (s : driver_status) : string :=
  match s with DriverActive => "active" | DriverSuspended => "suspended" | DriverRetired => "retired" end.
Definition driver_kind_text (k : driver_kind) : string := match k with Lan => "lan" | PublicCf => "public_cf" end.
Definition parse_driver_status (v : json) : option driver_status :=
  match v with
  | JStr s => find (λ k, bool_decide (driver_status_text k = s)) [DriverActive; DriverSuspended; DriverRetired]
  | _ => None
  end.

(** ** The audit *)
(** The strings of a line: its payload's, the driver and the actor. *)
Definition audit_words (op : audit_operation) : list string :=
  match op with
  | AuditPresence status cause => [status; cause]
  | AuditRegister k _ => [driver_kind_text k]
  | AuditRotate legacy => if legacy then ["legacy_admin_token"] else []
  | AuditStatus _ previous => [driver_status_text previous]
  | AuditAdmin _ => []
  | AuditMembership _ is_member => [if is_member then "member" else "removed"]
  end.

(** [drivers_token] and [drivers_one_public]: another row has the token, or is public too. *)
Definition driver_clash (driver : string) (r : driver_row) (p : string * driver_row) : bool :=
  negb (bool_decide (p.1 = driver)) &&
  (match drv_token r with Some t => bool_decide (drv_token p.2 = Some t) | None => false end
   || bool_decide (drv_kind r = PublicCf) && bool_decide (drv_kind p.2 = PublicCf)).
Definition driver_conflict (s : db) (driver : string) (r : driver_row) : bool :=
  existsb (driver_clash driver r) (map_to_list (drivers s)).

Definition known_hash (s : db) (h : string) : bool :=
  existsb (λ p, bool_decide (drv_token p.2 = Some h)) (map_to_list (drivers s)).

(** What a driver shows: never the token digest. *)
Record driver_view : Type := DriverView {
  vw_id : string; vw_name : string; vw_kind : driver_kind; vw_admin : bool; vw_host : string;
  vw_capabilities : json; vw_status : driver_status; vw_revision : Z; vw_created : Z;
  vw_seen : option Z; vw_rotated : option Z }.
Definition driver_view_of (driver : string) (r : driver_row) : driver_view :=
  DriverView driver (drv_name r) (drv_kind r) (drv_admin r) (drv_host r) (drv_capabilities r) (drv_status r)
    (drv_revision r) (drv_created r) (drv_seen r) (drv_rotated r).

Section registry.
Context `{Host}.
Context (pepper : string) (env : environment).

Definition token_hash (token : string) : string := hmac_sha256 pepper token.
Definition new_token : M db string := λ s, Ok (TOKEN_PREFIX +:+ secret (draws s), s <| draws ::= S |>).

Definition carries_credential (s : db) (v : string) : bool := known_hash s v || known_hash s (token_hash v).
Definition driver_audit (driver : string) (op : audit_operation) (actor : string) : M db unit :=
  s ← gets id;
  require (negb (existsb (carries_credential s) (audit_words op ++ [driver; actor])%list))
    (DriverError "audit payload must not carry credentials");;
  stamp ← now;
  modify (λ s, s <| audit ::= (λ l, (l ++ [AuditRow driver op actor stamp])%list) |>).

(** [_insert] *)
Definition insert_driver (driver name : string) (kind : driver_kind) (is_admin : bool) (digest : option string)
    (host : string) (caps : json) (actor : string) : M db unit :=
  stamp ← now;
  let r := DriverRow name kind is_admin digest ((λ _, stamp) <$> digest) host caps DriverActive 1 stamp None in
  clash ← gets (λ s, bool_decide (is_Some (drivers s !! driver)) || driver_conflict s driver r);
  require (negb clash) (IntegrityError "UNIQUE constraint failed: drivers");;
  modify (λ s, s <| drivers ::= <[driver := r]> |>);;
  driver_audit driver (AuditRegister kind is_admin) actor.

(** An update of one driver's row, within the table's constraints. *)
Definition update_driver (driver : string) (r : driver_row) : M db unit :=
  clash ← gets (λ s, driver_conflict s driver r);
  require (negb clash) (IntegrityError "UNIQUE constraint failed: drivers.token_hash");;
  modify (λ s, s <| drivers ::= <[driver := r]> |>).

(** [_current] *)
Definition current_driver (driver : string) (expected_revision : json) : M db driver_row :=
  row ← gets (λ s, drivers s !! driver);
  r ← get_some row (DriverError "no driver");
  require (bool_decide (expected_revision = JInt (drv_revision r))) (DriverConflict "driver revision changed; reload");;
  mret r.

(** ** Seeding *)
Definition seed_public (actor : string) : M db (list string) :=
  known ← gets (λ s, bool_decide (is_Some (drivers s !! PUBLIC_DRIVER_ID)));
  if (known : bool) then mret []
  else
    insert_driver PUBLIC_DRIVER_ID "Public (Cloudflare tunnel, external token)" PublicCf false None "cloudflare"
      (JObj ∅) actor;;
    mret [PUBLIC_DRIVER_ID].
Definition seed_owner (token actor : string) : M db (list string) :=
  let digest := token_hash token in
  row ← gets (λ s, drivers s !! OWNER_CLI_DRIVER_ID);
  match row with
  | None =>
    insert_driver OWNER_CLI_DRIVER_ID "Owner CLI (legacy admin token)" Lan true (Some digest) "linxuhaserver"
      (JObj ∅) actor;;
    mret [OWNER_CLI_DRIVER_ID]
  | Some r =>
    if bool_decide (drv_token r = Some digest) then mret []
    else
      stamp ← now;
      update_driver OWNER_CLI_DRIVER_ID
        (r <| drv_token := Some digest |> <| drv_rotated := Some stamp |> <| drv_revision := drv_revision r + 1 |>);;
      driver_audit OWNER_CLI_DRIVER_ID (AuditRotate true) actor;;
      mret []
  end.
Definition seed (legacy_admin_token : option string) (actor : string) : M db (list string) :=
  xs ← seed_public actor;
  ys ← match truthy legacy_admin_token with
       | Some token => seed_owner token actor
       | None => mret [] end;
  mret (xs ++ ys)%list.

(** ** Reads *)
Definition member_le (m n : member_row) : Prop := String.le (mb_project m) (mb_project n).
#[export] Instance member_le_dec : RelDecision member_le.
Proof. intros m n. unfold member_le. apply _. Defined.
Definition memberships (s : db) (driver : string) : list member_row :=
  merge_sort member_le (select (λ m, bool_decide (mb_driver m = driver)) (members s)).

Definition registry_get (driver : string) : M db (driver_view * list member_row * presence) :=
  row ← gets (λ s, drivers s !! driver);
  r ← get_some row (DriverError "no driver");
  stamp ← now;
  rows ← gets (λ s, memberships s driver);
  p ← gets (λ s, effective_presence env s driver stamp);
  mret (driver_view_of driver r, rows, p).

Definition registry_list : M db (list (driver_view * presence)) :=
  rows ← gets (λ s, sort_items (map_to_list (drivers s)));
  collect (λ p, stamp ← now; v ← gets (λ s, effective_presence env s p.1 stamp);
                mret [(driver_view_of p.1 p.2, v)]) rows.

Definition member_driver_le (m n : member_row) : Prop := String.le (mb_driver m) (mb_driver n).
#[export] Instance member_driver_le_dec : RelDecision member_driver_le.
Proof. intros m n. unfold member_driver_le. apply _. Defined.
Definition project_members (s : db) (pid : string) : list member_row :=
  merge_sort member_driver_le (select (λ m, bool_decide (mb_project m = pid)) (members s)).

Definition audit_lines (s : db) (driver : option string) (limit : Z) : list audit_row :=
  take (Z.to_nat (Z.max 1 (Z.min limit 500)))
    (reverse (select (λ a, match driver with Some d => bool_decide (au_driver a = d) | None => true end) (audit s))).

(** [_touch]: [due] is the throttle's answer. *)
Definition touch (due : bool) (driver : string) : M db unit :=
  when due (stamp ← now;
            modify (λ s, s <| drivers ::= alter (λ r, r <| drv_seen := Some stamp |>) driver |>)).

Definition holds_token (digest : string) (p : string * driver_row) : bool :=
  bool_decide (drv_token p.2 = Some digest) && bool_decide (drv_kind p.2 = Lan).
Definition lookup_token (due : bool) (token : json) : M db (option driver_view) :=
  match token with
  | JStr t =>
    if bool_decide (t = "") || (512 <? Z.of_nat (py_len t)) then mret None
    else
      row ← gets (λ s, select_one (holds_token (token_hash t)) (map_to_list (drivers s)));
      match row with
      | Some (driver, r) =>
        if bool_decide (drv_status r = DriverActive)
        then touch due driver;; mret (Some (driver_view_of driver r)) else mret None
      | None => mret None
      end
  | _ => mret None
  end.

Definition public_driver (due : bool) : M db (option driver_view) :=
  row ← gets (λ s, drivers s !! PUBLIC_DRIVER_ID);
  match row with
  | Some r =>
    if bool_decide (drv_status r = DriverActive)
    then touch due PUBLIC_DRIVER_ID;; mret (Some (driver_view_of PUBLIC_DRIVER_ID r)) else mret None
  | None => mret None
  end.

(** ** Writes *)
Definition register_driver (driver display_name host_label caps is_admin : json) (actor : string)
    : M db (driver_view * string) :=
  driver ← lift (driver_id_of driver);
  require (negb (bool_decide (driver = PUBLIC_DRIVER_ID)))
    (DriverConflict "'public' is created by migration and cannot be registered");;
  name ← lift (driver_text display_name "display_name" 200 false);
  host ← lift (driver_text host_label "host_label" 200 true);
  caps ← lift (capabilities caps);
  is_admin ← get_some (match is_admin with JBool b => Some b | _ => None end)
               (DriverError "is_admin must be a boolean");
  token ← new_token;
  known ← gets (λ s, bool_decide (is_Some (drivers s !! driver)));
  require (negb known) (DriverConflict "driver already exists");;
  insert_driver driver name Lan is_admin (Some (token_hash token)) host caps actor;;
  v ← registry_get driver;
  mret (v.1.1, token).

Definition rotate_token (driver : string) (expected_revision : json) (actor : string) : M db (driver_view * string) :=
  token ← new_token;
  r ← current_driver driver expected_revision;
  require (bool_decide (drv_kind r = Lan)) (DriverError "only LAN drivers hold a token");;
  require (negb (bool_decide (drv_status r = DriverRetired)))
    (DriverConflict "a retired driver cannot get a new token");;
  stamp ← now;
  update_driver driver (r <| drv_token := Some (token_hash token) |> <| drv_rotated := Some stamp |>
                          <| drv_revision := drv_revision r + 1 |>);;
  driver_audit driver (AuditRotate false) actor;;
  v ← registry_get driver;
  mret (v.1.1, token).

Definition set_driver_status (driver : string) (status expected_revision reason : json) (actor : string)
    : M db driver_view :=
  status ← get_some (parse_driver_status status) (DriverError "status must be active, suspended or retired");
  _ ← lift (driver_text reason "reason" 2000 false);
  r ← current_driver driver expected_revision;
  require (negb (bool_decide (drv_status r = DriverRetired))) (DriverConflict "a retired driver stays retired");;
  require (negb (bool_decide (driver = PUBLIC_DRIVER_ID) && bool_decide (status = DriverRetired)))
    (DriverConflict "'public' can be suspended, not retired");;
  update_driver driver (r <| drv_status := status |> <| drv_revision := drv_revision r + 1 |>);;
  driver_audit driver (AuditStatus status (drv_status r)) actor;;
  v ← registry_get driver;
  mret v.1.1.

Definition set_driver_admin (driver : string) (is_admin expected_revision reason : json) (actor : string)
    : M db driver_view :=
  is_admin ← get_some (match is_admin with JBool b => Some b | _ => None end)
               (DriverError "is_admin must be a boolean");
  _ ← lift (driver_text reason "reason" 2000 false);
  r ← current_driver driver expected_revision;
  require (bool_decide (drv_kind r = Lan) || negb is_admin) (DriverError "only a LAN driver can be an admin");;
  update_driver driver (r <| drv_admin := is_admin |> <| drv_revision := drv_revision r + 1 |>);;
  driver_audit driver (AuditAdmin is_admin) actor;;
  v ← registry_get driver;
  mret v.1.1.

(** The membership row of a driver in a project, with its [rowid]. *)
Definition of_member (pid driver : string) (m : member_row) : bool :=
  bool_decide (mb_project m = pid) && bool_decide (mb_driver m = driver).
Definition member_at (s : db) (pid driver : string) : option member_row :=
  select_one (of_member pid driver) (members s).
Fixpoint position {A} (p : A → bool) (l : list A) : nat :=
  match l with [] => 1%nat | x :: l => if p x then 1%nat else S (position p l) end.

Definition parse_membership (v : json) : option bool :=
  match v with
  | JStr s => if bool_decide (s = "member") then Some true
              else if bool_decide (s = "removed") then Some false else None
  | _ => None
  end.

(** [project_exists]: the caller's test of the project, if it passes one. *)
Definition set_membership (project_exists : option (string → bool)) (pid : json) (driver : string)
    (status expected_revision reason : json) (actor : string) : M db member_row :=
  status ← get_some (parse_membership status) (DriverError "status must be member or removed");
  pid ← get_some (match pid with
                  | JStr p => if negb (bool_decide (p = "")) && (Z.of_nat (py_len p) <=? 128) then Some p else None
                  | _ => None end) (DriverError "project_id must be text");
  _ ← lift (driver_text reason "reason" 2000 false);
  require (match project_exists with Some f => f pid | None => true end) (DriverError "no State project");;
  known ← gets (λ s, bool_decide (is_Some (drivers s !! driver)));
  require known (DriverError "no driver");;
  row ← gets (λ s, member_at s pid driver);
  let current := match row with Some m => mb_revision m | None => 0 end in
  require (bool_decide (expected_revision = JInt current)) (DriverConflict "membership revision changed; reload");;
  stamp ← now;
  let m := MemberRow pid driver status (current + 1) actor stamp in
  modify (λ s, s <| members ::= (λ l, match row with
    | Some _ => update_where (of_member pid driver) (λ _, m) l
    | None => (l ++ [m])%list end) |>);;
  ref ← gets (λ s, position (of_member pid driver) (members s));
  driver_audit driver (AuditMembership ref status) actor;;
  mret m.
End registry.
