(* ===== verification/Inbox.v ===== *)
(** * Messages between drivers, and with the user

    [core/driver_inbox.py]: a message is one row; every driver it is addressed to
    has a numbered delivery of it, which goes from unread to acknowledged to
    resolved; the user's conversation with a project is read newest first, page by
    page.  Writes are recorded under their request key and replayed from there.
    The text form of a paging cursor is transport: a cursor is the position it
    names.  A time stamp in the text of an advice is its instant. *)
From S2P Require Import Prelude Json Text Dag Store Graph Presence Claims Registry.

Local Open Scope Z_scope.

Definition MESSAGE_KINDS : list string := ["note"; "request"; "review_request"; "handoff_offer"; "handoff_reply"].
Definition SYSTEM_KINDS : list string := ["lease_notice"; "takeover_notice"; "subagent_orphaned"; "handoff_offer"].
Definition DELIVERY_MODES : list string := ["transient"; "standing"].
Definition MAX_RECIPIENTS : nat := 200.
Definition PRESENCE_LIST_CAP : nat := 200.

(** ** Rows *)
(** [str(uuid4())]: the hexadecimal digits in five groups. *)
Definition uuid_text (h : string) : string :=
  String.substring 0 8 h +:+ "-" +:+ String.substring 8 4 h +:+ "-" +:+ String.substring 12 4 h
  +:+ "-" +:+ String.substring 16 4 h +:+ "-" +:+ String.substring 20 12 h.

Definition delivered_to (target : string) (d : delivery_row) : bool := bool_decide (dl_target d = target).
(** [COALESCE(MAX(seq),0)] over the deliveries of a driver. *)
Definition last_delivery (s : db) (target : string) : nat :=
  foldr Nat.max 0%nat (dl_seq <$> select (delivered_to target) (deliveries s)).

Definition delivery_status_text (v : delivery_status) : string :=
  match v with Unread => "unread" | Acknowledged => "acknowledged" | Resolved => "resolved" end.
Definition delivery_json (d : delivery_row) : json :=
  jobj [("delivery_id", JStr (dl_id d)); ("target_driver_id", JStr (dl_target d));
        ("seq", JInt (Z.of_nat (dl_seq d))); ("status", JStr (delivery_status_text (dl_status d)));
        ("version", JInt (dl_version d))].

(** [CONVERSATION] *)
Definition in_conversation (pid : string) (m : message_row) : bool :=
  bool_decide (im_project m = Some pid) && (im_to_user m || im_from_user m).
Definition to_the_user (pid : string) (m : message_row) : bool :=
  bool_decide (im_project m = Some pid) && im_to_user m.

(** Positions of the conversation: a time and a message id, in this order. *)
Definition place : Type := Z * string.
Definition place_of (m : message_row) : place := (im_created m, im_id m).
Definition place_le (p q : place) : Prop := p.1 < q.1 ∨ p.1 = q.1 ∧ String.le p.2 q.2.
#[export] Instance place_le_dec : RelDecision place_le.
Proof. intros p q. unfold place_le. apply _. Defined.
Definition place_lt (p q : place) : bool := bool_decide (place_le p q) && negb (bool_decide (p = q)).
Definition newest_first (m n : message_row) : Prop := place_le (place_of n) (place_of m).
#[export] Instance newest_first_dec : RelDecision newest_first.
Proof. intros m n. unfold newest_first. apply _. Defined.

(** [_unread]: what the project's user was sent and has not been shown. *)
Definition read_place (r : read_row) : place := (cr_created r, cr_message r).
Definition unread_message (s : db) (pid : string) (m : message_row) : bool :=
  to_the_user pid m &&
  match read_marks s !! pid with
  | None => true
  | Some r => place_lt (read_place r) (place_of m)
  end.
Definition unread_count (s : db) (pid : string) : nat := length (select (unread_message s pid) (messages s)).

(** [_segments]: the tagged blocks of a message to the user. *)
Definition segment_of (value : json) : option (json * nat) :=
  match value with
  | JObj m =>
    match one_of ["info"; "question"] (field m "kind"), field m "text" with
    | Some kind, JStr t =>
      if (1 <=? py_len t)%nat && (Z.of_nat (py_len t) <=? 2000)
      then Some (jobj [("kind", JStr kind); ("text", JStr t)], py_len t) else None
    | _, _ => None
    end
  | _ => None
  end.
Definition segments_of (value : json) : res (list json) :=
  match value with
  | JNull => Ok []
  | JArr l =>
    match (if (length l <=? 20)%nat then mapM segment_of l else None) with
    | Some xs =>
      ensure (Z.of_nat (foldr Nat.add 0%nat xs.*2) <=? 8000) (StateGraphError "invalid_segments");;
      Ok xs.*1
    | None => Err (StateGraphError "invalid_segments")
    end
  | _ => Err (StateGraphError "invalid_segments")
  end.

(** A text argument of bounded length. *)
Definition sized (least most : Z) (value : json) : option string :=
  match value with
  | JStr t => if (least <=? Z.of_nat (py_len t)) && (Z.of_nat (py_len t) <=? most) then Some t else None
  | _ => None
  end.

Section inserts.
Context `{Host}.

Definition insert_message (m : message_row) : M db unit :=
  clash ← gets (λ s, existsb (λ n, bool_decide (im_id n = im_id m)) (messages s));
  require (negb clash) (IntegrityError "UNIQUE constraint failed: driver_inbox_messages");;
  modify (λ s, s <| messages ::= (λ l, (l ++ [m])%list) |>).

Definition delivery_clash (d e : delivery_row) : bool :=
  bool_decide (dl_id e = dl_id d)
  || bool_decide (dl_message e = dl_message d) && bool_decide (dl_target e = dl_target d)
  || bool_decide (dl_target e = dl_target d) && bool_decide (dl_seq e = dl_seq d).
Definition insert_delivery (d : delivery_row) : M db unit :=
  clash ← gets (λ s, existsb (delivery_clash d) (deliveries s));
  require (negb clash) (IntegrityError "UNIQUE constraint failed: driver_inbox_deliveries");;
  modify (λ s, s <| deliveries ::= (λ l, (l ++ [d])%list) |>).

(** One delivery of the message to [target], with its next number. *)
Definition deliver (mid target : string) : M db (list delivery_row) :=
  seq ← gets (λ s, S (last_delivery s target));
  did ← uuid4;
  let d := DeliveryRow (uuid_text did) mid target seq Unread 1 in
  insert_delivery d;;
  mret [d].

(** *** Notices *)
Inductive delivery : Type :=
  | Skipped
  | Delivered (message delivery_id target : string) (seq : nat).

(** [deliver_notice]: one message with one delivery; its prose is left out. *)
Definition deliver_notice (target : string) (sender pid : option string) (kind : string) (refs : json)
    : M db delivery :=
  known ← gets (λ s, bool_decide (is_Some (drivers s !! target)));
  if (known : bool) then
    mid ← uuid4; did ← uuid4;
    stamp ← now;
    let mid := uuid_text mid in let did := uuid_text did in
    insert_message (MessageRow mid mid sender pid kind "transient" None refs None stamp false false JNull);;
    seq ← gets (λ s, S (last_delivery s target));
    insert_delivery (DeliveryRow did mid target seq Unread 1);;
    mret (Delivered mid did target seq)
  else mret Skipped.
End inserts.

(** ** The inbox of a caller *)
Section inbox.
Context `{Host}.
Context (actor : string) (driver : option string) (trusted : bool).

Definition is_owner : bool := starts_with "owner:" actor.
Definition active_row (s : db) (d : string) : option driver_row :=
  r ← drivers s !! d; if bool_decide (drv_status r = DriverActive) then Some r else None.
Definition caller_row (s : db) : option driver_row := driver ≫= active_row s.

(** [_authorize]: the driver itself; an owner, who writes only with a reason; an admin, to write with one. *)
Definition authorize (s : db) (whose : option string) (write : bool) (reason : option string) : res unit :=
  ensure (trusted &&
          (bool_decide (driver = whose) && bool_decide (is_Some (truthy driver)) && bool_decide (is_Some (caller_row s))
           || is_owner && (negb write || bool_decide (is_Some (truthy reason)))
           || write && bool_decide (is_Some (truthy reason))
              && match caller_row s with Some r => drv_admin r | None => false end))
    (StateGraphError "not_inbox_recipient").

(** [_driver] *)
Definition known_driver (d : string) : M db unit :=
  known ← gets (λ s, bool_decide (is_Some (drivers s !! d)));
  require known (StateGraphError "unknown_driver: no driver with this driver_id is registered").
(** The sender is an active driver. *)
Definition active_sender (d : string) : M db unit :=
  known_driver d;;
  ok ← gets (λ s, bool_decide (is_Some (active_row s d)));
  require ok (StateGraphError "inactive_driver").

(** [_refs] *)
Definition record_exists (s : db) (name id : string) : option bool :=
  if bool_decide (name = "attempt_id") then Some (existsb (λ a, bool_decide (a_id a = id)) (attempts s))
  else if bool_decide (name = "issue_id") then Some (existsb (λ i, bool_decide (is_id i = id)) (issues s))
  else if bool_decide (name = "claim_id") then Some (existsb (λ c, bool_decide (cl_id c = id)) (claims s))
  else if bool_decide (name = "subagent_id") then Some (existsb (λ r, bool_decide (sa_id r = id)) (subagents s))
  else None.
Definition check_ref (pid : option string) (p : string * json) : M db unit :=
  if bool_decide (p.1 = "node_key") then
    match truthy pid with
    | Some pid =>
      match p.2 with
      | JStr nk => _ ← node pid nk; mret tt
      | v => _ ← lift (key v "key"); mret tt
      end
    | None => raise (StateGraphError "invalid_refs: refs.node_key needs project_id; set project_id or drop node_key")
    end
  else
    match p.2 with
    | JStr id =>
      found ← gets (λ s, record_exists s p.1 id);
      match found with
      | Some found =>
        require (negb (bool_decide (id = "")) && found) (StateGraphError "invalid_refs: a ref names no existing record")
      | None => raise (StateGraphError "invalid_refs: refs key is not allowed")
      end
    | _ => raise (StateGraphError "invalid_refs: a ref must be a non-empty string id under an allowed key")
    end.
Definition check_refs (pid : option string) (refs : gmap string json) : M db unit :=
  for_each (check_ref pid) (sort_items (map_to_list refs)).
Definition refs_of (refs : json) : option (gmap string json) :=
  match refs with JNull => Some ∅ | JObj m => Some m | _ => None end.

(** *** Requests *)
(** [_replay] *)
Definition replay_request (operation request_key : string) (payload : json) : M db (option json) :=
  row ← gets (λ s, inbox_requests s !! (actor, operation, request_key));
  match row with
  | None => mret None
  | Some r =>
    require (bool_decide (rq_payload r = payload))
      (StateGraphError "idempotency_conflict: request_key was already used with a different payload");;
    mret (Some (rq_result r))
  end.
(** [_record] *)
Definition record_request (operation request_key : string) (payload result : json) : M db json :=
  known ← gets (λ s, bool_decide (is_Some (inbox_requests s !! (actor, operation, request_key))));
  require (negb known) (IntegrityError "UNIQUE constraint failed: driver_inbox_requests");;
  modify (λ s, s <| inbox_requests ::= <[(actor, operation, request_key) := RequestRow payload result]> |>);;
  mret result.
(** A request: its recorded answer, or the work, the record, and what the first caller is told
    beyond the record. *)
Definition answered (operation request_key : string) (payload : json) (work : M db json) (tell : json → M db json)
    : M db json :=
  old ← replay_request operation request_key payload;
  match old with
  | Some result => mret result
  | None => result ← work; result ← record_request operation request_key payload result; tell result
  end.
Definition once (operation request_key : string) (payload : json) (work : M db json) : M db json :=
  answered operation request_key payload work mret.

(** *** The recipients' presence *)
(** [recipient_presence_block] of [core/drivers.py]. *)
Record presence_item : Type := PresenceItem {
  pi_driver : string; pi_status : presence_status; pi_seen : option Z; pi_age : option Z }.
Definition presence_item_json (i : presence_item) : json :=
  jobj [("driver_id", JStr (pi_driver i)); ("status", JStr (presence_text (pi_status i)));
        ("last_seen_at", jopt JInt (pi_seen i)); ("seconds_since_seen", jopt JInt (pi_age i))].
(** [presence_advice] *)
Definition presence_advice (i : presence_item) : option string :=
  if bool_decide (pi_status i = Online) then None
  else
    let when := match pi_seen i, pi_age i with
                | None, _ => "never seen"
                | Some _, None => "last seen time unknown"
                | Some seen, Some age => "last seen " +:+ pretty seen +:+ ", " +:+ pretty (age / 60) +:+ " min ago"
                end in
    Some ("recipient " +:+ pi_driver i +:+ " is " +:+ presence_text (pi_status i) +:+ " (" +:+ when
          +:+ "); the message is queued in its inbox; do not block waiting for a reply").
(** Those who are not online first. *)
Definition is_online (i : presence_item) : bool := bool_decide (pi_status i = Online).
Definition presence_le (i j : presence_item) : Prop :=
  is_online i = false ∧ is_online j = true ∨ is_online i = is_online j ∧ String.le (pi_driver i) (pi_driver j).
#[export] Instance presence_le_dec : RelDecision presence_le.
Proof. intros i j. unfold presence_le. apply _. Defined.
Definition presence_row (env : environment) (fan_out : bool) (d : string) : M db (list presence_item) :=
  row ← gets (λ s, drivers s !! d);
  match row with
  | Some r =>
    if negb fan_out || bool_decide (drv_status r = DriverActive) then
      current ← now;
      let '(status, age) := presence_now env (drv_seen r) current in
      mret [PresenceItem d status (drv_seen r) age]
    else mret []
  | None => mret []
  end.
Definition presence_hint (fan_out : bool) (items : list presence_item) : gmap string json :=
  match items with
  | [] => ∅
  | first :: _ =>
    let advice := omap presence_advice items in
    let shown := if fan_out
      then let items := merge_sort presence_le items in
           ("recipient_presence", JArr (presence_item_json <$> take PRESENCE_LIST_CAP items))
           :: if (PRESENCE_LIST_CAP <? length items)%nat
              then [("recipient_presence_total", JInt (Z.of_nat (length items)))] else []
      else [("recipient_presence", presence_item_json first)] in
    let said := match advice with
                | [] => []
                | _ => [("advice", JStr (String.concat " " (take 5 advice)
                    +:+ if (5 <? length advice)%nat
                        then " (+" +:+ pretty (Z.of_nat (length advice - 5)) +:+ " more recipients not online)" else ""))]
                end in
    list_to_map (shown ++ said)%list
  end.
Definition recipient_presence_block (env : environment) (fan_out : bool) (ids : list string) : M db (gmap string json) :=
  items ← collect (presence_row env fan_out)
            (sorted_set (list_to_set (select (λ d, negb (bool_decide (d = ""))) ids)));
  mret (presence_hint fan_out items).
(** [_presence]: the block over the result, after the record was written. *)
Definition delivery_targets (result : gmap string json) : list string :=
  match result !! "deliveries" with
  | Some (JArr l) => omap (λ d, jget "target_driver_id" d ≫= jstr_of) l
  | _ => []
  end.
Definition tell_presence (env : environment) (system fan_out : bool) (result : json) : M db json :=
  if system then mret result
  else match result with
       | JObj m => block ← recipient_presence_block env fan_out (delivery_targets m); mret (JObj (block ∪ m))
       | _ => raise (TypeError "result is not a mapping")
       end.

(** *** A message to drivers *)
Definition members_of (s : db) (pid : string) (but : string) : list string :=
  merge_sort String.le (mb_driver <$> select (λ m, bool_decide (mb_project m = pid) && mb_member m &&
    bool_decide (is_Some (drivers s !! mb_driver m)) && negb (bool_decide (mb_driver m = but))) (members s)).

Definition check_recipients (targets : list string) : M db unit :=
  require (negb (bool_decide (targets = [])) && (length targets <=? MAX_RECIPIENTS)%nat)
    (StateGraphError "no_recipients");;
  for_each known_driver targets.

(** The message a reply answers: one delivered to the sender. *)
Definition delivered_message (s : db) (mid : string) : option message_row :=
  d ← driver;
  if existsb (λ v, bool_decide (dl_message v = mid) && delivered_to d v) (deliveries s)
  then select_one (λ m, bool_decide (im_id m = mid)) (messages s) else None.

Definition send_payload (subject body : string) (target members pid : option string) (kind mode : string)
    (refs : gmap string json) (reply sender : option string) : json :=
  JArr [JStr subject; JStr body; jopt JStr target; jopt JStr members; jopt JStr pid; JStr kind; JStr mode;
        JObj refs; jopt JStr reply; jopt JStr sender].

Definition send_work (subject body : string) (target members pid : option string) (kind mode : string)
    (refs : gmap string json) (reply sender : option string) : M db json :=
  match truthy sender with Some d => active_sender d | None => mret tt end;;
  targets ← match truthy members with
            | Some p => _ ← project p; gets (λ s, members_of s p (default "" driver))
            | None => mret (option_list target)
            end;
  check_recipients targets;;
  match truthy pid with Some p => _ ← project p; mret tt | None => mret tt end;;
  check_refs pid refs;;
  thread ← match truthy reply with
           | Some r =>
             prior ← gets (λ s, delivered_message s r);
             m ← get_some prior
               (StateGraphError "unknown_message: reply_to_message_id must name a message delivered to this driver");
             mret (Some (im_thread m))
           | None => mret None
           end;
  u ← uuid4;
  let mid := uuid_text u in
  stamp ← now;
  insert_message (MessageRow mid (default mid thread) sender pid kind mode (Some (subject, body)) (JObj refs) reply
                    stamp false false JNull);;
  ds ← collect (deliver mid) targets;
  mret (jobj [("message_id", JStr mid); ("deliveries", JArr (delivery_json <$> ds))]).

Definition send_driver_message (env : environment) (system : bool) (request_key subject body : json) (target members pid : option string)
    (kind mode : string) (refs : json) (reply : option string) : M db json :=
  request_key ← get_some (sized 1 320 request_key)
    (StateGraphError "invalid_request: request_key must be a non-empty string of at most 320 characters");
  subject ← get_some (sized 1 200 subject)
    (StateGraphError "invalid_request: subject must be a non-empty string of at most 200 characters");
  body ← get_some (sized 0 8000 body)
    (StateGraphError "invalid_request: body must be a string of at most 8000 characters");
  require (negb (bool_decide (is_Some (truthy target)) && bool_decide (is_Some (truthy members))))
    (StateGraphError "invalid_request: target_driver_id and project_members are mutually exclusive; set exactly one");;
  require (bool_decide (is_Some (truthy target)) || bool_decide (is_Some (truthy members)))
    (StateGraphError "invalid_request: one of target_driver_id or project_members is required; set exactly one");;
  require (bool_decide (mode ∈ DELIVERY_MODES))
    (StateGraphError "invalid_request: delivery_mode must be 'transient' or 'standing'");;
  require (bool_decide (kind ∈ if system then SYSTEM_KINDS else MESSAGE_KINDS))
    (StateGraphError "invalid_request: kind must be a known one");;
  require (system || bool_decide (is_Some (truthy driver)) || trusted && is_owner)
    (StateGraphError "invalid_request: sending requires a driver identity or an owner actor");;
  refs ← get_some (refs_of refs) (StateGraphError "invalid_refs: refs must be an object mapping allowed keys to ids");
  let sender := if system then None else driver in
  answered "send" request_key (send_payload subject body target members pid kind mode refs reply sender)
    (send_work subject body target members pid kind mode refs reply sender)
    (tell_presence env system (bool_decide (is_Some (truthy members)))).

(** *** The conversation with the user *)
(** [_conversation_message] *)
Definition conversation_message (pid mid : string) : M db (option message_row) :=
  require ((1 <=? py_len mid)%nat && (Z.of_nat (py_len mid) <=? 200)) (StateGraphError "invalid_request");;
  gets (λ s, select_one (λ m, bool_decide (im_id m = mid) && in_conversation pid m) (messages s)).

(** The message a reply answers, if it answers one. *)
Definition reply_parent (pid : string) (reply : option string) (ok : message_row → bool) : M db (option message_row) :=
  match reply with
  | None => mret None
  | Some r =>
    row ← conversation_message pid r;
    m ← get_some row (StateGraphError "unknown_message");
    require (ok m) (StateGraphError "invalid_reply_target");;
    mret (Some m)
  end.

Definition send_user_message (request_key subject body : json) (pid : string) (refs : json) (reply : option string)
    (segments : json) : M db json :=
  request_key ← get_some (sized 1 320 request_key) (StateGraphError "invalid_request");
  subject ← get_some (sized 1 200 subject) (StateGraphError "invalid_request");
  body ← get_some (sized 0 8000 body) (StateGraphError "invalid_request");
  d ← get_some (truthy driver) (StateGraphError "driver_identity_required");
  refs ← get_some (refs_of refs) (StateGraphError "invalid_refs");
  segments ← lift (segments_of segments);
  let tagged := match segments with [] => [] | _ => [JArr segments] end in
  let payload := JArr ([JStr subject; JStr body; JStr pid; JObj refs; JStr d]
                       ++ match reply with Some r => [JStr r] | None => [] end ++ tagged)%list in
  once "send_user" request_key payload
    (active_sender d;;
     _ ← project pid;
     check_refs (Some pid) refs;;
     parent ← reply_parent pid reply (λ m, negb (im_to_user m) && im_from_user m);
     u ← uuid4;
     let mid := uuid_text u in
     stamp ← now;
     insert_message (MessageRow mid (default mid (im_thread <$> parent)) (Some d) (Some pid) "note" "transient"
       (Some (subject, body)) (JObj refs) reply stamp true false (default JNull (head tagged)));;
     mret (jobj [("message_id", JStr mid); ("project_id", JStr pid); ("sender_driver_id", JStr d);
                 ("created_at", JInt stamp)])).

(** Who a message of the user is for: the driver named, the one answered, or every member. *)
Definition user_targets (s : db) (pid : string) (target : option string) (parent : option message_row) : list string :=
  match target, parent with
  | Some t, _ => [t]
  | None, Some m => option_list (im_sender m)
  | None, None =>
    merge_sort String.le (mb_driver <$> select (λ m, bool_decide (mb_project m = pid) && mb_member m &&
      bool_decide (is_Some (drivers s !! mb_driver m))) (members s))
  end.
Definition is_the_user : bool := bool_decide (truthy driver = None) && trusted && is_owner.

Definition send_user_conversation_message (request_key : json) (pid : string) (body subject : json)
    (reply target : option string) : M db json :=
  request_key ← get_some (sized 1 320 request_key) (StateGraphError "invalid_request");
  subject ← get_some (sized 1 200 (match subject with JNull => JStr "Message from the user" | _ => subject end))
              (StateGraphError "invalid_request");
  body ← get_some (sized 0 8000 body) (StateGraphError "invalid_request");
  require is_the_user (StateGraphError "user_identity_required");;
  once "send_user_conversation" request_key
    (JArr [JStr subject; JStr body; JStr pid; jopt JStr reply; jopt JStr target])
    (_ ← project pid;
     parent ← reply_parent pid reply (λ m, im_to_user m && bool_decide (is_Some (truthy (im_sender m))));
     targets ← gets (λ s, user_targets s pid target parent);
     check_recipients targets;;
     u ← uuid4;
     let mid := uuid_text u in
     stamp ← now;
     insert_message (MessageRow mid (default mid (im_thread <$> parent)) None (Some pid) "note" "transient"
       (Some (subject, body)) (JObj ∅) reply stamp false true JNull);;
     ds ← collect (deliver mid) targets;
     mret (jobj [("message_id", JStr mid); ("project_id", JStr pid); ("sender_kind", JStr "user");
                 ("created_at", JInt stamp); ("reply_to_message_id", jopt JStr reply);
                 ("deliveries", JArr (delivery_json <$> ds))])).

Record conversation_page : Type := ConversationPage {
  cp_messages : list message_row; cp_more : bool; cp_next : option place; cp_total : nat;
  cp_unread : nat; cp_marker : option read_row }.
(** The page of at most [limit] messages after a cursor, newest first. *)
Definition older_than (cursor : option place) (m : message_row) : bool :=
  match cursor with Some c => place_lt (place_of m) c | None => true end.
Definition conversation_rows (s : db) (pid : string) (cursor : option place) : list message_row :=
  merge_sort newest_first (select (λ m, in_conversation pid m && older_than cursor m) (messages s)).
Definition list_user_conversation (pid : string) (limit : nat) (cursor : option place) : M db conversation_page :=
  require ((1 <=? limit)%nat && (limit <=? 200)%nat) (StateGraphError "invalid_request");;
  _ ← project pid;
  s ← gets id;
  let rows := take (S limit) (conversation_rows s pid cursor) in
  let page := take limit rows in
  let more := (limit <? length rows)%nat in
  mret (ConversationPage page more (if more then place_of <$> last page else None)
          (length (select (in_conversation pid) (messages s))) (unread_count s pid) (read_marks s !! pid)).

Definition mark_user_conversation_read (pid mid : string) : M db (bool * read_row * nat) :=
  require (negb (bool_decide (mid = ""))) (StateGraphError "invalid_request");;
  require is_the_user (StateGraphError "user_identity_required");;
  _ ← project pid;
  row ← gets (λ s, select_one (λ m, bool_decide (im_id m = mid) && in_conversation pid m) (messages s));
  m ← get_some row (StateGraphError "unknown_message");
  marker ← gets (λ s, read_marks s !! pid);
  let advanced := match marker with None => true | Some r => place_lt (read_place r) (place_of m) end in
  when advanced
    (stamp ← now; modify (λ s, s <| read_marks ::= <[pid := ReadRow (im_created m) mid stamp]> |>));;
  marker ← gets (λ s, read_marks s !! pid);
  r ← get_some marker (TypeError "'NoneType' object is not subscriptable");
  n ← gets (λ s, unread_count s pid);
  mret (advanced, r, n).

(** Unread messages per project: of one, of the caller's, or of all. *)
Definition counted_projects (s : db) : gset string :=
  let all : gset string := list_to_set (omap im_project (select im_to_user (messages s))) in
  match truthy driver with
  | Some d => filter (λ p, existsb (λ m, bool_decide (mb_project m = p) && bool_decide (mb_driver m = d) && mb_member m)
                             (members s) = true) all
  | None => all
  end.
Definition user_conversation_unread (pid : option string) : M db (gmap string nat * nat) :=
  projects ← match pid with
             | Some p => _ ← project p; mret {[p]}
             | None => gets counted_projects
             end;
  counts ← gets (λ s, set_to_map (λ p, (p, unread_count s p)) (projects : gset string) : gmap string nat);
  mret (counts, foldr Nat.add 0%nat (map_to_list counts).*2).

Definition list_user_messages (pid : string) (limit : nat) : M db (list message_row * nat * bool) :=
  require ((1 <=? limit)%nat && (limit <=? 200)%nat) (StateGraphError "invalid_request");;
  _ ← project pid;
  rows ← gets (λ s, merge_sort newest_first (select (to_the_user pid) (messages s)));
  mret (take limit rows, length rows, (limit <? length rows)%nat).

(** *** Reading an inbox *)
Definition delivery_le (d e : delivery_row) : Prop := (dl_seq d ≤ dl_seq e)%nat.
#[export] Instance delivery_le_dec : RelDecision delivery_le.
Proof. intros d e. unfold delivery_le. apply _. Defined.
Record inbox_page : Type := InboxPage {
  ib_rows : list (delivery_row * message_row); ib_next : nat; ib_truncated : bool }.
Definition with_message (s : db) (d : delivery_row) : option (delivery_row * message_row) :=
  m ← select_one (λ m, bool_decide (im_id m = dl_message d)) (messages s); Some (d, m).
Definition inbox_rows (s : db) (d : string) (after : nat) : list (delivery_row * message_row) :=
  omap (with_message s)
    (merge_sort delivery_le (select (λ v, delivered_to d v && (after <? dl_seq v)%nat) (deliveries s))).

(** [due]: the throttle's answer to [touch_driver]. *)
Definition list_driver_messages (due : bool) (whose : option string) (after limit : nat) : M db inbox_page :=
  let whose := match truthy whose with Some d => Some d | None => driver end in
  s ← gets id;
  lift (authorize s whose false None);;
  require ((1 <=? limit)%nat && (limit <=? 100)%nat) (StateGraphError "invalid_request");;
  match truthy driver with Some d => touch due d | None => mret tt end;;
  d ← get_some whose (StateGraphError "unknown_driver: no driver with this driver_id is registered");
  known_driver d;;
  s ← gets id;
  let rows := take (S limit) (inbox_rows s d after) in
  let page := take limit rows in
  let more := (limit <? length rows)%nat in
  let next := match last page with
              | Some p => if more then dl_seq p.1 else Nat.max after (last_delivery s d)
              | None => Nat.max after (last_delivery s d)
              end in
  mret (InboxPage page next more).

(** [transition], for [acknowledge_driver_message] and [resolve_driver_message]. *)
Definition status_before (v : delivery_status) : delivery_status :=
  match v with Acknowledged => Unread | _ => Acknowledged end.
Definition transition (did : string) (expected_version request_key : json) (status : delivery_status)
    (reason : option string) : M db json :=
  require (negb (bool_decide (status = Unread))) (StateGraphError "invalid_request");;
  version ← get_some (match expected_version with JInt v => if 1 <=? v then Some v else None | _ => None end)
              (StateGraphError "invalid_request");
  request_key ← get_some (sized 1 320 request_key) (StateGraphError "invalid_request");
  row ← gets (λ s, select_one (λ d, bool_decide (dl_id d = did)) (deliveries s));
  d ← get_some row (StateGraphError "unknown_delivery");
  s ← gets id;
  lift (authorize s (Some (dl_target d)) true reason);;
  once (delivery_status_text status) request_key
    (JArr [JStr did; JInt version; JStr (delivery_status_text status); jopt JStr reason])
    (require (bool_decide (dl_version d = version)) (StateGraphError "version_conflict");;
     require (bool_decide (dl_status d = status_before status)) (StateGraphError "invalid_transition");;
     let move := λ d : delivery_row, d <| dl_status := status |> <| dl_version := dl_version d + 1 |> in
     modify (λ s, s <| deliveries ::= update_where (λ d, bool_decide (dl_id d = did) && bool_decide (dl_version d = version))
                                        move |>);;
     mret (jobj [("delivery_id", JStr (dl_id d)); ("message_id", JStr (dl_message d));
                 ("target_driver_id", JStr (dl_target d)); ("seq", JInt (Z.of_nat (dl_seq d)));
                 ("status", JStr (delivery_status_text status)); ("version", JInt (version + 1))])).
Definition acknowledge_driver_message did e k r := transition did e k Acknowledged r.
Definition resolve_driver_message did e k r := transition did e k Resolved r.

(** [active_standing]: the first standing messages that are not resolved, and how many there are. *)
Definition active_standing : M db (list (delivery_row * message_row) * nat) :=
  s ← gets id;
  lift (authorize s driver false None);;
  match truthy driver with
  | None => mret ([], 0%nat)
  | Some d =>
    let rows := select (λ p, bool_decide (im_mode p.2 = "standing") && negb (bool_decide (dl_status p.1 = Resolved)))
                  (inbox_rows s d 0) in
    mret (take 8 rows, length rows)
  end.
End inbox.
