(* ===== verification/Issues.v ===== *)
(** * The issue backlog

    [core/state_issues.py]: observations reported beside the graph.  An issue is
    open until one resolution names the record that absorbed it; nodes are linked
    to it and never changed by it. *)
From S2P Require Import Prelude Json Text Dag Store Graph.

Local Open Scope Z_scope.

Definition ISSUE_KINDS : list string := ["defect"; "gap"; "handoff"; "question"].
Definition RESOLUTIONS : list string :=
  ["absorbed"; "promoted"; "duplicate"; "fixed"; "observed"; "rejected"].
Definition MAX_LINKS : nat := 20.

(** ** Views *)
Definition issue_links (s : db) (id : string) : gset string := default ∅ (issue_nodes s !! id).
Definition status_at (s : db) (pid nk : string) : option node_status := n_status <$> nodes s !! (pid, nk).

Record issue_view : Type := IssueView {
  iv_row : issue_row; iv_nodes : list (string * option node_status); iv_contradicts : list string }.
(** An open defect on an accepted node contradicts the acceptance. *)
Definition contradicted (s : db) (i : issue_row) (nk : string) : bool :=
  bool_decide (is_status i = "open") && bool_decide (is_kind i = "defect") &&
  (bool_decide (status_at s (is_project i) nk = Some VERIFIED) ||
   bool_decide (status_at s (is_project i) nk = Some CANDIDATE)).
Definition issue_view_of (s : db) (i : issue_row) : issue_view :=
  let links := sorted_set (issue_links s (is_id i)) in
  IssueView i ((λ k, (k, status_at s (is_project i) k)) <$> links) (select (contradicted s i) links).

Section issues.
Context `{Host}.
Context (actor : string).

(** ** Lookups *)
(** [_node_keys] *)
Definition issue_node_keys (pid : string) (node_keys : json) : M db (list string) :=
  ks ← get_some (match node_keys with
                 | JArr l => if (length l <=? MAX_LINKS)%nat then Some l else None | _ => None end)
         (StateGraphError "node_keys must be a bounded list of node keys");
  ks ← lift (mapM (λ k, key k "node_key") ks);
  let keys := sorted_set (list_to_set ks) in
  known ← gets (λ s, forallb (λ k, bool_decide (is_Some (nodes s !! (pid, k)))) keys);
  require known (StateNotFound "state node not found");;
  mret keys.

(** [_issue] *)
Definition issue_at (pid id : string) : M db issue_row :=
  id ← lift (key id "issue_id");
  row ← gets (λ s, select_one (λ i, bool_decide (is_project i = pid) && bool_decide (is_id i = id)) (issues s));
  get_some row (StateNotFound "issue not found").

(** [_open_for_write] *)
Definition open_issue (pid id : string) (expected_version : json) : M db issue_row :=
  _ ← project pid;
  i ← issue_at pid id;
  require (py_eq_int expected_version (is_version i)) (StateConflict "issue version conflict; read the issue and retry");;
  require (bool_decide (is_status i = "open"))
    (StateConflict "issue is already resolved; report a new issue instead of reopening");;
  mret i.

Definition add_links (id : string) (ks : list string) : M db unit :=
  modify (λ s, s <| issue_nodes ::= <[id := issue_links s id ∪ list_to_set ks]> |>).
Definition update_issue (id : string) (f : issue_row → issue_row) : M db unit :=
  modify (λ s, s <| issues ::= update_where (λ i, bool_decide (is_id i = id)) f |>).

(** ** Reporting *)
Definition issue_request (kind title body : string) (links : list string) (source : option string) : json :=
  jobj [("kind", JStr kind); ("title", JStr title); ("body", JStr body); ("node_keys", jstrs links);
        ("source", jopt JStr source)].

Definition insert_issue (i : issue_row) : M db unit :=
  clash ← gets (λ s, existsb (λ j, bool_decide (is_id j = is_id i) ||
                       bool_decide (is_project j = is_project i) && bool_decide (is_request_key j = is_request_key i))
                       (issues s));
  require (negb clash) (IntegrityError "UNIQUE constraint failed: state_issues");;
  modify (λ s, s <| issues ::= (λ l, (l ++ [i])%list) |>).

Definition report_issue (pid : string) (request_key kind title body director node_keys source : json)
    : M db (issue_view * bool) :=
  pid ← lift (key pid "project_id");
  request_key ← lift (text request_key "request_key" 200);
  kind ← get_some (one_of ISSUE_KINDS kind) (StateGraphError "kind must be one of defect, gap, handoff, question");
  title ← lift (text title "title" 300);
  body ← lift (text body "body" 20000);
  director ← lift (text director "director_identity" 320);
  source ← (match source with
            | JNull => mret None
            | _ => t ← lift (text source "source" 400); mret (Some t) end);
  _ ← project pid;
  links ← issue_node_keys pid (if py_true node_keys then node_keys else JArr []);
  let hash := digest (issue_request kind title body links source) in
  old ← gets (λ s, select_one (λ i, bool_decide (is_project i = pid) &&
                                    bool_decide (is_request_key i = request_key)) (issues s));
  match old with
  | Some i =>
    require (bool_decide (is_request_hash i = hash))
      (StateConflict "request_key was already used for a different issue report");;
    v ← gets (λ s, issue_view_of s i);
    mret (v, false)
  | None =>
    u ← uuid4;
    let id := "iss-" +:+ String.substring 0 16 u in
    stamp ← now;
    insert_issue (IssueRow id pid request_key hash kind title body source "open" 1 None actor director stamp stamp);;
    add_links id links;;
    event pid None "issue_reported"
      (jobj [("issue_id", JStr id); ("kind", JStr kind); ("title", JStr title); ("node_keys", jstrs links)]);;
    i ← issue_at pid id;
    v ← gets (λ s, issue_view_of s i);
    mret (v, true)
  end.

(** ** Linking *)
Record link_result : Type := LinkResult {
  lk_view : issue_view; lk_effective : list string; lk_added : list string; lk_removed : list string;
  lk_replace : bool }.

Definition link_issue (pid id : string) (expected_version node_keys reason replace_existing : json)
    : M db link_result :=
  pid ← lift (key pid "project_id");
  reason ← lift (text reason "reason" 4000);
  replace ← get_some (match replace_existing with JBool b => Some b | _ => None end)
              (StateGraphError "replace_existing must be a boolean (true replaces the whole link set)");
  i ← open_issue pid id expected_version;
  requested ← issue_node_keys pid node_keys;
  current ← gets (λ s, issue_links s (is_id i));
  let wanted : gset string := list_to_set requested in
  let links := if (replace : bool) then wanted else current ∪ wanted in
  require (size links <=? MAX_LINKS)%nat (StateGraphError "an issue can link a bounded number of nodes");;
  let removed := sorted_set (current ∖ links) in
  let added := sorted_set (links ∖ current) in
  modify (λ s, s <| issue_nodes ::= <[is_id i := links]> |>);;
  stamp ← now;
  update_issue (is_id i) (λ r, r <| is_version := is_version r + 1 |> <| is_updated := stamp |>);;
  event pid None "issue_linked"
    (jobj [("issue_id", JStr (is_id i)); ("node_keys", jstrs (sorted_set links));
           ("requested_node_keys", jstrs requested); ("added_node_keys", jstrs added);
           ("removed_node_keys", jstrs removed); ("replace_existing", JBool replace); ("reason", JStr reason)]);;
  j ← issue_at pid id;
  v ← gets (λ s, issue_view_of s j);
  mret (LinkResult v (sorted_set links) added removed replace).

(** ** Resolving *)
Record resolve_args : Type := ResolveArgs {
  ro_node : option string; ro_revision : option Z; ro_duplicate : option string;
  ro_receipt : option string; ro_artifact : option string }.

(** Which of the optional fields were given, and which ones a resolution takes. *)
Definition given {A} (name : string) (o : option A) : list string :=
  match o with Some _ => [name] | None => [] end.
Definition given_fields (r : resolve_args) : list string :=
  (given "node_key" (ro_node r) ++ given "node_revision" (ro_revision r) ++
   given "duplicate_of" (ro_duplicate r) ++ given "receipt_id" (ro_receipt r) ++
   given "artifact" (ro_artifact r))%list.
Definition resolution_shapes (resolution : string) : list (list string) :=
  if bool_decide (resolution = "absorbed") then [["node_key"; "node_revision"]]
  else if bool_decide (resolution = "promoted") then [["node_key"]]
  else if bool_decide (resolution = "fixed") then [["receipt_id"; "artifact"]]
  else if bool_decide (resolution = "observed") then [["artifact"]]
  else if bool_decide (resolution = "rejected") then [[]]
  else [["duplicate_of"]; ["node_key"]].
Definition check_resolution (resolution : string) (r : resolve_args) : res unit :=
  ensure (bool_decide (ro_receipt r = None) || bool_decide (resolution = "fixed"))
    (StateGraphError "receipt_id is only accepted for the fixed resolution");;
  ensure (bool_decide (ro_artifact r = None) || bool_decide (resolution = "fixed") || bool_decide (resolution = "observed"))
    (StateGraphError "artifact is only accepted for the fixed and observed resolutions");;
  ensure (bool_decide (given_fields r ∈ resolution_shapes resolution))
    (StateGraphError "the resolution takes exactly its own fields").

(** The revision a resolution names: there, and not older than the issue. *)
Definition revision_since (s : db) (pid nk : string) (wanted created : Z) : res unit :=
  match select_one (λ r, bool_decide (r_project r = pid) && bool_decide (r_node r = nk) &&
                         bool_decide (r_revision r = wanted)) (revisions s) with
  | None => Err (StateNotFound "node has no such revision")
  | Some r => ensure (negb (r_created r <? created))
                (StateConflict "that revision predates the issue, so it cannot be the change made for it")
  end.

(** The node part of the record, linked to the issue. *)
Definition resolve_node (pid resolution : string) (i : issue_row) (r : resolve_args) : M db (list (string * json)) :=
  match ro_node r with
  | None => mret []
  | Some nk =>
    _ ← node pid nk;
    let wanted := if bool_decide (resolution = "absorbed") then default 1 (ro_revision r) else 1 in
    extra ← (if bool_decide (resolution = "duplicate") then mret []
             else
               s ← gets id;
               lift (revision_since s pid nk wanted (is_created i));;
               mret [("node_revision", JInt wanted)]);
    add_links (is_id i) [nk];;
    mret (extra ++ [("node_key", JStr nk)])%list
  end.

(** The receipt part: a verified acceptance of this project with exactly that artifact. *)
Definition checked_receipt (s : db) (pid rid : string) (artifact : option string) : res acceptance_row :=
  rid ← key rid "receipt_id";
  match acceptances s !! rid with
  | None => Err (StateNotFound "acceptance receipt not found")
  | Some r =>
    ensure (bool_decide (rc_project r = pid))
      (StateConflict "that acceptance receipt was issued for a different project");;
    ensure (negb (bool_decide (rc_artifact r = "")))
      (StateConflict "that acceptance receipt has no artifact; its evidence is unresolved");;
    ensure (bool_decide (artifact = Some (rc_artifact r)))
      (StateConflict "artifact must be the receipt's exact artifact");;
    ensure (negb (bool_decide (rc_evidence r = [])))
      (StateConflict "that acceptance receipt has no resolved evidence");;
    Ok r
  end.
Definition resolve_fixed (pid resolution : string) (i : issue_row) (r : resolve_args) : M db (list (string * json)) :=
  match (if bool_decide (resolution = "fixed") then ro_receipt r else None) with
  | None => mret []
  | Some rid =>
    s ← gets id;
    receipt ← lift (checked_receipt s pid rid (ro_artifact r));
    add_links (is_id i) [rc_node receipt];;
    mret [("receipt_id", JStr rid); ("artifact_ref", JStr (rc_artifact receipt)); ("node_key", JStr (rc_node receipt));
          ("node_revision", JInt (rc_revision receipt))]
  end.
Definition resolve_observed (resolution : string) (r : resolve_args) : res (list (string * json)) :=
  if bool_decide (resolution = "observed")
  then t ← text (jopt JStr (ro_artifact r)) "artifact" 200; Ok [("artifact_ref", JStr t)]
  else Ok [].
Definition resolve_duplicate (pid : string) (i : issue_row) (r : resolve_args) : M db (list (string * json)) :=
  match ro_duplicate r with
  | None => mret []
  | Some d =>
    require (negb (bool_decide (d = is_id i))) (StateGraphError "an issue cannot duplicate itself");;
    j ← issue_at pid d;
    mret [("duplicate_of", JStr (is_id j))]
  end.

Definition resolve_issue (pid id : string) (expected_version resolution reason director : json) (r : resolve_args)
    : M db issue_view :=
  pid ← lift (key pid "project_id");
  resolution ← get_some (one_of RESOLUTIONS resolution) (StateGraphError "resolution must be a known one");
  reason ← lift (text reason "reason" 4000);
  director ← lift (text director "director_identity" 320);
  lift (check_resolution resolution r);;
  i ← open_issue pid id expected_version;
  node_part ← resolve_node pid resolution i r;
  fixed_part ← resolve_fixed pid resolution i r;
  observed_part ← lift (resolve_observed resolution r);
  duplicate_part ← resolve_duplicate pid i r;
  let facts := ([("resolution", JStr resolution); ("reason", JStr reason); ("director_identity", JStr director)]
                ++ node_part ++ fixed_part ++ observed_part ++ duplicate_part)%list in
  stamp ← now;
  update_issue (is_id i) (λ j, j <| is_status := resolution |> <| is_version := is_version j + 1 |>
    <| is_resolution := Some (jobj (("actor", JStr actor) :: facts)) |> <| is_updated := stamp |>);;
  event pid (jget "node_key" (jobj facts) ≫= jstr_of) "issue_resolved" (jobj (("issue_id", JStr (is_id i)) :: facts));;
  j ← issue_at pid id;
  gets (λ s, issue_view_of s j).

(** ** Reads *)
Definition get_issue (pid id : string) : M db issue_view :=
  pid ← lift (key pid "project_id");
  _ ← project pid;
  i ← issue_at pid id;
  gets (λ s, issue_view_of s i).

(** The rows with their [rowid]s. *)
Definition numbered_issues (s : db) : list (Z * issue_row) := imap (λ n i, (Z.of_nat n + 1, i)) (issues s).
Definition allowed (words : list string) (filter : option (list string)) : bool :=
  match filter with Some l => forallb (λ w, bool_decide (w ∈ words)) l | None => true end.
Definition admits (filter : option (list string)) (w : string) : bool :=
  match filter with Some l => bool_decide (w ∈ l) | None => true end.

Definition list_issues (pid : string) (statuses kinds : option (list string)) (nk : option string)
    (after : Z) (limit : nat) : M db (list issue_view * gmap string nat * bool * Z) :=
  pid ← lift (key pid "project_id");
  require (allowed ("open" :: RESOLUTIONS) statuses) (StateGraphError "status filter accepts only known statuses");;
  require (allowed ISSUE_KINDS kinds) (StateGraphError "kind filter accepts only known kinds");;
  nk ← lift (match nk with Some k => k ← key k "node_key"; Ok (Some k) | None => Ok None end);
  _ ← project pid;
  s ← gets id;
  let rows := take (S limit) (select (λ p, bool_decide (is_project p.2 = pid) && (after <? p.1) &&
    admits statuses (is_status p.2) && admits kinds (is_kind p.2) &&
    match nk with Some k => bool_decide (k ∈ issue_links s (is_id p.2)) | None => true end) (numbered_issues s)) in
  let counts := foldr (λ i m, <[is_status i := S (default 0%nat (m !! is_status i))]> m) (∅ : gmap string nat)
    (select (λ i, bool_decide (is_project i = pid)) (issues s)) in
  let more := (limit <? length rows)%nat in
  let next := match last (take limit rows) with Some p => p.1 | None => after end in
  mret (issue_view_of s <$> (take limit rows).*2, counts, more, next).

Definition open_for_node (s : db) (pid nk : string) : list issue_view :=
  issue_view_of s <$> select (λ i, bool_decide (is_project i = pid) && bool_decide (is_status i = "open") &&
    bool_decide (nk ∈ issue_links s (is_id i))) (issues s).
End issues.
