(* ===== verification/Design.v ===== *)
(** * Design facts

    [core/state_design.py]: immutable, numbered revisions of design items, exact
    selections of them (baselines) and the bindings of nodes to a selection.  The
    two searches over the relations of revisions ([closure] and [superseded_by])
    follow exact references; both take the number of revisions as fuel, which is
    enough ([Design] lemmas below).  A set of canonical texts of references is the
    set of the references. *)
From S2P Require Import Prelude Json Text Dag Store Graph Attempts.

Local Open Scope Z_scope.

(** An exact reference: a design id and a revision. *)
Definition pin : Type := string * Z.
Definition pin_json (p : pin) : json := jobj [("design_id", JStr p.1); ("revision", JInt p.2)].
Record design_relation : Type := Relation { rl_type : string; rl_target : pin; rl_rationale : string }.
Definition relation_json (r : design_relation) : json :=
  jobj [("type", JStr (rl_type r)); ("target", pin_json (rl_target r)); ("rationale", JStr (rl_rationale r))].

Definition LIFECYCLES : list string := ["draft"; "approved"; "historical"].
Definition DESIGN_KINDS : list string := ["rule"; "decision"; "explanatory"].
Definition RELATION_TYPES : list string := ["depends_on"; "references"; "supersedes"; "conflicts_with"].
Definition BINDING_PURPOSES : list string := ["implements"; "verifies"; "context"].

(** ** Stored content *)
Definition pin_of (j : json) : option pin :=
  match jget "design_id" j, jget "revision" j with
  | Some (JStr d), Some (JInt r) => Some (d, r)
  | _, _ => None
  end.
Definition relation_of (j : json) : option design_relation :=
  match jget "type" j, jget "target" j ≫= pin_of, jget "rationale" j with
  | Some (JStr t), Some p, Some (JStr r) => Some (Relation t p r)
  | _, _, _ => None
  end.
Definition array_of (o : option json) : list json := match o with Some (JArr l) => l | _ => [] end.
Definition relations_of (content : json) : list design_relation := omap relation_of (array_of (jget "relations" content)).
Definition word_of (k : string) (content : json) : string := default "" (jget k content ≫= jstr_of).
Definition is_approved (content : json) : bool := bool_decide (jget "lifecycle_status" content = Some (JStr "approved")).
Definition manifest_pins (manifest : json) : list pin := omap pin_of (array_of (jget "selected_revisions" manifest)).

Record design_revision : Type := DesignRevision { dn_pin : pin; dn_row : design_row }.
Definition dn_content (d : design_revision) : json := dr_payload (dn_row d).
(** The row as a value, its payload under [content]. *)
Definition revision_json (pid : string) (d : design_revision) : json :=
  jobj [("project_id", JStr pid); ("design_id", JStr (dn_pin d).1); ("revision", JInt (dn_pin d).2);
        ("content", dn_content d); ("content_hash", JStr (dr_hash (dn_row d)));
        ("author", JStr (dr_author (dn_row d))); ("created_at", JInt (dr_created (dn_row d)))].

(** [_revision] *)
Definition design_at (s : db) (pid : string) (p : pin) : option design_revision :=
  DesignRevision p <$> design_revisions s !! (pid, p.1, p.2).
Definition find_design (s : db) (pid : string) (p : pin) : res design_revision :=
  d ← key p.1 "design id";
  r ← integer (JInt p.2) "design revision" 1 1000000;
  match design_at s pid (d, r) with
  | Some v => Ok v
  | None => Err (StateNotFound "exact design revision not found")
  end.
(** [_baseline] *)
Definition find_baseline (s : db) (pid bid : string) : res baseline_row :=
  bid ← key bid "baseline id";
  match design_baselines s !! (pid, bid) with
  | Some b => Ok b
  | None => Err (StateNotFound "exact design baseline not found")
  end.

Definition design_latest (s : db) (pid did : string) : Z :=
  foldr Z.max 0 (omap (λ p, if bool_decide (p.1.1 = (pid, did)) then Some p.1.2 else None)
                   (map_to_list (design_revisions s))).

(** ** Validation *)
Definition exact_fields (m : gmap string json) (fields : list string) : bool :=
  bool_decide (dom m = (list_to_set fields : gset string)).

(** [_scope] *)
Definition scope_item (p : string * json) : res (string * string) :=
  k ← key p.1 "scope dimension"; v ← key p.2 "scope value"; Ok (k, v).
Definition scope_of (value : json) : res json :=
  match value with
  | JObj m =>
    ensure ((1 <=? size m)%nat && (size m <=? 16)%nat)
      (StateGraphError "scope must contain 1-16 explicit dimension/value pairs");;
    items ← mapM scope_item (sort_items (map_to_list m));
    Ok (jobj (prod_map id JStr <$> items))
  | _ => Err (StateGraphError "scope must contain 1-16 explicit dimension/value pairs")
  end.
(** [_ref] *)
Definition ref_of (value : json) : res pin :=
  match value with
  | JObj m =>
    ensure (exact_fields m ["design_id"; "revision"])
      (StateGraphError "reference must contain only design_id and exact revision");;
    d ← key (field m "design_id") "design id";
    r ← integer (field m "revision") "design revision" 1 1000000;
    Ok (d, r)
  | _ => Err (StateGraphError "reference must contain only design_id and exact revision")
  end.
Definition check_relation (value : json) : res design_relation :=
  match value with
  | JObj m =>
    ensure (exact_fields m ["type"; "target"; "rationale"])
      (StateGraphError "relations require type, exact target and rationale; partial-scope supersedes is unsupported");;
    match one_of RELATION_TYPES (field m "type") with
    | Some t =>
      target ← ref_of (field m "target");
      r ← text (field m "rationale") "relation rationale" 2000;
      Ok (Relation t target r)
    | None => Err (StateGraphError "unsupported design relation")
    end
  | _ => Err (StateGraphError "relations require type, exact target and rationale; partial-scope supersedes is unsupported")
  end.

(** [sort(key=canonical)] *)
Definition canonical_le (a b : json) : Prop := String.le (canonical a) (canonical b).
#[export] Instance canonical_le_dec : RelDecision canonical_le.
Proof. intros a b. unfold canonical_le. apply _. Defined.
Definition relation_le (a b : design_relation) : Prop := canonical_le (relation_json a) (relation_json b).
#[export] Instance relation_le_dec : RelDecision relation_le.
Proof. intros a b. unfold relation_le. apply _. Defined.
Definition relation_key (r : design_relation) : pin * string := (rl_target r, rl_type r).

Record design_args : Type := DesignArgs {
  da_title : json; da_statement : json; da_rationale : json; da_questions : json; da_scope : json;
  da_lifecycle : json; da_kind : json; da_relations : json }.
(** The payload [create_revision] stores, and its relations. *)
Definition design_payload (expected_revision : Z) (a : design_args) : res (json * list design_relation) :=
  match one_of LIFECYCLES (da_lifecycle a), one_of DESIGN_KINDS (da_kind a) with
  | Some lifecycle, Some kind =>
    questions ← match da_questions a with
                | JArr l => ensure (length l <=? 64)%nat (StateGraphError "open_questions must be a bounded list");;
                            mapM (λ q, text q "open question" 2000) l
                | _ => Err (StateGraphError "open_questions must be a bounded list") end;
    ensure (bool_decide (questions = []) || negb (bool_decide (lifecycle = "approved")))
      (StateGraphError "unresolved questions cannot be approved; split unresolved work into a draft item");;
    title ← text (da_title a) "title" 400;
    statement ← text (da_statement a) "statement" 20000;
    rationale ← text (da_rationale a) "rationale" 20000;
    scope ← scope_of (da_scope a);
    relations ← match da_relations a with
                | JNull => Ok []
                | JArr l => ensure (length l <=? 64)%nat (StateGraphError "relations must be a bounded list");;
                            mapM check_relation l
                | _ => Err (StateGraphError "relations must be a bounded list") end;
    let relations := merge_sort relation_le relations in
    ensure (bool_decide (NoDup (relation_key <$> relations))) (StateGraphError "duplicate design relation");;
    Ok (jobj [("title", JStr title); ("statement", JStr statement); ("rationale", JStr rationale);
              ("open_questions", jstrs questions); ("scope", scope); ("lifecycle_status", JStr lifecycle);
              ("kind", JStr kind);
              ("parent_revision", if bool_decide (expected_revision = 0) then JNull else JInt expected_revision);
              ("relations", JArr (relation_json <$> relations))], relations)
  | _, _ => Err (StateGraphError "unsupported design status or kind")
  end.

(** ** Following relations *)
(** One relation of a baseline member: its target exists, is selected when needed, and
    an approved item depends on approved ones. *)
Definition member_relation (selected : gmap string Z) (content : json) (target : design_revision) (r : design_relation)
    : res unit :=
  if bool_decide (rl_type r = "depends_on") || bool_decide (rl_type r = "references") then
    ensure (bool_decide (selected !! (rl_target r).1 = Some (rl_target r).2))
      (StateGraphError "design reference must resolve to the exact revision selected in this baseline");;
    ensure (negb (bool_decide (rl_type r = "depends_on") && is_approved content
                  && negb (is_approved (dn_content target))))
      (StateGraphError "approved design cannot depend on a non-approved requirement")
  else Ok tt.

(** The relations of one item: the ancestors found so far and the items to visit,
    the last found first. *)
Fixpoint scan_supersedes (s : db) (pid : string) (check : option (gmap string Z)) (content : json)
    (ancestors : gset pin) (pending : list design_revision) (rs : list design_relation)
    : res (gset pin * list design_revision) :=
  match rs with
  | [] => Ok (ancestors, pending)
  | r :: rs =>
    target ← find_design s pid (rl_target r);
    match check with Some selected => member_relation selected content target r | None => Ok tt end;;
    if bool_decide (rl_type r = "supersedes") && bool_decide (rl_target r ∉ ancestors)
    then scan_supersedes s pid check content ({[rl_target r]} ∪ ancestors) (target :: pending) rs
    else scan_supersedes s pid check content ancestors pending rs
  end.
Fixpoint supersedes_walk (fuel : nat) (s : db) (pid : string) (ancestors : gset pin)
    (pending : list design_revision) : option (res (gset pin)) :=
  match pending with
  | [] => Some (Ok ancestors)
  | d :: pending =>
    match fuel with
    | O => None
    | S fuel =>
      match scan_supersedes s pid None (dn_content d) ancestors pending (relations_of (dn_content d)) with
      | Ok (ancestors, pending) => supersedes_walk fuel s pid ancestors pending
      | Err e => Some (Err e)
      end
    end
  end.
(** Everything a selected item supersedes, directly or not. *)
Definition superseded_by (fuel : nat) (s : db) (pid : string) (selected : gmap string Z) (d : design_revision)
    : option (res (gset pin)) :=
  match scan_supersedes s pid (Some selected) (dn_content d) ∅ [] (relations_of (dn_content d)) with
  | Ok (ancestors, pending) => supersedes_walk fuel s pid ancestors pending
  | Err e => Some (Err e)
  end.

(** The items of a selection, one after the other: no item replaces a selected one,
    nor one that an earlier item replaced. *)
Fixpoint check_supersessions (fuel : nat) (s : db) (pid : string) (selected : gmap string Z) (pins replaced : gset pin)
    (ds : list design_revision) : option (res unit) :=
  match ds with
  | [] => Some (Ok tt)
  | d :: ds =>
    match superseded_by fuel s pid selected d with
    | None => None
    | Some (Err e) => Some (Err e)
    | Some (Ok ancestors) =>
      if bool_decide (ancestors ∩ (pins ∪ replaced) = ∅)
      then check_supersessions fuel s pid selected pins (replaced ∪ ancestors) ds
      else Some (Err (StateConflict "conflicting full-item supersession in baseline"))
    end
  end.

(** The declared [depends_on] closure of bound items. *)
Fixpoint scan_depends (s : db) (pid : string) (seen : gset pin) (found : gmap pin design_revision)
    (pending : list design_revision) (rs : list design_relation)
    : res (gset pin * gmap pin design_revision * list design_revision) :=
  match rs with
  | [] => Ok (seen, found, pending)
  | r :: rs =>
    if bool_decide (rl_type r = "depends_on") && bool_decide (rl_target r ∉ seen) then
      d ← find_design s pid (rl_target r);
      scan_depends s pid ({[rl_target r]} ∪ seen) (<[rl_target r := d]> found) (d :: pending) rs
    else scan_depends s pid seen found pending rs
  end.
Fixpoint depends_walk (fuel : nat) (s : db) (pid : string) (seen : gset pin) (found : gmap pin design_revision)
    (pending : list design_revision) : option (res (gmap pin design_revision)) :=
  match pending with
  | [] => Some (Ok found)
  | d :: pending =>
    match fuel with
    | O => None
    | S fuel =>
      match scan_depends s pid seen found pending (relations_of (dn_content d)) with
      | Ok (seen, found, pending) => depends_walk fuel s pid seen found pending
      | Err e => Some (Err e)
      end
    end
  end.

Definition design_fuel (s : db) : nat := size (design_revisions s).
Definition finished {A} (o : option (res A)) : res A :=
  match o with Some r => r | None => Err (TypeError "the fuel was too little") end.

Section design.
Context `{Host}.
Context (actor : string).

(** ** Revisions *)
Definition check_target (s : db) (pid did : string) (latest : Z) (scope : json) (r : design_relation) : res unit :=
  ensure (negb (bool_decide (rl_target r = (did, latest + 1))))
    (StateGraphError "a design revision cannot relate to itself");;
  target ← find_design s pid (rl_target r);
  ensure (negb (bool_decide (rl_type r = "supersedes")) || bool_decide (jget "scope" (dn_content target) = Some scope))
    (StateGraphError "supersedes supports only complete items with identical scope; split partial overrides").

Definition create_revision (pid did : string) (expected_revision : json) (a : design_args) : M db design_revision :=
  did ← lift (key did "design id");
  expected ← lift (integer expected_revision "expected revision" 0 1000000);
  '(payload, relations) ← lift (design_payload expected a);
  _ ← project pid;
  s ← gets id;
  let latest := design_latest s pid did in
  require (bool_decide (latest = expected)) (StateConflict "design revision changed; reload before editing");;
  _ ← lift (mapM (check_target s pid did latest (default JNull (jget "scope" payload))) relations);
  stamp ← now;
  let revision := latest + 1 in
  modify (λ s, s <| design_revisions ::= <[(pid, did, revision) := DesignRow payload (digest payload) actor stamp]> |>);;
  event pid None "design_revision_created"
    (jobj [("design_id", JStr did); ("revision", JInt revision); ("content_hash", JStr (digest payload));
           ("actor", JStr actor)]);;
  s ← gets id;
  lift (find_design s pid (did, revision)).

(** ** Baselines *)
Definition pin_le (p q : pin) : Prop := String.le p.1 q.1.
#[export] Instance pin_le_dec : RelDecision pin_le.
Proof. intros p q. unfold pin_le. apply _. Defined.

Definition manifest_of (ds : list design_revision) : json :=
  jobj [("selected_revisions",
    JArr ((λ d, jobj [("design_id", JStr (dn_pin d).1); ("revision", JInt (dn_pin d).2);
                      ("content_hash", JStr (dr_hash (dn_row d)))]) <$> ds))].

Definition create_baseline (pid bid : string) (selected_revisions : json) (expected_baseline : option string)
    : M db baseline_row :=
  bid ← lift (key bid "baseline id");
  _ ← lift (match expected_baseline with Some b => _ ← key b "expected baseline id"; Ok tt | None => Ok tt end);
  refs ← lift (match selected_revisions with
               | JArr l => ensure ((1 <=? length l)%nat && (length l <=? Z.to_nat 1000)%nat)
                             (StateGraphError "baseline requires 1-1000 exact revisions");; mapM ref_of l
               | _ => Err (StateGraphError "baseline requires 1-1000 exact revisions") end);
  let refs := merge_sort pin_le refs in
  let selected : gmap string Z := list_to_map refs in
  require (bool_decide (size selected = length refs))
    (StateGraphError "a baseline selects exactly one revision per design ID");;
  _ ← project pid;
  s ← gets id;
  require (bool_decide (design_baselines s !! (pid, bid) = None))
    (StateConflict "baseline ID is immutable and cannot be reused");;
  require (bool_decide (design_heads s !! pid = expected_baseline))
    (StateConflict "current baseline changed; reload before selecting");;
  ds ← lift (mapM (find_design s pid) refs);
  lift (finished (check_supersessions (design_fuel s) s pid selected (list_to_set refs) ∅ ds));;
  let manifest := manifest_of ds in
  stamp ← now;
  let row := BaselineRow manifest (digest manifest) actor stamp in
  modify (λ s, s <| design_baselines ::= <[(pid, bid) := row]> |> <| design_heads ::= <[pid := bid]> |>);;
  event pid None "design_baseline_selected"
    (jobj [("baseline_id", JStr bid); ("previous_baseline_id", jopt JStr expected_baseline);
           ("manifest_hash", JStr (digest manifest)); ("actor", JStr actor)]);;
  mret row.

(** ** Bindings *)
Record prepared_binding : Type := PreparedBinding { pb_design : design_revision; pb_purpose : string; pb_scope : json }.
Definition binding_json_of (pid : string) (b : prepared_binding) : json :=
  jobj [("design_id", JStr (dn_pin (pb_design b)).1); ("revision", JInt (dn_pin (pb_design b)).2);
        ("purpose", JStr (pb_purpose b)); ("coverage_scope", pb_scope b);
        ("design", revision_json pid (pb_design b))].
Definition prepare_binding (s : db) (pid : string) (selected : gmap string Z) (value : json) : res prepared_binding :=
  match value with
  | JObj m =>
    ensure (exact_fields m ["design_id"; "revision"; "purpose"; "coverage_scope"])
      (StateGraphError "binding requires exact design_id/revision, purpose and coverage_scope");;
    ref ← ref_of (jobj [("design_id", field m "design_id"); ("revision", field m "revision")]);
    match one_of BINDING_PURPOSES (field m "purpose") with
    | None => Err (StateGraphError "binding purpose must be implements, verifies or context")
    | Some purpose =>
      ensure (bool_decide (selected !! ref.1 = Some ref.2))
        (StateGraphError "binding revision is not selected in this baseline");;
      d ← find_design s pid ref;
      coverage ← scope_of (field m "coverage_scope");
      ensure (bool_decide (jget "scope" (dn_content d) = Some coverage))
        (StateGraphError "MVP binding covers a complete item scope; split partial coverage into separate items");;
      ensure (bool_decide (purpose = "context") || is_approved (dn_content d))
        (StateGraphError "implements/verifies requires an approved design revision");;
      Ok (PreparedBinding d purpose coverage)
    end
  | _ => Err (StateGraphError "binding requires exact design_id/revision, purpose and coverage_scope")
  end.

Definition prepared_le (pid : string) (a b : prepared_binding) : Prop :=
  canonical_le (binding_json_of pid a) (binding_json_of pid b).
#[export] Instance prepared_le_dec pid : RelDecision (prepared_le pid).
Proof. intros a b. unfold prepared_le. apply _. Defined.
(** Found dependencies, in the order of their references. *)
Definition dependency_le (p q : pin * design_revision) : Prop :=
  p.1.1 ≠ q.1.1 ∧ String.le p.1.1 q.1.1 ∨ p.1.1 = q.1.1 ∧ p.1.2 <= q.1.2.
#[export] Instance dependency_le_dec : RelDecision dependency_le.
Proof. intros p q. unfold dependency_le. apply _. Defined.

Definition bind_node (pid nk : string) (expected_revision : json) (bid : string) (bindings reason : json)
    : M db (revise_result * json) :=
  values ← get_some (match bindings with
                     | JArr l => if (1 <=? length l)%nat && (length l <=? 64)%nat then Some l else None
                     | _ => None end) (StateGraphError "bindings require 1-64 explicit items");
  _ ← node pid nk;
  s ← gets id;
  baseline ← lift (find_baseline s pid bid);
  let selected : gmap string Z := list_to_map (reverse (manifest_pins (bs_manifest baseline))) in
  prepared ← lift (mapM (prepare_binding s pid selected) values);
  let prepared := merge_sort (prepared_le pid) prepared in
  require (bool_decide (NoDup ((λ b, ((dn_pin (pb_design b)).1, pb_purpose b)) <$> prepared)))
    (StateGraphError "duplicate design binding");;
  found ← lift (finished (depends_walk (length prepared + design_fuel s) s pid
                  (list_to_set ((dn_pin ∘ pb_design) <$> prepared)) ∅ (reverse (pb_design <$> prepared))));
  let snapshot := jobj
    [("baseline_id", JStr bid); ("manifest_hash", JStr (bs_hash baseline)); ("manifest", bs_manifest baseline);
     ("bindings", JArr (binding_json_of pid <$> prepared));
     ("design_dependencies",
       JArr ((λ p, revision_json pid p.2) <$> merge_sort dependency_le (map_to_list found)))] in
  r ← revise pid nk expected_revision reason None None None;
  known ← gets (λ s, bool_decide (is_Some (design_bindings s !! (pid, nk, re_revision r))));
  require (negb known) (IntegrityError "UNIQUE constraint failed: state_design_bindings");;
  modify (λ s, s <| design_bindings ::= <[(pid, nk, re_revision r) := DesignBindingRow snapshot (digest snapshot)]> |>);;
  event pid (Some nk) "node_design_bound"
    (jobj [("node_revision", JInt (re_revision r)); ("baseline_id", JStr bid);
           ("binding_snapshot_hash", JStr (digest snapshot)); ("actor", JStr actor)]);;
  mret (r, snapshot).

(** ** Reads *)
Definition get_revision (pid did : string) (revision : Z) : M db design_revision :=
  _ ← project pid;
  s ← gets id;
  lift (find_design s pid (did, revision)).
Definition get_baseline (pid bid : string) : M db baseline_row :=
  _ ← project pid;
  s ← gets id;
  lift (find_baseline s pid bid).

Definition revision_key_le (p q : string * Z * design_row) : Prop :=
  p.1.1 ≠ q.1.1 ∧ String.le p.1.1 q.1.1 ∨ p.1.1 = q.1.1 ∧ p.1.2 <= q.1.2.
#[export] Instance revision_key_le_dec : RelDecision revision_key_le.
Proof. intros p q. unfold revision_key_le. apply _. Defined.
(** [catalog]: the head, the revisions and the baselines with their digests. *)
Definition design_catalog (pid : string) : M db (option string * list (string * Z * string) * list (string * string)) :=
  _ ← project pid;
  gets (λ s, (design_heads s !! pid,
    (λ p, (p.1, dr_hash p.2)) <$> merge_sort revision_key_le
      (omap (λ p, if bool_decide (p.1.1.1 = pid) then Some (p.1.1.2, p.1.2, p.2) else None)
         (map_to_list (design_revisions s))),
    (λ p, (p.1, bs_hash p.2)) <$> sort_items (map_to_list (slice (design_baselines s) pid)))).

(** [node_bindings]: the snapshot in force, and whether the head moved since. *)
Definition node_bindings (pid nk : string) : M db (option (json * string) * option string * bool) :=
  _ ← node pid nk;
  gets (λ s,
    let snapshot := binding_snapshot s pid nk in
    let head := design_heads s !! pid in
    ((λ j, (j, digest j)) <$> snapshot, head,
     match snapshot, head with
     | Some j, Some h => negb (bool_decide (jget "baseline_id" j = Some (JStr h)))
     | _, _ => false end)).

Definition newline : string := String (ascii_of_N 10) "".
Definition or_none (l : list string) : list string := match l with [] => ["None."] | _ => l end.
(** The lines of one revision in the generated document. *)
Definition markdown_revision (d : design_revision) : list string :=
  let p := dn_content d in
  (["## " +:+ (dn_pin d).1 +:+ " @ " +:+ canonical (JInt (dn_pin d).2) +:+ ": " +:+ word_of "title" p; "";
    "Status: " +:+ word_of "lifecycle_status" p +:+ "; kind: " +:+ word_of "kind" p;
    "Scope: `" +:+ canonical (default JNull (jget "scope" p)) +:+ "`"; "Content SHA-256: " +:+ dr_hash (dn_row d); "";
    "### " +:+ (if is_approved p then "Approved statement" else "Non-approved statement");
    ""; word_of "statement" p; ""; "### Rationale"; ""; word_of "rationale" p; "";
    "### Open questions (not approved requirements)"; ""]
   ++ or_none ((λ q, "- " +:+ q) <$> omap jstr_of (array_of (jget "open_questions" p)))
   ++ [""; "### Exact relations"; ""]
   ++ or_none ((λ r, "- " +:+ rl_type r +:+ ": " +:+ (rl_target r).1 +:+ " @ " +:+ canonical (JInt (rl_target r).2)
                       +:+ " — " +:+ rl_rationale r) <$> relations_of p)
   ++ [""])%list.
Definition markdown_text (pid bid : string) (b : baseline_row) (ds : list design_revision) : string :=
  String.concat newline
    (["# Design baseline " +:+ bid; "";
      "> GENERATED READ-ONLY VIEW. Edit through State design commands; never import this Markdown."; "";
      "Project: " +:+ pid; "Baseline: " +:+ bid; "Manifest SHA-256: " +:+ bs_hash b; ""]
     ++ mjoin (markdown_revision <$> ds))%list +:+ newline.
Definition export_markdown (pid bid : string) : M db (string * string) :=
  _ ← project pid;
  s ← gets id;
  b ← lift (find_baseline s pid bid);
  ds ← lift (mapM (find_design s pid) (manifest_pins (bs_manifest b)));
  let markdown := markdown_text pid bid b ds in
  mret (markdown, sha256 markdown).
Definition check_markdown (pid bid : string) (markdown : json) : M db (bool * string * string) :=
  m ← get_some (match markdown with
                | JStr m => if Z.of_nat (py_len m) <=? 32 * 1024 * 1024 then Some m else None | _ => None end)
        (StateGraphError "markdown must be bounded text");
  exported ← export_markdown pid bid;
  mret (bool_decide (m = exported.1), exported.2, sha256 m).
End design.
