(* ===== verification/DesignQueries.v ===== *)
(** * Impact of a design revision

    [impact] of [core/state_design_queries.py]: what has to be looked at again when an
    exact design revision changes.  Everything is read from one state: the relations of
    the revisions a baseline selects, a breadth-first search against the direction of
    [depends_on], and the bindings in force.  The search takes the bound on the visits
    as fuel.  ([search] of the same file folds Unicode case and is not modelled.) *)
From S2P Require Import Prelude Json Text Dag Store Graph Attempts Design.

Local Open Scope Z_scope.

Definition PATH_LIMIT : nat := 32.

(** ** Selections *)
(** [_baseline] of the queries: the baseline asked for, or the current one. *)
Definition query_baseline (pid : string) (bid : option string) : M db (option (string * baseline_row)) :=
  _ ← project pid;
  bid ← gets (λ s, match bid with Some b => Some b | None => design_heads s !! pid end);
  match bid with
  | Some b => s ← gets id; row ← lift (find_baseline s pid b); mret (Some (b, row))
  | None => mret None
  end.

(** References in Python's order of pairs. *)
Definition pin_lex (p q : pin) : Prop := p.1 ≠ q.1 ∧ String.le p.1 q.1 ∨ p.1 = q.1 ∧ p.2 <= q.2.
#[export] Instance pin_lex_dec : RelDecision pin_lex.
Proof. intros p q. unfold pin_lex. apply _. Defined.
Definition sorted_pins (X : gset pin) : list pin := merge_sort pin_lex (elements X).

(** [_candidate_rows] without the latest drafts: the selected revisions that exist. *)
Definition candidate_rows (s : db) (pid : string) (selected : list pin) : list design_revision :=
  omap (design_at s pid) (sorted_pins (list_to_set selected)).

Record query_page (A : Type) : Type := QueryPage { qp_items : list A; qp_total : nat; qp_exact : bool; qp_truncated : bool }.
#[global] Arguments QueryPage {A} _ _ _ _.
#[global] Arguments qp_items {A} _.
#[global] Arguments qp_total {A} _.
#[global] Arguments qp_exact {A} _.
#[global] Arguments qp_truncated {A} _.
(** [_page] *)
Definition page_of {A} (items : list A) (limit : Z) (complete : bool) : query_page A :=
  QueryPage (take (Z.to_nat limit) items) (length items) complete (negb complete || (limit <? Z.of_nat (length items))).

(** ** Relations around the subject *)
Record relation_edge : Type := RelationEdge {
  re_type : string; re_source : pin; re_target : pin; re_outgoing : bool;
  re_source_selected : bool; re_target_selected : bool; re_lifecycle : string;
  re_rationale : string; re_cut : bool }.
Definition direction (e : relation_edge) : string := if re_outgoing e then "outgoing" else "incoming".
(** The sort key of the relations listed. *)
Definition edge_key_le (d e : relation_edge) : Prop :=
  re_type d ≠ re_type e ∧ String.le (re_type d) (re_type e) ∨ re_type d = re_type e ∧
  (direction d ≠ direction e ∧ String.le (direction d) (direction e) ∨ direction d = direction e ∧
   (re_source d ≠ re_source e ∧ pin_lex (re_source d) (re_source e) ∨ re_source d = re_source e ∧
    pin_lex (re_target d) (re_target e))).
#[export] Instance edge_key_le_dec : RelDecision edge_key_le.
Proof. intros d e. unfold edge_key_le. apply _. Defined.

Section relations.
(** The contents of the revisions looked at, the selected ones and the subject. *)
Context (bodies : gmap pin json) (pins : gset pin) (root : pin).

Definition body_of (p : pin) : json := default JNull (bodies !! p).
Definition source_pins : list pin := sorted_pins ({[root]} ∪ pins).
Definition edge_of (source : pin) (r : design_relation) : relation_edge :=
  RelationEdge (rl_type r) source (rl_target r) (bool_decide (source = root))
    (bool_decide (source ∈ pins)) (bool_decide (rl_target r ∈ pins)) (word_of "lifecycle_status" (body_of source))
    (concat_chars (take 360 (chars (rl_rationale r)))) (360 <? Z.of_nat (py_len (rl_rationale r))).
Definition touches_root (source : pin) (r : design_relation) : bool :=
  bool_decide (source = root) || bool_decide (rl_target r = root).
Definition direct_edges : list relation_edge :=
  merge_sort edge_key_le
    (source ← source_pins; edge_of source <$> select (touches_root source) (relations_of (body_of source))).
(** [reverse.get(target, [])]: the selected revisions that depend on [target]. *)
Definition reverse_of (target : pin) : list pin :=
  source ← select (λ p, bool_decide (p ∈ pins)) source_pins;
  (λ _, source) <$> select (λ r, bool_decide (rl_type r = "depends_on") && bool_decide (rl_target r = target))
                      (relations_of (body_of source)).
End relations.

(** ** Breadth first *)
Section bfs.
Context (next : pin → list pin) (max_visits : nat).

(** One child of [target]: known, skipped for the bound, or new. *)
Definition visit (target : pin) (st : gmap pin (option pin) * list pin * bool) (child : pin)
    : gmap pin (option pin) * list pin * bool :=
  let '(parents, queue, clipped) := st in
  if bool_decide (is_Some (parents !! child)) then st
  else if (max_visits <=? size parents)%nat then (parents, queue, true)
  else (<[child := Some target]> parents, (queue ++ [child])%list, clipped).
Fixpoint breadth_first (fuel : nat) (parents : gmap pin (option pin)) (queue : list pin) (clipped : bool)
    : option (gmap pin (option pin) * bool) :=
  match queue with
  | [] => Some (parents, clipped)
  | target :: queue =>
    match fuel with
    | O => None
    | S fuel =>
      let '(parents, queue, clipped) :=
        foldl (visit target) (parents, queue, clipped) (merge_sort pin_lex (next target)) in
      breadth_first fuel parents queue clipped
    end
  end.
(** The way from the root down to [cursor], through the parents. *)
Fixpoint path_to (fuel : nat) (parents : gmap pin (option pin)) (cursor : pin) : option (list pin) :=
  match parents !! cursor with
  | Some None => Some [cursor]
  | Some (Some parent) =>
    match fuel with
    | O => None
    | S fuel => path ← path_to fuel parents parent; Some (path ++ [cursor])%list
    end
  | None => None
  end.
End bfs.

Record dependent : Type := Dependent {
  dp_pin : pin; dp_title : string; dp_lifecycle : string; dp_path : list pin; dp_length : nat; dp_cut : bool }.
Definition shown_path (path : list pin) : list pin :=
  if (length path <=? PATH_LIMIT)%nat then path
  else (take (PATH_LIMIT / 2) path ++ drop (length path - PATH_LIMIT / 2) path)%list.
Definition dependent_of (bodies : gmap pin json) (p : pin) (path : list pin) : dependent :=
  Dependent p (word_of "title" (body_of bodies p)) (word_of "lifecycle_status" (body_of bodies p))
    (shown_path path) (length path) (PATH_LIMIT <? length path)%nat.

(** ** Nodes bound to the subject *)
(** [_binding_impacts]: the newest binding not above the node's revision. *)
Definition binding_in_force (s : db) (pid nk : string) (revision : Z) : option (Z * design_binding_row) :=
  match select (λ p, p.1 <=? revision) (binding_revisions s pid nk) with
  | [] => None
  | p :: ps => Some (foldl newer p ps)
  end.
Record node_impact : Type := NodeImpact {
  ni_node : string; ni_revision : Z; ni_status : node_status; ni_receipt : option string;
  ni_direct : bool; ni_purposes : list string; ni_binding : Z; ni_hash : string; ni_baseline : string;
  ni_manifest : string; ni_requested : bool; ni_current : bool }.
Definition bound_purposes (subject : pin) (snapshot : json) : list string :=
  word_of "purpose" <$> select (λ b, bool_decide (pin_of b = Some subject)) (array_of (jget "bindings" snapshot)).
Definition depends_on_subject (subject : pin) (snapshot : json) : bool :=
  existsb (λ d, bool_decide (pin_of d = Some subject)) (array_of (jget "design_dependencies" snapshot)).
Definition bound_node (s : db) (pid : string) (subject : pin) (bid : string) (p : string * node_row)
    : option (option node_impact) :=
  '(revision, row) ← binding_in_force s pid p.1 (n_revision p.2);
  let snapshot := bd_snapshot row in
  let direct := bound_purposes subject snapshot in
  Some (if bool_decide (direct = []) && negb (depends_on_subject subject snapshot) then None
        else Some (NodeImpact p.1 (n_revision p.2) (n_status p.2) (n_receipt p.2) (negb (bool_decide (direct = [])))
                     (py_sorted direct) revision (bd_hash row) (word_of "baseline_id" snapshot)
                     (word_of "manifest_hash" snapshot) (bool_decide (jget "baseline_id" snapshot = Some (JStr bid)))
                     (bool_decide (revision = n_revision p.2)))).
Definition bound_nodes (s : db) (pid : string) (subject : pin) (bid : string) : list (option node_impact) :=
  omap (bound_node s pid subject bid) (sort_items (map_to_list (slice (nodes s) pid))).

(** ** The query *)
Record impact_view : Type := ImpactView {
  iv_baseline : string; iv_subject : design_revision; iv_selected : bool;
  iv_relations : query_page relation_edge; iv_conflicts : query_page relation_edge;
  iv_dependents : query_page dependent; iv_nodes : query_page node_impact; iv_scanned : nat;
  iv_visited : nat; iv_clipped : bool }.

Definition impact (pid did : string) (revision : Z) (bid : option string) (limit max_visits : json) : M db impact_view :=
  limit ← lift (integer limit "limit" 1 100);
  max_visits ← lift (integer max_visits "max_visits" 1 1000);
  chosen ← query_baseline pid bid;
  '(bid, baseline) ← get_some chosen
    (StateConflict "design_impact requires an explicit or current baseline; no selection exists");
  s ← gets id;
  subject ← lift (find_design s pid (did, revision));
  let root := dn_pin subject in
  let rows := candidate_rows s pid (manifest_pins (bs_manifest baseline)) in
  let bodies : gmap pin json := list_to_map ((λ d, (dn_pin d, dn_content d)) <$> rows) in
  let pins : gset pin := dom bodies in
  let bodies := <[root := dn_content subject]> bodies in
  let direct := direct_edges bodies pins root in
  '(parents, clipped) ← lift (finished (Ok <$> breadth_first (reverse_of bodies pins root) (Z.to_nat max_visits)
     (Z.to_nat max_visits) {[root := None]} [root] false));
  dependents ← lift (finished (Ok <$> mapM (λ p, dependent_of bodies p <$> path_to (size parents) parents p)
     (sorted_pins (dom parents ∖ {[root]}))));
  let conflicts := select (λ e, bool_decide (re_type e = "conflicts_with")) direct in
  let bound := bound_nodes s pid root bid in
  mret (ImpactView bid subject (bool_decide (root ∈ pins))
    (page_of direct limit true) (page_of conflicts limit true)
    (page_of dependents limit (negb clipped)) (page_of (omap id bound) limit true) (length bound)
    (size parents) clipped).
