(* ===== verification/Takeover.v ===== *)
(** * Taking over the claim of an offline driver

    [core/state_takeover.py], with the notices of [core/driver_notices.py]: the one
    place where presence is authority.  The subject and body of a notice are prose
    and are not modelled. *)
From S2P Require Import Prelude Json Text Dag Store Graph Portfolio Presence Claims Enforcement Inbox.

Local Open Scope Z_scope.

(** ** Notices *)
Inductive notice_kind : Set := TakeoverNotice | HandoffOffer | HandoffReply | OverrideNotice.
(** [KINDS]: the inbox kind a notice is stored as. *)
Definition stored_kind (k : notice_kind) : string :=
  match k with
  | TakeoverNotice => "takeover_notice" | HandoffOffer => "handoff_offer"
  | HandoffReply => "handoff_reply" | OverrideNotice => "lease_notice"
  end.
(** [REF_KEYS]: the references given and not empty. *)
Definition notice_refs (refs : list (string * option string)) : json :=
  jobj (omap (λ p, (λ v, (p.1, JStr v)) <$> truthy p.2) refs).

Section notices.
Context `{Host}.

Definition notify (target : option string) (sender : option string) (pid : string) (kind : notice_kind)
    (refs : list (string * option string)) : M db (option delivery) :=
  match truthy target with
  | None => mret None
  | Some target =>
    d ← deliver_notice target sender (Some pid) (stored_kind kind) (notice_refs refs);
    mret (Some d)
  end.
End notices.

(** ** The authority *)
Definition MIN_TAKEOVER_REASON_CHARS : Z := 20.
Definition MAX_TAKEOVER_REASON_CHARS : Z := 300.

(** [_member]: an active driver that is a member, on the same snapshot. *)
Definition active_member (s : db) (pid driver : string) : bool :=
  is_member s pid driver &&
  match drivers s !! driver with Some r => bool_decide (drv_status r = DriverActive) | None => false end.

Definition owner_is_offline (p : presence) : bool :=
  bool_decide (ps_status p = Offline) && ps_determinable p.

Definition refuse_shared_identity (driver : string) : res unit :=
  ensure (negb (shared_identity driver)) (ClaimError "shared_identity").

Definition basis_text (b : basis) : string :=
  match b with ByWait => "wait" | ByDeclaration => "declared" | ByLastSeen => "last_seen" end.

(** [_evidence]: the presence facts a decision used. *)
Definition presence_evidence (p : presence) : json :=
  jobj [("status", JStr (presence_text (ps_status p))); ("basis", JStr (basis_text (ps_basis p)));
        ("determinable", JBool (ps_determinable p)); ("declared", JBool (bool_decide (is_Some (ps_declared p))));
        ("since", jopt JInt (de_since <$> ps_declared p));
        ("expected_return", jopt JInt (ps_declared p ≫= de_return));
        ("last_seen_at", jopt JInt (ps_last_seen p)); ("seconds_since_seen", jopt JInt (ps_seconds p));
        ("waiting", JBool (ps_waiting p)); ("last_wait_end", jopt JInt (ps_wait_end p))].

Section takeover.
Context `{Host}.
Context (env : environment).

Definition presence_at (driver : string) : M db presence :=
  stamp ← now;
  gets (λ s, effective_presence env s driver stamp).

(** [offline_owner_evidence]: may [caller] take over an attempt before its lease lapsed? *)
Definition offline_owner_evidence (pid : string) (owner : option string) (caller : string)
    : M db (option presence) :=
  match truthy owner with
  | None => mret None
  | Some owner =>
    if bool_decide (owner = caller) || bool_decide (caller = "") then mret None
    else
      p ← presence_at owner;
      if negb (owner_is_offline p) then mret None
      else
        lift (refuse_shared_identity caller);;
        ok ← gets (λ s, active_member s pid caller);
        require ok (ClaimError "not_project_member");;
        mret (Some p)
  end.

(** The insert of a claim without the courtesy of [insert_claim]. *)
Definition add_claim (c : claim_row) : M db unit :=
  conflict ← gets (λ s, claim_conflict s c);
  require (negb conflict) (IntegrityError "UNIQUE constraint failed: state_node_claims");;
  modify (λ s, s <| claims ::= (λ l, (l ++ [c])%list) |>).

Record takeover_result : Type := TakeoverResult {
  tk_taken : claim_view; tk_claim : claim_view; tk_presence : option presence;
  tk_notified : option delivery; tk_attempts : list attempt_row; tk_idempotent : bool }.

Definition takeover_request (cid : string) (fence : Z) (reason : string) : json :=
  jobj [("take_over_claim", JStr cid); ("expected_fence", JInt fence); ("reason", JStr reason)].
Definition takeover_closed (old : claim_row) (n : node_row) : bool :=
  bool_decide (n_status n = SUPERSEDED) ||
  bool_decide (cl_purpose old = Implement) && bool_decide (n_status n = VERIFIED).

(** The claim the caller gets: same node, purpose, workspace and lease length. *)
Definition taken_claim (old : claim_row) (n : node_row) (driver key_ hash : string) (current fence : Z)
    (cid : string) : claim_row :=
  ClaimRow cid (cl_project old) (cl_node old) driver (cl_purpose old) Live fence (n_revision n) None
    (cl_workspace old) None (cl_lease old) (add_seconds current (cl_lease old)) current key_ hash
    current current.

Definition move_taken (actor driver stored_key hash reason : string) (current : Z)
    (old : claim_row) (n : node_row) (p : presence) : M db (claim_row * claim_row) :=
  let pid := cl_project old in let nk := cl_node old in
  update_claim (cl_id old) (λ r, r <| cl_status := TakenOver |> <| cl_updated := current |>);;
  let old' := old <| cl_status := TakenOver |> <| cl_updated := current |> in
  history actor old' TakenOver ("taken over by " +:+ driver +:+ ": " +:+ reason);;
  top ← gets (λ s, max_fence s pid nk);
  u ← uuid4;
  let c := taken_claim old n driver stored_key hash current (1 + top) ("claim-" +:+ u) in
  add_claim c;;
  history actor c Live ("took over " +:+ cl_id old +:+ " from " +:+ cl_driver old +:+ ": " +:+ reason);;
  event pid (Some nk) "claim_taken_over"
    (jobj [("claim_id", JStr (cl_id old)); ("new_claim_id", JStr (cl_id c));
           ("from_driver_id", JStr (cl_driver old)); ("to_driver_id", JStr driver);
           ("purpose", JStr (purpose_text (cl_purpose old))); ("fence", JInt (cl_fence old));
           ("new_fence", JInt (cl_fence c)); ("reason", JStr reason);
           ("owner_presence", presence_evidence p); ("actor", JStr actor)]);;
  event pid (Some nk) "claim_acquired"
    (jobj [("claim_id", JStr (cl_id c)); ("driver_id", JStr driver);
           ("purpose", JStr (purpose_text (cl_purpose c))); ("fence", JInt (cl_fence c));
           ("lease_expires_at", JInt (cl_expires c)); ("workspace", JStr (cl_workspace c));
           ("subagent", JNull); ("taken_over_from", JStr (cl_id old)); ("actor", JStr actor)]);;
  mret (old', c).

Definition take_over_claim (actor : string) (driver : option string) (pid cid : string)
    (expected_fence reason : json) (request_key : string) : M db takeover_result :=
  driver ← require_driver driver;
  lift (refuse_shared_identity driver);;
  reason ← lift (text reason "takeover reason" MAX_TAKEOVER_REASON_CHARS);
  require (MIN_TAKEOVER_REASON_CHARS <=? Z.of_nat (py_len (strip reason)))
    (StateGraphError "reason must say why, in 20..300 characters");;
  _ ← lift (key request_key "request_key");
  _ ← lift (key cid "claim_id");
  fence ← get_some (match expected_fence with JInt f => Some f | _ => None end)
            (StateGraphError "expected_fence must be an integer");
  let stored_key := "takeover:" +:+ request_key in
  let hash := digest (takeover_request cid fence reason) in
  _ ← project pid;
  current ← now;
  replay ← gets (λ s, select_one (λ c, bool_decide (cl_project c = pid) && bool_decide (cl_driver c = driver) &&
                       bool_decide (cl_request_key c = stored_key)) (claims s));
  match replay with
  | Some c =>
    require (bool_decide (cl_request_hash c = hash)) (ClaimError "request_key_reused");;
    old ← claim_at pid cid;
    mret (TakeoverResult (claim_view_of current old) (claim_view_of current c) None None [] true)
  | None =>
    old ← claim_at pid cid;
    ok ← gets (λ s, active_member s pid driver);
    require ok (ClaimError "not_project_member");;
    require (negb (bool_decide (cl_driver old = driver))) (ClaimError "already_held");;
    _ ← sweep_conn actor pid current (Some (cl_node old));
    old ← claim_at pid cid;
    require (bool_decide (fence = cl_fence old)) (ClaimError "stale_fence");;
    require (is_live old) (ClaimError "claim_not_live");;
    n ← node pid (cl_node old);
    require (negb (takeover_closed old n)) (ClaimError "node_closed");;
    p ← presence_at (cl_driver old);
    require (owner_is_offline p) (ClaimError "owner_not_offline");;
    moved ← move_taken actor driver stored_key hash reason current old n p;
    busy ← gets (λ s, select (λ a, bool_decide (a_project a = pid) && bool_decide (a_node a = cl_node old)
                               && ACTIVE (a_status a)) (attempts s));
    notice ← notify (Some (cl_driver old)) (Some driver) pid TakeoverNotice
               [("claim_id", Some cid); ("node_key", Some (cl_node old))];
    mret (TakeoverResult (claim_view_of current moved.1) (claim_view_of current moved.2) (Some p) notice busy false)
  end.
End takeover.
