(* ===== verification/Recovery.v ===== *)
(** * Reclaiming an attempt nobody renews

    [core/state_recovery.py]: ending an external attempt as abandoned, or becoming
    its owner, once its lease and grace have passed (an admin may act earlier, and
    a member may take over from an offline owner).  Both raise the owner fence and
    release or move the claims bound to the attempt. *)
From S2P Require Import Prelude Json Text Dag Store Graph Portfolio Presence Claims Enforcement.
From S2P Require Import Review Attempts Evidence External Inbox Takeover.

Local Open Scope Z_scope.

Definition abandon_text (k : abandon_kind) : string :=
  match k with ConfirmedStopped => "confirmed_stopped" | QuiescenceUnknown => "unknown" end.
(** [ABANDON_KINDS] *)
Definition parse_abandon (v : json) : option abandon_kind :=
  match v with
  | JStr s => find (λ k, bool_decide (abandon_text k = s)) [ConfirmedStopped; QuiescenceUnknown]
  | _ => None
  end.

(** Who reclaims: [actor], [driver_id], [is_admin]. *)
Record reclaimer : Type := Reclaimer { rr_actor : string; rr_driver : option string; rr_admin : bool }.

Section recovery.
Context `{Host}.
Context (env : environment).

(** [_reclaimable]: the preconditions; returns [break_glass] and, with [offline],
    the presence of an offline owner. *)
Definition reclaimable (x : reclaimer) (a : attempt_row) (expected_fence : json) (override : option string)
    (current : Z) (offline : bool) : M db (bool * option presence) :=
  require (ACTIVE (a_status a)) (ClaimError "attempt_not_active");;
  s ← gets id;
  member ← lift (require_member env s (a_project a) (rr_driver x) (rr_admin x));
  require (bool_decide (expected_fence = JInt (a_fence a))) (ClaimError "stale_fence");;
  match a_lease a with
  | None =>
    require (bool_decide (is_Some override) || rr_admin x) (ClaimError "override_reason_required");;
    mret (bool_decide (override = None) || member, None)
  | Some e =>
    if bool_decide (lease_state (Some e) current = LReclaimable) then mret (member, None)
    else if rr_admin x then mret (true, None)
    else
      p ← (if offline
           then offline_owner_evidence env (a_project a) (a_owner a) (default "" (rr_driver x))
           else mret None);
      match p with
      | Some p => mret (member, Some p)
      | None => raise (ClaimError "lease_not_expired")
      end
  end.

(** ** Claims that stop or move with the attempt *)
(** Bound to the attempt, or the owner's live exclusive claim on its node. *)
Definition moves_with (a : attempt_row) (c : claim_row) : bool :=
  bool_decide (cl_project c = a_project a) && is_live c &&
  (bool_decide (cl_attempt c = Some (a_id a))
   || bool_decide (cl_node c = a_node a) && bool_decide (cl_driver c = default "" (a_owner a))
      && EXCLUSIVE (cl_purpose c)).

Definition stop_claim (actor : string) (a : attempt_row) (current : Z) (reason : string)
    (holder : option string) (c : claim_row) : M db unit :=
  let status := if holder then Transferred else Released in
  update_claim (cl_id c) (λ r, r <| cl_status := status |> <| cl_updated := current |>);;
  history actor (c <| cl_status := status |> <| cl_updated := current |>) status reason;;
  event (a_project a) (Some (a_node a)) (if holder then "claim_transferred" else "claim_released")
    (jobj [("claim_id", JStr (cl_id c)); ("driver_id", JStr (cl_driver c));
           ("purpose", JStr (purpose_text (cl_purpose c))); ("fence", JInt (cl_fence c));
           ("reason", JStr reason); ("to_driver_id", jopt JStr holder);
           ("attempt_id", JStr (a_id a)); ("actor", JStr actor)]).

(** [_bind_held_claim]: the new holder's own claim, with the next fence of the node. *)
Definition bind_held_claim (actor : string) (a : attempt_row) (c : claim_row) (current : Z) (reason : string)
    : M db claim_view :=
  top ← gets (λ s, max_fence s (a_project a) (a_node a));
  let bind := λ r : claim_row, r <| cl_attempt := Some (a_id a) |> <| cl_fence := 1 + top |>
                                 <| cl_updated := current |> in
  update_claim (cl_id c) bind;;
  let c' := bind c in
  history actor c' Live reason;;
  event (a_project a) (Some (a_node a)) "claim_acquired"
    (jobj [("claim_id", JStr (cl_id c')); ("driver_id", JStr (cl_driver c'));
           ("purpose", JStr (purpose_text (cl_purpose c'))); ("fence", JInt (cl_fence c'));
           ("previous_fence", JInt (cl_fence c)); ("lease_expires_at", JInt (cl_expires c'));
           ("workspace", JStr (cl_workspace c')); ("subagent", jopt JStr (cl_subagent c'));
           ("attempt_id", JStr (a_id a)); ("transfer", JBool true); ("actor", JStr actor)]);;
  mret (claim_view_of current c').

(** [new_claim_for]: [aid], [pid], [nk] and [revision] are the attempt's. *)
Definition new_claim_for (actor : string) (aid : option string) (pid nk : string) (revision : Z)
    (driver : string) (current : Z) (reason workspace : string) (p : purpose) (subagent : option string)
    : M db claim_view :=
  when (EXCLUSIVE p) (refuse_exclusive_holder pid nk driver);;
  top ← gets (λ s, max_fence s pid nk);
  let fence := 1 + top in
  u ← uuid4;
  let request_key := "transfer:" +:+ default nk (truthy aid) +:+ ":" +:+ canonical (JInt fence) in
  let c := ClaimRow ("claim-" +:+ u) pid nk driver p Live fence revision aid workspace subagent
             DEFAULT_LEASE_SECONDS (add_seconds current DEFAULT_LEASE_SECONDS) current request_key
             (digest (jobj [("transfer", jopt JStr aid); ("fence", JInt fence); ("node_key", JStr nk)]))
             current current in
  add_claim c;;
  history actor c Live reason;;
  event pid (Some nk) "claim_acquired"
    (jobj [("claim_id", JStr (cl_id c)); ("driver_id", JStr driver); ("purpose", JStr (purpose_text p));
           ("fence", JInt fence); ("lease_expires_at", JInt (cl_expires c)); ("workspace", JStr workspace);
           ("subagent", jopt JStr subagent); ("attempt_id", jopt JStr aid); ("transfer", JBool true);
           ("actor", JStr actor)]);;
  mret (claim_view_of current c).

Definition claim_after (actor : string) (a : attempt_row) (holder : string) (current : Z) (reason : string)
    (workspace : string) (p : purpose) (subagent : option string) : M db claim_view :=
  new_claim_for actor (Some (a_id a)) (a_project a) (a_node a) (a_revision a) holder current reason workspace
    p subagent.

(** One claim for each that moved; the holder's own exclusive claim is used once. *)
Fixpoint move_claims (actor : string) (a : attempt_row) (holder : string) (current : Z) (reason : string)
    (held : option claim_row) (created : option claim_view) (sources : list claim_row)
    : M db (option claim_row * option claim_view) :=
  match sources with
  | [] => mret (held, created)
  | c :: rest =>
    moved ← match held with
            | Some h =>
              if EXCLUSIVE (cl_purpose c) then
                v ← bind_held_claim actor a h current reason; mret (v, None)
              else
                v ← claim_after actor a holder current reason (cl_workspace c) (cl_purpose c) (cl_subagent c);
                mret (v, Some h)
            | None =>
              v ← claim_after actor a holder current reason (cl_workspace c) (cl_purpose c) (cl_subagent c);
              mret (v, None)
            end;
    let created := if bool_decide (created = None) || bool_decide (cl_purpose c = Implement)
                   then Some moved.1 else created in
    move_claims actor a holder current reason moved.2 created rest
  end.

(** The latest claim ever bound to the attempt: [created_at DESC, claim_id DESC]. *)
Definition claim_ge (c d : claim_row) : Prop := claim_le d c.
#[export] Instance claim_ge_dec : RelDecision claim_ge.
Proof. intros c d. unfold claim_ge. apply _. Defined.
Definition latest_bound (s : db) (a : attempt_row) : option claim_row :=
  head (merge_sort claim_ge (select (λ c, bool_decide (cl_project c = a_project a) &&
                               bool_decide (cl_attempt c = Some (a_id a))) (claims s))).
Definition held_by (s : db) (a : attempt_row) (holder : string) : option claim_row :=
  select_one (λ c, on_node (a_project a) (a_node a) c && bool_decide (cl_driver c = holder) && is_live c &&
                   EXCLUSIVE (cl_purpose c)) (claims s).

(** [_release_bound_claims] *)
Definition transfer_bound_claims (actor : string) (a : attempt_row) (current : Z) (reason : string)
    (holder : option string) : M db (list string * option claim_view) :=
  rows ← gets (λ s, select (moves_with a) (claims s));
  for_each (stop_claim actor a current reason holder) rows;;
  match holder with
  | None => mret (cl_id <$> rows, None)
  | Some holder =>
    last ← gets (λ s, latest_bound s a);
    let sources := match rows with [] => option_list last | _ => rows end in
    held ← gets (λ s, held_by s a holder);
    moved ← move_claims actor a holder current reason held None sources;
    created ← match moved with
              | (_, Some v) => mret v
              | (Some h, None) => bind_held_claim actor a h current reason
              | (None, None) => claim_after actor a holder current reason "" Implement None
              end;
    mret (cl_id <$> rows, Some created)
  end.

(** [_void_open_handoffs] *)
Definition offer_of (aid : string) (h : handoff_row) : bool :=
  bool_decide (hf_attempt h = Some aid) && bool_decide (hf_status h = Offered).
Definition void_open_handoffs (aid : string) (current : Z) (reason : string) : M db Z :=
  n ← gets (λ s, Z.of_nat (length (select (offer_of aid) (handoffs s))));
  modify (λ s, s <| handoffs ::= update_where (offer_of aid) (λ h, h <| hf_status := Withdrawn |>
    <| hf_decided := Some "system" |> <| hf_reason := Some reason |> <| hf_updated := current |>) |>);;
  mret n.

(** ** Abandoning *)
Record reclaimed : Type := Reclaimed {
  rd_view : public_view; rd_break_glass : bool; rd_released : list string; rd_claim : option claim_view;
  rd_presence : option presence; rd_notified : option delivery }.

(** The retained report of an attestation; an unknown abandon carries none. *)
Definition abandon_report (fs : archive) (kind : abandon_kind) (ref sha : option string)
    : res (option (string * string * string)) :=
  match kind with
  | ConfirmedStopped =>
    match truthy ref, truthy sha with
    | Some ref, Some sha => '(ref, bytes) ← retain_report fs ref sha false; Ok (Some (ref, sha, bytes))
    | _, _ => Err (StateGraphError "confirmed_stopped is an attestation: it needs report_ref and report_sha256")
    end
  | QuiescenceUnknown =>
    ensure (bool_decide (ref = None) && bool_decide (sha = None))
      (StateGraphError "abandon_kind=unknown carries no quiescence report; omit report_ref/report_sha256");;
    Ok None
  end.

Definition abandon_external_attempt (fs : archive) (x : reclaimer) (aid : string)
    (expected_fence kind reason : json) (ref sha : option string) (override : json) : M db reclaimed :=
  reason ← lift (text reason "abandon reason" 4000);
  override ← lift (override_reason_text override);
  kind ← get_some (parse_abandon kind) (StateGraphError "abandon_kind must be confirmed_stopped or unknown");
  require (bool_decide (is_Some (truthy (rr_driver x))) || rr_admin x) (ClaimError "driver_identity_required");;
  report ← lift (abandon_report fs kind ref sha);
  current ← now;
  a ← attempt aid;
  require (bool_decide (a_kind a = External)) (ClaimError "not_external");;
  checked ← reclaimable x a expected_fence override current false;
  match report with Some (ref, sha, bytes) => store_report_blob ref sha bytes | None => mret tt end;;
  update_attempt aid (λ r, r <| a_status := Abandoned |> <| a_abandon := Some kind |> <| a_error := Some reason |>
    <| a_fence := a_fence a + 1 |> <| a_updated := current |>);;
  modify (λ s, s <| owners ::= alter (λ o, o <| ow_status := OAbandoned |> <| ow_updated := current |>
    <| ow_settled := Some current |>) aid |>);;
  moved ← transfer_bound_claims (rr_actor x) a current ("attempt abandoned: " +:+ reason) None;
  voided ← void_open_handoffs aid current "attempt abandoned";
  event (a_project a) (Some (a_node a)) "attempt_abandoned"
    (jobj [("attempt_id", JStr aid); ("abandon_kind", JStr (abandon_text kind)); ("reason", JStr reason);
           ("previous_owner_driver_id", jopt JStr (a_owner a)); ("previous_fence", JInt (a_fence a));
           ("fence", JInt (a_fence a + 1)); ("actor", JStr (rr_actor x)); ("driver_id", jopt JStr (rr_driver x));
           ("break_glass", JBool checked.1); ("override_reason", jopt JStr override);
           ("report_sha256", jopt JStr sha); ("released_claims", jstrs moved.1);
           ("voided_handoffs", JInt voided)]);;
  notice ← (if bool_decide (a_owner a = rr_driver x) then mret None
            else notify (a_owner a) None (a_project a) TakeoverNotice
                   [("attempt_id", Some aid); ("node_key", Some (a_node a))]);
  b ← attempt aid;
  v ← public b;
  mret (Reclaimed v checked.1 moved.1 None None notice).

(** ** Taking over *)
Definition own_attempt (driver : string) (fence current : Z) (r : attempt_row) : attempt_row :=
  r <| a_owner := Some driver |> <| a_fence := fence |>
    <| a_lease := Some (add_seconds current DEFAULT_LEASE_SECONDS) |> <| a_heartbeat := Some current |>
    <| a_updated := current |>.

Definition take_over_attempt (x : reclaimer) (aid : string) (expected_fence reason override : json)
    : M db reclaimed :=
  reason ← lift (text reason "takeover reason" 4000);
  override ← lift (override_reason_text override);
  driver ← get_some (truthy (rr_driver x)) (ClaimError "driver_identity_required");
  lift (refuse_shared_identity driver);;
  current ← now;
  a ← attempt aid;
  require (negb (bool_decide (a_owner a = Some driver))) (ClaimError "already_owner");;
  checked ← reclaimable x a expected_fence override current true;
  let fence := a_fence a + 1 in
  update_attempt aid (own_attempt driver fence current);;
  moved ← transfer_bound_claims (rr_actor x) a current ("attempt taken over: " +:+ reason) (Some driver);
  voided ← void_open_handoffs aid current "attempt taken over";
  event (a_project a) (Some (a_node a)) "attempt_ownership_transferred"
    (jobj ([("attempt_id", JStr aid); ("mode", JStr "takeover"); ("from_driver_id", jopt JStr (a_owner a));
            ("to_driver_id", JStr driver); ("previous_fence", JInt (a_fence a)); ("fence", JInt fence);
            ("lease_expires_at", JInt (add_seconds current DEFAULT_LEASE_SECONDS)); ("reason", JStr reason);
            ("override_reason", jopt JStr override); ("break_glass", JBool checked.1);
            ("actor", JStr (rr_actor x)); ("voided_handoffs", JInt voided)] ++
           match checked.2 with
           | Some p => [("owner_offline", JBool true); ("owner_presence", presence_evidence p)]
           | None => [] end));;
  notice ← notify (a_owner a) None (a_project a) TakeoverNotice
             [("attempt_id", Some aid); ("node_key", Some (a_node a))];
  b ← attempt aid;
  v ← public b;
  mret (Reclaimed v checked.1 [] moved.2 checked.2 notice).
End recovery.
