(* ===== verification/Handoffs.v ===== *)
(** * Handoffs between drivers, and the subagent record

    [core/state_handoffs.py]: an owner offers its attempt or claim to one other
    driver; accepting moves the owner, the fence and the claims in one
    transaction.  [core/state_subagents.py]: who started which worker on an
    attempt, which a handoff reports when the workers are not declared quiescent. *)
From S2P Require Import Prelude Json Text Dag Store Graph Portfolio Presence Claims Enforcement.
From S2P Require Import Review Attempts Evidence External Inbox Takeover Recovery.

Local Open Scope Z_scope.

Definition OFFER_LEASE_SECONDS : Z := 24 * 3600.
Definition MAX_PACKAGE_BYTES : Z := 16 * 1024.
Definition MAX_NEXT_STEP_CHARS : Z := 2000.
Definition LIST_CAPS : list (string * nat) :=
  [("reports", 20%nat); ("open_issue_ids", 100%nat); ("note_entries", 50%nat); ("private_notes", 50%nat);
   ("subagents", 100%nat)].
Definition PACKAGE_KEYS : list string :=
  ["context_hash"; "observation_version"; "event_cursor"; "source"; "workspace"; "workers";
   "pending_checkpoint"; "next_step"] ++ LIST_CAPS.*1.

(** [_view]: an offer past its lease reads as expired. *)
Record handoff_view : Type := HandoffView { hv_row : handoff_row; hv_status : handoff_status }.
Definition handoff_view_of (current : Z) (h : handoff_row) : handoff_view :=
  HandoffView h (if bool_decide (hf_status h = Offered) && (hf_expires h <=? current)
                 then HandoffExpired else hf_status h).

(** ** Packages *)
Definition list_capped (m : gmap string json) (p : string * nat) : bool :=
  match m !! p.1 with
  | None | Some JNull => true
  | Some (JArr l) => (length l <=? p.2)%nat
  | Some _ => false
  end.
Definition next_step_ok (m : gmap string json) : bool :=
  match m !! "next_step" with
  | None => true
  | Some (JStr t) => Z.of_nat (py_len t) <=? MAX_NEXT_STEP_CHARS
  | Some _ => false
  end.
Definition workers_ok (m : gmap string json) : bool :=
  match m !! "workers" with
  | None | Some JNull => true
  | Some (JObj w) => match w !! "quiescent" with Some (JBool _) => true | _ => false end
  | Some _ => false
  end.
Definition high_water (s : db) (pid : string) : nat :=
  foldr Nat.max 0%nat (e_seq <$> select (λ e, bool_decide (e_project e = pid)) (events s)).
Definition cursor_ok (s : db) (pid : string) (m : gmap string json) : bool :=
  match m !! "event_cursor" with
  | None => true
  | Some (JInt z) => (0 <=? z) && (z <=? Z.of_nat (high_water s pid))
  | Some _ => false
  end.
Definition package_reports (m : gmap string json) : list json :=
  match m !! "reports" with Some (JArr l) => l | _ => [] end.
Definition check_report_ref (fs : archive) (j : json) : res unit :=
  match j with
  | JObj r =>
    match r !! "ref", r !! "sha256" with
    | Some (JStr ref), Some (JStr sha) =>
      ensure (hex_of 64 sha) (StateGraphError "package.reports items are {ref, sha256}");;
      _ ← retain_report fs ref sha false; Ok tt
    | _, _ => Err (StateGraphError "package.reports items are {ref, sha256}")
    end
  | _ => Err (StateGraphError "package.reports items are {ref, sha256}")
  end.

Section handoffs.
Context `{Host}.

(** The facts a package states about the attempt it hands over. *)
Definition package_matches (m : gmap string json) (a : attempt_row) : bool :=
  match m !! "context_hash" with Some j => bool_decide (j = JStr (digest (a_context a))) | None => true end &&
  match m !! "observation_version" with Some j => py_eq_int j (a_version a) | None => true end.

(** [_check_package] *)
Definition check_package (fs : archive) (s : db) (pid : string) (package : json) (a : option attempt_row)
    : res (gmap string json) :=
  match package with
  | JObj m =>
    ensure (only_fields m PACKAGE_KEYS) (StateGraphError "package has unknown keys");;
    ensure (Z.of_nat (String.length (canonical package)) <=? MAX_PACKAGE_BYTES)
      (StateGraphError "package exceeds its bytes; it carries references, not content");;
    ensure (forallb (list_capped m) LIST_CAPS) (StateGraphError "package list must be a bounded list");;
    ensure (next_step_ok m) (StateGraphError "package.next_step must be text of bounded length");;
    ensure (workers_ok m) (StateGraphError "package.workers must be {quiescent: bool, detail?, host?}");;
    ensure (match a with Some a => package_matches m a | None => true end) (ClaimError "package_mismatch");;
    ensure (cursor_ok s pid m) (ClaimError "package_mismatch");;
    _ ← mapM (check_report_ref fs) (package_reports m);
    Ok m
  | _ => Err (StateGraphError "package must be an object")
  end.

(** ** Offers *)
Definition require_handoff_driver (driver : option string) : res string :=
  match truthy driver with Some d => Ok d | None => Err (ClaimError "driver_identity_required") end.

(** The attempt or the claim an offer names, with its node. *)
Definition offered_attempt (s : db) (pid aid driver : string) (fence : Z) : res attempt_row :=
  aid ← key (JStr aid) "attempt_id";
  match attempt_at s aid with
  | Some a =>
    ensure (bool_decide (a_project a = pid)) (StateNotFound "attempt not found in project");;
    ensure (ACTIVE (a_status a)) (ClaimError "attempt_not_active");;
    ensure (bool_decide (a_owner a = Some driver)) (ClaimError "not_attempt_owner");;
    ensure (bool_decide (a_fence a = fence)) (ClaimError "stale_fence");;
    Ok a
  | None => Err (StateNotFound "attempt not found in project")
  end.
Definition offered_claim (s : db) (pid cid driver : string) (fence : Z) : res claim_row :=
  cid ← key (JStr cid) "claim_id";
  match select_one (λ c, bool_decide (cl_id c = cid) && bool_decide (cl_project c = pid)) (claims s) with
  | Some c =>
    ensure (is_live c) (ClaimError "claim_not_live");;
    ensure (bool_decide (cl_driver c = driver)) (ClaimError "not_claim_owner");;
    ensure (bool_decide (cl_fence c = fence)) (ClaimError "stale_fence");;
    Ok c
  | None => Err (StateNotFound "claim not found in project")
  end.
Definition offered_subject (s : db) (pid driver : string) (fence : Z) (aid cid : option string)
    : res (option attempt_row * string) :=
  match aid, cid with
  | Some aid, None => a ← offered_attempt s pid aid driver fence; Ok (Some a, a_node a)
  | None, Some cid => c ← offered_claim s pid cid driver fence; Ok (None, cl_node c)
  | _, _ => Err (StateGraphError "offer exactly one subject: attempt_id or claim_id")
  end.

Definition offer_request (aid cid : option string) (to : string) (fence : Z) (package : json) : json :=
  jobj [("attempt_id", jopt JStr aid); ("claim_id", jopt JStr cid); ("to", JStr to); ("fence", JInt fence);
        ("package", package)].
Definition offered_before (pid driver request_key : string) (h : handoff_row) : bool :=
  bool_decide (hf_project h = pid) && bool_decide (hf_from h = driver) && bool_decide (hf_request_key h = request_key).
Definition pending_offer (pid : string) (aid cid : option string) (current : Z) (h : handoff_row) : bool :=
  bool_decide (hf_project h = pid) && bool_decide (hf_status h = Offered) && (current <? hf_expires h) &&
  (same_some aid (hf_attempt h) || same_some cid (hf_claim h)).

Definition insert_handoff (h : handoff_row) : M db unit :=
  clash ← gets (λ s, existsb (λ g, bool_decide (hf_id g = hf_id h)
                       || offered_before (hf_project h) (hf_from h) (hf_request_key h) g) (handoffs s));
  require (negb clash) (IntegrityError "UNIQUE constraint failed: state_handoffs");;
  modify (λ s, s <| handoffs ::= (λ l, (l ++ [h])%list) |>).

Record handoff_result : Type := HandoffResult {
  hr_view : handoff_view; hr_idempotent : bool; hr_notified : option delivery;
  hr_attempt : option public_view; hr_claim : option claim_view; hr_warning : option json }.

Definition offer_handoff (fs : archive) (actor : string) (driver : option string) (pid request_key : string)
    (expected_fence package : json) (aid cid to : option string) : M db handoff_result :=
  driver ← lift (require_handoff_driver driver);
  request_key ← lift (key request_key "request_key");
  require (negb (eqb (bool_decide (aid = None)) (bool_decide (cid = None))))
    (StateGraphError "offer exactly one subject: attempt_id or claim_id");;
  to ← get_some (match truthy to with
                 | Some t => if bool_decide (t = driver) then None else Some t | None => None end)
         (StateGraphError "to_driver_id names the one other driver you offer to (point to point)");
  fence ← get_some (match expected_fence with JInt f => Some f | _ => None end)
            (StateGraphError "expected_owner_fence must be an integer");
  current ← now;
  _ ← project pid;
  s ← gets id;
  subject ← lift (offered_subject s pid driver fence aid cid);
  m ← lift (check_package fs s pid package subject.1);
  let hash := digest (offer_request aid cid to fence package) in
  match select_one (offered_before pid driver request_key) (handoffs s) with
  | Some old =>
    require (bool_decide (hf_request_hash old = hash)) (ClaimError "request_key_reused");;
    mret (HandoffResult (handoff_view_of current old) true None None None None)
  | None =>
    require (negb (existsb (pending_offer pid aid cid current) (handoffs s))) (ClaimError "handoff_pending");;
    u ← uuid4;
    let h := HandoffRow ("handoff-" +:+ u) pid aid cid subject.2 driver to Offered package fence request_key hash
               (add_seconds current OFFER_LEASE_SECONDS) current current None None in
    insert_handoff h;;
    event pid (Some subject.2) "handoff_offered"
      (jobj [("handoff_id", JStr (hf_id h));
             ("subject_kind", JStr (if bool_decide (is_Some subject.1) then "attempt" else "claim"));
             ("attempt_id", jopt JStr aid); ("claim_id", jopt JStr cid); ("from_driver_id", JStr driver);
             ("to_driver_id", JStr to); ("lease_expires_at", JInt (hf_expires h)); ("actor", JStr actor)]);;
    notice ← notify (Some to) (Some driver) pid HandoffOffer
               [("handoff_id", Some (hf_id h)); ("attempt_id", aid); ("claim_id", cid); ("node_key", Some subject.2)];
    mret (HandoffResult (handoff_view_of current h) false notice None None None)
  end.

(** ** Decisions *)
(** [_handoff] *)
Definition handoff_at (pid hid : string) : M db handoff_row :=
  hid ← lift (key hid "handoff_id");
  row ← gets (λ s, select_one (λ h, bool_decide (hf_id h = hid) && bool_decide (hf_project h = pid)) (handoffs s));
  get_some row (StateNotFound "handoff not found in project").

(** [_eligible] *)
Definition eligible_target (h : handoff_row) (driver : string) : res unit :=
  ensure (negb (bool_decide (hf_from h = driver))) (ClaimError "not_handoff_target");;
  ensure (bool_decide (hf_to h = driver)) (ClaimError "not_handoff_target").

(** [_open]: the lapse it records is undone by the refusal that follows. *)
Definition open_offer (h : handoff_row) (current : Z) : res unit :=
  match hv_status (handoff_view_of current h) with
  | Offered => Ok tt
  | HandoffExpired => Err (ClaimError "handoff_expired")
  | _ => Err (ClaimError "handoff_closed")
  end.

Definition decide_handoff (hid : string) (status : handoff_status) (by_ reason : string) (current : Z) : M db unit :=
  modify (λ s, s <| handoffs ::= update_where (λ h, bool_decide (hf_id h = hid))
    (λ h, h <| hf_status := status |> <| hf_decided := Some by_ |> <| hf_reason := Some reason |>
            <| hf_updated := current |>) |>).

(** [_quiescence_warning] *)
Definition quiescence_warning (s : db) (package : json) (a : attempt_row) : option json :=
  let workers := match jget "workers" package with Some (JObj w) => w | _ => ∅ end in
  if bool_decide (workers !! "quiescent" = Some (JBool true)) then None
  else Some (jobj
    [("workers_quiescent", field workers "quiescent"); ("detail", field workers "detail");
     ("registered_subagents",
       jstrs (merge_sort String.le (sa_id <$> select (λ r, bool_decide (sa_attempt r = a_id a)) (subagents s))))]).

Definition accept_attempt (actor driver pid hid aid : string) (h : handoff_row) (expected_fence : json) (current : Z)
    : M db (option public_view * option claim_view * option json) :=
  a ← attempt aid;
  require (ACTIVE (a_status a)) (ClaimError "attempt_not_active");;
  require (bool_decide (a_owner a = Some (hf_from h)) && py_eq_int expected_fence (a_fence a) &&
           bool_decide (a_fence a = hf_fence h)) (ClaimError "stale_fence");;
  warning ← gets (λ s, quiescence_warning s (hf_package h) a);
  let fence := a_fence a + 1 in
  update_attempt aid (own_attempt driver fence current);;
  moved ← transfer_bound_claims actor a current ("handoff " +:+ hid +:+ " accepted") (Some driver);
  event pid (Some (a_node a)) "attempt_ownership_transferred"
    (jobj [("attempt_id", JStr aid); ("mode", JStr "handoff"); ("handoff_id", JStr hid);
           ("from_driver_id", JStr (hf_from h)); ("to_driver_id", JStr driver);
           ("previous_fence", JInt (a_fence a)); ("fence", JInt fence);
           ("lease_expires_at", JInt (add_seconds current DEFAULT_LEASE_SECONDS));
           ("quiescence_warning", jopt id warning); ("actor", JStr actor)]);;
  b ← attempt aid;
  v ← public b;
  mret (Some v, moved.2, warning).

Definition accept_claim (actor driver pid hid cid : string) (h : handoff_row) (expected_fence : json) (current : Z)
    : M db (option public_view * option claim_view * option json) :=
  row ← gets (λ s, select_one (λ c, bool_decide (cl_id c = cid)) (claims s));
  c ← get_some row (TypeError "'NoneType' object is not iterable");
  require (is_live c && bool_decide (cl_driver c = hf_from h) && py_eq_int expected_fence (cl_fence c) &&
           bool_decide (cl_fence c = hf_fence h)) (ClaimError "stale_fence");;
  let reason := "handoff " +:+ hid +:+ " accepted" in
  update_claim (cl_id c) (λ r, r <| cl_status := Transferred |> <| cl_updated := current |>);;
  history actor (c <| cl_status := Transferred |> <| cl_updated := current |>) Transferred reason;;
  event pid (Some (cl_node c)) "claim_transferred"
    (jobj [("claim_id", JStr (cl_id c)); ("driver_id", JStr (cl_driver c)); ("to_driver_id", JStr driver);
           ("purpose", JStr (purpose_text (cl_purpose c))); ("fence", JInt (cl_fence c));
           ("handoff_id", JStr hid); ("actor", JStr actor)]);;
  v ← new_claim_for actor (cl_attempt c) pid (cl_node c) (cl_revision c) driver current reason
        (cl_workspace c) (cl_purpose c) (cl_subagent c);
  mret (None, Some v, None).

Definition accept_handoff (actor : string) (driver : option string) (pid hid : string) (expected_fence : json)
    : M db handoff_result :=
  driver ← lift (require_handoff_driver driver);
  current ← now;
  h ← handoff_at pid hid;
  lift (eligible_target h driver);;
  lift (open_offer h current);;
  moved ← match hf_attempt h, hf_claim h with
          | Some aid, _ => accept_attempt actor driver pid hid aid h expected_fence current
          | None, Some cid => accept_claim actor driver pid hid cid h expected_fence current
          | None, None => raise (TypeError "'NoneType' object is not iterable")
          end;
  decide_handoff hid HandoffAccepted driver "accepted" current;;
  notice ← notify (Some (hf_from h)) (Some driver) pid HandoffReply
             [("handoff_id", Some hid); ("attempt_id", hf_attempt h); ("claim_id", hf_claim h);
              ("node_key", Some (hf_node h))];
  h' ← handoff_at pid hid;
  mret (HandoffResult (handoff_view_of current h') false notice moved.1.1 moved.1.2 moved.2).

Definition decline_handoff (actor : string) (driver : option string) (pid hid : string) (reason : json)
    : M db handoff_result :=
  driver ← lift (require_handoff_driver driver);
  reason ← lift (text reason "decline reason" 2000);
  current ← now;
  h ← handoff_at pid hid;
  lift (eligible_target h driver);;
  lift (open_offer h current);;
  decide_handoff hid Declined driver reason current;;
  event pid (Some (hf_node h)) "handoff_declined"
    (jobj [("handoff_id", JStr hid); ("by_driver_id", JStr driver); ("reason", JStr reason); ("actor", JStr actor)]);;
  notice ← notify (Some (hf_from h)) (Some driver) pid HandoffReply
             [("handoff_id", Some hid); ("node_key", Some (hf_node h)); ("attempt_id", hf_attempt h);
              ("claim_id", hf_claim h)];
  h' ← handoff_at pid hid;
  mret (HandoffResult (handoff_view_of current h') false notice None None None).

Definition withdraw_handoff (actor : string) (driver : option string) (is_admin : bool) (pid hid : string)
    (reason : json) : M db handoff_result :=
  driver ← lift (require_handoff_driver driver);
  reason ← get_some (match reason with
                     | JStr r => if Z.of_nat (py_len r) <=? 2000 then Some r else None | _ => None end)
             (StateGraphError "reason must be text of at most 2000 characters");
  current ← now;
  h ← handoff_at pid hid;
  require (bool_decide (hf_from h = driver) || is_admin) (ClaimError "not_handoff_owner");;
  if bool_decide (hf_status h = Withdrawn)
  then mret (HandoffResult (handoff_view_of current h) true None None None None)
  else
    lift (open_offer h current);;
    decide_handoff hid Withdrawn driver reason current;;
    event pid (Some (hf_node h)) "handoff_withdrawn"
      (jobj [("handoff_id", JStr hid); ("by_driver_id", JStr driver); ("reason", JStr reason);
             ("actor", JStr actor); ("break_glass", JBool (negb (bool_decide (hf_from h = driver))))]);;
    h' ← handoff_at pid hid;
    mret (HandoffResult (handoff_view_of current h') false None None None None).

(** ** Reads *)
Definition handoff_newest (g h : handoff_row) : Prop :=
  hf_created h < hf_created g ∨ hf_created g = hf_created h ∧ String.le (hf_id g) (hf_id h).
#[export] Instance handoff_newest_dec : RelDecision handoff_newest.
Proof. intros g h. unfold handoff_newest. apply _. Defined.

Definition list_handoffs (pid : string) (statuses : list handoff_status) (limit : nat)
    : M db (list handoff_view * bool * Z) :=
  current ← now;
  _ ← project pid;
  rows ← gets (λ s, take (Z.to_nat 1000) (merge_sort handoff_newest
                      (select (λ h, bool_decide (hf_project h = pid)) (handoffs s))));
  let views := handoff_view_of current <$> rows in
  let views := match statuses with
               | [] => views
               | _ => select (λ v, bool_decide (hv_status v ∈ statuses)) views end in
  mret (take limit views, (limit <? length views)%nat, current).

Definition get_handoff (pid hid : string) : M db (handoff_view * Z) :=
  current ← now;
  _ ← project pid;
  h ← handoff_at pid hid;
  mret (handoff_view_of current h, current).

(** ** The subagent record *)
(** [_LABEL]: [[A-Za-z0-9][A-Za-z0-9_.-]{0,99}\Z] *)
Definition LABEL (s : string) : bool :=
  match s with
  | "" => false
  | String c r => is_alnum c && all_chars is_key_char r && (String.length r <=? 99)%nat
  end.

Definition register_subagent (actor : string) (driver : option string) (pid aid : string)
    (label workspace : json) : M db (subagent_row * bool) :=
  driver ← lift (require_handoff_driver driver);
  label ← get_some (match label with JStr l => if LABEL l then Some l else None | _ => None end)
            (StateGraphError "label must match [A-Za-z0-9][A-Za-z0-9_.-]{0,99}");
  workspace ← lift (text workspace "workspace" 500);
  let sid := driver +:+ "/" +:+ label in
  let hash := digest (jobj [("attempt_id", JStr aid); ("workspace", JStr workspace)]) in
  _ ← project pid;
  old ← gets (λ s, select_one (λ r, bool_decide (sa_id r = sid)) (subagents s));
  match old with
  | Some r =>
    require (bool_decide (sa_hash r = hash) && bool_decide (sa_project r = pid)) (ClaimError "subagent_exists");;
    mret (r, true)
  | None =>
    aid ← lift (key aid "attempt_id");
    row ← gets (λ s, attempt_at s aid);
    a ← get_some (match row with
                  | Some a => if bool_decide (a_project a = pid) then Some a else None | None => None end)
          (StateNotFound "attempt not found in project");
    require (ACTIVE (a_status a)) (ClaimError "attempt_not_active");;
    require (bool_decide (a_owner a = Some driver)) (ClaimError "not_attempt_owner");;
    stamp ← now;
    let r := SubagentRow sid driver pid aid (a_node a) workspace hash stamp in
    modify (λ s, s <| subagents ::= (λ l, (l ++ [r])%list) |>);;
    event pid (Some (a_node a)) "subagent_registered"
      (jobj [("subagent_id", JStr sid); ("attempt_id", JStr aid); ("parent_driver_id", JStr driver);
             ("workspace", JStr workspace); ("actor", JStr actor)]);;
    mret (r, false)
  end.

(** [ORDER BY created_at, subagent_id] *)
Definition subagent_le (q r : subagent_row) : Prop :=
  sa_created q < sa_created r ∨ sa_created q = sa_created r ∧ String.le (sa_id q) (sa_id r).
#[export] Instance subagent_le_dec : RelDecision subagent_le.
Proof. intros q r. unfold subagent_le. apply _. Defined.
Definition list_subagents (pid : string) (aid parent : option string) (limit : nat)
    : M db (list subagent_row * bool) :=
  _ ← project pid;
  rows ← gets (λ s, merge_sort subagent_le (select (λ r, bool_decide (sa_project r = pid) &&
    match aid with Some a => bool_decide (sa_attempt r = a) | None => true end &&
    match parent with Some d => bool_decide (sa_driver r = d) | None => true end) (subagents s)));
  mret (take limit rows, (limit <? length rows)%nat).
End handoffs.
