(* ===== verification/View.v ===== *)
(** * The graph view and the frontier

    [_graph_view], [get_graph], [get_node], [frontier], [ready_next_action],
    [ready_action_counts] and [facet_lint] of [core/state_graph.py]: what a
    driver reads to choose its next action. *)
From S2P Require Import Prelude Json Text Dag Store Graph Portfolio Presence Claims.
From S2P Require Import Enforcement Review Attempts.

Inductive readiness : Set :=
  | Closed | InProgressLeaseExpired | InProgress | Held | Blocked | Ready.
#[export] Instance readiness_eq_dec : EqDecision readiness.
Proof. solve_decision. Defined.

Inductive ready_action : Set := CandidateReview | NewAttempt.
#[export] Instance ready_action_eq_dec : EqDecision ready_action.
Proof. solve_decision. Defined.

Definition ready_next_action (status : node_status) (r : readiness) : option ready_action :=
  if negb (bool_decide (r = Ready)) then None
  else match status with
       | CANDIDATE => Some CandidateReview
       | OPEN | STALE => Some NewAttempt
       | _ => None
       end.

Record item : Type := Item {
  it_key : string; it_node : node_row; it_deps : list string; it_blocked : list string;
  it_hold : option block; it_own_hold : hold_row; it_readiness : readiness;
  it_action : option ready_action }.

(** Nodes with an active attempt, and those whose active attempt's lease ran out. *)
Definition active_nodes (s : db) (pid : string) : gset string :=
  list_to_set (a_node <$> select (λ a, bool_decide (a_project a = pid) && ACTIVE (a_status a)) (attempts s)).
Definition lapsed_nodes (s : db) (pid : string) (current : Z) : gset string :=
  list_to_set (a_node <$> select (λ a, bool_decide (a_project a = pid) && ACTIVE (a_status a) &&
    match a_lease a with Some e => (e <=? current)%Z | None => false end) (attempts s)).

Definition verified (n : node_row) : bool :=
  bool_decide (n_status n = VERIFIED) && bool_decide (is_Some (truthy (n_receipt n))).
(** A dependency always has a row (a foreign key; [Graph.graph_inv]). *)
Definition blocked_by (ns : gmap string node_row) (ds : list string) : list string :=
  List.filter (λ d, match ns !! d with Some n => negb (verified n) | None => true end) ds.

Definition readiness_of (s : db) (pid : string) (current : Z) (nk : string) (n : node_row)
    (hold : option block) (blocked : list string) : readiness :=
  if bool_decide (n_status n = VERIFIED) || bool_decide (n_status n = SUPERSEDED) then Closed
  else if bool_decide (nk ∈ lapsed_nodes s pid current) then InProgressLeaseExpired
  else if bool_decide (nk ∈ active_nodes s pid) then InProgress
  else if bool_decide (is_Some hold) then Held
  else if negb (bool_decide (blocked = [])) then Blocked
  else Ready.

Definition item_of (s : db) (pid : string) (current : Z) (nk : string) (n : node_row) : item :=
  let ds := preds (graph_of s pid) nk in
  let blocked := blocked_by (nodes_of s pid) ds in
  let hold := dispatch_block s pid nk in
  let r := readiness_of s pid current nk n hold blocked in
  Item nk n ds blocked hold (node_hold s pid nk) r (ready_next_action (n_status n) r).

(** [sorted(result, key=lambda n: (-n["priority"], n["node_key"]))] *)
Definition item_le (x y : item) : Prop :=
  (n_priority (it_node y) < n_priority (it_node x))%Z ∨
  (n_priority (it_node x) = n_priority (it_node y) ∧ String.le (it_key x) (it_key y)).
#[export] Instance item_le_dec : RelDecision item_le.
Proof. intros x y. unfold item_le. apply _. Defined.

Definition items (s : db) (pid : string) (current : Z) : list item :=
  merge_sort item_le ((λ p, item_of s pid current p.1 p.2) <$> map_to_list (nodes_of s pid)).

(** [ready_action_counts]: how many nodes each next action has. *)
Definition ready_action_counts (l : list item) : nat * nat :=
  (length (List.filter (λ x, bool_decide (it_action x = Some CandidateReview)) l),
   length (List.filter (λ x, bool_decide (it_action x = Some NewAttempt)) l)).

Record frontier_entry : Type := FrontierEntry {
  fe_item : item; fe_goal : string; fe_truncated : bool }.
Definition frontier_entry_of (x : item) : frontier_entry :=
  let goal := chars (n_goal (it_node x)) in
  FrontierEntry x (concat_chars (take 1200 goal)) (1200 <? length goal).

Record frontier_view : Type := FrontierView {
  fr_nodes : list frontier_entry; fr_total : nat; fr_truncated : bool; fr_counts : nat * nat }.

Section view.
Context `{Host}.

(** [_graph_view], [get_graph] *)
Definition get_graph (pid : string) : M db (project_row * list item) :=
  row ← project pid;
  current ← now;
  xs ← gets (λ s, items s pid current);
  mret (row, xs).

Definition get_node (pid nk : string) : M db item :=
  _ ← lift (key nk "key");
  '(_, xs) ← get_graph pid;
  get_some (find (λ x, bool_decide (it_key x = nk)) xs) (StateNotFound "state node not found").

Definition frontier (pid : string) (limit : json) : M db frontier_view :=
  limit ← lift (integer limit "limit" 1 200);
  '(_, xs) ← get_graph pid;
  let ready := List.filter (λ x, bool_decide (it_readiness x = Ready)) xs in
  mret (FrontierView (frontier_entry_of <$> take (Z.to_nat limit) ready) (length ready)
          (limit <? Z.of_nat (length ready))%Z (ready_action_counts ready)).

(** [facet_lint] *)
Record lint : Type := Lint {
  ln_violations : list violation; ln_warnings : list (string * list string);
  ln_gaps : gmap string (list string);
  ln_faceted : nat; ln_legacy : nat }.
Definition facet_lint (pid : string) : M db lint :=
  _ ← project pid;
  ns ← gets (λ s, nodes_of s pid);
  g ← gets (λ s, graph_of s pid);
  let fs := facets_of ns in
  let named := List.filter (λ p, bool_decide (is_Some p.2)) (map_to_list fs) in
  mret (Lint (facet_violations fs g) (facet_warnings fs g) (shipping_gaps fs g)
          (length named) (size fs - length named)).
End view.
