(* ===== verification/Ledger.v ===== *)
(** * What State never rewrites

    The append-only part of the database: events, revisions, evidence, receipts,
    observations, report bytes, references, retirements, claim history, the driver
    audit, subagent records, messages and design facts only grow, and an attempt, a
    claim, a handoff, an issue or a delivery keeps its row and the columns that identify
    it.  [ledger s s'] says so of two states; every operation of the development is
    shown to respect it.  In the database the same is enforced by triggers; here it
    follows from the code. *)
From S2P Require Import Prelude Json Text Dag Store Graph Portfolio Presence Claims.
From S2P Require Import Enforcement Review Attempts Evidence External Registry Inbox Issues Design.
From S2P Require Import Takeover Recovery Handoffs View.

(** The columns of an attempt and of a claim that no operation changes. *)
Definition attempt_identity (a : attempt_row) :=
  (a_id a, a_project a, a_node a, a_revision a, a_hash a, a_snapshot a, a_request_key a,
   a_request_hash a, (a_kind a, a_workflow a, a_execution a, a_harness a, a_external a, a_reporter a),
   a_created a).
Definition claim_identity (c : claim_row) :=
  (cl_id c, cl_project c, cl_node c, cl_driver c, cl_purpose c, cl_revision c,
   cl_workspace c, cl_subagent c, cl_lease c, cl_request_key c, cl_request_hash c, cl_created c).
Definition handoff_identity (h : handoff_row) :=
  (hf_id h, hf_project h, hf_attempt h, hf_claim h, hf_node h, hf_from h, hf_to h, hf_package h, hf_fence h,
   hf_request_key h, hf_request_hash h, hf_expires h, hf_created h).
Definition issue_identity (i : issue_row) :=
  (is_id i, is_project i, is_request_key i, is_request_hash i, is_kind i, is_title i, is_body i, is_source i,
   is_actor i, is_director i, is_created i).

Definition delivery_identity (d : delivery_row) := (dl_id d, dl_message d, dl_target d, dl_seq d).

Record ledger (s s' : db) : Prop := Ledger {
  lg_events : events s `prefix_of` events s';
  lg_revisions : revisions s `prefix_of` revisions s';
  lg_evidence : evidence s `prefix_of` evidence s';
  lg_observations : observations s `prefix_of` observations s';
  lg_history : claim_history s `prefix_of` claim_history s';
  lg_retirements : retirements s `prefix_of` retirements s';
  lg_audit : audit s `prefix_of` audit s';
  lg_acceptances : acceptances s ⊆ acceptances s';
  lg_blobs : blobs s ⊆ blobs s';
  lg_projects : projects s ⊆ projects s';
  lg_links : links s ⊆ links s';
  lg_attempts : attempt_identity <$> attempts s `prefix_of` attempt_identity <$> attempts s';
  lg_claims : claim_identity <$> claims s `prefix_of` claim_identity <$> claims s';
  lg_subagents : subagents s `prefix_of` subagents s';
  lg_messages : messages s `prefix_of` messages s';
  lg_deliveries : delivery_identity <$> deliveries s `prefix_of` delivery_identity <$> deliveries s';
  lg_requests : inbox_requests s ⊆ inbox_requests s';
  lg_handoffs : handoff_identity <$> handoffs s `prefix_of` handoff_identity <$> handoffs s';
  lg_issues : issue_identity <$> issues s `prefix_of` issue_identity <$> issues s';
  lg_designs : design_revisions s ⊆ design_revisions s';
  lg_baselines : design_baselines s ⊆ design_baselines s';
  lg_bindings : design_bindings s ⊆ design_bindings s';
}.

#[export] Instance ledger_preorder : PreOrder ledger.
Proof.
  split.
  - intros s. by split.
  - intros s1 s2 s3 [] []. split; by etrans.
Qed.

Lemma fmap_update_where {A B} (g : A → B) p f (t : list A) :
  (∀ x, g (f x) = g x) → g <$> update_where p f t = g <$> t.
Proof.
  intros Hg. unfold update_where. rewrite <- list_fmap_compose.
  apply list_fmap_ext. intros i x _. simpl. destruct (p x); [apply Hg|done].
Qed.

(** One update of the database. *)
Ltac ledger_update :=
  split; simpl;
  first
    [ reflexivity
    | apply prefix_app_r; reflexivity
    | rewrite fmap_app; apply prefix_app_r; reflexivity
    | rewrite fmap_update_where by (intros; reflexivity); reflexivity ].
Ltac ledger := keep_with ledger_update.

Section primitives.
Context `{Host}.

Lemma ledger_now : keeps ledger now.
Proof. intros s. apply wp_now. intros t. by split. Qed.
Lemma ledger_uuid4 : keeps ledger uuid4.
Proof. intros s. apply wp_uuid4. intros t. by split. Qed.
Lemma ledger_event pid nk ty payload : keeps ledger (event pid nk ty payload).
Proof.
  unfold event. apply keeps_bind; [apply _|apply ledger_now|]. intros t. ledger.
Qed.
Lemma ledger_project pid : keeps ledger (project pid).
Proof. intros s. by apply wp_project. Qed.
Lemma ledger_node pid nk : keeps ledger (node pid nk).
Proof. intros s. by apply wp_node. Qed.
End primitives.
#[export] Hint Resolve ledger_now ledger_uuid4 ledger_event ledger_project ledger_node : keeps.

Section graph.
Context `{Host}.

Lemma ledger_update_node pid nk f : keeps ledger (update_node pid nk f).
Proof. unfold update_node. ledger. Qed.
Lemma ledger_insert_deps pid nk ds : keeps ledger (insert_deps pid nk ds).
Proof. unfold insert_deps. ledger. Qed.
Lemma ledger_delete_deps pid nk : keeps ledger (delete_deps pid nk).
Proof. unfold delete_deps. ledger. Qed.
Lemma ledger_snapshot_revision pid nk n ds : keeps ledger (snapshot_revision pid nk n ds).
Proof. unfold snapshot_revision. ledger. Qed.
#[local] Hint Resolve ledger_update_node ledger_insert_deps ledger_delete_deps
  ledger_snapshot_revision : keeps.
Lemma ledger_invalidate pid nk : keeps ledger (invalidate pid nk).
Proof. unfold invalidate. ledger. Qed.
#[local] Hint Resolve ledger_invalidate : keeps.

Lemma ledger_create_project pid title source : keeps ledger (create_project pid title source).
Proof.
  intros s. unfold create_project, fetch_project. apply wp_bind, wp_lift. intros ? _.
  apply wp_bind, wp_lift. intros title' _. apply wp_bind.
  apply (wp_mono _ (λ _ s', s' = s)); [destruct source; by wp_all|]. intros [] s' ->.
  apply wp_bind, wp_gets. destruct (projects s !! pid) as [row|] eqn:E.
  { by wp_all. }
  apply wp_bind, wp_now. intros t. apply wp_bind, wp_modify. apply keeps_from; [apply _| |ledger].
  split; try done. simpl. by apply insert_subseteq.
Qed.
Lemma ledger_set_project_access pid vis actor : keeps ledger (set_project_access pid vis actor).
Proof. unfold set_project_access. ledger. Qed.
Lemma ledger_insert_node pid p : keeps ledger (insert_node pid p).
Proof. unfold insert_node. ledger. Qed.
Lemma ledger_insert_edges pid p : keeps ledger (insert_edges pid p).
Proof. unfold insert_edges. ledger. Qed.
#[local] Hint Resolve ledger_insert_node ledger_insert_edges : keeps.
Lemma ledger_add pid specs : keeps ledger (add pid specs).
Proof. unfold add. ledger. Qed.
Lemma ledger_set_facet pid nk v : keeps ledger (set_facet pid nk v).
Proof. unfold set_facet. ledger. Qed.
Lemma ledger_set_node_priority pid nk p e r a d : keeps ledger (set_node_priority pid nk p e r a d).
Proof. unfold set_node_priority. ledger. Qed.
Lemma ledger_revise pid nk e r g c ds : keeps ledger (revise pid nk e r g c ds).
Proof. unfold revise. ledger. Qed.
#[local] Hint Resolve ledger_add ledger_revise : keeps.
Lemma ledger_split pid nk e c r : keeps ledger (split pid nk e c r).
Proof. unfold split. ledger. Qed.
Lemma ledger_supersede pid nk e r : keeps ledger (supersede pid nk e r).
Proof. unfold supersede. ledger. Qed.
End graph.
#[export] Hint Resolve ledger_update_node ledger_invalidate ledger_create_project
  ledger_set_project_access ledger_add ledger_set_facet ledger_set_node_priority ledger_revise
  ledger_split ledger_supersede : keeps.

Section portfolio.
Context `{Host}.

Lemma ledger_require_dispatch pid nk : keeps ledger (require_dispatch pid nk).
Proof. unfold require_dispatch. ledger. Qed.
Lemma ledger_bind_source a p r c e : keeps ledger (bind_source a p r c e).
Proof. unfold bind_source. ledger. Qed.
Lemma ledger_write_policy p r m f t a : keeps ledger (write_policy p r m f t a).
Proof. unfold write_policy. ledger. Qed.
#[local] Hint Resolve ledger_write_policy : keeps.
Lemma ledger_set_dispatch a p m e r : keeps ledger (set_dispatch a p m e r).
Proof. unfold set_dispatch. ledger. Qed.
Lemma ledger_set_claim_enforcement a i p v e r : keeps ledger (set_claim_enforcement a i p v e r).
Proof. unfold set_claim_enforcement. ledger. Qed.
Lemma ledger_set_review_independence a i p v e r :
  keeps ledger (set_review_independence a i p v e r).
Proof. unfold set_review_independence. ledger. Qed.
Lemma ledger_hold a p n h e r : keeps ledger (hold a p n h e r).
Proof. unfold hold. ledger. Qed.
#[local] Hint Resolve ledger_hold : keeps.
Lemma ledger_retire a i t p n r u e h k s :
  keeps ledger (retire_context_run_protection a i t p n r u e h k s).
Proof. unfold retire_context_run_protection. ledger. Qed.
Lemma ledger_add_reference a p n r k f l v o ar rp pr :
  keeps ledger (add_reference a p n r k f l v o ar rp pr).
Proof.
  intros s. unfold add_reference.
  do 6 (apply wp_bind; first [apply wp_lift|apply wp_get_some]; intros ? _).
  apply wp_bind, wp_get_some. intros protect _.
  do 2 (apply wp_bind, wp_lift; intros ? _). cbv zeta. apply wp_bind, wp_node. intros row _ _ _.
  apply wp_bind, wp_gets. destruct (links s !! (p, _)) as [old|] eqn:E; [by wp_all|].
  apply wp_bind, wp_now. intros t. apply wp_bind, wp_modify.
  apply keeps_from; [apply _| |ledger]. split; try done. simpl. by apply insert_subseteq.
Qed.
End portfolio.
#[export] Hint Resolve ledger_require_dispatch ledger_bind_source ledger_set_dispatch
  ledger_set_claim_enforcement ledger_set_review_independence ledger_hold ledger_retire
  ledger_add_reference : keeps.

Section presence.
Context `{Host}.

Lemma ledger_presence_audit d st c a : keeps ledger (presence_audit d st c a).
Proof. unfold presence_audit. ledger. Qed.
#[local] Hint Resolve ledger_presence_audit : keeps.
Lemma ledger_clear d c a : keeps ledger (clear d c a).
Proof. unfold clear. ledger. Qed.
#[local] Hint Resolve ledger_clear : keeps.
Lemma ledger_mark_back d c : keeps ledger (mark_back d c).
Proof. unfold mark_back. ledger. Qed.
Lemma ledger_declare d st r e a : keeps ledger (declare d st r e a).
Proof. unfold declare. ledger. Qed.
Lemma ledger_wait_begin env d t : keeps ledger (wait_begin env d t).
Proof. unfold wait_begin. ledger. Qed.
Lemma ledger_wait_end w : keeps ledger (wait_end w).
Proof. unfold wait_end. ledger. Qed.
End presence.
#[export] Hint Resolve ledger_mark_back ledger_declare ledger_wait_begin ledger_wait_end : keeps.

Section claims.
Context `{Host}.

(** The updates of claims and attempts in the code name no identifying column. *)
Lemma ledger_update_claim cid f :
  (∀ c, claim_identity (f c) = claim_identity c) → keeps ledger (update_claim cid f).
Proof. intros Hf. apply keeps_modify. intros s. split; try done. simpl. by rewrite fmap_update_where. Qed.
Lemma ledger_update_attempt aid f :
  (∀ a, attempt_identity (f a) = attempt_identity a) → keeps ledger (update_attempt aid f).
Proof. intros Hf. apply keeps_modify. intros s. split; try done. simpl. by rewrite fmap_update_where. Qed.
Lemma ledger_history a c st r : keeps ledger (history a c st r).
Proof. unfold history. ledger. Qed.
End claims.
#[export] Hint Resolve ledger_history : keeps.
#[export] Hint Extern 1 (keeps ledger (update_claim _ _)) =>
  apply ledger_update_claim; intros; reflexivity : keeps.
#[export] Hint Extern 1 (keeps ledger (update_attempt _ _)) =>
  apply ledger_update_attempt; intros; reflexivity : keeps.

Section claim_operations.
Context `{Host}.

Lemma ledger_expire a p t x : keeps ledger (expire a p t x).
Proof. unfold expire. ledger. Qed.
#[local] Hint Resolve ledger_expire : keeps.
Lemma ledger_sweep_conn a p t nk : keeps ledger (sweep_conn a p t nk).
Proof. unfold sweep_conn. ledger. Qed.
#[local] Hint Resolve ledger_sweep_conn : keeps.
Lemma ledger_sweep a b p : keeps ledger (sweep a b p).
Proof. unfold sweep. ledger. Qed.
#[local] Hint Resolve ledger_sweep : keeps.
Lemma ledger_refuse_exclusive_holder p n d : keeps ledger (refuse_exclusive_holder p n d).
Proof. unfold refuse_exclusive_holder. ledger. Qed.
Lemma ledger_require_driver d : keeps ledger (require_driver d).
Proof. unfold require_driver. ledger. Qed.
Lemma ledger_claim_at p c : keeps ledger (claim_at p c).
Proof. unfold claim_at. ledger. Qed.
#[local] Hint Resolve ledger_refuse_exclusive_holder ledger_require_driver ledger_claim_at : keeps.
Lemma ledger_insert_claim p n d f : keeps ledger (insert_claim p n d f).
Proof. unfold insert_claim. ledger. Qed.
#[local] Hint Resolve ledger_insert_claim : keeps.
Lemma ledger_claim_node a d p n u e k l w sa : keeps ledger (claim_node a d p n u e k l w sa).
Proof. unfold claim_node. ledger. Qed.
Lemma ledger_release_claim a d i p c f r : keeps ledger (release_claim a d i p c f r).
Proof. unfold release_claim. ledger. Qed.
Lemma ledger_renew_claim t c : keeps ledger (renew_claim t c).
Proof. unfold renew_claim. ledger. Qed.
#[local] Hint Resolve ledger_renew_claim : keeps.
Lemma ledger_beat_claim p d t x : keeps ledger (beat_claim p d t x).
Proof. unfold beat_claim. ledger. Qed.
Lemma ledger_beat_attempt p d t x : keeps ledger (beat_attempt p d t x).
Proof. unfold beat_attempt. ledger. Qed.
Lemma ledger_beat_subagent p d t x : keeps ledger (beat_subagent p d t x).
Proof. unfold beat_subagent. ledger. Qed.
#[local] Hint Resolve ledger_beat_claim ledger_beat_attempt ledger_beat_subagent : keeps.
Lemma ledger_heartbeat d p cs xs ss : keeps ledger (heartbeat d p cs xs ss).
Proof. unfold heartbeat. ledger. Qed.
Lemma ledger_list_claims env a b p nks sts d l : keeps ledger (list_claims env a b p nks sts d l).
Proof. unfold list_claims. ledger. Qed.
Lemma ledger_get_claim env a b p c : keeps ledger (get_claim env a b p c).
Proof. unfold get_claim. ledger. Qed.
Lemma ledger_checkpoint_controller r d i a : keeps ledger (checkpoint_controller r d i a).
Proof. unfold checkpoint_controller. ledger. Qed.
End claim_operations.
#[export] Hint Resolve ledger_sweep_conn ledger_sweep ledger_claim_node ledger_release_claim
  ledger_heartbeat ledger_list_claims ledger_get_claim ledger_checkpoint_controller : keeps.

Section attempt_operations.
Context `{Host}.

Lemma ledger_public a : keeps ledger (public a).
Proof. unfold public. ledger. Qed.
Lemma ledger_attempt aid : keeps ledger (attempt aid).
Proof. unfold attempt. ledger. Qed.
#[local] Hint Resolve ledger_public ledger_attempt : keeps.
Lemma ledger_get aid : keeps ledger (get aid).
Proof. unfold get. ledger. Qed.
Lemma ledger_acceptance_row_at rid : keeps ledger (acceptance_row_at rid).
Proof. unfold acceptance_row_at. ledger. Qed.
Lemma ledger_release_bound a x r c : keeps ledger (release_bound a x r c).
Proof. unfold release_bound. ledger. Qed.
#[local] Hint Resolve ledger_release_bound : keeps.
Lemma ledger_release_bound_claims a x st : keeps ledger (release_bound_claims a x st).
Proof. unfold release_bound_claims. ledger. Qed.
#[local] Hint Resolve ledger_release_bound_claims : keeps.
Lemma ledger_relay_source p pid nk w n ds : keeps ledger (relay_source p pid nk w n ds).
Proof. unfold relay_source. ledger. Qed.
Lemma ledger_insert_attempt a : keeps ledger (insert_attempt a).
Proof. unfold insert_attempt. ledger. Qed.
Lemma ledger_replay r h old : keeps ledger (replay r h old).
Proof. unfold replay. ledger. Qed.
#[local] Hint Resolve ledger_relay_source ledger_insert_attempt ledger_replay : keeps.
Lemma ledger_admission_guards r rev n : keeps ledger (admission_guards r rev n).
Proof. unfold admission_guards. ledger. Qed.
Lemma ledger_admission_context r rev i n ds c : keeps ledger (admission_context r rev i n ds c).
Proof. unfold admission_context. ledger. Qed.
Lemma ledger_preflight_guard r m : keeps ledger (preflight_guard r m).
Proof. unfold preflight_guard. ledger. Qed.
Lemma ledger_emit p n a v b : keeps ledger (emit p n a v b).
Proof. unfold emit. ledger. Qed.
#[local] Hint Resolve ledger_emit : keeps.
Lemma ledger_admit r rev h n ds c b ctx rel pr : keeps ledger (admit_attempt r rev h n ds c b ctx rel pr).
Proof. unfold admit_attempt. ledger. Qed.
#[local] Hint Resolve ledger_admission_guards ledger_admission_context ledger_preflight_guard
  ledger_admit : keeps.
Lemma ledger_reserve_once r m rep : keeps ledger (reserve_once r m rep).
Proof. unfold reserve_once. ledger. Qed.
#[local] Hint Resolve ledger_reserve_once : keeps.
Lemma ledger_reserve r p rep : keeps ledger (reserve r p rep).
Proof. unfold reserve. ledger. Qed.
#[local] Hint Resolve ledger_reserve : keeps.
Lemma ledger_record_preflight a r e : keeps ledger (record_preflight a r e).
Proof. unfold record_preflight. ledger. Qed.
Lemma ledger_pin_relay a r : keeps ledger (pin_relay a r).
Proof. unfold pin_relay. ledger. Qed.
Lemma ledger_pin_prior_candidate a p v : keeps ledger (pin_prior_candidate a p v).
Proof. unfold pin_prior_candidate. ledger. Qed.
Lemma ledger_reconcile_prior_candidate a e v : keeps ledger (reconcile_prior_candidate a e v).
Proof. unfold reconcile_prior_candidate. ledger. Qed.
Lemma ledger_pin_host_contract a d : keeps ledger (pin_host_contract a d).
Proof. unfold pin_host_contract. ledger. Qed.
Lemma ledger_claim_launch a d i c k f : keeps ledger (claim_launch a d i c k f).
Proof. unfold claim_launch. ledger. Qed.
Lemma ledger_retire_reservation a r : keeps ledger (retire_reservation a r).
Proof. unfold retire_reservation. ledger. Qed.
Lemma ledger_launch_uncertain a r : keeps ledger (launch_uncertain a r).
Proof. unfold launch_uncertain. ledger. Qed.
Lemma ledger_bind_run sf a r : keeps ledger (bind_run sf a r).
Proof. unfold bind_run. ledger. Qed.
Lemma ledger_retract_acceptance a r : keeps ledger (retract_acceptance a r).
Proof. unfold retract_acceptance. ledger. Qed.
Lemma ledger_mark_candidate p n : keeps ledger (mark_candidate p n).
Proof. unfold mark_candidate. ledger. Qed.
#[local] Hint Resolve ledger_retract_acceptance ledger_mark_candidate : keeps.
Lemma ledger_settle_run a ac row o c : keeps ledger (settle_run a ac row o c).
Proof. unfold settle_run. ledger. Qed.
End attempt_operations.
#[export] Hint Resolve ledger_public ledger_attempt ledger_acceptance_row_at
  ledger_release_bound_claims ledger_reserve_once ledger_reserve ledger_record_preflight
  ledger_pin_relay ledger_pin_prior_candidate ledger_reconcile_prior_candidate
  ledger_pin_host_contract ledger_claim_launch ledger_retire_reservation ledger_launch_uncertain
  ledger_bind_run ledger_settle_run : keeps.

Section evidence_operations.
Context `{Host}.

Lemma ledger_store_report_blob r h b : keeps ledger (store_report_blob r h b).
Proof.
  intros s. unfold store_report_blob. apply wp_bind, wp_gets.
  destruct (blobs s !! h) as [row|] eqn:E; [by wp_all|].
  apply wp_bind, wp_now. intros t. apply wp_modify. split; try done. simpl.
  by apply insert_subseteq.
Qed.
#[local] Hint Resolve ledger_store_report_blob : keeps.
Lemma ledger_store_optional_blob r h b : keeps ledger (store_optional_blob r h b).
Proof. unfold store_optional_blob. ledger. Qed.
#[local] Hint Resolve ledger_store_optional_blob : keeps.
Lemma ledger_record_evidence e sf : keeps ledger (record_evidence e sf).
Proof. unfold record_evidence. ledger. Qed.

(** The receipt is inserted under a key that was free. *)
Lemma ledger_insert_acceptance rid row : keeps ledger (insert_acceptance rid row).
Proof.
  intros s. unfold insert_acceptance, acceptance_row_at. apply wp_bind, wp_gets, wp_bind, wp_require.
  intros Hfree%bool_decide_eq_true. apply wp_modify. split; try done. simpl.
  by apply insert_subseteq.
Qed.
#[local] Hint Resolve ledger_insert_acceptance : keeps.
Lemma ledger_verify p n e a r b : keeps ledger (verify p n e a r b).
Proof. unfold verify. ledger. Qed.
Lemma ledger_list_evidence a : keeps ledger (list_evidence a).
Proof. unfold list_evidence. ledger. Qed.
End evidence_operations.
#[export] Hint Resolve ledger_store_optional_blob ledger_record_evidence ledger_verify : keeps.

Section external_operations.
Context `{Host}.

Lemma ledger_register x p n e h i k ins b pf c f r :
  keeps ledger (register x p n e h i k ins b pf c f r).
Proof. unfold register. ledger. Qed.
Lemma ledger_register_relay_handoff x p n e h i k ins r :
  keeps ledger (register_relay_handoff x p n e h i k ins r).
Proof. unfold register_relay_handoff. ledger. Qed.
Lemma ledger_observe_check x g : keeps ledger (observe_check x g).
Proof. unfold observe_check. ledger. Qed.
Lemma ledger_insert_observation o : keeps ledger (insert_observation o).
Proof. unfold insert_observation. ledger. Qed.
Lemma ledger_retract_external a n : keeps ledger (retract_external a n).
Proof. unfold retract_external. ledger. Qed.
Lemma ledger_commit_late x g a o b : keeps ledger (commit_late x g a o b).
Proof. unfold commit_late. ledger. Qed.
#[local] Hint Resolve ledger_insert_observation ledger_retract_external ledger_commit_late : keeps.
Lemma ledger_commit_current x g a o ar b : keeps ledger (commit_current x g a o ar b).
Proof. unfold commit_current. ledger. Qed.
#[local] Hint Resolve ledger_commit_current : keeps.
Lemma ledger_observe_commit x g c st : keeps ledger (observe_commit x g c st).
Proof. unfold observe_commit. ledger. Qed.
End external_operations.
#[export] Hint Resolve ledger_register ledger_register_relay_handoff ledger_observe_check
  ledger_observe_commit : keeps.

(** ** Registry, issues and design facts *)
Section registry_operations.
Context `{Host} (pepper : string) (env : environment).

Lemma ledger_new_token : keeps ledger new_token.
Proof. intros s. by split. Qed.
Lemma ledger_driver_audit d o a : keeps ledger (driver_audit pepper d o a).
Proof. unfold driver_audit. ledger. Qed.
#[local] Hint Resolve ledger_new_token ledger_driver_audit : keeps.
Lemma ledger_insert_driver d n k i g h c a : keeps ledger (insert_driver pepper d n k i g h c a).
Proof. unfold insert_driver. ledger. Qed.
Lemma ledger_update_driver d r : keeps ledger (update_driver d r).
Proof. unfold update_driver. ledger. Qed.
Lemma ledger_current_driver d e : keeps ledger (current_driver d e).
Proof. unfold current_driver. ledger. Qed.
Lemma ledger_registry_get d : keeps ledger (registry_get env d).
Proof. unfold registry_get. ledger. Qed.
Lemma ledger_touch b d : keeps ledger (touch b d).
Proof. unfold touch. ledger. Qed.
#[local] Hint Resolve ledger_insert_driver ledger_update_driver ledger_current_driver ledger_registry_get
  ledger_touch : keeps.
Lemma ledger_seed t a : keeps ledger (seed pepper t a).
Proof. unfold seed, seed_public, seed_owner. ledger. Qed.
Lemma ledger_lookup_token b t : keeps ledger (lookup_token pepper b t).
Proof. unfold lookup_token. ledger. Qed.
Lemma ledger_public_driver b : keeps ledger (public_driver b).
Proof. unfold public_driver. ledger. Qed.
Lemma ledger_register_driver d n h c i a : keeps ledger (register_driver pepper env d n h c i a).
Proof. unfold register_driver. ledger. Qed.
Lemma ledger_rotate d e a : keeps ledger (rotate_token pepper env d e a).
Proof. unfold rotate_token. ledger. Qed.
Lemma ledger_set_driver_status d v e r a : keeps ledger (set_driver_status pepper env d v e r a).
Proof. unfold set_driver_status. ledger. Qed.
Lemma ledger_set_driver_admin d v e r a : keeps ledger (set_driver_admin pepper env d v e r a).
Proof. unfold set_driver_admin. ledger. Qed.
Lemma ledger_set_membership f p d v e r a : keeps ledger (set_membership pepper f p d v e r a).
Proof. unfold set_membership. ledger. Qed.
End registry_operations.
#[export] Hint Resolve ledger_seed ledger_lookup_token ledger_public_driver ledger_register_driver ledger_rotate
  ledger_set_driver_status ledger_set_driver_admin ledger_set_membership : keeps.

Section issue_operations.
Context `{Host} (actor : string).

Lemma ledger_issue_at p i : keeps ledger (issue_at p i).
Proof. unfold issue_at. ledger. Qed.
Lemma ledger_issue_node_keys p l : keeps ledger (issue_node_keys p l).
Proof. unfold issue_node_keys. ledger. Qed.
Lemma ledger_add_links i l : keeps ledger (add_links i l).
Proof. unfold add_links. ledger. Qed.
Lemma ledger_update_issue i f :
  (∀ x, issue_identity (f x) = issue_identity x) → keeps ledger (update_issue i f).
Proof. intros Hf. apply keeps_modify. intros s. split; try done. simpl. by rewrite fmap_update_where. Qed.
Lemma ledger_insert_issue i : keeps ledger (insert_issue i).
Proof. unfold insert_issue. ledger. Qed.
#[local] Hint Resolve ledger_issue_at ledger_issue_node_keys ledger_add_links ledger_insert_issue : keeps.
#[local] Hint Extern 1 (keeps ledger (update_issue _ _)) =>
  apply ledger_update_issue; intros; reflexivity : keeps.
Lemma ledger_open_issue p i e : keeps ledger (open_issue p i e).
Proof. unfold open_issue. ledger. Qed.
#[local] Hint Resolve ledger_open_issue : keeps.
Lemma ledger_report_issue p r k t b d n s : keeps ledger (report_issue actor p r k t b d n s).
Proof. unfold report_issue. ledger. Qed.
Lemma ledger_link_issue p i e n r x : keeps ledger (link_issue p i e n r x).
Proof. unfold link_issue. ledger. Qed.
Lemma ledger_resolve_issue p i e v r d x : keeps ledger (resolve_issue actor p i e v r d x).
Proof. unfold resolve_issue, resolve_node, resolve_fixed, resolve_duplicate. ledger. Qed.
End issue_operations.
#[export] Hint Resolve ledger_report_issue ledger_link_issue ledger_resolve_issue : keeps.

Section design_operations.
Context `{Host} (actor : string).

(** The next revision is free. *)
Lemma design_latest_ge s pid did r : is_Some (design_revisions s !! (pid, did, r)) → (r ≤ design_latest s pid did)%Z.
Proof.
  intros [d Hd]. unfold design_latest.
  assert (r ∈ omap (λ p, if bool_decide (p.1.1 = (pid, did)) then Some p.1.2 else None)
    (map_to_list (design_revisions s))) as Hr.
  { apply list_elem_of_omap. exists (pid, did, r, d). split; [by apply elem_of_map_to_list|].
    simpl. by rewrite bool_decide_eq_true_2. }
  revert Hr. generalize (omap (λ p, if bool_decide (p.1.1 = (pid, did)) then Some p.1.2 else None)
    (map_to_list (design_revisions s))) as zs. clear.
  induction zs as [|z zs IH]; simpl; [by intros ?%elem_of_nil|].
  intros [->|Hin]%elem_of_cons; [lia|]. specialize (IH Hin). lia.
Qed.
Lemma design_next_free s pid did : design_revisions s !! (pid, did, design_latest s pid did + 1)%Z = None.
Proof.
  destruct (design_revisions s !! (pid, did, design_latest s pid did + 1)%Z) eqn:E; [|done].
  assert (design_latest s pid did + 1 ≤ design_latest s pid did)%Z; [|lia].
  apply design_latest_ge. by rewrite E.
Qed.

Lemma ledger_create_revision p d e a : keeps ledger (create_revision actor p d e a).
Proof.
  intros s. unfold create_revision. apply wp_bind, wp_lift. intros ? _. apply wp_bind, wp_lift. intros ? _.
  apply wp_bind, wp_lift. intros [payload rs] _. apply wp_bind, wp_project. intros row _ _.
  apply wp_bind, wp_gets. cbv zeta. apply wp_bind, wp_require. intros Hlatest.
  apply wp_bind, wp_lift. intros ? _. apply wp_bind, wp_now. intros t. apply wp_bind, wp_modify.
  apply keeps_from; [apply _| |ledger]. split; try done. simpl. apply insert_subseteq, design_next_free.
Qed.
Lemma ledger_create_baseline p b l e : keeps ledger (create_baseline actor p b l e).
Proof.
  intros s. unfold create_baseline. do 3 (apply wp_bind, wp_lift; intros ? _). cbv zeta.
  apply wp_bind, wp_require. intros _. apply wp_bind, wp_project. intros row _ _. apply wp_bind, wp_gets.
  apply wp_bind, wp_require. intros Hfree%bool_decide_eq_true. apply wp_bind, wp_require. intros _.
  do 2 (apply wp_bind, wp_lift; intros ? _). apply wp_bind, wp_now. intros t. apply wp_bind, wp_modify.
  apply keeps_from; [apply _| |ledger]. split; try done. simpl. by apply insert_subseteq.
Qed.
Lemma ledger_bind_node p n e b l r : keeps ledger (bind_node actor p n e b l r).
Proof.
  intros s. unfold bind_node. apply wp_bind, wp_get_some. intros ? _. apply wp_bind, wp_node. intros row _ _ _.
  apply wp_bind, wp_gets. apply wp_bind, wp_lift. intros base _. cbv zeta. apply wp_bind, wp_lift. intros ? _.
  apply wp_bind, wp_require. intros _. apply wp_bind, wp_lift. intros found _.
  apply wp_bind. eapply wp_mono; [apply ledger_revise|]. intros re s1 H1. cbv beta.
  apply wp_bind, wp_gets, wp_bind, wp_require. intros Hfree.
  apply negb_true_iff, bool_decide_eq_false in Hfree. apply wp_bind, wp_modify.
  apply keeps_from; [apply _| |ledger]. transitivity s1; [done|]. split; try done. simpl.
  apply insert_subseteq. by apply eq_None_not_Some.
Qed.
End design_operations.
#[export] Hint Resolve ledger_create_revision ledger_create_baseline ledger_bind_node : keeps.

(** ** Takeovers, recovery and handoffs *)
(** *** Messages *)
Section inbox_operations.
Context `{Host}.
Lemma ledger_insert_message m : keeps ledger (insert_message m).
Proof. unfold insert_message. ledger. Qed.
Lemma ledger_insert_delivery d : keeps ledger (insert_delivery d).
Proof. unfold insert_delivery. ledger. Qed.
#[local] Hint Resolve ledger_insert_message ledger_insert_delivery : keeps.
Lemma ledger_deliver m t : keeps ledger (deliver m t).
Proof. unfold deliver. ledger. Qed.
Lemma ledger_deliver_notice t x p k r : keeps ledger (deliver_notice t x p k r).
Proof. unfold deliver_notice. ledger. Qed.
#[local] Hint Resolve ledger_deliver : keeps.

Context (actor : string) (driver : option string) (trusted : bool).
Lemma ledger_check_refs p m : keeps ledger (check_refs p m).
Proof. unfold check_refs, check_ref. ledger. Qed.
Lemma ledger_record_request o k p r : keeps ledger (record_request actor o k p r).
Proof.
  unfold record_request. intros s. apply wp_bind, wp_gets, wp_bind, wp_require. intros Hk. bsimpl.
  apply wp_bind, wp_modify, wp_ret. split; try done. simpl. apply insert_subseteq.
  destruct (inbox_requests s !! _) eqn:E; [|done]. exfalso. by apply Hk.
Qed.
#[local] Hint Resolve ledger_check_refs ledger_record_request : keeps.
Lemma ledger_known_driver d : keeps ledger (known_driver d).
Proof. unfold known_driver. ledger. Qed.
#[local] Hint Resolve ledger_known_driver : keeps.
Lemma ledger_active_sender d : keeps ledger (active_sender d).
Proof. unfold active_sender. ledger. Qed.
Lemma ledger_check_recipients l : keeps ledger (check_recipients l).
Proof. unfold check_recipients. ledger. Qed.
Lemma ledger_reply_parent p r f : keeps ledger (reply_parent p r f).
Proof. unfold reply_parent, conversation_message. ledger. Qed.
#[local] Hint Resolve ledger_active_sender ledger_check_recipients ledger_reply_parent : keeps.
Lemma ledger_presence_row env b d : keeps ledger (presence_row env b d).
Proof. unfold presence_row. ledger. Qed.
#[local] Hint Resolve ledger_presence_row : keeps.
Lemma ledger_tell_presence env b f r : keeps ledger (tell_presence env b f r).
Proof. unfold tell_presence, recipient_presence_block. ledger. Qed.
#[local] Hint Resolve ledger_tell_presence : keeps.
Lemma ledger_send_driver_message env b k u t g m p x o r y :
  keeps ledger (send_driver_message actor driver trusted env b k u t g m p x o r y).
Proof. unfold send_driver_message. unfold send_work. ledger. Qed.
Lemma ledger_send_user_message k u b p r y g : keeps ledger (send_user_message actor driver k u b p r y g).
Proof. unfold send_user_message. ledger. Qed.
Lemma ledger_send_user_conversation_message k p b u y t :
  keeps ledger (send_user_conversation_message actor driver trusted k p b u y t).
Proof. unfold send_user_conversation_message. ledger. Qed.
Lemma ledger_mark_read p i : keeps ledger (mark_user_conversation_read actor driver trusted p i).
Proof. unfold mark_user_conversation_read. ledger. Qed.
Lemma ledger_list_driver_messages b w a l : keeps ledger (list_driver_messages actor driver trusted b w a l).
Proof. unfold list_driver_messages, touch. ledger. Qed.
Lemma ledger_transition i e k v r : keeps ledger (transition actor driver trusted i e k v r).
Proof. unfold transition. ledger. Qed.
End inbox_operations.
#[export] Hint Resolve ledger_deliver_notice ledger_send_driver_message ledger_send_user_message
  ledger_send_user_conversation_message ledger_mark_read ledger_list_driver_messages ledger_transition : keeps.

Section ownership_operations.
Context `{Host} (env : environment).

Lemma ledger_notify t x p k r : keeps ledger (notify t x p k r).
Proof. unfold notify. ledger. Qed.
Lemma ledger_add_claim c : keeps ledger (add_claim c).
Proof. unfold add_claim. ledger. Qed.
Lemma ledger_presence_at d : keeps ledger (presence_at env d).
Proof. unfold presence_at. ledger. Qed.
#[local] Hint Resolve ledger_notify ledger_add_claim ledger_presence_at ledger_claim_at ledger_require_driver
  ledger_refuse_exclusive_holder ledger_store_report_blob : keeps.
Lemma ledger_move_taken a d k h r t old n p : keeps ledger (move_taken a d k h r t old n p).
Proof. unfold move_taken. ledger. Qed.
#[local] Hint Resolve ledger_move_taken : keeps.
Lemma ledger_take_over_claim a d p c e r k : keeps ledger (take_over_claim env a d p c e r k).
Proof. unfold take_over_claim. ledger. Qed.

Lemma ledger_offline_owner_evidence p o c : keeps ledger (offline_owner_evidence env p o c).
Proof. unfold offline_owner_evidence. ledger. Qed.
#[local] Hint Resolve ledger_offline_owner_evidence : keeps.
Lemma ledger_reclaimable x a e o t f : keeps ledger (reclaimable env x a e o t f).
Proof. unfold reclaimable. ledger. Qed.
Lemma ledger_stop_claim a x t r h c : keeps ledger (stop_claim a x t r h c).
Proof. unfold stop_claim. ledger. Qed.
Lemma ledger_bind_held_claim a x c t r : keeps ledger (bind_held_claim a x c t r).
Proof. unfold bind_held_claim. ledger. Qed.
Lemma ledger_new_claim_for a i p n v d t r w u l : keeps ledger (new_claim_for a i p n v d t r w u l).
Proof. unfold new_claim_for. ledger. Qed.
#[local] Hint Resolve ledger_reclaimable ledger_stop_claim ledger_bind_held_claim ledger_new_claim_for : keeps.
Lemma ledger_claim_after a x h t r w p l : keeps ledger (claim_after a x h t r w p l).
Proof. unfold claim_after. ledger. Qed.
#[local] Hint Resolve ledger_claim_after : keeps.
Lemma ledger_move_claims a x h t r l : ∀ held created, keeps ledger (move_claims a x h t r held created l).
Proof. induction l as [|c l IH]; intros held created; simpl; ledger. Qed.
#[local] Hint Resolve ledger_move_claims : keeps.
Lemma ledger_transfer_bound_claims a x t r h : keeps ledger (transfer_bound_claims a x t r h).
Proof. unfold transfer_bound_claims. ledger. Qed.
Lemma ledger_void_open_handoffs i t r : keeps ledger (void_open_handoffs i t r).
Proof. unfold void_open_handoffs. ledger. Qed.
#[local] Hint Resolve ledger_transfer_bound_claims ledger_void_open_handoffs : keeps.
Lemma ledger_abandon fs x i e k r f g o : keeps ledger (abandon_external_attempt env fs x i e k r f g o).
Proof. unfold abandon_external_attempt. ledger. Qed.
Lemma ledger_take_over_attempt x i e r o : keeps ledger (take_over_attempt env x i e r o).
Proof. unfold take_over_attempt. ledger. Qed.

Lemma ledger_handoff_at p i : keeps ledger (handoff_at p i).
Proof. unfold handoff_at. ledger. Qed.
Lemma ledger_insert_handoff h : keeps ledger (insert_handoff h).
Proof. unfold insert_handoff. ledger. Qed.
Lemma ledger_decide_handoff i v b r t : keeps ledger (decide_handoff i v b r t).
Proof. unfold decide_handoff. ledger. Qed.
#[local] Hint Resolve ledger_handoff_at ledger_insert_handoff ledger_decide_handoff : keeps.
Lemma ledger_offer_handoff fs a d p k e g i c t : keeps ledger (offer_handoff fs a d p k e g i c t).
Proof. unfold offer_handoff. ledger. Qed.
Lemma ledger_accept_attempt a d p i x h e t : keeps ledger (accept_attempt a d p i x h e t).
Proof. unfold accept_attempt. ledger. Qed.
Lemma ledger_accept_claim a d p i x h e t : keeps ledger (accept_claim a d p i x h e t).
Proof. unfold accept_claim. ledger. Qed.
#[local] Hint Resolve ledger_accept_attempt ledger_accept_claim : keeps.
Lemma ledger_accept_handoff a d p i e : keeps ledger (accept_handoff a d p i e).
Proof. unfold accept_handoff. ledger. Qed.
Lemma ledger_decline_handoff a d p i r : keeps ledger (decline_handoff a d p i r).
Proof. unfold decline_handoff. ledger. Qed.
Lemma ledger_withdraw_handoff a d b p i r : keeps ledger (withdraw_handoff a d b p i r).
Proof. unfold withdraw_handoff. ledger. Qed.
Lemma ledger_register_subagent a d p i l w : keeps ledger (register_subagent a d p i l w).
Proof. unfold register_subagent. ledger. Qed.
End ownership_operations.
#[export] Hint Resolve ledger_take_over_claim ledger_abandon ledger_take_over_attempt ledger_offer_handoff
  ledger_accept_handoff ledger_decline_handoff ledger_withdraw_handoff ledger_register_subagent : keeps.
