(* ===== verification/System.v ===== *)
(** * The State service as a transition system

    [operation m]: [m] is one write transaction of the service, with whatever
    arguments a caller passed it.  [step] runs one operation that commits;
    [reachable] is what a service that started on an empty database can come to.
    Reads are not steps.  What happens between the two transactions of a
    reservation with preflight, of [reconcile] and of [observe] is whatever other
    steps interleave: [reserve_once], [settle_run] and [observe_commit] are steps
    on their own, for any mode, any run and audit the engine may report, and any
    report that was accepted and collected. *)
From S2P Require Import Prelude Json Text Dag Store Graph History Portfolio Presence Claims.
From S2P Require Import Enforcement Review Attempts Evidence External Registry Inbox Issues Design.
From S2P Require Import Takeover Recovery Handoffs View Ledger.

Section system.
Context `{Host}.

Inductive operation : ∀ {A : Type}, M db A → Prop :=
  (* core/state_graph.py *)
  | op_create_project pid title source : operation (create_project pid title source)
  | op_set_project_access pid vis actor : operation (set_project_access pid vis actor)
  | op_add_nodes pid specs : operation (add_nodes pid specs)
  | op_set_node_facet pid nk v : operation (set_node_facet pid nk v)
  | op_set_node_priority pid nk p e r a d : operation (set_node_priority pid nk p e r a d)
  | op_revise_node pid nk e r g c ds : operation (revise_node pid nk e r g c ds)
  | op_split_node pid nk e c r : operation (split_node pid nk e c r)
  | op_supersede_node pid nk e r : operation (supersede_node pid nk e r)
  (* core/state_portfolio.py *)
  | op_bind_source a p r c e : operation (bind_source a p r c e)
  | op_set_dispatch a p m e r : operation (set_dispatch a p m e r)
  | op_set_claim_enforcement a i p v e r : operation (set_claim_enforcement a i p v e r)
  | op_set_review_independence a i p v e r : operation (set_review_independence a i p v e r)
  | op_set_hold a p n h e r : operation (set_hold a p n h e r)
  | op_add_reference a p n r k f l v o ar rp pr : operation (add_reference a p n r k f l v o ar rp pr)
  | op_retire a i t p n r u e h k s : operation (retire_context_run_protection a i t p n r u e h k s)
  (* core/driver_presence.py *)
  | op_declare d st r e a : operation (declare d st r e a)
  | op_wait_begin env d t : operation (wait_begin env d t)
  | op_wait_end w : operation (wait_end w)
  (* core/state_claims.py, core/state_enforcement.py *)
  | op_sweep a b p : operation (sweep a b p)
  | op_claim_node a d p n u e k l w sa : operation (claim_node a d p n u e k l w sa)
  | op_release_claim a d i p c f r : operation (release_claim a d i p c f r)
  | op_heartbeat d p cs xs ss : operation (heartbeat d p cs xs ss)
  | op_checkpoint r d i a : operation (checkpoint_controller r d i a)
  (* core/state_attempts.py *)
  | op_reserve_once r m rep : operation (reserve_once r m rep)
  | op_record_preflight a r e : operation (record_preflight a r e)
  | op_pin_relay a r : operation (pin_relay a r)
  | op_pin_prior_candidate a p v : operation (pin_prior_candidate a p v)
  | op_reconcile_prior_candidate a e v : operation (reconcile_prior_candidate a e v)
  | op_pin_host_contract a d : operation (pin_host_contract a d)
  | op_claim_launch a d i c k f : operation (claim_launch a d i c k f)
  | op_retire_reservation a r : operation (retire_reservation a r)
  | op_launch_uncertain a r : operation (launch_uncertain a r)
  | op_bind_run sf a r : operation (bind_run sf a r)
  | op_settle_run a ac row q c : (∀ x, c = Some x → SHA x = true) →
      operation (settle_run a ac row (outcome_status (rn_status row) q) c)
  | op_record_evidence e sf : operation (record_evidence e sf)
  | op_verify p n e a r b : operation (verify p n e a r b)
  (* core/state_external.py *)
  | op_observe_commit fs x r g late c st : parse_report r = Ok g → collect_report fs g late = Ok c →
      operation (observe_commit x g c st)
  (* core/drivers.py *)
  | op_seed pepper t a : operation (seed pepper t a)
  | op_lookup_token pepper b t : operation (lookup_token pepper b t)
  | op_public_driver b : operation (public_driver b)
  | op_register_driver pepper env d n h c i a : operation (register_driver pepper env d n h c i a)
  | op_rotate pepper env d e a : operation (rotate_token pepper env d e a)
  | op_set_driver_status pepper env d v e r a : operation (set_driver_status pepper env d v e r a)
  | op_set_driver_admin pepper env d v e r a : operation (set_driver_admin pepper env d v e r a)
  | op_set_membership pepper f p d v e r a : operation (set_membership pepper f p d v e r a)
  (* core/state_takeover.py, core/state_recovery.py *)
  | op_take_over_claim env a d p c e r k : operation (take_over_claim env a d p c e r k)
  | op_abandon env fs x i e k r f g o : operation (abandon_external_attempt env fs x i e k r f g o)
  | op_take_over_attempt env x i e r o : operation (take_over_attempt env x i e r o)
  (* core/state_handoffs.py, core/state_subagents.py *)
  | op_offer_handoff fs a d p k e g i c t : operation (offer_handoff fs a d p k e g i c t)
  | op_accept_handoff a d p i e : operation (accept_handoff a d p i e)
  | op_decline_handoff a d p i r : operation (decline_handoff a d p i r)
  | op_withdraw_handoff a d b p i r : operation (withdraw_handoff a d b p i r)
  | op_register_subagent a d p i l w : operation (register_subagent a d p i l w)
  (* core/state_issues.py *)
  | op_report_issue x p r k t b d n s : operation (report_issue x p r k t b d n s)
  | op_link_issue p i e n r x : operation (link_issue p i e n r x)
  | op_resolve_issue x p i e v r d y : operation (resolve_issue x p i e v r d y)
  (* core/state_design.py *)
  | op_create_revision x p d e a : operation (create_revision x p d e a)
  | op_create_baseline x p b l e : operation (create_baseline x p b l e)
  | op_bind_node x p n e b l r : operation (bind_node x p n e b l r)
  (* core/driver_inbox.py *)
  | op_send_driver_message a d b env y k u t g m p x o r w :
      operation (send_driver_message a d b env y k u t g m p x o r w)
  | op_send_user_message a d k u b p r y g : operation (send_user_message a d k u b p r y g)
  | op_send_user_conversation_message a d b k p t u y g :
      operation (send_user_conversation_message a d b k p t u y g)
  | op_mark_user_conversation_read a d b p i : operation (mark_user_conversation_read a d b p i)
  | op_list_driver_messages a d b y w x l : operation (list_driver_messages a d b y w x l)
  | op_transition a d b i e k v r : operation (transition a d b i e k v r)
  (* the run table belongs to another part of the process *)
  | op_run_paths d : operation (modify (λ s, s <| run_paths := d |>)).

Definition step (s s' : db) : Prop :=
  ∃ (A : Type) (m : M db A) (a : A), operation m ∧ m s = Ok (a, s').

Definition reachable (s : db) : Prop := rtc step empty_db s.

(** A property of every operation holds along every run. *)
Lemma step_keeps (R : relation db) s s' :
  (∀ A (m : M db A), operation m → keeps R m) → step s s' → R s s'.
Proof. intros HR (A & m & a & Hm & E). exact (wp_run _ _ _ _ _ (HR A m Hm s) E). Qed.

Lemma steps_keep (R : relation db) `{!PreOrder R} s s' :
  (∀ A (m : M db A), operation m → keeps R m) → rtc step s s' → R s s'.
Proof.
  intros HR. induction 1 as [s|s s1 s2 H1 _ IH]; [reflexivity|].
  transitivity s1; [|done]. by apply step_keeps.
Qed.

(** An invariant of the empty database that every operation preserves. *)
Lemma reachable_invariant (I : db → Prop) s :
  I empty_db →
  (∀ A (m : M db A), operation m → ∀ s, I s → wp m (λ _ s', I s') s) →
  reachable s → I s.
Proof.
  intros H0 Hop Hr. unfold reachable in Hr. remember empty_db as s0 eqn:E0.
  assert (I s0) as Hs0 by by subst. clear E0 H0.
  induction Hr as [|s1 s2 s3 (A & m & a & Hm & E) _ IH]; [done|].
  apply IH. eapply (wp_run m (λ _ s', I s')); [by apply (Hop A)|done].
Qed.

(** *** Nothing recorded is rewritten *)
Lemma operation_ledger A (m : M db A) : operation m → keeps ledger m.
Proof.
  intros []; unfold add_nodes, set_node_facet, revise_node, split_node, supersede_node, set_hold;
    first [solve [eauto 2 with keeps nocore]|ledger].
Qed.
End system.

(** ** Frames of whole operations

    [autounfold with ops] lays an operation open down to the writes of the
    tables, which [frame] then goes through. *)
Create HintDb ops.
#[export] Hint Unfold
  create_project set_project_access add_nodes set_node_facet set_node_priority revise_node split_node
  supersede_node supersede bind_source set_dispatch set_claim_enforcement set_review_independence
  set_hold hold write_policy add_reference retire_context_run_protection require_dispatch
  presence_audit clear mark_back declare wait_begin wait_end
  update_claim history expire sweep_conn sweep refuse_exclusive_holder require_driver insert_claim claim_node claim_at
  release_claim renew_claim beat_claim update_attempt beat_attempt beat_subagent heartbeat
  checkpoint_controller
  public attempt release_bound release_bound_claims relay_source insert_attempt replay
  admission_guards admission_context preflight_guard emit admit_attempt reserve_once
  record_preflight pin_relay pin_prior_candidate reconcile_prior_candidate pin_host_contract
  claim_launch retire_reservation launch_uncertain bind_run retract_acceptance mark_candidate settle_run
  store_report_blob store_optional_blob record_evidence acceptance_row_at insert_acceptance verify
  insert_observation retract_external commit_late commit_current observe_commit fetch_project
  new_token driver_audit insert_driver update_driver current_driver seed_public seed_owner seed registry_get touch
  lookup_token public_driver register_driver rotate_token set_driver_status set_driver_admin set_membership
  issue_node_keys issue_at open_issue add_links update_issue insert_issue report_issue link_issue
  resolve_node resolve_fixed resolve_duplicate resolve_issue create_revision create_baseline bind_node
  insert_message insert_delivery deliver deliver_notice known_driver active_sender check_ref check_refs
  replay_request record_request answered once presence_row recipient_presence_block tell_presence check_recipients send_work send_driver_message conversation_message
  reply_parent send_user_message send_user_conversation_message mark_user_conversation_read
  list_driver_messages transition
  notify presence_at offline_owner_evidence add_claim move_taken take_over_claim
  reclaimable bind_held_claim new_claim_for void_open_handoffs
  abandon_external_attempt take_over_attempt insert_handoff offer_handoff handoff_at decide_handoff
  accept_attempt accept_claim accept_handoff decline_handoff withdraw_handoff register_subagent : ops.

Ltac frame_operation := autounfold with ops; frame.

(** Claims move without touching anything but the claims, their history and the events. *)
Definition with_claims (s : db) (t d : nat) (e : list event_row) (c : list claim_row) (h : list history_row) : db :=
  s <| ticks := t |> <| draws := d |> <| events := e |> <| claims := c |> <| claim_history := h |>.
Definition claims_only (s s' : db) : Prop := ∃ t d e c h, s' = with_claims s t d e c h.
#[export] Instance claims_only_preorder : PreOrder claims_only.
Proof.
  split.
  - intros s. exists (ticks s), (draws s), (events s), (claims s), (claim_history s). by destruct s.
  - intros s1 s2 s3 (t & d & e & c & h & ->) (t' & d' & e' & c' & h' & ->).
    exists t', d', e', c', h'. by destruct s1.
Qed.

Section moved.
Context `{Host}.

Lemma claims_only_now : keeps claims_only now.
Proof. intros s. apply wp_now. intros t. eexists _, _, _, _, _. reflexivity. Qed.
Lemma claims_only_uuid4 : keeps claims_only uuid4.
Proof. intros s. apply wp_uuid4. intros t. eexists _, _, _, _, _. reflexivity. Qed.
Ltac claims_only := keep_with ltac:(eexists _, _, _, _, _; reflexivity).
#[local] Hint Resolve claims_only_now claims_only_uuid4 : keeps.
Lemma claims_only_event p n y v : keeps claims_only (event p n y v).
Proof. unfold event. claims_only. Qed.
Lemma claims_only_history a c st r : keeps claims_only (history a c st r).
Proof. unfold history. claims_only. Qed.
#[local] Hint Resolve claims_only_event claims_only_history : keeps.
Lemma claims_only_bind_held a x c t r : keeps claims_only (bind_held_claim a x c t r).
Proof. unfold bind_held_claim, update_claim. claims_only. Qed.
Lemma claims_only_new_claim a i p n v d t r w u l : keeps claims_only (new_claim_for a i p n v d t r w u l).
Proof. unfold new_claim_for, refuse_exclusive_holder, add_claim. claims_only. Qed.
#[local] Hint Resolve claims_only_bind_held claims_only_new_claim : keeps.
Lemma claims_only_move_claims a x h t r l : ∀ held created, keeps claims_only (move_claims a x h t r held created l).
Proof. induction l as [|c l IH]; intros held created; simpl; unfold claim_after; claims_only. Qed.
#[local] Hint Resolve claims_only_move_claims : keeps.
Lemma claims_only_transfer a x t r h : keeps claims_only (transfer_bound_claims a x t r h).
Proof. unfold transfer_bound_claims, stop_claim, update_claim, claim_after. claims_only. Qed.

Lemma untouched_claims_only {A B} (f : db → B) (m : M db A) :
  keeps claims_only m → (∀ s t d e c h, f (with_claims s t d e c h) = f s) → untouched f m.
Proof. intros Hm Hf s. eapply wp_mono; [apply Hm|]. intros a s' (t & d & e & c & h & ->). apply Hf. Qed.
End moved.
#[export] Hint Resolve claims_only_transfer : keeps.
#[export] Hint Extern 1 (untouched _ (transfer_bound_claims _ _ _ _ _)) =>
  apply untouched_claims_only; [apply claims_only_transfer|intros; reflexivity] : untouched.

(** What the graph and history invariants speak of. *)
Definition facts (s : db) := (shape s, content s).

Section facts.
Context `{Host}.

Lemma untouched_pair {A B C} (f : db → A) (g : db → B) (m : M db C) :
  untouched f m → untouched g m → untouched (λ s, (f s, g s)) m.
Proof.
  intros Hf Hg s. eapply wp_mono; [apply (wp_conj _ _ _ _ (Hf s) (Hg s))|].
  simpl. intros a s' [-> ->]. done.
Qed.
Lemma untouched_fst {A B C} (f : db → A) (g : db → B) (m : M db C) :
  untouched (λ s, (f s, g s)) m → untouched f m.
Proof. intros Hm s. eapply wp_mono; [apply Hm|]. by intros a s' [= -> _]. Qed.
Lemma untouched_snd {A B C} (f : db → A) (g : db → B) (m : M db C) :
  untouched (λ s, (f s, g s)) m → untouched g m.
Proof. intros Hm s. eapply wp_mono; [apply Hm|]. by intros a s' [= _ ->]. Qed.

Lemma untouched_facts_update_node pid nk g :
  (∀ n, content_of (g n) = content_of n) → (∀ n, n_facet (g n) = n_facet n) →
  untouched facts (update_node pid nk g).
Proof.
  intros H1 H2. apply untouched_pair;
    [by apply untouched_shape_update_node|by apply untouched_content_update_node].
Qed.
Lemma untouched_facts_invalidate pid nk : untouched facts (invalidate pid nk).
Proof.
  apply untouched_pair; [apply untouched_shape_invalidate|apply untouched_content_invalidate].
Qed.
End facts.
#[export] Hint Resolve untouched_facts_invalidate : untouched.
#[export] Hint Extern 1 (untouched facts (update_node _ _ _)) =>
  apply untouched_facts_update_node; intros ?; try reflexivity; repeat case_bool_decide; reflexivity
  : untouched.

(** ** The graph and its history, in every reachable state *)
Section facts_invariant.
Context `{Host}.

Definition facts_inv (s : db) : Prop := graph_inv s ∧ history_inv s.

Lemma facts_inv_empty : facts_inv empty_db.
Proof. split; [apply graph_inv_empty|apply history_inv_empty]. Qed.

Lemma facts_inv_untouched {A} (m : M db A) s :
  untouched facts m → facts_inv s → wp m (λ _ s', facts_inv s') s.
Proof.
  intros Hm [Hg Hh]. apply wp_conj.
  - apply graph_inv_untouched; [by eapply untouched_fst|done].
  - apply history_inv_untouched; [by eapply untouched_snd|done].
Qed.

(** A binding revises its node, and leaves the graph alone otherwise. *)
Lemma facts_inv_bind_node x p n e b l r s :
  facts_inv s → wp (bind_node x p n e b l r) (λ _ s', facts_inv s') s.
Proof.
  intros [Hg Hh]. unfold bind_node. apply wp_bind, wp_get_some. intros ? _. apply wp_bind, wp_node.
  intros row _ _ _. apply wp_bind, wp_gets, wp_bind, wp_lift. intros base _. cbv zeta.
  apply wp_bind, wp_lift. intros ? _. apply wp_bind, wp_require. intros _. apply wp_bind, wp_lift. intros found _.
  apply wp_bind. eapply wp_mono; [apply wp_conj; [by apply revise_graph_inv|by apply revise_history_inv]|].
  intros re s1 H1. cbv beta. apply facts_inv_untouched; [frame|exact H1].
Qed.

Lemma facts_inv_operation A (m : M db A) :
  operation m → ∀ s, facts_inv s → wp m (λ _ s', facts_inv s') s.
Proof.
  intros Hop s0 Hs. destruct Hop; try (apply facts_inv_untouched; [solve [frame_operation]|done]);
    try (by apply facts_inv_bind_node); destruct Hs as [Hg Hh].
  - apply wp_conj; [by apply add_graph_inv|by apply add_history_inv].
  - apply wp_conj; [by apply set_facet_graph_inv|].
    apply history_inv_untouched; [apply set_facet_content|done].
  - apply wp_conj; [by apply revise_graph_inv|by apply revise_history_inv].
  - apply wp_conj; [by apply split_graph_inv|by apply split_history_inv].
Qed.

Lemma reachable_facts s : reachable s → facts_inv s.
Proof. apply reachable_invariant; [apply facts_inv_empty|apply facts_inv_operation]. Qed.
End facts_invariant.

(** Nodes are never deleted: their revision rows stay. *)
Lemma nodes_persist `{Host} s s' k :
  reachable s → rtc step s s' → is_Some (nodes s !! k) → is_Some (nodes s' !! k).
Proof.
  intros Hs Hss [n Hn]. destruct k as [pid nk].
  assert (reachable s') as Hs' by (unfold reachable in *; by transitivity s).
  destruct (reachable_facts s Hs) as [_ Hh]. specialize (Hh pid nk). rewrite Hn in Hh.
  destruct (reachable_facts s' Hs') as [_ Hh']. specialize (Hh' pid nk).
  destruct (nodes s' !! (pid, nk)) as [m|]; [by eexists|].
  destruct (lg_revisions _ _ (steps_keep ledger s s' operation_ledger Hss)) as [l Hl].
  rewrite Hl, select_app in Hh'. destruct Hh as (_ & _ & r & Hr & _). unfold select_last in Hr.
  by destruct (select (rev_of pid nk) (revisions s)).
Qed.
