(* ===== verification/Lifecycle.v ===== *)
(** * The life of an attempt

    [attempt_step keep a a'] is what one operation may do to an attempt's row: the
    identifying columns stay, an attempt that left the active statuses does not
    come back, a recorded artifact and a bound run stay, the owner only changes
    together with a higher fence, and with [keep] a
    candidate stays one (only [settle_run] and [observe_commit] may retract it).  [attempts_inv] is the
    table's unique constraints together with what the code relies on row by row.
    Every operation evolves the table by [attempt_step] and insertions. *)
From S2P Require Import Prelude Json Text Dag Store Graph History Portfolio Presence Claims.
From S2P Require Import Enforcement Review Attempts Evidence External Registry Inbox Issues Design.
From S2P Require Import Takeover Recovery Handoffs View Ledger System.

Record attempt_step (keep : bool) (a a' : attempt_row) : Prop := AttemptStep {
  st_identity : attempt_identity a' = attempt_identity a;
  st_active : ACTIVE (a_status a') = true → ACTIVE (a_status a) = true;
  st_reserved : a_status a' = Reserved → a_status a = Reserved;
  st_abandoned : a_status a = Abandoned → a_status a' = Abandoned;
  st_artifact : ∀ x, a_artifact a = Some x → a_artifact a' = Some x;
  st_run : ∀ x, a_run a = Some x → a_run a' = Some x ∧
    a_graph_version a' = a_graph_version a ∧ a_graph_digest a' = a_graph_digest a;
  st_version : (a_version a ≤ a_version a')%Z;
  st_owner : a_fence a' = a_fence a ∧ a_owner a' = a_owner a ∨ (a_fence a < a_fence a')%Z;
  st_candidate : keep = true → a_status a = Candidate → a_status a' = Candidate;
}.

#[export] Instance attempt_step_preorder keep : PreOrder (attempt_step keep).
Proof.
  split.
  - intros a. split; try done. by left.
  - intros a b c [] []. split; auto; try congruence; try lia.
    + intros x Hx. edestruct st_run0 as (? & ? & ?); [done|]. edestruct st_run1 as (? & ? & ?); [done|].
      split_and!; congruence.
    + destruct st_owner0 as [[? ?]|?], st_owner1 as [[? ?]|?]; [left; split; congruence|right; lia..].
Qed.

Record row_ok (a : attempt_row) : Prop := RowOk {
  ro_artifact : ACTIVE (a_status a) = true → a_artifact a = None;
  ro_sha : ∀ x, a_artifact a = Some x → SHA x = true;
  ro_run : ∀ x, a_run a = Some x → KEY x = true;
}.

(** No two rows break a unique constraint. *)
Record attempts_inv (l : list attempt_row) : Prop := AttemptsInv {
  ai_unique : ∀ i j a b, l !! i = Some a → l !! j = Some b → attempt_clash a b = true → i = j;
  ai_rows : Forall row_ok l;
}.

Definition evolves (keep : bool) (l l' : list attempt_row) : Prop :=
  attempts_inv l → attempts_inv l' ∧ ∃ l1 l2, l' = l1 ++ l2 ∧ Forall2 (attempt_step keep) l l1.
Definition evolution (keep : bool) (s s' : db) : Prop := evolves keep (attempts s) (attempts s').

#[export] Instance evolution_preorder keep : PreOrder (evolution keep).
Proof.
  split.
  - intros s Hs. split; [done|]. exists (attempts s), []. rewrite app_nil_r. split; [done|].
    reflexivity.
  - intros s1 s2 s3 H1 H2 Hs. destruct (H1 Hs) as (Hs2 & l1 & l2 & E & F1).
    destruct (H2 Hs2) as (Hs3 & l3 & l4 & E' & F2). split; [done|].
    rewrite E in F2. apply Forall2_app_inv_l in F2 as (k1 & k2 & F3 & _ & ->).
    exists k1, (k2 ++ l4). rewrite E', <- (assoc_L (++)). split; [done|].
    by etrans.
Qed.

(** *** Constraints *)
Lemma same_some_true o o' : same_some o o' = true ↔ ∃ x, o = Some x ∧ o' = Some x.
Proof.
  unfold same_some. destruct o as [x|]; [|by split; [|intros (?&?&_)]].
  rewrite bool_decide_eq_true. naive_solver.
Qed.

Lemma attempt_clash_true a b : attempt_clash a b = true ↔
  a_id a = a_id b ∨ (∃ x, a_execution a = Some x ∧ a_execution b = Some x) ∨
  (a_project a = a_project b ∧ a_node a = a_node b ∧
    (a_request_key a = a_request_key b ∨
     (ACTIVE (a_status a) = true ∧ ACTIVE (a_status b) = true) ∨
     (a_kind a = External ∧ a_kind b = External ∧ a_harness a = a_harness b ∧
      a_external a = a_external b))).
Proof.
  unfold attempt_clash, of_node.
  rewrite !orb_true_iff, same_some_true, !andb_true_iff, !orb_true_iff, !andb_true_iff,
    !bool_decide_eq_true. naive_solver.
Qed.
Lemma attempt_clash_sym a b : attempt_clash a b = true → attempt_clash b a = true.
Proof. rewrite !attempt_clash_true. naive_solver. Qed.

Lemma attempt_step_clash keep a a' b b' :
  attempt_step keep a a' → attempt_step keep b b' → attempt_clash a' b' = true → attempt_clash a b = true.
Proof.
  intros [Ea Aa _ _ _ _ _ _ _] [Eb Ab _ _ _ _ _ _ _]. injection Ea as E1 E2 E3 E4 E5 E6 E7 E8 E9 E10 E11 E12 E13 E14 E15.
  injection Eb as F1 F2 F3 F4 F5 F6 F7 F8 F9 F10 F11 F12 F13 F14 F15.
  rewrite !attempt_clash_true. rewrite E1, E2, E3, E7, E9, E11, E12, E13, F1, F2, F3, F7, F9, F11, F12, F13.
  naive_solver.
Qed.

Lemma attempts_inv_step keep l l' :
  Forall2 (attempt_step keep) l l' → Forall row_ok l' → attempts_inv l → attempts_inv l'.
Proof.
  intros HF Hok [Hu _]. split; [|done]. intros i j a b Hi Hj Hc.
  destruct (Forall2_lookup_r _ _ _ _ _ HF Hi) as (a0 & Hi0 & Ha).
  destruct (Forall2_lookup_r _ _ _ _ _ HF Hj) as (b0 & Hj0 & Hb).
  eapply Hu; [done|done|]. by eapply attempt_step_clash.
Qed.

Lemma attempts_inv_snoc l a :
  attempts_inv l → row_ok a → existsb (attempt_clash a) l = false → attempts_inv (l ++ [a]).
Proof.
  intros [Hu Hok] Ha Hc. split; [|by apply Forall_app_2, Forall_singleton].
  assert (∀ i b, l !! i = Some b → attempt_clash a b = false) as Hn.
  { intros i b Hb. destruct (attempt_clash a b) eqn:E; [|done]. rewrite <- Hc. symmetry.
    apply existsb_exists. exists b. rewrite <- list_elem_of_In. split; [|done].
    by eapply list_elem_of_lookup_2. }
  intros i j x y Hi Hj Hxy.
  apply lookup_app_Some in Hi as [Hi|[Hi1 Hi]]; apply lookup_app_Some in Hj as [Hj|[Hj1 Hj]].
  - by eapply Hu.
  - apply list_lookup_singleton_Some in Hj as [? <-]. apply attempt_clash_sym in Hxy.
    by rewrite (Hn i x) in Hxy.
  - apply list_lookup_singleton_Some in Hi as [? <-]. by rewrite (Hn j y) in Hxy.
  - apply list_lookup_singleton_Some in Hi as [? <-].
    apply list_lookup_singleton_Some in Hj as [? <-]. lia.
Qed.

Lemma attempts_inv_id l a b : attempts_inv l → a ∈ l → b ∈ l → a_id a = a_id b → a = b.
Proof.
  intros [Hu _] (i & Hi)%list_elem_of_lookup (j & Hj)%list_elem_of_lookup E.
  assert (i = j) as ->; [|congruence]. eapply Hu; [done|done|].
  apply attempt_clash_true. by left.
Qed.

(** ** Programs that know a fact about the table

    [from keep P m]: [m] evolves the attempts, when it starts where [P] holds of
    them.  [P] survives every part of [m] that leaves the table alone, so the
    conditions the code tests on the row it loaded reach the update. *)
Definition from {A} (keep : bool) (P : list attempt_row → Prop) (m : M db A) : Prop :=
  ∀ s, P (attempts s) → wp m (λ _ s', evolution keep s s') s.

Definition loaded (aid : string) (a : attempt_row) (l : list attempt_row) : Prop :=
  attempts_inv l ∧ a ∈ l ∧ a_id a = aid.

Section from.
Context `{Host} (keep : bool) (P : list attempt_row → Prop).

Lemma from_keeps {A} (m : M db A) : keeps (evolution keep) m → from keep P m.
Proof. intros Hm s _. apply Hm. Qed.
Lemma from_bind {A B} (m : M db A) (k : A → M db B) :
  untouched attempts m → (∀ x, from keep P (k x)) → from keep P (m ≫= k).
Proof.
  intros Hm Hk s HP. apply wp_bind. eapply wp_mono; [apply Hm|]. intros x s1 E. simpl in E.
  unfold from, evolution in *. rewrite <- E in HP |- *. by apply Hk.
Qed.
Lemma from_require {B} b e (k : () → M db B) :
  (b = true → from keep P (k tt)) → from keep P (require b e ≫= k).
Proof. intros Hk s HP. apply wp_bind, wp_require. intros Hb. by apply Hk. Qed.
Lemma from_lift {A B} (r : res A) (k : A → M db B) :
  (∀ x, r = Ok x → from keep P (k x)) → from keep P (lift r ≫= k).
Proof. intros Hk s HP. apply wp_bind, wp_lift. intros x Hx. by apply Hk. Qed.
Lemma from_get_some {A B} (o : option A) e (k : A → M db B) :
  (∀ x, o = Some x → from keep P (k x)) → from keep P (get_some o e ≫= k).
Proof. intros Hk s HP. apply wp_bind, wp_get_some. intros x Hx. by apply Hk. Qed.
Lemma from_assoc {A B C} (m1 : M db A) (m2 : A → M db B) (k : B → M db C) :
  from keep P (x ← m1; m2 x ≫= k) → from keep P ((m1 ≫= m2) ≫= k).
Proof.
  intros H1 s HP. specialize (H1 s HP). unfold wp, mbind, M_bind in *.
  by destruct (m1 s) as [[x s1]|].
Qed.
Lemma from_ret_bind {A B} (x : A) (k : A → M db B) : from keep P (k x) → from keep P (mret x ≫= k).
Proof. done. Qed.
Lemma from_pose (Q : Prop) {A} (m : M db A) : (∀ l, P l → Q) → (Q → from keep P m) → from keep P m.
Proof. intros HQ Hm s HP. by apply Hm; [eapply HQ|]. Qed.
End from.

Section updates.
Context `{Host} (keep : bool).

Lemma keeps_evolution_untouched {A} (m : M db A) : untouched attempts m → keeps (evolution keep) m.
Proof.
  intros Hm s. eapply wp_mono; [apply Hm|]. intros a s' E. simpl in E. unfold evolution.
  rewrite E. apply (reflexivity (R := evolution keep) s).
Qed.

Lemma wp_attempt aid (Q : attempt_row → db → Prop) s :
  (∀ a, a ∈ attempts s → a_id a = aid → Q a s) → wp (attempt aid) Q s.
Proof.
  intros HQ. unfold attempt, attempt_at. apply wp_bind, wp_lift. intros x [E _]%key_ok.
  apply wp_bind, wp_gets, wp_get_some. intros a [Ha Hid%bool_decide_eq_true]%select_one_Some.
  apply HQ; [done|]. congruence.
Qed.

Lemma from_attempt {B} aid (k : attempt_row → M db B) :
  (∀ a, from keep (loaded aid a) (k a)) → from keep attempts_inv (attempt aid ≫= k).
Proof.
  intros Hk s Hs. apply wp_bind, wp_attempt. intros a Ha Hid. by apply Hk.
Qed.
Lemma keeps_attempt {B} aid (k : attempt_row → M db B) :
  (∀ a, from keep (loaded aid a) (k a)) → keeps (evolution keep) (attempt aid ≫= k).
Proof.
  intros Hk s. apply run_wp. intros b s' E Hs.
  pose proof (wp_run _ _ _ _ _ (from_attempt aid k Hk s Hs) E) as He. by apply He.
Qed.
Lemma from_reload {B} (P : list attempt_row → Prop) aid (k : attempt_row → M db B) :
  (∀ l, P l → attempts_inv l) → (∀ a, from keep (loaded aid a) (k a)) → from keep P (attempt aid ≫= k).
Proof. intros HP Hk s Hs. apply (from_attempt aid k Hk). by apply HP. Qed.

(** An update of the loaded row that is a step of that row. *)
Lemma evolution_update aid a f l s :
  loaded aid a l → (row_ok a → attempt_step keep a (f a) ∧ row_ok (f a)) → attempts s = l →
  evolution keep s (s <| attempts ::= update_where (λ a, bool_decide (a_id a = aid)) f |>).
Proof.
  intros (Hl & Ha & Hid) Hstep El Hs. simpl. rewrite El in *.
  assert (row_ok a) as Hok by (by eapply Forall_forall; [apply ai_rows|]).
  destruct (Hstep Hok) as [H1 H2].
  assert (∀ b, b ∈ l → bool_decide (a_id b = aid) = true → b = a) as Hone.
  { intros b Hb E%bool_decide_eq_true. eapply attempts_inv_id; [exact Hl|done|done|congruence]. }
  assert (Forall2 (attempt_step keep) l (update_where (λ a, bool_decide (a_id a = aid)) f l)) as HF.
  { unfold update_where. apply Forall2_fmap_r, Forall2_same_length_lookup_2; [done|].
    intros i x y Hx Hy. assert (y = x) as -> by congruence.
    unfold compose. destruct (bool_decide (a_id x = aid)) eqn:E; [|reflexivity].
    by rewrite (Hone x) by (try done; by eapply list_elem_of_lookup_2). }
  split; [|by eexists _, []; rewrite app_nil_r].
  apply (attempts_inv_step keep l); [done| |done]. apply Forall_forall. intros x Hx.
  apply elem_of_update_where in Hx as (y & Hy & ->).
  destruct (bool_decide (a_id y = aid)) eqn:E; [by rewrite (Hone y)|].
  by eapply Forall_forall; [apply ai_rows|].
Qed.

Lemma from_update aid a f :
  (row_ok a → attempt_step keep a (f a) ∧ row_ok (f a)) → from keep (loaded aid a) (update_attempt aid f).
Proof. intros Hf s Hs. apply wp_modify. by eapply evolution_update. Qed.

Lemma from_update_bind {B} aid a f (k : () → M db B) :
  (row_ok a → attempt_step keep a (f a) ∧ row_ok (f a)) → keeps (evolution keep) (k tt) →
  from keep (loaded aid a) (update_attempt aid f ≫= k).
Proof.
  intros Hf Hk s Hs. apply wp_bind, wp_modify. apply keeps_from; [apply _| |done].
  by eapply evolution_update.
Qed.

(** Updates that are a step of any row. *)
Lemma keeps_update aid f :
  (∀ a, attempt_step keep a (f a)) → (∀ a, row_ok a → row_ok (f a)) →
  keeps (evolution keep) (update_attempt aid f).
Proof.
  intros H1 H2 s. apply wp_modify. intros Hs. simpl. set (l := attempts s) in *.
  assert (Forall2 (attempt_step keep) l (update_where (λ a, bool_decide (a_id a = aid)) f l)) as HF.
  { unfold update_where. apply Forall2_fmap_r, Forall2_same_length_lookup_2; [done|].
    intros i x y Hx Hy. assert (y = x) as -> by congruence. unfold compose. case_bool_decide; [done|reflexivity]. }
  split; [|by eexists _, []; rewrite app_nil_r].
  apply (attempts_inv_step keep l); [done| |done]. apply Forall_forall. intros x Hx.
  apply elem_of_update_where in Hx as (y & Hy & ->).
  assert (row_ok y) by (by eapply Forall_forall; [apply ai_rows|]). case_bool_decide; auto.
Qed.

Lemma keeps_insert_attempt a : row_ok a → keeps (evolution keep) (insert_attempt a).
Proof.
  intros Ha s. unfold insert_attempt. apply wp_bind, wp_gets, wp_bind, wp_require.
  intros Hc. apply wp_modify. intros Hs. simpl. split.
  - apply attempts_inv_snoc; [done|done|]. unfold attempt_conflict in Hc. bsimpl.
    by destruct (existsb _ _).
  - exists (attempts s), [a]. by split.
Qed.
End updates.
#[export] Hint Resolve keeps_insert_attempt : keeps.

Lemma evolution_same keep s s' : attempts s' = attempts s → evolution keep s s'.
Proof. unfold evolution. intros ->. apply (reflexivity (R := evolution keep) s). Qed.

(** Follows a program that knows its row down to the update. *)
Ltac evolve :=
  repeat first
    [ progress intros
    | lazymatch goal with
      | |- from _ _ ((_ ≫= _) ≫= _) => apply from_assoc
      | |- from _ _ (mret _ ≫= _) => apply from_ret_bind
      | |- from _ _ (require _ _ ≫= _) => apply from_require; intros ?
      | |- from _ _ (lift _ ≫= _) => apply from_lift; intros ? ?
      | |- from _ _ (get_some _ _ ≫= _) => apply from_get_some; intros ? ?
      | |- from _ _ ((match ?x with _ => _ end) ≫= _) => destruct x eqn:?
      | |- from _ _ (match ?x with _ => _ end) => destruct x eqn:?
      | |- from _ _ (when ?b _ ≫= _) => destruct b eqn:?; unfold when
      | |- from _ _ (when ?b _) => destruct b eqn:?; unfold when
      | |- from _ _ (let _ := _ in _) => cbv zeta
      end
    | apply from_update_bind; [|solve [apply keeps_evolution_untouched; frame_operation]]
    | apply from_update
    | solve [apply from_keeps, keeps_evolution_untouched; frame_operation]
    | apply from_bind; [solve [frame_operation]|] ].

(** The row conditions left over, from the conditions of the code. *)
Ltac known_status :=
  match goal with
  | E : a_status ?a = ?st |- context [a_status ?a] => rewrite E
  | E : a_status ?a = ?st, F : context [a_status ?a] |- _ => rewrite E in F
  end.
Ltac evolve_row :=
  intros; bsimpl;
  repeat match goal with H : _ || _ = true |- _ => apply orb_true_iff in H as [H|H]; bsimpl end;
  match goal with H : row_ok _ |- _ => destruct H end;
  split; split; simpl; intros; bsimpl; repeat case_bool_decide; repeat known_status;
  first [done | by left | right; lia | congruence | solve [eauto 3]].

Section lifecycle.
Context `{Host} (keep : bool).

Lemma record_preflight_evolution a r e : keeps (evolution keep) (record_preflight a r e).
Proof.
  unfold record_preflight. apply keeps_bind; [apply _|apply keeps_require; apply _|]. intros _.
  apply keeps_attempt. intros row. evolve. all: evolve_row.
Qed.
Lemma pin_relay_evolution a r : keeps (evolution keep) (pin_relay a r).
Proof.
  unfold pin_relay. apply keeps_bind; [apply _|apply keeps_require; apply _|]. intros _.
  apply keeps_attempt. intros row. evolve. all: evolve_row.
Qed.
Lemma pin_prior_candidate_evolution a p v : keeps (evolution keep) (pin_prior_candidate a p v).
Proof. unfold pin_prior_candidate. apply keeps_attempt. intros row. evolve. all: evolve_row. Qed.
Lemma reconcile_prior_candidate_evolution a e v : keeps (evolution keep) (reconcile_prior_candidate a e v).
Proof. unfold reconcile_prior_candidate. apply keeps_attempt. intros row. evolve. all: evolve_row. Qed.
Lemma pin_host_contract_evolution a d : keeps (evolution keep) (pin_host_contract a d).
Proof.
  unfold pin_host_contract. apply keeps_bind; [apply _|apply keeps_lift; apply _|]. intros m.
  apply keeps_attempt. intros row. evolve. all: evolve_row.
Qed.
Lemma claim_launch_evolution a d i c k f : keeps (evolution keep) (claim_launch a d i c k f).
Proof. unfold claim_launch. apply keeps_attempt. intros row. evolve. all: evolve_row. Qed.
Lemma retire_reservation_evolution a r : keeps (evolution keep) (retire_reservation a r).
Proof.
  unfold retire_reservation. apply keeps_bind; [apply _|apply keeps_lift; apply _|]. intros m.
  apply keeps_attempt. intros row. evolve. all: evolve_row.
Qed.
Lemma launch_uncertain_evolution a r : keeps (evolution keep) (launch_uncertain a r).
Proof.
  unfold launch_uncertain. apply keeps_bind; [apply _|apply keeps_lift; apply _|]. intros m.
  apply keeps_attempt. intros row. evolve. all: evolve_row.
Qed.
End lifecycle.

(** An empty text is no key and no digest, so [truthy] tests for [None]. *)
Lemma truthy_run a : row_ok a → truthy (a_run a) = None → a_run a = None.
Proof.
  intros [_ _ Hr] Ht. destruct (a_run a) as [x|] eqn:E; [|done]. specialize (Hr x eq_refl).
  simpl in Ht. case_bool_decide; by subst.
Qed.
Lemma truthy_artifact a : row_ok a → truthy (a_artifact a) = a_artifact a.
Proof.
  intros [_ Hs _]. destruct (a_artifact a) as [x|] eqn:E; [|done]. specialize (Hs x eq_refl).
  simpl. case_bool_decide; by subst.
Qed.

Section runs_lifecycle.
Context `{Host} (keep : bool).

Lemma keeps_evolution_bind {A B} (m : M db A) (k : A → M db B) :
  untouched attempts m → (∀ x, keeps (evolution keep) (k x)) → keeps (evolution keep) (m ≫= k).
Proof. intros Hm Hk. apply keeps_bind; [apply _| |done]. by apply keeps_evolution_untouched. Qed.

Lemma bind_run_evolution sf a r : keeps (evolution keep) (bind_run sf a r).
Proof.
  unfold bind_run. intros s. apply wp_bind, wp_lift. intros run [_ HK]%key_ok. apply wp_bind.
  apply (wp_mono _ (λ _ s', s' = s)); [by apply wp_attempt|].
  intros before s' ->. apply wp_bind, wp_require. intros _. apply wp_bind, wp_lift. intros row _.
  revert s. apply (keeps_attempt keep a). intros current.
  destruct (truthy (a_run current)) as [bound|] eqn:Hb; evolve.
  assert (a_run current = None) by by apply truthy_run. evolve_row.
Qed.

(** The status and artifact an outcome may give the row. *)
Lemma settle_step a b :
  row_ok a → attempt_identity b = attempt_identity a →
  a_run b = a_run a → a_graph_version b = a_graph_version a → a_graph_digest b = a_graph_digest a →
  a_fence b = a_fence a → a_owner b = a_owner a →
  (a_version a ≤ a_version b)%Z → a_status b ≠ Reserved →
  terminal (a_status a) && ACTIVE (a_status b) = false → a_status a ≠ Abandoned →
  (a_artifact b = a_artifact a ∨
   ∃ x, a_artifact b = Some x ∧ ACTIVE (a_status b) = false ∧ SHA x = true ∧
     ∀ y, a_artifact a = Some y → y = x) →
  attempt_step false a b ∧ row_ok b.
Proof.
  intros [Ha Hs Hr] Hid E1 E2 E3 E4 E5 Hv Hres Hterm Hab Hart.
  assert (ACTIVE (a_status b) = true → ACTIVE (a_status a) = true) as Hact.
  { intros E. rewrite E, andb_true_r in Hterm. unfold terminal in Hterm. by bsimpl. }
  split; split; rewrite ?E1, ?E2, ?E3; try done; try by left.
  - intros y Hy. destruct Hart as [-> | (x & -> & _ & _ & Hx)]; [done|]. by rewrite (Hx y).
  - intros E. destruct Hart as [-> | (x & _ & E' & _)]; [by apply Ha, Hact|congruence].
  - intros y Hy. destruct Hart as [Hb | (x & Hb & _ & Hx & _)]; [apply Hs; congruence|].
    rewrite Hb in Hy. by injection Hy as <-.
Qed.

Lemma outcome_not_reserved st q : outcome_status st q ≠ Reserved.
Proof. destruct st; simpl; try done; by case_bool_decide. Qed.

Lemma settle_run_evolution aid actor row q c :
  (∀ x, c = Some x → SHA x = true) →
  keeps (evolution false) (settle_run aid actor row (outcome_status (rn_status row) q) c).
Proof.
  intros Hc. unfold settle_run. apply keeps_attempt. intros a.
  apply from_require; intros _. apply from_bind; [frame|intros n]. apply from_bind; [frame|intros fresh].
  set (status := if _ && _ then Superseded else _).
  assert (status ≠ Reserved) as Hres.
  { unfold status. destruct (_ && negb fresh); [done|apply outcome_not_reserved]. }
  generalize dependent status. intros status Hres.
  assert (∀ artifact err t, terminal (a_status a) && ACTIVE status = false → a_status a ≠ Abandoned →
    (artifact = a_artifact a ∨ ∃ x, artifact = Some x ∧ ACTIVE status = false ∧ SHA x = true ∧
       ∀ y, a_artifact a = Some y → y = x) → row_ok a →
    let b := a <| a_status := status |> <| a_artifact := artifact |> <| a_error := err |>
               <| a_updated := t |> in attempt_step false a b ∧ row_ok b) as Hstep.
  { intros artifact err t H1 H2 H3 H4.
    apply settle_step; done. }
  assert (∀ x, (if bool_decide (status = Candidate) then c else None) = Some x →
    match truthy (a_artifact a) with Some old => bool_decide (old = x) | None => true end = true →
    row_ok a → ∃ x', Some x = Some x' ∧ ACTIVE status = false ∧ SHA x' = true ∧
      ∀ y, a_artifact a = Some y → y = x') as Hnew.
  { intros x Hx Ht Hok. exists x. case_bool_decide; [subst|done]. split_and!; [done|done|by apply Hc|].
    intros y Hy. rewrite truthy_artifact, Hy in Ht by done. by bsimpl. }
  evolve; bsimpl; (apply Hstep; [done|done| |done]); [right|right|by left|by left].
  all: by eapply Hnew.
Qed.

(** *** Insertions and leases *)
Lemma keeps_update_lease aid e t :
  keeps (evolution keep) (update_attempt aid (λ r, r <| a_lease := Some e |> <| a_heartbeat := Some t |>)).
Proof. apply keeps_update; intros a; [split; try done; by left|]. by intros [? ? ?]; split. Qed.
End runs_lifecycle.
#[export] Hint Resolve keeps_update_lease : keeps.

Ltac keep_attempts :=
  repeat first
    [ progress intros
    | lazymatch goal with
      | |- keeps _ (_ ≫= _) => apply keeps_bind; [apply _| |]
      | |- keeps _ (match ?x with _ => _ end) => destruct x eqn:?
      | |- keeps _ (when _ _) => apply keeps_when; [apply _|]
      | |- keeps _ (for_each _ _) => apply keeps_for_each; [apply _|]
      | |- keeps _ (collect _ _) => apply keeps_collect; [apply _|]
      | |- keeps _ (let _ := _ in _) => cbv zeta
      end
    | solve [eauto 2 with keeps nocore]
    | solve [apply keeps_evolution_untouched; frame_operation] ].

Section insertions.
Context `{Host} (keep : bool).

Lemma reserve_once_evolution r mode report : keeps (evolution keep) (reserve_once r mode report).
Proof.
  unfold reserve_once, admit_attempt. keep_attempts; apply keeps_insert_attempt; by split.
Qed.
Lemma heartbeat_evolution d p cs xs ss : keeps (evolution keep) (heartbeat d p cs xs ss).
Proof. unfold heartbeat, beat_attempt. keep_attempts. Qed.
End insertions.

(** *** External observations *)
Section external_lifecycle.
Context `{Host}.

Lemma parse_report_status_in v st : parse_report_status v = Some st → st ∈ REPORTABLE.
Proof.
  unfold parse_report_status. destruct v; try done. intros [Hin _]%find_some.
  by apply list_elem_of_In.
Qed.
Lemma parse_report_ok r g : parse_report r = Ok g →
  g_attempt g = ga_attempt r ∧ g_id g = ga_id r ∧ g_status g ∈ REPORTABLE ∧
  KEY (g_id g) = true ∧ (final (g_status g) = true → g_quiescent g = true) ∧ (0 ≤ g_version g)%Z.
Proof.
  unfold parse_report. intros Hp. res_inv_all.
  destruct (parse_report_status (ga_status r)) as [st|] eqn:Est; [|done].
  destruct (ga_quiescent r); try done. res_inv_all. simpl.
  repeat match goal with
  | E : key _ _ = Ok _ |- _ => apply key_ok in E as [? ?]
  | E : integer _ _ _ _ = Ok _ |- _ => apply integer_ok in E as [? ?]
  end. simplify_eq. split_and!; try done; [by eapply parse_report_status_in| |lia].
  intros E. match goal with E' : negb _ || _ = true |- _ => rewrite E in E' end. done.
Qed.

Lemma declared_artifact_ok g x : declared_artifact g = Ok (Some x) →
  g_status g = Candidate ∧ SHA x.1 = true.
Proof.
  unfold declared_artifact. case_bool_decide; [|intros; by res_inv_all].
  destruct (parse_artifact_kind (g_kind g)) as [k|]; [|done].
  destruct (g_artifact g); try done. intros; res_inv_all. split; [done|]. simpl. unfold SHA.
  destruct k; simpl in *; by rewrite ?orb_true_iff; auto.
Qed.
Lemma collect_report_ok fs g late c x : collect_report fs g late = Ok c → co_artifact c = Some x →
  g_status g = Candidate ∧ SHA x.1 = true.
Proof.
  unfold collect_report. intros Hc Hx. res_inv_all. simpl in Hx. subst.
  by eapply declared_artifact_ok.
Qed.

Lemma authorize_report_late s x a fence late :
  authorize_report s x a fence = Ok late → late = bool_decide (a_status a = Abandoned).
Proof.
  unfold authorize_report. intros Ha.
  repeat match type of Ha with
  | context [match ?o with _ => _ end] => destruct o eqn:?
  end; res_inv_all; bsimpl; try done; symmetry;
  first [by apply bool_decide_eq_true|by apply bool_decide_eq_false].
Qed.

Lemma observe_guards_ok s g a : observe_guards s g a = Ok tt →
  a_version a = g_version g ∧ a_status a ≠ Failed ∧ a_status a ≠ Superseded ∧
  (a_status a = Candidate → g_status g = Failed) ∧ g_context g = digest (a_context a) ∧
  (g_status g = Candidate → report_used s g false = false).
Proof.
  unfold observe_guards. intros Hg. res_inv_all. bsimpl.
  match goal with E : _ || _ = true |- _ => apply orb_true_iff in E; rename E into Hcand end.
  match goal with E : _ && _ = false |- _ => apply andb_false_iff in E; rename E into Hused end.
  split_and!; try done.
  - intros E. destruct Hcand; bsimpl; [congruence|done].
  - intros E. destruct Hused; bsimpl; [congruence|done].
Qed.

Lemma result_status_cases g current late : g_status g ∈ REPORTABLE →
  result_status g current late ≠ Reserved ∧
  (late = false → ACTIVE (result_status g current late) = true → ACTIVE (g_status g) = true) ∧
  (result_status g current late = Candidate → g_status g = Candidate ∧ current = true ∧ late = false).
Proof.
  intros Hin. unfold result_status, final.
  destruct late; [done|]. destruct current; simpl;
    repeat (apply elem_of_cons in Hin as [->|Hin]); try done; by apply elem_of_nil in Hin.
Qed.

(** The row a current observation leaves. *)
Lemma commit_step s g a c current k t e u fs late :
  observe_guards s g a = Ok tt → a_status a ≠ Abandoned → g_status g ∈ REPORTABLE →
  collect_report fs g late = Ok c → row_ok a →
  let b := a <| a_status := result_status g current false |> <| a_version := (g_version g + 1)%Z |>
    <| a_artifact := match co_artifact c with Some p => Some p.1 | None => a_artifact a end |>
    <| a_artifact_kind := k |> <| a_terminal := t |> <| a_error := e |> <| a_updated := u |> in
  attempt_step false a b ∧ row_ok b.
Proof.
  intros (Hv & Hf & Hs & Hcand & _)%observe_guards_ok Hab Hin Hc Hok b.
  destruct (result_status_cases g current false Hin) as (Hres & Hact & _).
  assert (terminal (a_status a) && ACTIVE (result_status g current false) = false) as Hterm.
  { destruct (ACTIVE (result_status g current false)) eqn:E; [|by rewrite andb_false_r].
    specialize (Hact eq_refl eq_refl). rewrite andb_true_r. unfold terminal.
    destruct (a_status a); try done. rewrite (Hcand eq_refl) in Hact. done. }
  apply settle_step; unfold b; simpl; try done; [lia|].
  destruct (co_artifact c) as [p|] eqn:Ec; [right|by left].
  destruct (collect_report_ok _ _ _ _ _ Hc Ec) as [Eg Hsha]. exists p.1. split_and!; [done| |done|].
  - unfold result_status, final. rewrite Eg. by destruct current.
  - intros y Hy. destruct (ACTIVE (a_status a)) eqn:E.
    + by rewrite (ro_artifact a Hok E) in Hy.
    + destruct (a_status a); try done. by rewrite Hcand in Eg.
Qed.

Lemma observe_commit_evolution fs x r g late c stored :
  parse_report r = Ok g → collect_report fs g late = Ok c → keeps (evolution false) (observe_commit x g c stored).
Proof.
  intros (_ & _ & Hin & _)%parse_report_ok Hc. unfold observe_commit, commit_late, commit_current.
  apply keeps_bind; [apply _|apply keeps_evolution_untouched; frame_operation|]. intros _.
  apply keeps_attempt. intros a. evolve; subst;
    repeat match goal with
    | u : () |- _ => destruct u
    | E : authorize_report _ _ _ _ = Ok _ |- _ => apply authorize_report_late in E; symmetry in E; bsimpl
    end; try (by eapply commit_step).
  match goal with E : observe_guards _ _ _ = _ |- _ => apply observe_guards_ok in E as (Hv & _) end.
  destruct H5. split; split; simpl; try done; [lia|by left].
Qed.
End external_lifecycle.

(** *** Ownership *)
Section ownership_lifecycle.
Context `{Host} (env : environment) (keep : bool).

Lemma reclaimable_untouched {B} (f : db → B) x a e o t b :
  (∀ s n, f (s <| ticks ::= n |>) = f s) → untouched f (reclaimable env x a e o t b).
Proof.
  intros Hf. unfold reclaimable, offline_owner_evidence, presence_at.
  assert (untouched f now) by (intros s; by apply wp_now; intros ?; apply Hf). frame.
Qed.
Lemma reclaimable_active x a e o t b s :
  wp (reclaimable env x a e o t b) (λ _ _, ACTIVE (a_status a) = true ∧ e = JInt (a_fence a)) s.
Proof.
  unfold reclaimable. apply wp_bind, wp_require. intros Ha. apply wp_bind, wp_gets, wp_bind, wp_lift. intros m _.
  apply wp_bind, wp_require. intros He%bool_decide_eq_true. by apply run_wp.
Qed.
Lemma from_reclaimable {B} P x a e o t b (k : bool * option presence → M db B) :
  (∀ v, ACTIVE (a_status a) = true → from keep P (k v)) → from keep P (reclaimable env x a e o t b ≫= k).
Proof.
  intros Hk s HP. apply wp_bind. eapply wp_mono.
  { apply wp_conj; [apply (reclaimable_untouched attempts); reflexivity|apply reclaimable_active]. }
  intros v s1 [E [Ha _]]. simpl in E. unfold from, evolution in *. rewrite <- E in HP |- *. by apply Hk.
Qed.

Ltac to_attempt :=
  repeat lazymatch goal with
  | |- keeps _ (attempt _ ≫= _) => apply keeps_attempt; intros ?
  | |- keeps _ (_ ≫= _) => apply keeps_evolution_bind; [solve [frame_operation]|intros ?]
  | |- keeps _ (let _ := _ in _) => cbv zeta
  end.

Lemma abandon_evolution fs x i e k r f g o :
  keeps (evolution keep) (abandon_external_attempt env fs x i e k r f g o).
Proof.
  unfold abandon_external_attempt. to_attempt. apply from_require; intros _. apply from_reclaimable.
  intros v Hact. evolve. all: evolve_row.
Qed.
Lemma take_over_attempt_evolution x i e r o : keeps (evolution keep) (take_over_attempt env x i e r o).
Proof.
  unfold take_over_attempt. to_attempt. apply from_require; intros _. apply from_reclaimable.
  intros v Hact. unfold own_attempt. evolve. all: evolve_row.
Qed.
Lemma accept_attempt_evolution a d p i x h e t : keeps (evolution keep) (accept_attempt a d p i x h e t).
Proof. unfold accept_attempt. to_attempt. unfold own_attempt. evolve. all: evolve_row. Qed.
Lemma accept_handoff_evolution a d p i e : keeps (evolution keep) (accept_handoff a d p i e).
Proof.
  unfold accept_handoff. repeat (apply keeps_evolution_bind; [solve [frame_operation]|intros ?]).
  apply keeps_bind; [apply _| |intros ?; apply keeps_evolution_untouched; frame_operation].
  destruct (hf_attempt _); [apply accept_attempt_evolution|].
  destruct (hf_claim _); apply keeps_evolution_untouched; frame_operation.
Qed.
End ownership_lifecycle.

(** ** Every operation evolves the attempts *)
Section evolution.
Context `{Host}.

#[local] Hint Resolve reserve_once_evolution heartbeat_evolution record_preflight_evolution
  pin_relay_evolution pin_prior_candidate_evolution reconcile_prior_candidate_evolution
  pin_host_contract_evolution claim_launch_evolution retire_reservation_evolution
  launch_uncertain_evolution bind_run_evolution abandon_evolution take_over_attempt_evolution
  accept_handoff_evolution : keeps.
Ltac operation_step :=
  first
    [ solve [eauto 2 with keeps nocore]
    | apply keeps_evolution_untouched;
      unfold add_nodes, set_node_facet, revise_node, split_node, revise, add, split;
      solve [frame_operation] ].

Lemma operation_evolution A (m : M db A) : operation m → keeps (evolution false) m.
Proof.
  intros Hop. destruct Hop;
    first [eapply observe_commit_evolution; eassumption|by apply settle_run_evolution|operation_step].
Qed.

Lemma attempts_inv_empty : attempts_inv [].
Proof. split; [by intros i j a b Hi|constructor]. Qed.

Lemma reachable_attempts s : reachable s → attempts_inv (attempts s).
Proof.
  apply (reachable_invariant (λ s, attempts_inv (attempts s))); [apply attempts_inv_empty|].
  intros A m Hm s0 H0. eapply wp_mono; [by apply operation_evolution|]. intros a s' He. by apply He.
Qed.

Lemma steps_evolve s s' : rtc step s s' → evolution false s s'.
Proof. apply steps_keep; [apply _|]. apply operation_evolution. Qed.
End evolution.
