(* ===== verification/Exclusion.v ===== *)
(** * Exclusive claims and their fences

    [claims_inv]: identifiers and requests are unique, no two claims on a node share
    a fence, and a live exclusive claim has the highest fence of all exclusive claims
    on its node, so there is at most one.  A claim's row evolves by [claim_step]:
    what identifies it stays, its fence does not fall, and a claim that is no longer
    live does not come back.  Seen through [lock_of], every operation performs steps
    of the fenced lock of each node ([Lock]). *)
From S2P Require Import Prelude Lock Json Text Dag Store Graph History Portfolio Presence Claims.
From S2P Require Import Enforcement Review Attempts Evidence External Registry Inbox Issues Design.
From S2P Require Import Takeover Recovery Handoffs View Ledger System.
From S2P Require Import Lifecycle.

Record claim_step (c c' : claim_row) : Prop := ClaimStep {
  cs_identity : claim_identity c' = claim_identity c;
  cs_live : cl_status c' = Live → cl_status c = Live;
  cs_fence : (cl_fence c ≤ cl_fence c')%Z;
}.
#[export] Instance claim_step_preorder : PreOrder claim_step.
Proof.
  split; [by split|]. intros a b c [] []. split; [congruence|auto|lia].
Qed.

Definition same_node (c d : claim_row) : Prop := cl_project c = cl_project d ∧ cl_node c = cl_node d.
Definition holds_exclusively (c : claim_row) : Prop :=
  cl_status c = Live ∧ EXCLUSIVE (cl_purpose c) = true.

(** What holds of a claim and another one. *)
Record claims_ok (c d : claim_row) : Prop := ClaimsOk {
  ck_id : cl_id c ≠ cl_id d;
  ck_request : same_node c d → cl_driver c = cl_driver d → cl_request_key c ≠ cl_request_key d;
  ck_fence : same_node c d → cl_fence c ≠ cl_fence d;
  ck_top : same_node c d → holds_exclusively c → EXCLUSIVE (cl_purpose d) = true → (cl_fence d < cl_fence c)%Z;
}.
Definition claims_inv (l : list claim_row) : Prop :=
  ∀ i j c d, i ≠ j → l !! i = Some c → l !! j = Some d → claims_ok c d.

Lemma claims_inv_pair l c d : claims_inv l → c ∈ l → d ∈ l → c ≠ d → claims_ok c d.
Proof.
  intros Hl (i & Hi)%list_elem_of_lookup (j & Hj)%list_elem_of_lookup Hne.
  apply (Hl i j); [|done|done]. intros ->. congruence.
Qed.
Lemma claims_inv_id l c d : claims_inv l → c ∈ l → d ∈ l → cl_id c = cl_id d → c = d.
Proof.
  intros Hl (i & Hi)%list_elem_of_lookup (j & Hj)%list_elem_of_lookup E.
  destruct (decide (i = j)) as [->|Hne]; [congruence|]. by destruct (ck_id _ _ (Hl i j c d Hne Hi Hj)).
Qed.
Lemma claims_inv_holder l c d :
  claims_inv l → c ∈ l → d ∈ l → same_node c d → holds_exclusively c → holds_exclusively d → c = d.
Proof.
  intros Hl Hc Hd Hs Hhc Hhd. assert (same_node d c) as Hs' by (destruct Hs; by split).
  apply list_elem_of_lookup in Hc as [i Hi]. apply list_elem_of_lookup in Hd as [j Hj].
  destruct (decide (i = j)) as [->|Hne]; [congruence|].
  pose proof (ck_top _ _ (Hl i j c d Hne Hi Hj) Hs Hhc (proj2 Hhd)).
  pose proof (ck_top _ _ (Hl j i d c (not_eq_sym Hne) Hj Hi) Hs' Hhd (proj2 Hhc)). lia.
Qed.

Lemma select_one_head {A} (p : A → bool) l : select_one p l = head (select p l).
Proof. induction l as [|c l IH]; [done|]. unfold select_one in *. simpl. by destruct (p c). Qed.

(** ** The lock of a node *)
Definition holding (pid nk : string) (c : claim_row) : bool :=
  on_node pid nk c && is_live c && EXCLUSIVE (cl_purpose c).
Definition exclusive_on (pid nk : string) (c : claim_row) : bool := on_node pid nk c && EXCLUSIVE (cl_purpose c).
Definition top_fence (l : list claim_row) (pid nk : string) : Z :=
  foldr Z.max 0%Z (cl_fence <$> select (exclusive_on pid nk) l).
Definition lock_of (l : list claim_row) (pid nk : string) : lock :=
  Lock ((λ c, (cl_id c, cl_driver c)) <$> select_one (holding pid nk) l) (top_fence l pid nk).

Lemma on_node_true pid nk c : on_node pid nk c = true ↔ cl_project c = pid ∧ cl_node c = nk.
Proof. unfold on_node. by rewrite andb_true_iff, !bool_decide_eq_true. Qed.
Lemma holding_true pid nk c : holding pid nk c = true ↔ on_node pid nk c = true ∧ holds_exclusively c.
Proof. unfold holding, is_live, holds_exclusively. rewrite !andb_true_iff, bool_decide_eq_true. tauto. Qed.

(** The holder is found wherever it stands in the table. *)
Lemma lock_holder l pid nk c :
  claims_inv l → c ∈ l → holding pid nk c = true → select_one (holding pid nk) l = Some c.
Proof.
  intros Hl Hc Hh. destruct (select_one (holding pid nk) l) as [d|] eqn:E.
  - apply select_one_Some in E as [Hd Hhd]. f_equal. apply holding_true in Hh as [Hn Hh], Hhd as [Hn' Hhd].
    apply on_node_true in Hn as [], Hn' as []. eapply claims_inv_holder; [done|done|done| |done|done]. split; congruence.
  - rewrite select_one_None in E. by rewrite E in Hh.
Qed.

Definition claim_evolution (s s' : db) : Prop :=
  claims_inv (claims s) → claims_inv (claims s') ∧
  (∃ l1 l2, claims s' = l1 ++ l2 ∧ Forall2 claim_step (claims s) l1) ∧
  ∀ pid nk, rtc lock_step (lock_of (claims s) pid nk) (lock_of (claims s') pid nk).

#[export] Instance claim_evolution_preorder : PreOrder claim_evolution.
Proof.
  split.
  - intros s Hs. split; [done|]. split; [|done]. exists (claims s), []. rewrite app_nil_r. split; [done|]. reflexivity.
  - intros s1 s2 s3 H1 H2 Hs. destruct (H1 Hs) as (Hs2 & (l1 & l2 & E & F1) & K1).
    destruct (H2 Hs2) as (Hs3 & (l3 & l4 & E' & F2) & K2). split; [done|]. split; [|intros pid nk; transitivity (lock_of (claims s2) pid nk); [apply K1|apply K2]].
    rewrite E in F2. apply Forall2_app_inv_l in F2 as (k1 & k2 & F3 & _ & ->).
    exists k1, (k2 ++ l4). rewrite E', <- (assoc_L (++)). split; [done|]. by etrans.
Qed.

(** *** Steps that leave the fences *)
Definition settled_step (c c' : claim_row) : Prop := claim_step c c' ∧ cl_fence c' = cl_fence c.
Lemma settled_node c c' pid nk : claim_step c c' → on_node pid nk c' = on_node pid nk c.
Proof.
  intros [E _ _]. injection E as E1 E2 E3 E4 E5 E6 E7 E8 E9 E10 E11 E12. unfold on_node. by rewrite E2, E3.
Qed.
Lemma settled_purpose c c' : claim_step c c' → cl_purpose c' = cl_purpose c ∧ cl_id c' = cl_id c ∧ cl_driver c' = cl_driver c.
Proof.
  intros [E _ _]. injection E as E1 E2 E3 E4 E5 E6 E7 E8 E9 E10 E11 E12. by split_and!.
Qed.

Lemma settled_ok c c' d d' : settled_step c c' → settled_step d d' → claims_ok c d → claims_ok c' d'.
Proof.
  intros [[Ec Lc _] Fc] [[Ed Ld _] Fd] [H1 H2 H3 H4].
  injection Ec as E1 E2 E3 E4 E5 E6 E7 E8 E9 E10 E11 E12.
  injection Ed as F1 F2 F3 F4 F5 F6 F7 F8 F9 F10 F11 F12.
  assert (same_node c' d' → same_node c d) as Hn by (unfold same_node; intros []; split; congruence).
  split; [congruence|intros ? ?; rewrite E10, F10; apply H2; [auto|congruence]|intros; rewrite Fc, Fd; auto|].
  intros Hs [Lx Xx] Xd. rewrite Fc, Fd. apply H4; [by apply Hn| |congruence]. split; [auto|congruence].
Qed.
Lemma settled_inv l l' : Forall2 settled_step l l' → claims_inv l → claims_inv l'.
Proof.
  intros HF Hl i j c' d' Hne Hi Hj. destruct (Forall2_lookup_r _ _ _ _ _ HF Hi) as (c & Hc & ?).
  destruct (Forall2_lookup_r _ _ _ _ _ HF Hj) as (d & Hd & ?). eapply settled_ok; [done|done|]. by eapply Hl.
Qed.
Lemma settled_top l l' pid nk : Forall2 settled_step l l' → top_fence l' pid nk = top_fence l pid nk.
Proof.
  unfold top_fence, select. induction 1 as [|c c' l l' [Hc Hf] _ IH]; [done|]. csimpl.
  assert (exclusive_on pid nk c' = exclusive_on pid nk c) as ->.
  { unfold exclusive_on. by rewrite (settled_node c c'), (proj1 (settled_purpose c c' Hc)). }
  destruct (exclusive_on pid nk c); csimpl; [by rewrite Hf, IH|done].
Qed.
Lemma settled_lock l l' pid nk :
  claims_inv l → Forall2 settled_step l l' → rtc lock_step (lock_of l pid nk) (lock_of l' pid nk).
Proof.
  intros Hl HF. unfold lock_of. rewrite (settled_top l l') by done.
  destruct (select_one (holding pid nk) l') as [c'|] eqn:E'.
  - apply select_one_Some in E' as [(i & Hi)%list_elem_of_lookup Hh'].
    destruct (Forall2_lookup_r _ _ _ _ _ HF Hi) as (c & Hc & [Hs _]).
    rewrite (lock_holder l pid nk c); [|done|by eapply list_elem_of_lookup_2|].
    + destruct (settled_purpose c c' Hs) as (_ & E1 & E2). simpl. by rewrite E1, E2.
    + apply holding_true in Hh' as [Hn [Hlv Hx]]. apply holding_true. rewrite (settled_node c c') in Hn by done.
      split; [done|]. split; [by apply Hs|]. by rewrite <- (proj1 (settled_purpose c c' Hs)).
  - destruct (select_one (holding pid nk) l) as [c|]; [|done]. apply rtc_once. apply lock_release.
Qed.

Lemma claim_evolution_update p f s :
  (∀ c, settled_step c (f c)) → claim_evolution s (s <| claims ::= update_where p f |>).
Proof.
  intros Hf Hs. simpl. assert (Forall2 settled_step (claims s) (update_where p f (claims s))) as HF.
  { unfold update_where. apply Forall2_fmap_r, Forall2_same_length_lookup_2; [done|].
    intros i x y Hx Hy. assert (y = x) as -> by congruence. unfold compose.
    destruct (p x); [apply Hf|split; reflexivity]. }
  split; [by eapply settled_inv|]. split; [|intros; by apply settled_lock].
  eexists _, []. rewrite app_nil_r. split; [done|]. eapply Forall2_impl; [exact HF|]. by intros ?? [].
Qed.

Lemma claim_evolution_same s s' : claims s' = claims s → claim_evolution s s'.
Proof. unfold claim_evolution. intros ->. apply (reflexivity (R := claim_evolution) s). Qed.

Ltac claim_update :=
  first
    [ apply claim_evolution_same; reflexivity
    | apply claim_evolution_update; intros ?; split; [split; [reflexivity|done|done]|reflexivity] ].

(** *** A new claim *)
Lemma foldr_max_le z zs : z ∈ zs → (z ≤ foldr Z.max 0 zs)%Z.
Proof.
  induction zs as [|y zs IH]; simpl; [by intros ?%elem_of_nil|].
  intros [->|Hin]%elem_of_cons; [lia|]. specialize (IH Hin). lia.
Qed.
Lemma foldr_max_app zs z : (0 ≤ foldr Z.max 0 zs)%Z → foldr Z.max 0%Z (zs ++ [z]) = Z.max (foldr Z.max 0%Z zs) (Z.max z 0).
Proof. induction zs as [|y zs IH]; simpl; [lia|]. intros H. rewrite IH; [lia|]. clear. induction zs; simpl; lia. Qed.
Lemma foldr_max_pos zs : (0 ≤ foldr Z.max 0 zs)%Z.
Proof. induction zs; simpl; lia. Qed.
Lemma foldr_max_bound zs b : (0 ≤ b)%Z → (∀ z, z ∈ zs → (z ≤ b)%Z) → (foldr Z.max 0 zs ≤ b)%Z.
Proof.
  intros Hb Hz. induction zs as [|y zs IH]; simpl; [done|]. assert (y ≤ b)%Z by (apply Hz; left).
  assert (foldr Z.max 0 zs ≤ b)%Z by (apply IH; intros; apply Hz; by right). lia.
Qed.

Lemma max_fence_spec s pid nk c :
  c ∈ claims s → on_node pid nk c = true → (cl_fence c ≤ max_fence s pid nk)%Z.
Proof.
  intros Hc Hn. unfold max_fence. apply foldr_max_le, list_elem_of_fmap. exists c.
  split; [done|]. by apply elem_of_select.
Qed.
Lemma top_fence_max s pid nk : (top_fence (claims s) pid nk ≤ max_fence s pid nk)%Z.
Proof.
  unfold top_fence. apply foldr_max_bound; [apply foldr_max_pos|].
  intros z (c & -> & [Hc Hx]%elem_of_select)%list_elem_of_fmap. apply max_fence_spec; [done|].
  unfold exclusive_on in Hx. by bsimpl.
Qed.

Lemma claim_clash_false s c d : claim_conflict s c = false → d ∈ claims s →
  cl_id d ≠ cl_id c ∧ (same_node d c →
    (cl_driver d = cl_driver c → cl_request_key d ≠ cl_request_key c) ∧ ¬ (holds_exclusively d ∧ holds_exclusively c)).
Proof.
  intros Hc Hd. assert (claim_clash c d = false) as E.
  { destruct (claim_clash c d) eqn:E; [|done]. rewrite <- Hc. symmetry. apply existsb_exists. exists d.
    by rewrite <- list_elem_of_In. }
  unfold claim_clash in E. apply orb_false_iff in E as [E1%bool_decide_eq_false E2]. split; [done|].
  intros [Hp Hn]. assert (on_node (cl_project c) (cl_node c) d = true) as Ho by (by apply on_node_true).
  rewrite Ho in E2. simpl in E2. apply orb_false_iff in E2 as [E2 E3]. split.
  - intros Hd1 Hr. by rewrite !bool_decide_eq_true_2 in E2.
  - intros [[L1 X1] [L2 X2]]. unfold is_live in E3. by rewrite L1, L2, X1, X2 in E3.
Qed.

(** The claims before it, and a live claim with the next fence. *)
Lemma new_claim_ok s c d :
  cl_fence c = (1 + max_fence s (cl_project c) (cl_node c))%Z → cl_status c = Live →
  claim_conflict s c = false → d ∈ claims s → claims_ok d c ∧ claims_ok c d.
Proof.
  intros Hf Hlv Hc Hd. destruct (claim_clash_false s c d Hc Hd) as [Hid Hs].
  assert (same_node d c → (cl_fence d < cl_fence c)%Z) as Hlt.
  { intros Hn. rewrite Hf. pose proof (max_fence_spec s (cl_project c) (cl_node c) d Hd) as Hle.
    rewrite on_node_true in Hle. specialize (Hle Hn). lia. }
  assert (same_node c d → same_node d c) as Hsym by (intros []; by split).
  split; split; try done.
  - intros Hn. by apply Hs.
  - intros Hn. specialize (Hlt Hn). lia.
  - intros Hn Hh Hx. exfalso. destruct (Hs Hn) as [_ Hno]. by apply Hno.
  - intros Hn E1 E2. destruct (Hs (Hsym Hn)) as [Hno _]. by apply Hno.
  - intros Hn. specialize (Hlt (Hsym Hn)). lia.
  - intros Hn _ _. by apply Hlt, Hsym.
Qed.

Lemma claims_inv_snoc l c : (∀ d, d ∈ l → claims_ok d c ∧ claims_ok c d) → claims_inv l → claims_inv (l ++ [c]).
Proof.
  intros Hc Hl i j x y Hne Hi Hj.
  apply lookup_app_Some in Hi as [Hi|[Hi1 Hi]]; apply lookup_app_Some in Hj as [Hj|[Hj1 Hj]].
  - by eapply Hl.
  - apply list_lookup_singleton_Some in Hj as [? <-]. by apply Hc; eapply list_elem_of_lookup_2.
  - apply list_lookup_singleton_Some in Hi as [? <-]. by apply Hc; eapply list_elem_of_lookup_2.
  - apply list_lookup_singleton_Some in Hi as [? <-]. apply list_lookup_singleton_Some in Hj as [? <-]. lia.
Qed.

Lemma top_fence_snoc l c pid nk :
  top_fence (l ++ [c]) pid nk =
    if exclusive_on pid nk c then Z.max (top_fence l pid nk) (Z.max (cl_fence c) 0) else top_fence l pid nk.
Proof.
  unfold top_fence. rewrite select_app, fmap_app. unfold select at 2. simpl.
  destruct (exclusive_on pid nk c); simpl; [|by rewrite app_nil_r].
  apply foldr_max_app, foldr_max_pos.
Qed.

Lemma lock_insert s c pid nk :
  cl_fence c = (1 + max_fence s (cl_project c) (cl_node c))%Z → cl_status c = Live → claim_conflict s c = false →
  rtc lock_step (lock_of (claims s) pid nk) (lock_of (claims s ++ [c]) pid nk).
Proof.
  intros Hf Hlv Hc. unfold lock_of. rewrite top_fence_snoc, select_one_snoc.
  destruct (exclusive_on pid nk c) eqn:Hx.
  - assert (holding pid nk c = true) as Hh.
    { apply andb_true_iff in Hx as [Hn Hp]. unfold holding, is_live. by rewrite Hn, Hlv, Hp. }
    assert (select_one (holding pid nk) (claims s) = None) as ->.
    { apply select_one_None. intros d Hd. destruct (holding pid nk d) eqn:Hhd; [|done]. exfalso.
      destruct (claim_clash_false s c d Hc Hd) as [_ Hs]. apply holding_true in Hh as [Hn Hh], Hhd as [Hn' Hhd].
      apply on_node_true in Hn as [], Hn' as []. apply Hs; [split; congruence|by split]. }
    rewrite Hh. simpl. apply rtc_once, lock_acquire.
    assert (cl_project c = pid ∧ cl_node c = nk) as [<- <-].
    { unfold exclusive_on in Hx. bsimpl. by apply on_node_true. }
    pose proof (top_fence_max s (cl_project c) (cl_node c)). lia.
  - assert (holding pid nk c = false) as ->.
    { unfold holding, exclusive_on, is_live in *. rewrite Hlv. destruct (on_node pid nk c); [|done].
      simpl in *. by rewrite Hx, ?andb_false_r. }
    by destruct (select_one (holding pid nk) (claims s)).
Qed.

Lemma claim_evolution_insert c s :
  cl_fence c = (1 + max_fence s (cl_project c) (cl_node c))%Z → cl_status c = Live → claim_conflict s c = false →
  claim_evolution s (s <| claims ::= (λ l, l ++ [c]) |>).
Proof.
  intros Hf Hlv Hc Hs. split; [|split].
  - apply claims_inv_snoc; [|done]. intros d Hd. by apply (new_claim_ok s).
  - exists (claims s), [c]. by split.
  - intros pid nk. by apply lock_insert.
Qed.

(** Who holds a node later than another has the higher fence. *)
Lemma top_fence_holder l pid nk c :
  claims_inv l → c ∈ l → on_node pid nk c = true → holds_exclusively c →
  top_fence l pid nk = Z.max 0 (cl_fence c).
Proof.
  intros Hl Hc Hn Hh. apply Z.le_antisymm.
  - apply foldr_max_bound; [lia|]. intros z (d & -> & [Hd Hx]%elem_of_select)%list_elem_of_fmap.
    apply andb_true_iff in Hx as [Hnd Hx]. apply on_node_true in Hn as [], Hnd as [].
    assert (same_node c d) as Hs by (split; congruence).
    apply list_elem_of_lookup in Hc as [i Hi]. apply list_elem_of_lookup in Hd as [j Hj].
    destruct (decide (i = j)) as [->|Hne]; [assert (c = d) as -> by congruence; lia|].
    pose proof (ck_top _ _ (Hl i j c d Hne Hi Hj) Hs Hh Hx). lia.
  - apply Z.max_lub; [apply foldr_max_pos|]. apply foldr_max_le, list_elem_of_fmap. exists c.
    split; [done|]. apply elem_of_select. split; [done|]. destruct Hh as [_ Hx]. unfold exclusive_on. by rewrite Hn, Hx.
Qed.
Lemma lock_of_fencing l l' pid nk c d :
  claims_inv l → claims_inv l' → rtc lock_step (lock_of l pid nk) (lock_of l' pid nk) →
  c ∈ l → d ∈ l' → on_node pid nk c = true → on_node pid nk d = true →
  holds_exclusively c → holds_exclusively d → cl_id c ≠ cl_id d → (cl_fence c < cl_fence d)%Z.
Proof.
  intros Hl Hl' Hk Hc Hd Hnc Hnd Hhc Hhd Hne.
  assert (holding pid nk c = true ∧ holding pid nk d = true) as [H1 H2] by (split; by apply holding_true).
  pose proof (lock_fencing _ _ (cl_id c, cl_driver c) (cl_id d, cl_driver d) Hk) as Hf. unfold lock_of in Hf.
  rewrite (lock_holder l pid nk c), (lock_holder l' pid nk d) in Hf by done. simpl in Hf.
  rewrite (top_fence_holder l pid nk c), (top_fence_holder l' pid nk d) in Hf by done.
  specialize (Hf eq_refl eq_refl ltac:(congruence)). lia.
Qed.

(** *** A live exclusive claim that takes the next fence *)
Definition refenced (f : claim_row → claim_row) (fence : Z) : Prop :=
  ∀ c, claim_identity (f c) = claim_identity c ∧ cl_status (f c) = cl_status c ∧ cl_fence (f c) = fence.

Section refence.
Context (s : db) (h : claim_row) (f : claim_row → claim_row).
Context (Hf : refenced f (1 + max_fence s (cl_project h) (cl_node h))%Z) (Hh : h ∈ claims s) (Hx : holds_exclusively h).
Context (Hs : claims_inv (claims s)).
Local Notation after := (update_where (λ c, bool_decide (cl_id c = cl_id h)) f (claims s)).

Lemma refence_lookup i c' : after !! i = Some c' → ∃ c, claims s !! i = Some c ∧
  (c = h ∧ c' = f h ∨ c ≠ h ∧ c' = c).
Proof.
  unfold update_where. rewrite list_lookup_fmap. intros (c & Hi & E)%fmap_Some. exists c. split; [done|].
  rewrite E. case_bool_decide as Hid; [left|right; split; [congruence|done]].
  assert (c = h) as -> by (eapply claims_inv_id; [done|by eapply list_elem_of_lookup_2|done|done]). done.
Qed.
Lemma refence_fence d : d ∈ claims s → same_node d h → (cl_fence d < cl_fence (f h))%Z.
Proof.
  intros Hd Hn. rewrite (proj2 (proj2 (Hf h))). pose proof (max_fence_spec s (cl_project h) (cl_node h) d Hd) as Hle.
  rewrite on_node_true in Hle. specialize (Hle Hn). lia.
Qed.
Lemma refence_fields : cl_id (f h) = cl_id h ∧ cl_project (f h) = cl_project h ∧ cl_node (f h) = cl_node h ∧
  cl_driver (f h) = cl_driver h ∧ cl_purpose (f h) = cl_purpose h ∧ cl_request_key (f h) = cl_request_key h ∧
  cl_status (f h) = cl_status h.
Proof.
  destruct (Hf h) as (E & E' & _). injection E as E1 E2 E3 E4 E5 E6 E7 E8 E9 E10 E11 E12. by split_and!.
Qed.

Lemma refence_ok d : d ∈ claims s → d ≠ h → claims_ok d (f h) ∧ claims_ok (f h) d.
Proof.
  intros Hd Hne. pose proof (claims_inv_pair _ d h Hs Hd Hh Hne) as [I1 R1 F1 T1].
  pose proof (claims_inv_pair _ h d Hs Hh Hd (not_eq_sym Hne)) as [I2 R2 F2 T2].
  destruct refence_fields as (E1 & E2 & E3 & E4 & E5 & E6 & E7).
  assert (same_node d (f h) ↔ same_node d h) as S1 by (unfold same_node; by rewrite E2, E3).
  assert (same_node (f h) d ↔ same_node h d) as S2 by (unfold same_node; by rewrite E2, E3).
  assert (same_node h d → same_node d h) as S3 by (intros []; by split).
  split; split; rewrite ?E1, ?E4, ?E5, ?E6, ?S1, ?S2; try done.
  - intros Hn. pose proof (refence_fence d Hd Hn). lia.
  - intros Hn Hhd Hp. exfalso. apply Hne. by eapply claims_inv_holder.
  - intros Hn. pose proof (refence_fence d Hd (S3 Hn)). lia.
  - intros Hn _ _. by apply refence_fence, S3.
Qed.

Lemma refence_inv : claims_inv after.
Proof.
  intros i j c' d' Hne Hi Hj. apply refence_lookup in Hi as (c & Hi & Hc), Hj as (d & Hj & Hd).
  destruct Hc as [[-> ->]|[Hc ->]], Hd as [[-> ->]|[Hd ->]].
  - exfalso. apply (ck_id _ _ (Hs i j h h Hne Hi Hj)). done.
  - apply refence_ok; [by eapply list_elem_of_lookup_2|done].
  - apply refence_ok; [by eapply list_elem_of_lookup_2|done].
  - by eapply Hs.
Qed.

Lemma refence_step : Forall2 claim_step (claims s) after.
Proof.
  apply Forall2_same_length_lookup_2; [by rewrite length_update_where|].
  intros i c c' Hi Hi'. apply refence_lookup in Hi' as (c0 & Hi0 & Hc). assert (c0 = c) as -> by congruence.
  destruct Hc as [[-> ->]|[_ ->]]; [|reflexivity]. destruct (Hf h) as (E & E' & _).
  split; [done|by rewrite E'|]. assert (same_node h h) as Hn by done. pose proof (refence_fence h Hh Hn). lia.
Qed.

Lemma refence_lock pid nk : rtc lock_step (lock_of (claims s) pid nk) (lock_of after pid nk).
Proof.
  destruct refence_fields as (E1 & E2 & E3 & E4 & E5 & E6 & E7).
  assert (f h ∈ after) as Hin.
  { apply elem_of_update_where. exists h. by rewrite bool_decide_eq_true_2. }
  assert (∀ c', c' ∈ after → c' = f h ∨ c' ∈ claims s ∧ c' ≠ h) as Hrows.
  { intros c' (i & Hi)%list_elem_of_lookup. apply refence_lookup in Hi as (c & Hi & [[-> ->]|[? ->]]); [by left|right].
    split; [by eapply list_elem_of_lookup_2|done]. }
  destruct (decide (cl_project h = pid ∧ cl_node h = nk)) as [Hn|Hn].
  - assert (holding pid nk h = true) as Hhold by (apply holding_true; by rewrite on_node_true).
    unfold lock_of. rewrite (lock_holder _ pid nk h) by done.
    rewrite (lock_holder _ pid nk (f h)); [|apply refence_inv|done|].
    + simpl. rewrite E1, E4. apply rtc_once, lock_renew. destruct Hn as [<- <-].
      pose proof (top_fence_max s (cl_project h) (cl_node h)).
      assert (cl_fence (f h) ≤ top_fence after (cl_project h) (cl_node h))%Z; [|rewrite (proj2 (proj2 (Hf h))) in *; lia].
      apply foldr_max_le, list_elem_of_fmap. exists (f h). split; [done|]. apply elem_of_select. split; [done|].
      unfold exclusive_on. rewrite E5, (proj2 Hx), andb_true_r. apply on_node_true. by rewrite E2, E3.
    + apply holding_true. rewrite on_node_true, E2, E3. split; [done|]. unfold holds_exclusively. by rewrite E5, E7.
  - assert (∀ c, c ∈ claims s → bool_decide (cl_id c = cl_id h) = true → c = h) as Hone.
    { intros c Hc E%bool_decide_eq_true. by eapply claims_inv_id. }
    assert (on_node pid nk h = false) as Hoff by (apply not_true_iff_false; by rewrite on_node_true).
    assert (on_node pid nk (f h) = false) as Hoff' by (unfold on_node in *; by rewrite E2, E3).
    assert (∀ (p : claim_row → bool), p h = false → p (f h) = false →
      select p after = select p (claims s)) as Hsel.
    { intros p P1 P2. clear Hin Hrows. revert Hone. unfold update_where. generalize (claims s) as l.
      induction l as [|c l IH]; intros Hone; [done|]. unfold select in *. csimpl.
      rewrite IH by (intros ? ?; apply Hone; by right). destruct (bool_decide (cl_id c = cl_id h)) eqn:E; [|done].
      assert (c = h) as -> by (apply Hone; [by left|done]). by rewrite P1, P2. }
    unfold lock_of, top_fence. rewrite (Hsel (exclusive_on pid nk)) by (unfold exclusive_on; by rewrite ?Hoff, ?Hoff').
    assert (select_one (holding pid nk) after = select_one (holding pid nk) (claims s)) as ->; [|done].
    rewrite !select_one_head. rewrite Hsel; [done|unfold holding; by rewrite Hoff|unfold holding; by rewrite Hoff'].
Qed.

Lemma claim_evolution_refence :
  claim_evolution s (s <| claims ::= update_where (λ c, bool_decide (cl_id c = cl_id h)) f |>).
Proof.
  intros _. simpl. split; [apply refence_inv|]. split; [|apply refence_lock].
  eexists _, []. rewrite app_nil_r. split; [done|]. apply refence_step.
Qed.
End refence.

Section exclusion.
Context `{Host}.

Lemma keeps_claims_untouched {A} (m : M db A) : untouched claims m → keeps claim_evolution m.
Proof.
  intros Hm s. eapply wp_mono; [apply Hm|]. intros a s' E. by apply claim_evolution_same.
Qed.
End exclusion.

(** Claims are updated without looking: every update is a step of any row. *)
Ltac keep_claims :=
  repeat first
    [ progress intros
    | lazymatch goal with
      | |- keeps _ (_ ≫= _) => apply keeps_bind; [apply _| |]
      | |- keeps _ (match ?x with _ => _ end) => destruct x eqn:?
      | |- keeps _ (when _ _) => apply keeps_when; [apply _|]
      | |- keeps _ (for_each _ _) => apply keeps_for_each; [apply _|]
      | |- keeps _ (collect _ _) => apply keeps_collect; [apply _|]
      | |- keeps _ (let _ := _ in _) => cbv zeta
      | |- keeps _ (modify _) => apply keeps_modify; intros; solve [claim_update]
      end
    | solve [eauto 2 with keeps nocore]
    | solve [apply keeps_claims_untouched; frame_operation] ].

Section claim_operations.
Context `{Host}.

Lemma sweep_conn_claims a p t nk : keeps claim_evolution (sweep_conn a p t nk).
Proof. unfold sweep_conn, expire, update_claim. keep_claims. Qed.
#[local] Hint Resolve sweep_conn_claims : keeps.

Lemma insert_claim_claims p n d fresh :
  (∀ f cid, cl_fence (fresh f cid) = f ∧ cl_project (fresh f cid) = p ∧ cl_node (fresh f cid) = n ∧
    cl_status (fresh f cid) = Live) →
  keeps claim_evolution (insert_claim p n d fresh).
Proof.
  intros Hfresh s. unfold insert_claim. apply wp_bind, wp_gets, wp_bind, wp_uuid4. intros u.
  cbv zeta. apply wp_bind, wp_gets, wp_bind. set (c := fresh _ _).
  destruct (Hfresh (1 + max_fence s p n)%Z ("claim-" +:+ u)) as (E1 & E2 & E3 & E4). fold c in E1, E2, E3, E4.
  destruct (claim_conflict _ _) eqn:Hc.
  - apply wp_bind. eapply wp_mono; [|intros; apply wp_raise].
    apply (keeps_claims_untouched (refuse_exclusive_holder p n d)). frame_operation.
  - apply wp_modify, wp_ret. etrans; [|apply claim_evolution_insert; [|done|done]].
    + by apply claim_evolution_same.
    + rewrite E1, E2, E3. done.
Qed.

Lemma claim_node_claims a d p n u e k l w sa : keeps claim_evolution (claim_node a d p n u e k l w sa).
Proof.
  unfold claim_node. keep_claims. by apply insert_claim_claims.
Qed.
End claim_operations.

(** *** Claims that move *)
Definition held_ok (a : attempt_row) (s : db) (h : claim_row) : Prop :=
  h ∈ claims s ∧ holds_exclusively h ∧ cl_project h = a_project a ∧ cl_node h = a_node a.

Section moving_claims.
Context `{Host} (env : environment).

(** The three ways to insert: a fence read before, and nothing in between. *)
Lemma add_claim_claims s s1 c :
  claims s1 = claims s → cl_fence c = (1 + max_fence s (cl_project c) (cl_node c))%Z → cl_status c = Live →
  wp (add_claim c) (λ _ s', claim_evolution s s' ∧ claims s' = claims s ++ [c]) s1.
Proof.
  intros Ec Hf Hlv. unfold add_claim. apply wp_bind, wp_gets, wp_bind, wp_require.
  intros Hc%negb_true_iff. apply wp_modify. simpl. rewrite Ec. split; [|done].
  transitivity s1; [by apply claim_evolution_same|]. apply claim_evolution_insert; [|done|done].
  rewrite Hf. unfold max_fence. by rewrite Ec.
Qed.

Lemma claims_kept {A} (m : M db A) (Q : db → Prop) s :
  untouched claims m → (∀ s', claims s' = claims s → Q s') → wp m (λ _ s', Q s') s.
Proof. intros Hm HQ. eapply wp_mono; [apply Hm|]. intros a s'. apply HQ. Qed.

Lemma new_claim_for_claims actor aid p n v d t r w u l s :
  wp (new_claim_for actor aid p n v d t r w u l)
    (λ _ s', claim_evolution s s' ∧ ∃ c, claims s' = claims s ++ [c]) s.
Proof.
  unfold new_claim_for. apply wp_bind. apply claims_kept; [frame_operation|]. intros s1 E1.
  apply wp_bind, wp_gets. cbv zeta. apply wp_bind, wp_uuid4. intros x. apply wp_bind.
  eapply wp_mono; [apply (add_claim_claims s1)|]; [done|done|done|].
  intros _ s2 [Hev E2]. apply wp_bind. apply claims_kept; [frame_operation|]. intros s3 E3.
  apply wp_bind. apply claims_kept; [frame_operation|]. intros s4 E4. apply wp_ret. split.
  - transitivity s1; [by apply claim_evolution_same|]. transitivity s2; [done|].
    apply claim_evolution_same. congruence.
  - eexists. rewrite E4, E3, E2, E1. done.
Qed.
Lemma new_claim_for_keeps actor aid p n v d t r w u l :
  keeps claim_evolution (new_claim_for actor aid p n v d t r w u l).
Proof. intros s. eapply wp_mono; [apply new_claim_for_claims|]. by intros ?? []. Qed.

Lemma bind_held_claims actor a h t r s :
  held_ok a s h → wp (bind_held_claim actor a h t r) (λ _ s', claim_evolution s s') s.
Proof.
  intros (Hin & Hx & E1 & E2). unfold bind_held_claim. apply wp_bind, wp_gets. cbv zeta.
  apply wp_bind, wp_modify. eapply keeps_from;
    [apply _| |repeat (apply keeps_bind; [apply _|apply keeps_claims_untouched; frame_operation|intros ?]);
               apply keeps_claims_untouched; frame_operation].
  intros Hs. refine (claim_evolution_refence s h _ _ Hin Hx Hs Hs). rewrite E1, E2. by intros c.
Qed.

Lemma move_claims_claims actor a holder t r l : ∀ held created s,
  (∀ h, held = Some h → held_ok a s h) →
  wp (move_claims actor a holder t r held created l)
    (λ v s', claim_evolution s s' ∧ ∀ h, v.1 = Some h → held_ok a s' h) s.
Proof.
  induction l as [|c l IH]; intros held created s Hh; simpl; [by apply wp_ret; split|].
  assert (∀ w p u s, wp (claim_after actor a holder t r w p u)
    (λ _ s', claim_evolution s s' ∧ ∃ c, claims s' = claims s ++ [c]) s) as Hnew.
  { intros. apply new_claim_for_claims. }
  apply wp_bind. apply (wp_mono _ (λ v s1, claim_evolution s s1 ∧ ∀ h, v.2 = Some h → held_ok a s1 h)).
  - destruct held as [h|].
    + specialize (Hh h eq_refl). destruct (EXCLUSIVE (cl_purpose c)).
      * apply wp_bind. eapply wp_mono; [by apply bind_held_claims|]. intros v s1 H1. by apply wp_ret.
      * apply wp_bind. eapply wp_mono; [apply Hnew|]. intros v s1 [H1 [d E]]. apply wp_ret. split; [done|].
        intros h' [= <-]. destruct Hh as (Hin & ?). split; [|done]. rewrite E. apply elem_of_app. by left.
    + apply wp_bind. eapply wp_mono; [apply Hnew|]. intros v s1 [H1 _]. by apply wp_ret.
  - intros v s1 [H1 Hh1]. cbv beta zeta. eapply wp_mono; [by apply IH|]. intros v' s2 [H2 Hh2].
    split; [by transitivity s1|done].
Qed.

Lemma stop_claim_claims actor a t r h c : keeps claim_evolution (stop_claim actor a t r h c).
Proof. unfold stop_claim, update_claim. destruct h; keep_claims. Qed.

Lemma transfer_bound_claims_claims actor a t r holder :
  keeps claim_evolution (transfer_bound_claims actor a t r holder).
Proof.
  intros s. unfold transfer_bound_claims. apply wp_bind, wp_gets, wp_bind.
  eapply wp_mono; [apply (keeps_for_each claim_evolution); intros; apply stop_claim_claims|]. intros x s1 H1.
  destruct holder as [holder|]; [|by apply wp_ret].
  apply wp_bind, wp_gets. cbv zeta. apply wp_bind, wp_gets, wp_bind.
  eapply wp_mono; [apply move_claims_claims|].
  { intros h [Hin Hh]%select_one_Some. unfold on_node, is_live in Hh. bsimpl. by split_and!. }
  intros v s2 [H2 Hh2]. cbv beta. apply wp_bind. apply (wp_mono _ (λ _ s3, claim_evolution s s3)).
  - destruct v as [[h|] [v|]]; simpl in *.
    + apply wp_ret. by do 2 (etrans; [done|]).
    + eapply wp_mono; [by apply bind_held_claims, Hh2|]. intros ? s3 H3. by do 2 (etrans; [done|]).
    + apply wp_ret. by do 2 (etrans; [done|]).
    + eapply wp_mono; [apply new_claim_for_keeps|]. intros ? s3 H3. by do 2 (etrans; [done|]).
  - intros ? s3 H3. by apply wp_ret.
Qed.
#[local] Hint Resolve sweep_conn_claims transfer_bound_claims_claims new_claim_for_keeps : keeps.

Lemma move_taken_claims actor d k h r t old n p : keeps claim_evolution (move_taken actor d k h r t old n p).
Proof.
  intros s. unfold move_taken. cbv zeta. apply wp_bind, wp_modify.
  set (s1 := s <| claims ::= _ |>).
  assert (claim_evolution s s1) as H1.
  { unfold s1. apply claim_evolution_update. intros c. split; [split; [reflexivity|done|done]|reflexivity]. }
  apply wp_bind. apply claims_kept; [frame_operation|]. intros s2 E2.
  apply wp_bind, wp_gets, wp_bind, wp_uuid4. intros u. apply wp_bind.
  eapply wp_mono; [apply (add_claim_claims s2)|]; [done|done|done|]. intros _ s3 [H3 _].
  assert (claim_evolution s s3) as H4.
  { transitivity s1; [done|]. transitivity s2; [by apply claim_evolution_same|done]. }
  cbv beta. apply keeps_from; [apply _|done|]. apply keeps_claims_untouched. frame_operation.
Qed.
#[local] Hint Resolve move_taken_claims : keeps.
Lemma take_over_claim_claims a d p c e r k : keeps claim_evolution (take_over_claim env a d p c e r k).
Proof. unfold take_over_claim. keep_claims. Qed.
Lemma abandon_claims fs x i e k r f g o : keeps claim_evolution (abandon_external_attempt env fs x i e k r f g o).
Proof. unfold abandon_external_attempt. keep_claims. Qed.
Lemma take_over_attempt_claims x i e r o : keeps claim_evolution (take_over_attempt env x i e r o).
Proof. unfold take_over_attempt. keep_claims. Qed.
Lemma accept_attempt_claims a d p i x h e t : keeps claim_evolution (accept_attempt a d p i x h e t).
Proof. unfold accept_attempt. keep_claims. Qed.
Lemma accept_claim_claims a d p i x h e t : keeps claim_evolution (accept_claim a d p i x h e t).
Proof. unfold accept_claim, update_claim. keep_claims. Qed.
#[local] Hint Resolve accept_attempt_claims accept_claim_claims : keeps.
Lemma accept_handoff_claims a d p i e : keeps claim_evolution (accept_handoff a d p i e).
Proof. unfold accept_handoff. keep_claims. Qed.
End moving_claims.

Section claim_system.
Context `{Host}.

Lemma operation_claims A (m : M db A) : operation m → keeps claim_evolution m.
Proof.
  intros Hop. destruct Hop;
    first
      [ apply claim_node_claims
      | apply take_over_claim_claims
      | apply abandon_claims
      | apply take_over_attempt_claims
      | apply accept_handoff_claims
      | apply keeps_claims_untouched;
        unfold add_nodes, set_node_facet, revise_node, split_node, revise, add, split;
        solve [frame_operation]
      | solve [unfold sweep; keep_claims; apply sweep_conn_claims]
      | autounfold with ops; solve [keep_claims] ].
Qed.

Lemma reachable_claims s : reachable s → claims_inv (claims s).
Proof.
  apply (reachable_invariant (λ s, claims_inv (claims s))); [by intros [] ? ? ? ? ?|].
  intros A m Hm s0 Hs0. eapply wp_mono; [by apply operation_claims|]. intros a s' He. by apply He.
Qed.
End claim_system.
