(* ===== verification/Soundness.v ===== *)
(** * The receipt of a verified node

    [receipts_inv]: a node is VERIFIED exactly when it names a receipt, and the
    receipt it names is sound: it is the receipt of this node's present revision
    and contract, of a candidate attempt with the same artifact, pinned to the
    verified state its dependencies have now, and the latest evidence on every
    criterion of the contract is a pass.  [_invalidate] is what keeps it: the rest
    of this file shows that every operation that moves one of these facts has
    taken the receipt away first. *)
From S2P Require Import Prelude Json Text Dag Store Graph History Portfolio Presence Claims.
From S2P Require Import Enforcement Review Attempts Evidence External Registry Inbox Issues Design.
From S2P Require Import Takeover Recovery Handoffs View Ledger System.
From S2P Require Import Lifecycle Exclusion.

(** The columns of a row the receipt of its node, or of a dependent, speaks of. *)
Definition row_view (n : node_row) := (n_revision n, n_hash n, n_contract n, n_status n, n_receipt n).
Definition attempt_view (a : attempt_row) :=
  (a_id a, a_project a, a_node a, a_revision a, a_hash a, a_snapshot a, a_status a, a_artifact a).

Record sound_at (pid nk : string) (n : node_row) (ds : gmap string dep_view) (r : acceptance_row)
    (a : attempt_row) (ev : list evidence_row) : Prop := SoundAt {
  so_target : rc_project r = pid ∧ rc_node r = nk ∧ rc_revision r = n_revision n ∧ rc_hash r = n_hash n;
  so_attempt : rc_attempt r = a_id a ∧ a_project a = pid ∧ a_node a = nk ∧ a_status a = Candidate ∧
    a_artifact a = Some (rc_artifact r) ∧ a_revision a = n_revision n ∧ a_hash a = n_hash n;
  so_snapshot : rc_snapshot r = canonical (snapshot_json ds) ∧ a_snapshot a = rc_snapshot r;
  so_verified : snapshot_verified ds = true;
  so_evidence : failing (n_contract n) (latest_by_criterion ev) = [];
  so_ids : rc_evidence r = omap (λ c, v_id <$> latest_by_criterion ev !! c_id c) (n_contract n);
}.

Record node_sound (s : db) (pid nk : string) (n : node_row) : Prop := NodeSound {
  ns_status : n_status n = VERIFIED ↔ is_Some (n_receipt n);
  ns_receipt : ∀ rid, n_receipt n = Some rid → rid ≠ "" ∧
    ∃ r a, acceptances s !! rid = Some r ∧ a ∈ attempts s ∧
      sound_at pid nk n (dependency_snapshot s pid nk) r a (evidence_of s (a_id a));
}.
Definition receipts_inv (s : db) : Prop :=
  ∀ pid nk n, nodes s !! (pid, nk) = Some n → node_sound s pid nk n.

(** *** Snapshots *)
Lemma lookup_dependency_snapshot s pid nk x :
  dependency_snapshot s pid nk !! x =
    if decide (x ∈ deps_at s pid nk) then view_of <$> nodes s !! (pid, x) else None.
Proof.
  unfold dependency_snapshot. rewrite lookup_fmap.
  destruct (decide (x ∈ deps_at s pid nk)) as [Hx|Hx].
  - destruct (nodes s !! (pid, x)) as [n|] eqn:E.
    + rewrite (map_lookup_filter_Some_2 _ _ _ n); [done|by rewrite lookup_nodes_of|done].
    + rewrite map_lookup_filter_None_2; [done|]. left. by rewrite lookup_nodes_of.
  - rewrite map_lookup_filter_None_2; [done|]. by right.
Qed.

Lemma dependency_snapshot_ext s s' pid nk :
  deps_at s' pid nk = deps_at s pid nk →
  (∀ x, x ∈ deps_at s pid nk → view_of <$> nodes s' !! (pid, x) = view_of <$> nodes s !! (pid, x)) →
  dependency_snapshot s' pid nk = dependency_snapshot s pid nk.
Proof.
  intros Ed Hx. apply map_eq. intros x. rewrite !lookup_dependency_snapshot, Ed.
  case_decide; [by apply Hx|done].
Qed.

Lemma snapshot_verified_true ds : snapshot_verified ds = true ↔
  ∀ x d, ds !! x = Some d → dv_status d = VERIFIED ∧ is_Some (dv_receipt d).
Proof.
  unfold snapshot_verified. rewrite forallb_forall. split.
  - intros Hf x d Hd. specialize (Hf (x, d)). rewrite <- list_elem_of_In, elem_of_map_to_list in Hf.
    specialize (Hf Hd). by bsimpl.
  - intros Hf [x d] Hin%list_elem_of_In%elem_of_map_to_list. destruct (Hf x d Hin).
    simpl. by rewrite !bool_decide_eq_true_2.
Qed.

(** A node with a receipt only depends on nodes with one. *)
Lemma sound_dependency s pid nk n x m :
  receipts_inv s → nodes s !! (pid, nk) = Some n → is_Some (n_receipt n) →
  x ∈ deps_at s pid nk → nodes s !! (pid, x) = Some m →
  n_status m = VERIFIED ∧ is_Some (n_receipt m).
Proof.
  intros Hinv Hn [rid Hrid] Hx Hm. destruct (ns_receipt _ _ _ _ (Hinv _ _ _ Hn) rid Hrid) as (_ & r & a & _ & _ & Hs).
  apply so_verified in Hs. rewrite snapshot_verified_true in Hs. apply (Hs x (view_of m)).
  rewrite lookup_dependency_snapshot, decide_True by done. by rewrite Hm.
Qed.

(** ** The frame rule

    A node without a receipt satisfies the invariant if it is not VERIFIED; one
    with a receipt keeps it when its view, its dependencies' views, its candidate
    attempts and their evidence stay. *)
Definition bare (n : node_row) : Prop := n_status n ≠ VERIFIED ∧ n_receipt n = None.

Lemma bare_sound s pid nk n : bare n → node_sound s pid nk n.
Proof.
  intros [Hst Hr]. split; [|by rewrite Hr]. rewrite Hr. split; [done|]. by intros [].
Qed.

(** The attempt a node's receipt names. *)
Definition named (s : db) (n : node_row) (a : attempt_row) : Prop :=
  ∃ rid r, n_receipt n = Some rid ∧ acceptances s !! rid = Some r ∧ rc_attempt r = a_id a.

Definition kept (s s' : db) (a : attempt_row) : Prop :=
  (∃ a', a' ∈ attempts s' ∧ attempt_view a' = attempt_view a) ∧
  evidence_of s' (a_id a) = evidence_of s (a_id a).

Definition candidate_kept (s s' : db) (pid nk : string) (n : node_row) : Prop :=
  ∀ a, named s n a → a ∈ attempts s → a_project a = pid → a_node a = nk → a_status a = Candidate →
    is_Some (a_artifact a) → kept s s' a.

Lemma node_sound_frame s s' pid nk n n' :
  node_sound s pid nk n → row_view n' = row_view n →
  acceptances s ⊆ acceptances s' →
  (is_Some (n_receipt n) → dependency_snapshot s' pid nk = dependency_snapshot s pid nk) →
  candidate_kept s s' pid nk n → node_sound s' pid nk n'.
Proof.
  intros [Hst Hr] E Hacc Hds Hkept. injection E as E1 E2 E3 E4 E5.
  split; [by rewrite E4, E5|]. intros rid Hrid. rewrite E5 in Hrid.
  destruct (Hr rid Hrid) as (Hne & r & a & Hra & Ha & [(? & ? & ? & ?) (? & ? & ? & ? & ? & ? & ?) (? & ?) ? ? ?]).
  split; [done|].
  destruct (Hkept a) as [(a' & Ha' & Ev) Hev]; [by exists rid, r|done..|].
  injection Ev as V1 V2 V3 V4 V5 V6 V7 V8.
  exists r, a'. split; [by eapply lookup_weaken|]. split; [done|].
  rewrite V1, Hev, Hds by done.
  split; rewrite ?E1, ?E2, ?E3, ?V1, ?V4, ?V5, ?V6, ?V7, ?V8;
    repeat match goal with |- _ ∧ _ => split end; try done; congruence.
Qed.

(** Nodes that moved are sound now; the others have not moved, nor what they depend on. *)
Lemma receipts_inv_moved (moved : string → string → Prop) s s' :
  (∀ q k, Decision (moved q k)) →
  receipts_inv s → acceptances s ⊆ acceptances s' →
  (∀ q k n', moved q k → nodes s' !! (q, k) = Some n' → node_sound s' q k n') →
  (∀ q k n', ¬ moved q k → nodes s' !! (q, k) = Some n' →
     ∃ n, nodes s !! (q, k) = Some n ∧ row_view n' = row_view n) →
  (∀ q k n, ¬ moved q k → nodes s !! (q, k) = Some n → is_Some (n_receipt n) →
     deps_at s' q k = deps_at s q k ∧
     (∀ x, x ∈ deps_at s q k → view_of <$> nodes s' !! (q, x) = view_of <$> nodes s !! (q, x)) ∧
     candidate_kept s s' q k n) →
  receipts_inv s'.
Proof.
  intros Hdec Hinv Hacc Hm Hu Hk q k n' Hn'. destruct (decide (moved q k)) as [Hmv|Hmv].
  { by apply Hm. }
  destruct (Hu q k n' Hmv Hn') as (n & Hn & Ev).
  eapply node_sound_frame; [by apply Hinv|done|done| |].
  - intros Hrc. destruct (Hk q k n Hmv Hn Hrc) as (Hd & Hv & _). by apply dependency_snapshot_ext.
  - intros a Hnamed Ha Hp Hno Hst Hart.
    assert (is_Some (n_receipt n)) as Hrc by (destruct Hnamed as (rid & ? & -> & _); by eexists).
    destruct (Hk q k n Hmv Hn Hrc) as (_ & _ & Hc). by apply Hc.
Qed.

Lemma candidate_kept_same s s' pid nk n :
  attempts s' = attempts s → evidence s' = evidence s → candidate_kept s s' pid nk n.
Proof.
  intros Ea Ee a _ Ha _ _ _ _. split; [exists a; by rewrite Ea|]. unfold evidence_of. by rewrite Ee.
Qed.

Lemma row_view_of n n' : row_view n' = row_view n → view_of n' = view_of n.
Proof. intros [= E1 E2 E3 E4 E5]. unfold view_of. congruence. Qed.

(** *** One bare node changes *)
Lemma receipts_inv_bare pid nk n s s' :
  receipts_inv s → nodes s !! (pid, nk) = Some n → bare n →
  acceptances s ⊆ acceptances s' → attempts s' = attempts s → evidence s' = evidence s →
  (∀ n', nodes s' !! (pid, nk) = Some n' → bare n') →
  (∀ q k, (q, k) ≠ (pid, nk) → nodes s' !! (q, k) = nodes s !! (q, k) ∧ deps_at s' q k = deps_at s q k) →
  receipts_inv s'.
Proof.
  intros Hinv Hn [_ Hbare] Hacc Ea Ee Hnew Hold.
  apply (receipts_inv_moved (λ q k, (q, k) = (pid, nk)) s);
    try (intros ? ?; cbv beta; apply _); try done.
  - intros q k n' [= -> ->] Hn'. by apply bare_sound, Hnew.
  - intros q k n' Hmv Hn'. destruct (Hold q k Hmv) as [E _]. rewrite E in Hn'. by exists n'.
  - intros q k m Hmv Hm Hrc. destruct (Hold q k Hmv) as [_ Ed]. split_and!; [done| |by apply candidate_kept_same].
    intros x Hx. destruct (decide ((q, x) = (pid, nk))) as [[= -> ->]|Hne]; [|by destruct (Hold q x Hne) as [-> _]].
    destruct (sound_dependency s pid k m nk n) as [_ [rid Hrid]]; [done..|]. congruence.
Qed.

(** *** Invalidation *)
Lemma stale_bare s pid k t n : receipts_inv s → nodes s !! (pid, k) = Some n → bare (stale t n).
Proof.
  intros Hinv Hn. unfold stale. case_bool_decide as Hst; [|by split].
  split; [by rewrite Hst|]. destruct (n_receipt n) eqn:E; [|done].
  destruct (Hinv _ _ _ Hn) as [[_ Hback] _]. rewrite E in Hback. rewrite Hst in Hback.
  discriminate Hback. done.
Qed.

(** A node outside [affected] depends on no node inside. *)
Lemma affected_closed s pid nk k x :
  k ∉ affected s pid nk → x ∈ deps_at s pid k → x ∉ affected s pid nk.
Proof.
  rewrite !elem_of_affected. intros Hk Hx Hr. apply Hk. by eapply rtc_l.
Qed.

Lemma receipts_inv_affected pid nk s s' :
  receipts_inv s → acceptances s ⊆ acceptances s' →
  (∀ q k n, (q, k) ≠ (pid, nk) → nodes s !! (q, k) = Some n → candidate_kept s s' q k n) →
  (∀ k n', k ∈ affected s pid nk → nodes s' !! (pid, k) = Some n' → bare n') →
  (∀ q k, q ≠ pid ∨ k ∉ affected s pid nk → nodes s' !! (q, k) = nodes s !! (q, k) ∧ deps_at s' q k = deps_at s q k) →
  receipts_inv s'.
Proof.
  intros Hinv Hacc Hkept Hnew Hold.
  assert (∀ q k, ¬ (q = pid ∧ k ∈ affected s pid nk) → q ≠ pid ∨ k ∉ affected s pid nk) as Hnot.
  { intros q k Hq. destruct (decide (q = pid)); [right; naive_solver|by left]. }
  apply (receipts_inv_moved (λ q k, q = pid ∧ k ∈ affected s pid nk) s);
    try (intros ? ?; cbv beta; apply _); try done.
  - intros q k n' [-> Hk] Hn'. apply bare_sound. by eapply Hnew.
  - intros q k n' Hmv Hn'. destruct (Hold q k (Hnot q k Hmv)) as [E _]. rewrite E in Hn'. by exists n'.
  - intros q k m Hmv Hm Hrc. destruct (Hold q k (Hnot q k Hmv)) as [_ Ed].
    split_and!; [done| |apply Hkept; [|done]; intros [= -> ->]; by destruct Hmv; split; [|apply self_affected]].
    intros x Hx. destruct (Hold q x) as [-> _]; [|done].
    destruct (decide (q = pid)) as [->|]; [right|by left]. eapply affected_closed; [|done]. naive_solver.
Qed.

Lemma receipts_inv_invalidated pid nk s s' :
  receipts_inv s → invalidated pid nk s s' →
  receipts_inv s' ∧ ∀ k n', k ∈ affected s pid nk → nodes s' !! (pid, k) = Some n' → bare n'.
Proof.
  intros Hinv [Hhit Hmiss Hrest].
  assert (∀ k n', k ∈ affected s pid nk → nodes s' !! (pid, k) = Some n' → bare n') as Hb.
  { intros k n' Hk Hn'. destruct (Hhit k Hk) as [t E]. rewrite Hn' in E. symmetry in E.
    apply fmap_Some in E as (n & Hn & ->). by eapply stale_bare. }
  split; [|done]. apply (receipts_inv_affected pid nk s); try (rewrite Hrest; done); try done.
  { intros q k n _ _. apply candidate_kept_same; by rewrite Hrest. }
  intros q k Hqk. split; [by apply Hmiss|]. by rewrite Hrest.
Qed.

(** *** Facts no operation below touches *)
Definition receipt_facts (s : db) := (row_view <$> nodes s, deps s, evidence s, acceptances s).

Definition row_facts (s : db) := (row_view <$> nodes s, deps s, acceptances s).
Lemma receipts_inv_attempts s s' :
  row_facts s' = row_facts s → receipts_inv s →
  (∀ q k n, nodes s !! (q, k) = Some n → is_Some (n_receipt n) → candidate_kept s s' q k n) →
  receipts_inv s'.
Proof.
  intros [= En Ed Eacc] Hinv Hk.
  assert (∀ q k, row_view <$> nodes s' !! (q, k) = row_view <$> nodes s !! (q, k)) as Hv.
  { intros q k. by rewrite <- !lookup_fmap, En. }
  apply (receipts_inv_moved (λ _ _, False) s);
    try (intros ? ?; cbv beta; apply _); try done; [by rewrite Eacc|..].
  - intros q k n' _ Hn'. specialize (Hv q k). rewrite Hn' in Hv. symmetry in Hv.
    apply fmap_Some in Hv as (n & Hn & E). eauto.
  - intros q k n _ Hn Hrc. split_and!; [unfold deps_at; by rewrite Ed| |by apply Hk].
    intros x _. specialize (Hv q x). destruct (nodes s' !! (q, x)), (nodes s !! (q, x)); try done.
    simpl in Hv |- *. f_equal. apply row_view_of. by apply (inj Some).
Qed.

Lemma receipts_inv_evolved s s' :
  receipt_facts s' = receipt_facts s → evolution true s s' → attempts_inv (attempts s) →
  receipts_inv s → receipts_inv s'.
Proof.
  intros E He Hai Hinv. destruct (He Hai) as (_ & l1 & l2 & El & HF).
  injection E as En Ed Ee Eacc. apply (receipts_inv_attempts s); [unfold row_facts; congruence|done|].
  intros q k n _ _ a _ Ha _ _ Hst [x Hx]. split; [|unfold evidence_of; by rewrite Ee].
  apply list_elem_of_lookup in Ha as [i Hi].
  destruct (Forall2_lookup_l _ _ _ _ _ HF Hi) as (a' & Ha' & Hs').
  exists a'. split; [rewrite El; apply elem_of_app; left; by eapply list_elem_of_lookup_2|].
  destruct Hs' as [Hid _ _ _ Hart _ _ _ Hcand]. injection Hid as I1 I2 I3 I4 I5 I6 I7 I8 I9 I10 I11 I12 I13 I14 I15.
  unfold attempt_view. rewrite (Hart x Hx), (Hcand eq_refl Hst), Hx, Hst. congruence.
Qed.
#[export] Hint Extern 1 (untouched receipt_facts (update_node _ _ _)) =>
  apply untouched_modify; intros ?; unfold receipt_facts; simpl; do 3 f_equal;
  apply fmap_alter_id; intros; reflexivity : untouched.

(** ** The graph operations *)
Section graph_receipts.
Context `{Host}.

Lemma candidate_kept_moved pid ps g fs s s' q k n :
  added pid ps g fs s s' → candidate_kept s s' q k n.
Proof. intros Had. apply candidate_kept_same; by rewrite (ad_rest _ _ _ _ _ _ Had). Qed.

Lemma receipts_inv_added pid ps g fs s s' :
  graph_inv s → receipts_inv s → added pid ps g fs s s' → receipts_inv s'.
Proof.
  intros Hg Hinv Had. pose proof Had as [Hp _ _ Hn Hno Hd Hdo _ _ Hrest].
  assert (∀ q k, ¬ (q = pid ∧ k ∈ p_key <$> ps) → q ≠ pid ∨ k ∉ p_key <$> ps) as Hnot.
  { intros q k Hq. destruct (decide (q = pid)); [right; naive_solver|by left]. }
  apply (receipts_inv_moved (λ q k, q = pid ∧ k ∈ p_key <$> ps) s);
    try (intros ? ?; cbv beta; apply _); try done; [by rewrite Hrest|..].
  - intros q k n' [-> Hk] Hn'. apply list_elem_of_fmap in Hk as (p & -> & Hp').
    destruct (Hn p Hp') as [t E]. rewrite E in Hn'. injection Hn' as <-. by apply bare_sound.
  - intros q k n' Hmv Hn'. rewrite Hno in Hn' by auto. eauto.
  - intros q k n Hmv Hk Hrc. split_and!.
    + unfold deps_at. by rewrite Hdo by auto.
    + intros x Hx. rewrite Hno; [done|]. destruct (decide (q = pid)) as [->|]; [right|by left].
      intros (p & -> & Hp')%list_elem_of_fmap.
      assert (edge (graph_of s pid) k (p_key p)) as Hedge.
      { unfold edge, preds. rewrite lookup_graph_of, Hk. simpl. by apply elem_of_sorted_set. }
      apply (gi_closed _ Hg) in Hedge. rewrite (pr_fresh _ _ _ _ _ _ Hp) in Hedge by done.
      by destruct Hedge.
    + by eapply candidate_kept_moved.
Qed.

Lemma receipts_inv_revised pid nk old goal checks ds s s' :
  receipts_inv s → revised pid nk old goal checks ds s s' → receipts_inv s'.
Proof.
  intros Hinv [Hold _ _ _ _ _ [t Ht] Hhit Hmiss Hd Hdo _ _ Hrest].
  apply (receipts_inv_affected pid nk s); [done|by rewrite Hrest| |..].
  - intros q k n _ _. apply candidate_kept_same; by rewrite Hrest.
  - intros k n' Hk Hn'. destruct (decide (k = nk)) as [->|Hne].
    + rewrite Ht in Hn'. injection Hn' as <-. by split.
    + destruct (Hhit k Hk Hne) as [t' E]. rewrite Hn' in E. symmetry in E.
      apply fmap_Some in E as (n & Hn & ->). by eapply stale_bare.
  - intros q k Hqk. split; [by apply Hmiss|]. apply Hdo. intros [= -> ->].
    destruct Hqk as [|Hqk]; [done|]. apply Hqk, self_affected.
Qed.

Lemma receipts_inv_superseded pid nk old s s' :
  receipts_inv s → superseded pid nk old s s' → receipts_inv s'.
Proof.
  intros Hinv [Hold [t Ht] Hhit Hmiss _ Hrest].
  apply (receipts_inv_affected pid nk s); [done|by rewrite Hrest| |..].
  - intros q k n _ _. apply candidate_kept_same; by rewrite Hrest.
  - intros k n' Hk Hn'. destruct (decide (k = nk)) as [->|Hne].
    + rewrite Ht in Hn'. injection Hn' as <-. by split.
    + destruct (Hhit k Hk Hne) as [t' E]. rewrite Hn' in E. symmetry in E.
      apply fmap_Some in E as (n & Hn & ->). by eapply stale_bare.
  - intros q k Hqk. split; [by apply Hmiss|]. by rewrite Hrest.
Qed.

Lemma add_receipts pid specs s :
  graph_inv s → receipts_inv s → wp (add pid specs) (λ _ s', receipts_inv s') s.
Proof.
  intros Hg Hinv. eapply wp_mono; [apply add_run|].
  intros keys s' (ps & g & fs & _ & Had). by eapply receipts_inv_added.
Qed.
Lemma revise_receipts pid nk e reason goal acceptance ds s :
  receipts_inv s → wp (revise pid nk e reason goal acceptance ds) (λ _ s', receipts_inv s') s.
Proof.
  intros Hinv. eapply wp_mono; [apply revise_run|].
  intros r s' (old & goal' & checks & ds' & _ & _ & _ & Hrv). by eapply receipts_inv_revised.
Qed.
Lemma split_receipts pid nk e children reason s :
  graph_inv s → receipts_inv s → wp (split pid nk e children reason) (λ _ s', receipts_inv s') s.
Proof.
  intros Hg Hinv. unfold split. apply wp_bind, wp_node. intros n _ _ _. apply wp_bind.
  eapply wp_mono; [by apply add_receipts|]. intros keys s1 Hinv1.
  apply wp_bind, wp_gets, wp_bind. eapply wp_mono; [by apply revise_receipts|].
  intros r s2 Hinv2. by wp_all.
Qed.
Lemma supersede_receipts pid nk e reason s :
  receipts_inv s → wp (supersede pid nk e reason) (λ _ s', receipts_inv s') s.
Proof.
  intros Hinv. eapply wp_mono; [apply supersede_run|]. intros r s' (old & _ & _ & Hr).
  case_bool_decide; destruct Hr as [_ Hr]; [by subst|by eapply receipts_inv_superseded].
Qed.
End graph_receipts.
