(* ===== verification/Receipts.v ===== *)
(** * Every operation keeps the receipts sound

    The operations go their own ways to [receipts_inv]: most leave what it speaks
    of alone, the graph operations and [invalidate] take receipts away
    ([Soundness.v]), [settle_run] and [observe_commit] disown an attempt before
    they retract its candidate, [record_evidence] appends a row that the receipt
    does not know, and [verify] issues a receipt that is sound. *)
From S2P Require Import Prelude Json Text Dag Store Graph History Portfolio Presence Claims.
From S2P Require Import Enforcement Review Attempts Evidence External Registry Inbox Issues Design.
From S2P Require Import Takeover Recovery Handoffs View Ledger System.
From S2P Require Import Lifecycle Exclusion Soundness.

(** ** Programs that know what holds of the receipts

    [good] is the invariant this half of the file carries along; [stable]
    assertions only speak of the facts it rests on, so they survive every part of
    a program that leaves those alone. *)
Definition good (s : db) : Prop := attempts_inv (attempts s) ∧ receipts_inv s.
Definition good_facts (s : db) := (receipt_facts s, attempts s).
Definition stable (P : db → Prop) : Prop := ∀ s s', good_facts s' = good_facts s → P s → P s'.
Definition keep_good (s s' : db) : Prop := good s → good s'.
#[export] Instance keep_good_preorder : PreOrder keep_good.
Proof. split; [by intros s Hs|]. intros s1 s2 s3 H1 H2 Hs. unfold keep_good in *. auto. Qed.

Lemma stable_good : stable good.
Proof.
  intros s s' E [Hai Hinv]. injection E as E1 E2 E3 E4 Ea. split; [by rewrite Ea|].
  apply (receipts_inv_evolved s); [unfold receipt_facts; congruence| |done|done].
  by apply evolution_same.
Qed.

Definition triple {A} (P : db → Prop) (m : M db A) (Q : db → Prop) : Prop :=
  ∀ s, P s → wp m (λ _ s', Q s') s.

Section triple.
Context `{Host} (P Q : db → Prop).

Lemma triple_bind {A B} (m : M db A) (k : A → M db B) :
  stable P → untouched good_facts m → (∀ x, triple P (k x) Q) → triple P (m ≫= k) Q.
Proof.
  intros HP Hm Hk s Hs. apply wp_bind. eapply wp_mono; [apply Hm|]. intros x s1 E.
  apply Hk. exact (HP _ _ E Hs).
Qed.
Lemma triple_seq {A B} (m : M db A) (k : A → M db B) (R : db → Prop) :
  triple P m R → (∀ x, triple R (k x) Q) → triple P (m ≫= k) Q.
Proof.
  intros Hm Hk s Hs. apply wp_bind. eapply wp_mono; [by apply Hm|]. intros x s1 Hs1. by apply Hk.
Qed.
Lemma triple_require {B} b e (k : () → M db B) :
  (b = true → triple P (k tt) Q) → triple P (require b e ≫= k) Q.
Proof. intros Hk s HP. apply wp_bind, wp_require. intros Hb. by apply Hk. Qed.
Lemma triple_lift {A B} (r : res A) (k : A → M db B) :
  (∀ x, r = Ok x → triple P (k x) Q) → triple P (lift r ≫= k) Q.
Proof. intros Hk s HP. apply wp_bind, wp_lift. intros x Hx. by apply Hk. Qed.
Lemma triple_get_some {A B} (o : option A) e (k : A → M db B) :
  (∀ x, o = Some x → triple P (k x) Q) → triple P (get_some o e ≫= k) Q.
Proof. intros Hk s HP. apply wp_bind, wp_get_some. intros x Hx. by apply Hk. Qed.
Lemma triple_assoc {A B C} (m1 : M db A) (m2 : A → M db B) (k : B → M db C) :
  triple P (x ← m1; m2 x ≫= k) Q → triple P ((m1 ≫= m2) ≫= k) Q.
Proof.
  intros H1 s HP. specialize (H1 s HP). unfold wp, mbind, M_bind in *.
  by destruct (m1 s) as [[x s1]|].
Qed.
Lemma triple_ret_bind {A B} (x : A) (k : A → M db B) : triple P (k x) Q → triple P (mret x ≫= k) Q.
Proof. done. Qed.
Lemma triple_pre (P' : db → Prop) {A} (m : M db A) :
  (∀ s, P s → P' s) → triple P' m Q → triple P m Q.
Proof. intros HP Hm s Hs. by apply Hm, HP. Qed.
End triple.

Lemma triple_keeps {A} (P : db → Prop) (m : M db A) :
  (∀ s, P s → good s) → keeps keep_good m → triple P m good.
Proof. intros HP Hm s Hs. eapply wp_mono; [apply Hm|]. intros a s' Hg. by apply Hg, HP. Qed.

Section keep_good.
Context `{Host}.

Lemma keeps_good_untouched {A} (m : M db A) : untouched good_facts m → keeps keep_good m.
Proof.
  intros Hm s. eapply wp_mono; [apply Hm|]. intros a s' E Hs. exact (stable_good _ _ E Hs).
Qed.
Lemma keeps_good_evolution {A} (m : M db A) :
  untouched receipt_facts m → keeps (evolution true) m → keeps keep_good m.
Proof.
  intros Hm He s. eapply wp_mono; [apply (wp_conj _ _ _ _ (Hm s) (He s))|].
  intros a s' [E Hev] [Hai Hinv]. split; [by apply Hev|]. by eapply receipts_inv_evolved.
Qed.

End keep_good.

(** ** Parts that keep the receipts sound *)
Definition keep_receipts (s s' : db) : Prop := receipts_inv s → receipts_inv s'.
#[export] Instance keep_receipts_preorder : PreOrder keep_receipts.
Proof. split; [by intros s Hs|]. intros s1 s2 s3 H1 H2 Hs. unfold keep_receipts in *. auto. Qed.

Lemma good_facts_view s s' q k :
  good_facts s' = good_facts s → row_view <$> nodes s' !! (q, k) = row_view <$> nodes s !! (q, k).
Proof. intros [= En _ _ _ _]. by rewrite <- !lookup_fmap, En. Qed.

Lemma receipts_inv_same s s' : good_facts s' = good_facts s → receipts_inv s → receipts_inv s'.
Proof.
  intros E Hinv. injection E as E1 E2 E3 E4 Ea.
  apply (receipts_inv_attempts s); [unfold row_facts; congruence|done|].
  intros q k n _ _. by apply candidate_kept_same.
Qed.

Lemma keeps_receipts_untouched `{Host} {A} (m : M db A) : untouched good_facts m → keeps keep_receipts m.
Proof.
  intros Hm s. eapply wp_mono; [apply Hm|]. intros a s' E Hs. exact (receipts_inv_same _ _ E Hs).
Qed.

(** A node that is not VERIFIED has no receipt, and neither has its new row. *)
Lemma receipts_inv_bare_update pid nk f s :
  (∀ n, nodes s !! (pid, nk) = Some n → n_status n = VERIFIED → f n = n) →
  (∀ n, n_status n ≠ VERIFIED → n_status (f n) ≠ VERIFIED ∧ n_receipt (f n) = n_receipt n) →
  receipts_inv s → receipts_inv (s <| nodes ::= alter f (pid, nk) |>).
Proof.
  intros Hv Hf Hinv. destruct (nodes s !! (pid, nk)) as [n|] eqn:Hn.
  2: { apply (receipts_inv_same s); [|done]. unfold good_facts, receipt_facts. simpl. do 4 f_equal.
    rewrite alter_id; [done|]. intros n' Hn'. by rewrite Hn in Hn'. }
  destruct (decide (n_status n = VERIFIED)) as [Hst|Hst].
  { apply (receipts_inv_same s); [|done]. unfold good_facts, receipt_facts. simpl. do 4 f_equal.
    rewrite alter_id; [done|]. intros n' Hn'. rewrite Hn in Hn'. injection Hn' as <-. auto. }
  assert (n_receipt n = None) as Hr.
  { destruct (n_receipt n) eqn:E; [|done]. destruct (Hinv _ _ _ Hn) as [[_ Hback] _].
    rewrite E in Hback. destruct Hst. apply Hback. by eexists. }
  destruct (Hf n Hst) as [Hst' Hr'].
  apply (receipts_inv_bare pid nk n s); try done; simpl.
  - intros n'. rewrite lookup_alter_eq, Hn. intros [= <-]. split; congruence.
  - intros q k Hne. by rewrite lookup_alter_ne by done.
Qed.

Lemma keeps_receipts_bare_update `{Host} pid nk f :
  (∀ n, n_status n = VERIFIED → f n = n) →
  (∀ n, n_status n ≠ VERIFIED → n_status (f n) ≠ VERIFIED ∧ n_receipt (f n) = n_receipt n) →
  keeps keep_receipts (update_node pid nk f).
Proof. intros Hv Hf s. apply wp_modify. intros Hinv. apply receipts_inv_bare_update; auto. Qed.

(** ** Reservations *)
Section reservations.
Context `{Host} (pid nk : string).

(** The node of the reservation is not VERIFIED, so [OPEN] is no loss. *)
Definition unverified (s : db) : Prop := ∀ n, nodes s !! (pid, nk) = Some n → n_status n ≠ VERIFIED.
Definition keep_open (s s' : db) : Prop := good s ∧ unverified s → good s' ∧ unverified s'.
#[export] Instance keep_open_preorder : PreOrder keep_open.
Proof. split; [by intros s Hs|]. intros s1 s2 s3 H1 H2 Hs. unfold keep_open in *. auto. Qed.

Lemma unverified_view s s' :
  row_view <$> nodes s' !! (pid, nk) = row_view <$> nodes s !! (pid, nk) → unverified s → unverified s'.
Proof.
  intros E Hu n' Hn'. rewrite Hn' in E. symmetry in E. apply fmap_Some in E as (n & Hn & E).
  injection E as E1 E2 E3 E4 E5. rewrite E4. by apply Hu.
Qed.
Lemma stable_open : stable (λ s, good s ∧ unverified s).
Proof.
  intros s s' E [Hg Hu]. split; [exact (stable_good _ _ E Hg)|].
  eapply unverified_view; [by apply good_facts_view|done].
Qed.

Lemma keeps_open_untouched {A} (m : M db A) : untouched good_facts m → keeps keep_open m.
Proof. intros Hm s. eapply wp_mono; [apply Hm|]. intros a s' E Hs. exact (stable_open _ _ E Hs). Qed.
Lemma keeps_open_evolution {A} (m : M db A) :
  untouched receipt_facts m → keeps (evolution true) m → keeps keep_open m.
Proof.
  intros Hm He s. eapply wp_mono; [apply (wp_conj _ _ _ _ (Hm s) (He s))|].
  intros a s' [E Hev] [[Hai Hinv] Hu]. split; [split; [by apply Hev|by eapply receipts_inv_evolved]|].
  eapply unverified_view; [|done]. injection E as En _ _ _. by rewrite <- !lookup_fmap, En.
Qed.
Lemma keeps_open_update t :
  keeps keep_open (update_node pid nk (λ m, m <| n_status := OPEN |> <| n_updated := t |>)).
Proof.
  intros s. apply wp_modify. intros [[Hai Hinv] Hu]. split; [split; [done|]|].
  - apply receipts_inv_bare_update; [|by intros n Hn|done]. intros n Hn Hv. by destruct (Hu n Hn).
  - intros n. simpl. rewrite lookup_alter_eq. destruct (nodes s !! (pid, nk)); [|done]. by intros [= <-].
Qed.
End reservations.

(** Follows a program whose assertion is stable, up to its writes. *)
Ltac stable_step :=
  first
    [ progress intros
    | lazymatch goal with
      | |- triple _ ((_ ≫= _) ≫= _) _ => apply triple_assoc
      | |- triple _ (mret _ ≫= _) _ => apply triple_ret_bind
      | |- triple _ (require _ _ ≫= _) _ => apply triple_require; intros ?
      | |- triple _ (lift _ ≫= _) _ => apply triple_lift; intros ? ?
      | |- triple _ (get_some _ _ ≫= _) _ => apply triple_get_some; intros ? ?
      | |- triple _ ((match ?x with _ => _ end) ≫= _) _ => destruct x eqn:?
      | |- triple _ (match ?x with _ => _ end) _ => destruct x eqn:?
      | |- triple _ (let _ := _ in _) _ => cbv zeta
      end ].

Section reserve_receipts.
Context `{Host}.

Lemma triple_keep_open {A} pid nk (P : db → Prop) (m : M db A) :
  (∀ s, P s → good s ∧ unverified pid nk s) → keeps (keep_open pid nk) m → triple P m good.
Proof. intros HP Hm s Hs. eapply wp_mono; [apply Hm|]. intros a s' Hg. by apply Hg, HP. Qed.

Lemma triple_untouched {A} (P Q : db → Prop) (m : M db A) :
  stable P → (∀ s, P s → Q s) → untouched good_facts m → triple P m Q.
Proof. intros HP HQ Hm s Hs. eapply wp_mono; [apply Hm|]. intros a s1 E. exact (HQ _ (HP _ _ E Hs)). Qed.

Lemma admit_open r revision h n ds c b ctx relay prior :
  keeps (keep_open (ra_project r) (ra_node r)) (admit_attempt r revision h n ds c b ctx relay prior).
Proof.
  unfold admit_attempt.
  repeat first
    [ progress intros
    | lazymatch goal with
      | |- keeps _ (_ ≫= _) => apply keeps_bind; [apply _| |]
      | |- keeps _ (match ?x with _ => _ end) => destruct x
      | |- keeps _ (let _ := _ in _) => cbv zeta
      end
    | apply keeps_open_update
    | solve [apply keeps_open_untouched; frame_operation]
    | apply keeps_open_evolution; [solve [frame_operation]|apply keeps_insert_attempt; by split] ].
Qed.

Definition node_at (pid nk : string) (v : option node_row) (s : db) : Prop :=
  row_view <$> nodes s !! (pid, nk) = row_view <$> v.
Lemma stable_and P Q : stable P → stable Q → stable (λ s, P s ∧ Q s).
Proof. intros HP HQ s s' E [Hp Hq]. split; [exact (HP _ _ E Hp)|exact (HQ _ _ E Hq)]. Qed.
Lemma stable_node_at pid nk v : stable (node_at pid nk v).
Proof. intros s s' E Hv. unfold node_at in *. by rewrite (good_facts_view s s'). Qed.
Lemma triple_node {A} (P Q : db → Prop) pid nk (k : node_row → M db A) :
  (∀ n, triple (λ s, P s ∧ node_at pid nk (Some n) s) (k n) Q) → triple P (node pid nk ≫= k) Q.
Proof.
  intros Hk s Hs. apply wp_bind, wp_node. intros n Hn _ _. apply Hk. split; [done|].
  unfold node_at. by rewrite Hn.
Qed.

Lemma reserve_once_good r mode report : triple good (reserve_once r mode report) good.
Proof.
  unfold reserve_once, admission_guards. repeat stable_step.
  apply triple_bind; [apply stable_good|solve [frame_operation]|]. repeat stable_step.
  apply triple_node. intros n. assert (stable (λ s, good s ∧ node_at (ra_project r) (ra_node r) (Some n) s)) as Hst.
  { apply stable_and; [apply stable_good|apply stable_node_at]. }
  apply triple_bind; [done|frame|]. intros [old|].
  { apply triple_untouched; [done|by intros ? []|frame_operation]. }
  repeat first [stable_step|apply triple_bind; [done|solve [frame_operation]|]].
  - apply triple_untouched; [done|by intros ? []|frame].
  - eapply (triple_keep_open (ra_project r) (ra_node r)).
    2: { apply keeps_bind; [apply _|apply admit_open|]. intros v. apply keeps_ret, _. }
    intros s1 [Hs1 Hn1]. split; [done|]. intros m Hm. unfold node_at in Hn1. rewrite Hm in Hn1.
    injection Hn1 as _ _ _ Es _. rewrite Es. bsimpl. naive_solver.
Qed.
End reserve_receipts.

(** ** Outcomes: an attempt is disowned before its candidate is retracted *)
Section disowned.
Context `{Host} (a : attempt_row).

(** The node of [a] has no receipt of [a]. *)
Definition disowned (s : db) : Prop :=
  ∀ n, nodes s !! (a_project a, a_node a) = Some n → ¬ named s n a.
(** The row of [a] may take this status and artifact. *)
Definition may_become (st : attempt_status) (art : option string) (s : db) : Prop :=
  good s ∧ a ∈ attempts s ∧
  (a_status a = Candidate → is_Some (a_artifact a) → (st = Candidate ∧ art = a_artifact a) ∨ disowned s).

Lemma stable_disowned : stable disowned.
Proof.
  intros s s' E Hd n' Hn' (rid & r & Hr & Hra & Ea). pose proof (good_facts_view s s' (a_project a) (a_node a) E) as Hv.
  rewrite Hn' in Hv. symmetry in Hv. apply fmap_Some in Hv as (n & Hn & Ev). injection Ev as _ _ _ _ E5.
  injection E as _ _ _ E4 _. apply (Hd n Hn). exists rid, r. by rewrite <- E5, <- E4.
Qed.
Lemma stable_may_become st art : stable (may_become st art).
Proof.
  intros s s' E (Hg & Ha & Hst). split; [exact (stable_good _ _ E Hg)|]. split.
  - injection E as _ _ _ _ E5. by rewrite E5.
  - intros H1 H2. destruct (Hst H1 H2); [by left|right]. by eapply stable_disowned.
Qed.

Lemma receipts_inv_update st art f s :
  may_become st art s → attempt_identity (f a) = attempt_identity a →
  a_status (f a) = st → a_artifact (f a) = art →
  receipts_inv (s <| attempts ::= update_where (λ r, bool_decide (a_id r = a_id a)) f |>).
Proof.
  intros ([Hai Hinv] & Ha & Hst) Hid E1 E2. apply (receipts_inv_attempts s); [done|done|].
  intros q k n Hn _ b Hb1 Hb2 <- <- Hb3 Hb4. split; [|done].
  destruct (decide (a_id b = a_id a)) as [E|E].
  - assert (b = a) as -> by (by eapply attempts_inv_id).
    destruct (Hst Hb3 Hb4) as [[-> Hart]|Hd]; [|by destruct (Hd n Hn)].
    exists (f a). split.
    + apply elem_of_update_where. exists a. by rewrite bool_decide_eq_true_2.
    + injection Hid as I1 I2 I3 I4 I5 I6 I7 I8 I9 I10 I11 I12 I13 I14 I15. unfold attempt_view. congruence.
  - exists b. split; [|done]. apply elem_of_update_where. exists b. by rewrite bool_decide_eq_false_2.
Qed.

(** What [retract_acceptance] and [retract_external] do. *)
Lemma disown n (payload : list string → json) s :
  good s → node_at (a_project a) (a_node a) (Some n) s →
  wp (receipt ← gets (λ s, n_receipt n ≫= λ rid, acceptances s !! rid);
      when (bool_decide (rc_attempt <$> receipt = Some (a_id a))) (
        invalidated ← invalidate (a_project a) (a_node a);
        event (a_project a) (Some (a_node a)) "acceptance_invalidated" (payload invalidated)))
     (λ _ s', good s' ∧ attempts s' = attempts s ∧ disowned s') s.
Proof.
  intros [Hai Hinv] Hn. apply wp_bind, wp_gets. destruct (bool_decide _) eqn:E.
  - unfold when. apply wp_bind. eapply wp_mono; [apply invalidate_run|].
    intros keys s1 [_ Hiv]. destruct (receipts_inv_invalidated _ _ _ _ Hinv Hiv) as [Hinv1 Hbare].
    assert (attempts s1 = attempts s) as Ea by (by rewrite (iv_rest _ _ _ _ Hiv)).
    assert (good s1 ∧ disowned s1) as Hs1.
    { split; [split; [by rewrite Ea|done]|]. intros n1 Hn1 (rid & r & Hr & _).
      destruct (Hbare _ _ (self_affected s _ _) Hn1). congruence. }
    eapply wp_mono; [apply (untouched_event good_facts); intros; reflexivity|].
    intros [] s2 E2. destruct Hs1 as [H1 H2]. split; [exact (stable_good _ _ E2 H1)|].
    split; [injection E2 as _ _ _ _ E5; congruence|exact (stable_disowned _ _ E2 H2)].
  - apply wp_ret. split; [done|]. split; [done|]. intros n1 Hn1 (rid & r & Hr & Hra & Ea).
    unfold node_at in Hn. rewrite Hn1 in Hn. injection Hn as _ _ _ _ E5. bsimpl. apply E.
    rewrite <- E5, Hr. simpl. rewrite Hra. simpl. congruence.
Qed.

Definition holds (s : db) : Prop := good s ∧ a ∈ attempts s.
Lemma stable_holds : stable holds.
Proof.
  intros s s' E [Hg Ha]. split; [exact (stable_good _ _ E Hg)|]. injection E as _ _ _ _ E5. by rewrite E5.
Qed.

Lemma disowned_becomes st art s s' :
  a ∈ attempts s → good s' ∧ attempts s' = attempts s ∧ disowned s' → may_become st art s'.
Proof. intros Ha (Hg & E & Hd). split; [done|]. split; [by rewrite E|]. by right. Qed.

Lemma retract_acceptance_disowns reason st art :
  triple holds (retract_acceptance a reason) (may_become st art).
Proof.
  unfold retract_acceptance. apply triple_node. intros n s [[Hg Ha] Hn].
  eapply wp_mono; [by apply disown|]. intros [] s'. by apply disowned_becomes.
Qed.

Lemma retract_external_disowns n st art :
  triple (λ s, holds s ∧ node_at (a_project a) (a_node a) (Some n) s) (retract_external a n) (may_become st art).
Proof.
  intros s [[Hg Ha] Hn]. unfold retract_external.
  assert (truthy (n_receipt n) = n_receipt n) as ->.
  { unfold node_at in Hn. apply fmap_Some in Hn as (n1 & Hn1 & E). injection E as _ _ _ _ E5.
    destruct (n_receipt n) as [rid|] eqn:Hr; [|done]. simpl. case_bool_decide; [|done].
    destruct Hg as [_ Hinv]. destruct (Hinv _ _ _ Hn1) as [_ Hrc]. by destruct (Hrc rid). }
  eapply wp_mono; [by apply disown|]. intros [] s'. by apply disowned_becomes.
Qed.

Lemma triple_update {A} st art f (k : () → M db A) :
  attempt_identity (f a) = attempt_identity a → a_status (f a) = st → a_artifact (f a) = art →
  keeps keep_receipts (k tt) → triple (may_become st art) (update_attempt (a_id a) f ≫= k) receipts_inv.
Proof.
  intros H1 H2 H3 Hk s Hs. apply wp_bind, wp_modify. eapply wp_mono; [apply Hk|].
  intros x s' Hr. apply Hr. by eapply receipts_inv_update.
Qed.
End disowned.

Lemma triple_attempt `{Host} {A} aid (k : attempt_row → M db A) Q :
  (∀ a, a_id a = aid → triple (holds a) (k a) Q) → triple good (attempt aid ≫= k) Q.
Proof. intros Hk s Hs. apply wp_bind, wp_attempt. intros a Ha Hid. by apply Hk. Qed.

Ltac keep_receipts :=
  repeat first
    [ progress intros
    | solve [apply keeps_receipts_untouched; frame_operation]
    | apply keeps_receipts_bare_update; intros ? ?; repeat case_bool_decide; done
    | lazymatch goal with
      | |- keeps _ (_ ≫= _) => apply keeps_bind; [apply _| |]
      | |- keeps _ (match ?x with _ => _ end) => destruct x eqn:?
      | |- keeps _ (when _ _) => apply keeps_when; [apply _|]
      | |- keeps _ (let _ := _ in _) => cbv zeta
      end ].

Section outcomes.
Context `{Host}.

Lemma mark_candidate_receipts pid nk : keeps keep_receipts (mark_candidate pid nk).
Proof. unfold mark_candidate. keep_receipts. Qed.

Lemma triple_kept {A} (m : M db A) : keeps keep_receipts m → triple receipts_inv m receipts_inv.
Proof. intros Hm s Hs. eapply wp_mono; [apply Hm|]. intros x s' Hr. by apply Hr. Qed.
Lemma triple_holds {A} a (m : M db A) Q :
  (row_ok a → triple (holds a) m Q) → triple (holds a) m Q.
Proof.
  intros Hm s Hs. apply Hm; [|done]. destruct Hs as [[Hai _] Ha]. by eapply Forall_forall; [apply ai_rows|].
Qed.

(** The writes of [settle_run] on the attempt. *)
Lemma settle_writes a (cond : bool) st art err payload :
  (a_status a = Candidate → is_Some (a_artifact a) → st = Candidate → art = a_artifact a) →
  triple (holds a) (when cond (
    when (negb (bool_decide (st = Candidate)))
      (retract_acceptance a "accepted workflow no longer has a valid candidate outcome");;
    stamp ← now;
    update_attempt (a_id a) (λ r, r <| a_status := st |> <| a_artifact := art |>
      <| a_error := err |> <| a_updated := stamp |>);;
    when (bool_decide (st = Candidate)) (mark_candidate (a_project a) (a_node a));;
    event (a_project a) (Some (a_node a)) "attempt_observed" payload)) receipts_inv.
Proof.
  intros Hart. destruct cond; simpl.
  2: { apply triple_untouched; [apply stable_holds|by intros ? [[]]|frame]. }
  apply (triple_seq _ _ _ _ (may_become a st art)).
  - case_bool_decide; simpl; [|apply retract_acceptance_disowns].
    intros s [Hg Ha]. apply wp_ret. split; [done|]. split; [done|]. left. auto.
  - intros []. apply triple_bind; [apply stable_may_become|frame|]. intros stamp.
    apply triple_update; [done..|]. apply keeps_bind; [apply _| |].
    + apply keeps_when; [apply _|]. apply mark_candidate_receipts.
    + intros []. keep_receipts.
Qed.

Lemma settle_run_receipts aid actor row q c :
  triple good (settle_run aid actor row (outcome_status (rn_status row) q) c) receipts_inv.
Proof.
  unfold settle_run. apply triple_attempt. intros a <-. apply triple_holds. intros Hok.
  assert (stable (holds a)) as Hst by apply stable_holds.
  apply triple_require; intros _. apply triple_bind; [done|frame|intros n].
  apply triple_bind; [done|frame|intros fresh].
  set (status := if _ && _ then Superseded else _). clearbody status.
  repeat first [stable_step|apply triple_bind; [done|solve [frame_operation]|]].
  all: eapply triple_seq; [apply settle_writes|intros []; apply triple_kept; keep_receipts].
  2: done.
  intros _ [y Hy] _. rewrite truthy_artifact, Hy in * by done. bsimpl. congruence.
Qed.

(** The writes of [commit_current] after the guards. *)
Lemma triple_update_node {A} a st art f n (k : () → M db A) :
  attempt_identity (f a) = attempt_identity a → a_status (f a) = st → a_artifact (f a) = art →
  triple (λ s, receipts_inv s ∧ (st = Candidate → node_at (a_project a) (a_node a) (Some n) s)) (k tt) receipts_inv →
  triple (λ s, may_become a st art s ∧ (st = Candidate → node_at (a_project a) (a_node a) (Some n) s))
    (update_attempt (a_id a) f ≫= k) receipts_inv.
Proof.
  intros H1 H2 H3 Hk s [Hs Hn]. apply wp_bind, wp_modify, Hk. split; [|done]. by eapply receipts_inv_update.
Qed.

Lemma candidate_node a st n :
  triple (λ s, receipts_inv s ∧ (st = Candidate → node_at (a_project a) (a_node a) (Some n) s))
    (when (bool_decide (st = Candidate)) (
      newest ← gets (λ s, is_latest s a);
      when (newest && negb (bool_decide (n_status n = VERIFIED))) (
        stamp ← now;
        update_node (a_project a) (a_node a) (λ m, m <| n_status := CANDIDATE |> <| n_updated := stamp |>))))
    receipts_inv.
Proof.
  intros s [Hs Hn]. case_bool_decide as Hst; simpl; [|by apply wp_ret]. apply wp_bind, wp_gets.
  destruct (_ && _) eqn:E; [|by apply wp_ret]. bsimpl. unfold when. apply wp_bind.
  eapply wp_mono; [apply (untouched_now good_facts); intros; reflexivity|]. intros t s1 E1.
  apply wp_modify. specialize (Hn Hst). apply (receipts_inv_same _ _ E1) in Hs.
  apply (stable_node_at _ _ _ _ _ E1) in Hn. apply receipts_inv_bare_update; [|by intros|done].
  intros m Hm Hv. unfold node_at in Hn. rewrite Hm in Hn. injection Hn as _ _ _ E4 _. congruence.
Qed.

Lemma commit_current_receipts x g a o artifact stale :
  a_id a = g_attempt g → (ob_result o = Candidate → a_status a ≠ Candidate) →
  triple (holds a) (commit_current x g a o artifact stale) receipts_inv.
Proof.
  unfold commit_current. intros <- Hres. assert (stable (holds a)) as Hst by apply stable_holds.
  assert (∀ n, stable (λ s, holds a s ∧ node_at (a_project a) (a_node a) (Some n) s)) as Hst'.
  { intros n. apply stable_and; [done|apply stable_node_at]. }
  apply triple_bind; [done|frame|intros updated]. apply triple_bind; [done|frame|intros settled].
  apply triple_bind; [done|frame|intros row]. apply triple_require; intros _.
  apply triple_bind; [done|frame|intros []]. apply triple_node. intros n.
  set (art := match artifact with Some p => Some p.1 | None => a_artifact a end).
  set (R s := may_become a (ob_result o) art s ∧
    (ob_result o = Candidate → node_at (a_project a) (a_node a) (Some n) s)).
  apply (triple_seq _ _ _ _ R).
  - case_bool_decide as Hc; simpl.
    + intros s [[Hg Ha] Hn]. apply wp_ret. split; [|done]. split; [done|]. split; [done|].
      intros Hb. by destruct (Hres Hc).
    + intros s Hs. eapply wp_mono; [by apply retract_external_disowns|]. by intros [] s' Hs'.
  - intros []. apply triple_bind; [|frame|intros stamp].
    { intros s s' E [H1 H2]. split; [exact (stable_may_become _ _ _ _ _ E H1)|].
      intros Hc. exact (stable_node_at _ _ _ _ _ E (H2 Hc)). }
    apply triple_update_node; [done..|].
    eapply triple_seq; [apply candidate_node|]. intros []. apply triple_kept. keep_receipts.
Qed.

Lemma observe_commit_receipts fs x r g late c st :
  parse_report r = Ok g → collect_report fs g late = Ok c →
  triple good (observe_commit x g c st) receipts_inv.
Proof.
  intros (_ & _ & Hin & _)%parse_report_ok Hc. unfold observe_commit.
  apply triple_bind; [apply stable_good|frame_operation|intros []].
  apply triple_attempt. intros a Hid. assert (stable (holds a)) as Hst by apply stable_holds.
  repeat first
    [ lazymatch goal with
      | |- triple _ (commit_current _ _ _ _ _ _) _ =>
        apply commit_current_receipts; [done|cbn [ob_result]; intros Hres Hcand]
      end
    | stable_step | apply triple_bind; [done|solve [frame_operation]|] ].
  - apply triple_untouched; [done|by intros ? [[]]|frame].
  - rewrite <- Hid. apply (triple_pre _ _ (may_become a (a_status a) (a_artifact a))).
    { intros s [Hg Ha]. split; [done|]. split; [done|]. by left. }
    apply triple_update; [done..|]. keep_receipts.
  - apply (result_status_cases g (pins_current x0 a) false Hin) in Hres as (E & _ & _).
    match goal with u : (), E : observe_guards _ _ _ = _ |- _ =>
      destruct u; apply observe_guards_ok in E as (_ & _ & _ & Hg & _) end.
    rewrite (Hg Hcand) in E. done.
Qed.
End outcomes.

(** ** Evidence *)
Section evidence_receipts.
Context `{Host}.

Lemma evidence_of_append s row aid :
  v_attempt row ≠ aid → evidence_of (s <| evidence ::= (λ l, l ++ [row]) |>) aid = evidence_of s aid.
Proof.
  intros Hne. unfold evidence_of, select. simpl. rewrite List.filter_app. simpl.
  by rewrite bool_decide_eq_false_2, app_nil_r.
Qed.

(** The receipts that do not name the attempt survive a new row of it. *)
Lemma appended_kept a row s q k n :
  good s → a ∈ attempts s → v_attempt row = a_id a →
  (q, k) ≠ (a_project a, a_node a) ∨ a_status a ≠ Candidate →
  candidate_kept s (s <| evidence ::= (λ l, l ++ [row]) |>) q k n.
Proof.
  intros [Hai _] Ha Hrow Hor b _ Hb <- <- Hst _. split; [by exists b|].
  apply evidence_of_append. rewrite Hrow. intros E.
  assert (a = b) as -> by (by eapply attempts_inv_id). destruct Hor; congruence.
Qed.

(** A new row on a candidate takes the receipt of its node away. *)
Lemma appended_invalidated a row s s' :
  good s → a ∈ attempts s → v_attempt row = a_id a →
  invalidated (a_project a) (a_node a) (s <| evidence ::= (λ l, l ++ [row]) |>) s' → receipts_inv s'.
Proof.
  intros Hg Ha Hrow [Hhit Hmiss Hrest]. destruct Hg as [Hai Hinv].
  apply (receipts_inv_affected (a_project a) (a_node a) s); [done|by rewrite Hrest|..].
  - intros q k n Hne Hn b Hb1 Hb2 Hb3 Hb4 Hb5 Hb6.
    destruct (appended_kept a row s q k n) with b as [(b' & Hb' & Hv) He]; try done; [by left|].
    split; [exists b'; by rewrite Hrest|]. rewrite <- He. by rewrite Hrest.
  - intros k n' Hk Hn'. destruct (Hhit k Hk) as [t E]. rewrite Hn' in E. symmetry in E.
    apply fmap_Some in E as (n & Hn & ->). by eapply stale_bare.
  - intros q k Hqk. split; [by apply Hmiss|]. by rewrite Hrest.
Qed.

Lemma record_evidence_receipts e sf : triple good (record_evidence e sf) receipts_inv.
Proof.
  unfold record_evidence. apply triple_lift. intros t _. cbv zeta.
  apply triple_attempt. intros a Hid. assert (stable (holds a)) as Hst by apply stable_holds.
  apply triple_bind; [done|frame|]. intros [v|].
  { apply triple_untouched; [done|by intros ? [[]]|frame_operation]. }
  repeat first
    [ lazymatch goal with |- triple _ (modify _ ≫= _) _ => fail | |- _ => stable_step end
    | apply triple_bind; [done|solve [frame_operation]|] ].
  match goal with |- triple _ (modify (λ s, s <| evidence ::= (λ l, l ++ [?r]) |>) ≫= _) _ => set (row := r) end.
  intros s [Hg Ha]. apply wp_bind, wp_modify, wp_bind, wp_node. simpl. intros n Hn _ _.
  assert (v_attempt row = a_id a) as Hrow by done.
  apply wp_bind, (wp_mono _ (λ _ s', receipts_inv s')).
  - destruct (bool_decide (is_Some (truthy (n_receipt n))) && _) eqn:Hc; unfold when.
    + apply wp_bind. eapply wp_mono; [apply invalidate_run|]. intros keys s1 [_ Hiv].
      apply triple_kept; [keep_receipts|]. by eapply appended_invalidated.
    + apply wp_ret. apply (receipts_inv_attempts s); [done|by destruct Hg|].
      intros q k m Hm Hrc. apply (appended_kept a); [done..|].
      destruct (decide ((q, k) = (a_project a, a_node a))) as [[= -> ->]|]; [right|by left].
      rewrite Hn in Hm. injection Hm as <-. destruct Hg as [_ Hinv], Hrc as [rid Hrid].
      destruct (Hinv _ _ _ Hn) as [_ Hrc]. destruct (Hrc rid Hrid) as [Hne _].
      rewrite Hrid in Hc. simpl in Hc. rewrite (bool_decide_eq_false_2 (rid = "")) in Hc by done.
      rewrite bool_decide_eq_true_2 in Hc by by eexists. simpl in Hc. apply negb_false_iff, bool_decide_eq_true in Hc. congruence.
  - intros []. apply triple_kept. keep_receipts.
Qed.
End evidence_receipts.

(** ** Acceptance *)
Section verified_receipts.
Context `{Host}.

(** The receipt [verify] issues on a node that has none. *)
Lemma receipts_inv_verified pid nk n a rid row s s' t :
  receipts_inv s → nodes s !! (pid, nk) = Some n → n_receipt n = None →
  nk ∉ deps_at s pid nk → a ∈ attempts s → acceptances s !! rid = None → rid ≠ "" →
  sound_at pid nk n (dependency_snapshot s pid nk) row a (evidence_of s (a_id a)) →
  nodes s' = alter (λ m, m <| n_status := VERIFIED |> <| n_receipt := Some rid |> <| n_updated := t |>)
               (pid, nk) (nodes s) →
  acceptances s' = <[rid := row]> (acceptances s) → deps s' = deps s → evidence s' = evidence s →
  attempts s' = attempts s → receipts_inv s'.
Proof.
  intros Hinv Hn Hr Hself Ha Hfresh Hne Hs En Eacc Ed Ee Ea.
  apply (receipts_inv_moved (λ q k, (q, k) = (pid, nk)) s);
    try (intros ? ?; cbv beta; apply _); try done.
  - rewrite Eacc. by apply insert_subseteq.
  - intros q k n' [= -> ->] Hn'. rewrite En, lookup_alter_eq, Hn in Hn'. injection Hn' as <-.
    split; [by split; [eexists|]|]. simpl. intros rid' [= <-]. split; [done|].
    exists row, a. rewrite Eacc, lookup_insert_eq, Ea. split; [done|]. split; [done|].
    assert (dependency_snapshot s' pid nk = dependency_snapshot s pid nk) as ->.
    { apply dependency_snapshot_ext; [unfold deps_at; by rewrite Ed|].
      intros x Hx. rewrite En, lookup_alter_ne; [done|]. intros [= <-]. done. }
    unfold evidence_of. rewrite Ee. by destruct Hs; split.
  - intros q k n' Hmv Hn'. rewrite En, lookup_alter_ne in Hn' by done. by exists n'.
  - intros q k m Hmv Hm Hrc. split_and!; [unfold deps_at; by rewrite Ed| |by apply candidate_kept_same].
    intros x Hx. destruct (decide ((q, x) = (pid, nk))) as [[= -> ->]|Hx']; [|by rewrite En, lookup_alter_ne].
    destruct (sound_dependency s pid k m nk n) as [_ [rid' Hrid]]; [done..|]. congruence.
Qed.

Lemma eligible_candidate_ok s a : eligible_candidate s a = Ok tt →
  a_status a = Candidate ∧ is_Some (truthy (a_artifact a)) ∧ pins_current s a = true ∧ is_latest s a = true.
Proof.
  unfold eligible_candidate. intros He.
  destruct (a_kind a); [|destruct (observation_at _ _ _)]; res_inv_all; bsimpl; done.
Qed.

Lemma eligible_sound s a n pid nk who t prov : eligible_candidate s a = Ok tt →
  of_node pid nk a = true → nodes s !! (pid, nk) = Some n →
  failing (n_contract n) (latest_by_criterion (evidence_of s (a_id a))) = [] →
  sound_at pid nk n (dependency_snapshot s pid nk)
    (AcceptanceRow pid nk (n_revision n) (a_id a) (default "" (a_artifact a)) (n_hash n) (a_snapshot a)
       (omap (λ c, v_id <$> latest_by_criterion (evidence_of s (a_id a)) !! c_id c) (n_contract n)) who t prov)
    a (evidence_of s (a_id a)).
Proof.
  intros (Hst & [x Hart] & Hpin & _)%eligible_candidate_ok Hof Hn Hf.
  unfold of_node in Hof. bsimpl. unfold pins_current in Hpin.
  assert (a_artifact a = Some x) as Hx.
  { destruct (a_artifact a) as [y|]; [|done]. simpl in Hart. destruct (bool_decide (y = "")); congruence. }
  match goal with E1 : a_project a = pid, E2 : a_node a = nk |- _ => rewrite E1, E2, Hn in Hpin end.
  bsimpl. rewrite Hx. split; simpl;
    repeat match goal with |- _ ∧ _ => split end; first [done|congruence].
Qed.

Lemma verify_receipts p nk e aid r b s :
  graph_inv s → good s → wp (verify p nk e aid r b) (λ _ s', receipts_inv s') s.
Proof.
  intros Hg [Hai Hinv]. unfold verify.
  apply wp_bind, wp_lift. intros expected _. apply wp_bind, wp_lift. intros reviewer _.
  apply wp_bind, wp_node. intros n Hn _ _. apply wp_bind, wp_attempt. intros a Ha Hid.
  apply wp_bind, wp_require. intros Hof. apply wp_bind, wp_gets, wp_bind, wp_lift. intros [] He.
  apply wp_bind, wp_require. intros Hf. apply wp_bind, wp_require. intros _. cbv zeta.
  assert (nk ∉ deps_at s p nk) as Hself.
  { intros Hin. apply (gi_acyclic _ Hg p nk), tc_once. unfold edge, preds. rewrite lookup_graph_of, Hn.
    simpl. by apply elem_of_sorted_set. }
  bsimpl. subst aid.
  destruct (truthy (n_receipt n)) as [rid|] eqn:Hrc.
  { eapply wp_mono; [apply (keeps_receipts_untouched (A := string * acceptance_row)); frame_operation|].
    intros x s' Hk. by apply Hk. }
  assert (n_receipt n = None) as Hr.
  { destruct (n_receipt n) as [rid|] eqn:E; [|done]. destruct (Hinv _ _ _ Hn) as [_ Hrec].
    destruct (Hrec rid E) as [Hne _]. simpl in Hrc. rewrite bool_decide_eq_false_2 in Hrc by done. done. }
  unfold insert_acceptance, acceptance_row_at, update_node. wp_all. bsimpl.
  apply (wp_mono _ (λ _ s', receipts_inv s')); [apply triple_kept; [keep_receipts|]|intros []; wp_all; done].
  eapply (receipts_inv_verified p nk n a); try done; [|done..].
  unfold id in *. match goal with E : n_revision n = expected |- _ => rewrite <- E end.
  by apply eligible_sound.
Qed.
End verified_receipts.

#[export] Hint Extern 1 (untouched good_facts (update_node _ _ _)) =>
  apply untouched_modify; intros ?; unfold good_facts, receipt_facts; simpl; do 4 f_equal;
  apply fmap_alter_id; intros; reflexivity : untouched.

(** ** In every reachable state *)
Section receipts_invariant.
Context `{Host}.

Definition state_inv (s : db) : Prop := facts_inv s ∧ good s.
Lemma state_inv_empty : state_inv empty_db.
Proof. split; [apply facts_inv_empty|]. split; [apply attempts_inv_empty|]. intros p k n Hn. done. Qed.

Lemma receipts_untouched {A} (m : M db A) s :
  untouched good_facts m → receipts_inv s → wp m (λ _ s', receipts_inv s') s.
Proof. intros Hm Hs. apply triple_kept; [by apply keeps_receipts_untouched|done]. Qed.
Lemma receipts_candidates {A} (m : M db A) s :
  keeps (evolution true) m → untouched receipt_facts m → good s → wp m (λ _ s', receipts_inv s') s.
Proof.
  intros He Hm Hs. eapply wp_mono; [by apply keeps_good_evolution|]. intros a s' Hg. by apply Hg.
Qed.

#[local] Hint Resolve heartbeat_evolution record_preflight_evolution
  pin_relay_evolution pin_prior_candidate_evolution reconcile_prior_candidate_evolution
  pin_host_contract_evolution claim_launch_evolution retire_reservation_evolution
  launch_uncertain_evolution bind_run_evolution abandon_evolution take_over_attempt_evolution
  accept_handoff_evolution : keeps.
Lemma bind_node_receipts x p n e b l r s :
  graph_inv s → receipts_inv s → wp (bind_node x p n e b l r) (λ _ s', receipts_inv s') s.
Proof.
  intros Hg Hinv. unfold bind_node. apply wp_bind, wp_get_some. intros ? _. apply wp_bind, wp_node.
  intros row _ _ _. apply wp_bind, wp_gets, wp_bind, wp_lift. intros base _. cbv zeta.
  apply wp_bind, wp_lift. intros ? _. apply wp_bind, wp_require. intros _. apply wp_bind, wp_lift. intros found _.
  apply wp_bind. eapply wp_mono; [by apply revise_receipts|]. intros re s1 H1. cbv beta.
  apply receipts_untouched; [frame|exact H1].
Qed.
Lemma receipts_operation A (m : M db A) :
  operation m → ∀ s, state_inv s → wp m (λ _ s', receipts_inv s') s.
Proof.
  intros Hop s0 [[Hg Hh] Hgood]. pose proof Hgood as [Hai Hinv].
  destruct Hop; try (apply receipts_untouched; [unfold set_node_facet; solve [frame_operation]|done]);
    try (apply receipts_candidates; [solve [eauto 2 with keeps nocore]|solve [frame_operation]|done]).
  - by apply add_receipts.
  - by apply revise_receipts.
  - by apply split_receipts.
  - by apply supersede_receipts.
  - eapply wp_mono; [by apply reserve_once_good|]. by intros x s' [].
  - by apply settle_run_receipts.
  - by apply record_evidence_receipts.
  - by apply verify_receipts.
  - by eapply observe_commit_receipts.
  - by apply bind_node_receipts.
Qed.

Lemma state_inv_operation A (m : M db A) :
  operation m → ∀ s, state_inv s → wp m (λ _ s', state_inv s') s.
Proof.
  intros Hop s Hs. pose proof Hs as [Hf [Hai _]].
  eapply wp_mono; [apply (wp_conj _ _ _ _ (facts_inv_operation A m Hop s Hf)
    (wp_conj _ _ _ _ (receipts_operation A m Hop s Hs) (operation_evolution A m Hop s)))|].
  intros a s' (H1 & H2 & H3). split; [done|]. split; [by apply H3|done].
Qed.

Lemma reachable_state s : reachable s → state_inv s.
Proof. apply reachable_invariant; [apply state_inv_empty|apply state_inv_operation]. Qed.
End receipts_invariant.
