(* ===== verification/Sample.v ===== *)
(** * A concrete service

    A host whose clock ticks once a second, whose UUIDs count, and whose digest is
    a small polynomial hash of a text's first characters (cheap to evaluate; no theorem
    relies on digests being free of collisions); and one run of the service on it: two nodes, the first
    implemented by a SkillFlow run and verified, the second by an external harness.
    The witnesses of the theorems evaluate on these states. *)
From S2P Require Import Prelude Json Text Dag Store Graph History Portfolio Presence Claims.
From S2P Require Import Enforcement Review Attempts Evidence External Registry Inbox Issues Design.
From S2P Require Import Takeover Recovery Handoffs View Ledger System.

Definition hex_digit (n : N) : ascii := ascii_of_N (if (n <? 10)%N then 48 + n else 87 + n)%N.
Fixpoint hex_word (size : nat) (n : N) : string :=
  match size with
  | O => ""
  | S size => hex_word size (n / 16)%N +:+ String (hex_digit (n mod 16)%N) ""
  end.
Fixpoint poly (s : string) (h : N) : N :=
  match s with
  | "" => h
  | String c s => poly s ((h * 31 + N_of_ascii c + 1) mod 2 ^ 256)%N
  end.

#[export] Instance sample_host : Host := {|
  clock n := (Z.of_nat n * SECOND)%Z;
  uuid n := hex_word 32 (N.of_nat n);
  sha256 s := hex_word 64 (poly (String.substring 0 16 s) 7);
  hmac_sha256 k s := hex_word 64 (poly (String.substring 0 4 k +:+ String.substring 0 16 s) 11);
  secret n := hex_word 8 (N.of_nat n) |}.

(** The state a transaction leaves: unchanged when it refuses. *)
Definition after {A} (m : M db A) (s : db) : db := match m s with Ok (_, s') => s' | Err _ => s end.
Definition outcome {A} (m : M db A) (s : db) : option A := match m s with Ok (a, _) => Some a | Err _ => None end.

Lemma returns_run {A} (m : M db A) s : is_ok (m s) = true → ∃ a, m s = Ok (a, after m s).
Proof. unfold after. destruct (m s) as [[a s']|]; [|done]. by exists a. Qed.

(** Names the result of the run the goal speaks of. *)
Tactic Notation "returns" ident(r) ident(E) :=
  match goal with
  | |- context [?m ?s = Ok (_, after ?m ?s)] =>
    destruct (returns_run m s) as [r E]; [vm_compute; reflexivity|]
  end.

Lemma returns_flagged {A} (m : M db (A * bool)) s :
  match m s with Ok ((_, b), _) => negb b | Err _ => false end = true → ∃ v, m s = Ok ((v, false), after m s).
Proof. unfold after. destruct (m s) as [[[v []] s']|]; [done|by exists v|done]. Qed.
Tactic Notation "returns_flag" ident(r) ident(E) :=
  match goal with
  | |- context [?m ?s = Ok ((_, false), after ?m ?s)] =>
    destruct (returns_flagged m s) as [r E]; [vm_compute; reflexivity|]
  end.

Lemma steps_after `{Host} {A} (m : M db A) s0 s : operation m → rtc step s0 s → rtc step s0 (after m s).
Proof.
  intros Hm Hs. unfold after. destruct (m s) as [[a s']|] eqn:E; [|done].
  eapply rtc_r; [exact Hs|]. by exists A, m, a.
Qed.
Lemma reachable_after `{Host} {A} (m : M db A) s : operation m → reachable s → reachable (after m s).
Proof. apply steps_after. Qed.

Definition spec (k : string) (ds : list string) : json :=
  jobj [("key", JStr k); ("goal", JStr ("build " +:+ k));
        ("acceptance", JArr [jobj [("id", JStr "t1"); ("kind", JStr "test");
                                   ("description", JStr "the tests pass")]]);
        ("dependencies", jstrs ds)].

(** An engine that knows one completed and quiet run of workflow [wf]. *)
Definition sample_pin : string := "sha256:" +:+ hex_word 64 5.
Definition sample_engine : engine := {|
  get_run run := Some (jobj [("id", JStr run); ("project_id", JStr ("sg-" +:+ hex_word 32 0));
    ("graph_name", JStr "wf"); ("status", JStr "running"); ("graph_version", JInt 1);
    ("graph_digest", JStr sample_pin)]);
  get_graph_version _ _ := Some (jobj [("digest", JStr sample_pin); ("graph", JStr "g")]);
  graph_digest _ := Some sample_pin;
  audit_operation_owners _ := Some (jobj [("lost", JArr []); ("unknown", JArr []); ("alive", JInt 0)]) |}.

Definition skillflow_request (nk rk : string) : reserve_args :=
  ReserveArgs "demo" nk (JInt 1) (Some "wf") rk (JStr "go") None None None None None None None None None false.
Definition external_request (nk rk : string) : reserve_args :=
  ReserveArgs "demo" nk (JInt 1) None rk (JStr "go") (Some (ExtIdentity "codex" "job-1" "driver:d"))
    None None None None None (Some "d") None None false.

Definition attempt_a : string := "attempt-" +:+ hex_word 32 0.
Definition artifact_a : string := hex_word 40 11.
Definition completed (run : string) : run_row :=
  RunRow run RCompleted (JStr "completed") 1 sample_pin JNull JNull.
Definition passing (aid eid artifact : string) : evidence_args :=
  EvidenceArgs aid eid "t1" (JStr "pass") artifact (JStr "report.json") (JStr (hex_word 64 99))
    (JStr "verifier") (JStr "") None JNull.

Definition s_project : db := after (create_project "demo" (JStr "Demo") None) empty_db.
Definition s_nodes : db := after (add_nodes "demo" (JArr [spec "a" []; spec "b" ["a"]; spec "c" ["b"]])) s_project.
Definition s_reserved : db := after (reserve_once (skillflow_request "a" "rk-a") Plain None) s_nodes.
Definition s_launching : db := after (claim_launch attempt_a None false None None None) s_reserved.
Definition s_bound : db := after (bind_run sample_engine attempt_a "run-1") s_launching.
Definition s_candidate : db :=
  after (settle_run attempt_a None (completed "run-1") (outcome_status (rn_status (completed "run-1")) Quiet)
           (Some artifact_a)) s_bound.
Definition s_evidence : db := after (record_evidence (passing attempt_a "ev-1" artifact_a) None) s_candidate.
Definition s_verified : db := after (verify "demo" "a" (JInt 1) attempt_a (JStr "boss") false) s_evidence.

(** The second node, by an external harness, under a claim. *)
Definition attempt_b : string := "attempt-" +:+ hex_word 32 3.
Definition s_claimed : db :=
  after (claim_node "driver:d" (Some "d") "demo" "b" "implement" 1 "ck" (JInt 7200) (JStr "host:/w") None) s_verified.
Definition s_external : db := after (reserve_once (external_request "b" "rk-b") Plain None) s_claimed.
Definition harness : reporter := Reporter "driver:d" (Some "d") false.
Definition context_hash_of (aid : string) (s : db) : string :=
  match attempt_at s aid with Some a => digest (a_context a) | None => "" end.
Definition sample_archive : archive := {|
  retain_report ref sha completed := Ok (ref, "the report");
  decode_report _ := None;
  retain_candidate _ _ := Ok tt;
  store_candidate _ := Ok tt |}.
Definition context_b : string := Eval vm_compute in context_hash_of attempt_b s_external.
Definition sample_report (oid status : string) (version : Z) (quiescent : bool) (sha : string)
    (artifact kind : json) : report_args :=
  ReportArgs attempt_b oid (JInt version) (JStr context_b) (JStr status)
    (JStr "report.json") (JStr sha) (JBool quiescent) artifact kind (JStr "") (JInt 1).
Definition parsed (r : report_args) : report :=
  match parse_report r with Ok g => g | Err _ => Report "" "" 0 "" Unknown "" "" false JNull JNull "" None end.
Definition gathered (r : report_args) : collected :=
  match collect_report sample_archive (parsed r) false with Ok c => c | Err _ => Collected "" None None end.
Definition observing (r : report_args) : M db observed := observe_commit harness (parsed r) (gathered r) (Ok tt).

Definition report_running : report_args := sample_report "o1" "running" 0 false (hex_word 64 1) JNull JNull.
Definition report_candidate : report_args :=
  sample_report "o2" "candidate" 1 true (sha256 "the report") (JStr (hex_word 64 9)) (JStr "sha256").
Definition report_retracted : report_args :=
  sample_report "o3" "failed" 2 true (sha256 "the report") JNull JNull.
Definition s_running : db := after (observing report_running) s_external.
Definition s_reported : db := after (observing report_candidate) s_running.

(** Every one of these states is reachable. *)
Ltac sample_operation :=
  lazymatch goal with
  | |- operation (observing ?r) =>
    unfold observing;
    refine (op_observe_commit sample_archive harness r (parsed r) false (gathered r) (Ok tt) _ _);
    vm_compute; reflexivity
  | |- operation (settle_run _ _ _ _ _) => apply op_settle_run; intros ? [= <-]; vm_compute; reflexivity
  | |- operation (create_project _ _ _) => apply op_create_project
  | |- operation (add_nodes _ _) => apply op_add_nodes
  | |- operation (reserve_once _ _ _) => apply op_reserve_once
  | |- operation (claim_launch _ _ _ _ _ _) => apply op_claim_launch
  | |- operation (bind_run _ _ _) => apply op_bind_run
  | |- operation (record_evidence _ _) => apply op_record_evidence
  | |- operation (verify _ _ _ _ _ _) => apply op_verify
  | |- operation (claim_node _ _ _ _ _ _ _ _ _ _) => apply op_claim_node
  | |- operation (release_claim _ _ _ _ _ _ _) => apply op_release_claim
  end.
Ltac sample_step := apply steps_after; [sample_operation|].

(** Every one of these states is reachable, the later ones from the earlier ones. *)
Lemma reachable_nodes : reachable s_nodes.
Proof. unfold s_nodes, s_project. do 2 sample_step. apply rtc_refl. Qed.
Lemma reachable_reserved : reachable s_reserved.
Proof. unfold s_reserved. sample_step. apply reachable_nodes. Qed.
Lemma reachable_launching : reachable s_launching.
Proof. unfold s_launching. sample_step. apply reachable_reserved. Qed.
Lemma run_candidate : rtc step s_launching s_candidate.
Proof. unfold s_candidate, s_bound. do 2 sample_step. apply rtc_refl. Qed.
Lemma reachable_candidate : reachable s_candidate.
Proof. unfold reachable. transitivity s_launching; [apply reachable_launching|apply run_candidate]. Qed.
Lemma run_verified : rtc step s_candidate s_verified.
Proof. unfold s_verified, s_evidence. do 2 sample_step. apply rtc_refl. Qed.
Lemma reachable_verified : reachable s_verified.
Proof. unfold reachable. transitivity s_candidate; [apply reachable_candidate|apply run_verified]. Qed.
Lemma reachable_claimed : reachable s_claimed.
Proof. unfold s_claimed. sample_step. apply reachable_verified. Qed.
Lemma reachable_external : reachable s_external.
Proof. unfold s_external. sample_step. apply reachable_claimed. Qed.
Lemma reachable_running : reachable s_running.
Proof. unfold s_running. sample_step. apply reachable_external. Qed.
Lemma reachable_reported : reachable s_reported.
Proof. unfold s_reported. sample_step. apply reachable_running. Qed.

(** The verifier of the second attempt, and its acceptance. *)
Definition second_evidence : evidence_args :=
  EvidenceArgs attempt_b "ev-2" "t1" (JStr "pass") (hex_word 64 9) (JStr "second.json")
    (JStr (hex_word 64 98)) (JStr "verifier") (JStr "") None JNull.
Definition s_judged : db := after (record_evidence second_evidence None) s_reported.
Definition s_accepted : db := after (verify "demo" "b" (JInt 1) attempt_b (JStr "boss") false) s_judged.
Lemma reachable_judged : reachable s_judged.
Proof. unfold s_judged. sample_step. apply reachable_reported. Qed.
Lemma reachable_accepted : reachable s_accepted.
Proof. unfold s_accepted. sample_step. apply reachable_judged. Qed.

(** A revision of the first node takes both receipts away. *)
Definition revising : M db revise_result :=
  revise_node "demo" "a" (JInt 1) (JStr "new goal") (Some (JStr "build a better")) None None.
Definition s_revised : db := after revising s_accepted.
Lemma reachable_revised : reachable s_revised.
Proof. unfold s_revised, revising. apply steps_after; [apply op_revise_node|apply reachable_accepted]. Qed.

(** The first driver releases its claim, and another one takes the node. *)
Definition claim_b : string := "claim-" +:+ hex_word 32 2.
Definition s_released : db :=
  after (release_claim "driver:d" (Some "d") false "demo" claim_b (JInt 1) (JStr "done")) s_reported.
Definition s_reclaimed : db :=
  after (claim_node "driver:e" (Some "e") "demo" "b" "plan" 1 "ck2" (JInt 600) (JStr "") None) s_released.
Lemma reachable_released : reachable s_released.
Proof. unfold s_released. sample_step. apply reachable_reported. Qed.
Lemma reachable_reclaimed : reachable s_reclaimed.
Proof. unfold s_reclaimed. sample_step. apply reachable_released. Qed.
Lemma run_reclaimed : rtc step s_claimed s_reclaimed.
Proof. unfold s_reclaimed, s_released, s_reported, s_running, s_external. do 5 sample_step. apply rtc_refl. Qed.

(** Two drivers of the project, the holder of the second attempt and another one; then the
    holder declares itself away, or offers its attempt to the other. *)
Definition sample_env : environment := Environment None None None true.
Definition pepper : string := "pepper".
Definition enrolling (d : string) : M db (driver_view * string) :=
  register_driver pepper sample_env (JStr d) (JStr d) (JStr "host") (JObj ∅) (JBool false) "admin".
Definition joining (d : string) : M db member_row :=
  set_membership pepper None (JStr "demo") d (JStr "member") (JInt 0) (JStr "works here") "admin".
Definition offering : M db handoff_result :=
  offer_handoff sample_archive "driver:d" (Some "d") "demo" "hk" (JInt 1) (JObj ∅) (Some attempt_b) None (Some "e").
Definition offer_b : string := "handoff-" +:+ hex_word 32 6.
Definition s_enrolled : db := after (enrolling "e") (after (enrolling "d") s_external).
Definition s_team : db := after (joining "e") (after (joining "d") s_enrolled).
Definition s_away : db := after (declare "d" "offline" (JStr "asleep") None None) s_team.
Definition s_offered : db := after offering s_team.
Lemma reachable_enrolled : reachable s_enrolled.
Proof. unfold s_enrolled, enrolling. do 2 (apply steps_after; [apply op_register_driver|]). apply reachable_external. Qed.
Lemma reachable_team : reachable s_team.
Proof. unfold s_team, joining. do 2 (apply steps_after; [apply op_set_membership|]). apply reachable_enrolled. Qed.
Lemma reachable_away : reachable s_away.
Proof. unfold s_away. apply steps_after; [apply op_declare|apply reachable_team]. Qed.
Lemma reachable_offered : reachable s_offered.
Proof. unfold s_offered, offering. apply steps_after; [apply op_offer_handoff|apply reachable_team]. Qed.
