(* ===== verification/SystemProperties.v ===== *)
(** * What holds in every reachable state

    The guarantees of the State service as a whole, for every state its write
    transactions can reach from an empty database, and along every run from there. *)
From S2P Require Import Prelude Lock Json Text Dag Store Graph History Portfolio Presence Claims Enforcement.
From S2P Require Import Review Attempts Evidence External Registry Inbox Issues Design Takeover Recovery Handoffs.
From S2P Require Import View Ledger System Lifecycle Exclusion.
From S2P Require Import Soundness Receipts Sample.

(** ** Acceptance *)
Section acceptance_properties.
Context `{Host}.

Lemma dependency_exists s pid k x :
  graph_inv s → is_Some (nodes s !! (pid, k)) → x ∈ deps_at s pid k → is_Some (nodes s !! (pid, x)).
Proof.
  intros Hg [n Hn] Hx. assert (edge (graph_of s pid) k x) as He.
  { unfold edge, preds. rewrite lookup_graph_of, Hn. simpl. by apply elem_of_sorted_set. }
  destruct (gi_closed _ Hg _ _ _ He) as [ds Hds]. rewrite lookup_graph_of in Hds.
  destruct (nodes s !! (pid, x)); [by eexists|done].
Qed.

Lemma receipts_downward s pid k x :
  graph_inv s → receipts_inv s → rtc (depends_on s pid) k x →
  (∃ n, nodes s !! (pid, k) = Some n ∧ n_status n = VERIFIED) →
  ∃ m, nodes s !! (pid, x) = Some m ∧ n_status m = VERIFIED.
Proof.
  intros Hg Hinv. induction 1 as [k|k y x Hky _ IH]; [done|]. intros (n & Hn & Hst). apply IH.
  destruct (dependency_exists s pid k y Hg) as [m Hm]; [by eexists|done|].
  exists m. split; [done|]. eapply (sound_dependency s pid k n y m); try done.
  by apply (ns_status _ _ _ _ (Hinv _ _ _ Hn)).
Qed.

(** C1: in every reachable state a node is VERIFIED exactly when it names a receipt, and the
    receipt is sound: issued for the node's present revision and contract, on a candidate
    attempt of this node that still is one and has the receipt's artifact, pinned to the
    present (verified) state of every dependency, and with a passing latest evidence row
    for every criterion of the contract. *)
Theorem verified_receipt_sound s pid nk n :
  reachable s → nodes s !! (pid, nk) = Some n → node_sound s pid nk n.
Proof. intros Hs Hn. by apply (reachable_state s Hs). Qed.

(** C2: verification is closed under dependencies: everything a VERIFIED node depends on,
    through any number of edges, is a VERIFIED node of the same project. *)
Theorem verified_closed s pid nk n x :
  reachable s → nodes s !! (pid, nk) = Some n → n_status n = VERIFIED →
  rtc (depends_on s pid) nk x →
  ∃ m, nodes s !! (pid, x) = Some m ∧ n_status m = VERIFIED.
Proof.
  intros Hs Hn Hst Hx. destruct (reachable_state s Hs) as [[Hg _] [_ Hinv]].
  eapply receipts_downward; eauto.
Qed.
End acceptance_properties.

Lemma verified_receipt_sound_witness : ∃ n,
  nodes s_verified !! ("demo", "a") = Some n ∧ n_status n = VERIFIED ∧ node_sound s_verified "demo" "a" n.
Proof.
  eexists. split; [vm_compute; reflexivity|]. split; [reflexivity|].
  apply verified_receipt_sound; [apply reachable_verified|vm_compute; reflexivity].
Defined.

Lemma verified_closed_witness :
  (∃ n, nodes s_accepted !! ("demo", "b") = Some n ∧ n_status n = VERIFIED) ∧
  ∃ m, nodes s_accepted !! ("demo", "a") = Some m ∧ n_status m = VERIFIED.
Proof.
  split; [eexists; split; [vm_compute; reflexivity|reflexivity]|].
  eapply (verified_closed s_accepted "demo" "b" _ "a");
    [apply reachable_accepted|vm_compute; reflexivity|reflexivity|].
  apply rtc_once. unfold depends_on. apply (bool_decide_eq_true_1 _). vm_compute. reflexivity.
Defined.

(** ** The graph *)
Section graph_properties.
Context `{Host}.

(** C10: in every reachable state the dependency graph of every project has at most
    [MAX_NODES] nodes, every dependency names a node of the project, no node depends on
    itself through any chain, and no edge or name breaks a facet rule. *)
Theorem reachable_graph_sound s pid :
  reachable s →
  size (graph_of s pid) ≤ MAX_NODES ∧ closed (graph_of s pid) ∧ acyclic (graph_of s pid) ∧
  facet_clean (facets_of (nodes_of s pid)) (graph_of s pid).
Proof. intros Hs. destruct (reachable_facts s Hs) as [[] _]. auto. Qed.

(** C11: in every reachable state the revision rows of a node are numbered 1 to the node's
    revision, in order, the node's contract hash is the digest of its contract, and the
    last row is the node as it stands: goal, contract, hash and dependencies. *)
Theorem reachable_history_sound s pid nk n :
  reachable s → nodes s !! (pid, nk) = Some n → node_history s pid nk n.
Proof. intros Hs Hn. destruct (reachable_facts s Hs) as [_ Hh]. specialize (Hh pid nk). by rewrite Hn in Hh. Qed.
End graph_properties.

Lemma reachable_graph_sound_witness :
  size (graph_of s_revised "demo") = 3 ∧ acyclic (graph_of s_revised "demo").
Proof.
  split; [vm_compute; reflexivity|]. by apply (reachable_graph_sound s_revised "demo"), reachable_revised.
Defined.
Lemma reachable_history_sound_witness : ∃ n,
  nodes s_revised !! ("demo", "a") = Some n ∧ n_revision n = 2%Z ∧ node_history s_revised "demo" "a" n.
Proof.
  eexists. split; [vm_compute; reflexivity|]. split; [reflexivity|].
  apply reachable_history_sound; [apply reachable_revised|vm_compute; reflexivity].
Defined.

(** ** Attempts *)
Section attempt_properties.
Context `{Host}.

(** C5: in every reachable state two attempts of one node are the same attempt as soon as
    both are active, or they have the same request key, or the same external identity;
    and attempt ids are unique. *)
Theorem attempts_exclusive s a b :
  reachable s → a ∈ attempts s → b ∈ attempts s →
  a_id a = a_id b ∨
  (a_project a = a_project b ∧ a_node a = a_node b ∧
    (ACTIVE (a_status a) = true ∧ ACTIVE (a_status b) = true ∨
     a_request_key a = a_request_key b ∨
     (a_kind a = External ∧ a_kind b = External ∧ a_harness a = a_harness b ∧ a_external a = a_external b))) →
  a = b.
Proof.
  intros Hs Ha Hb Hab. destruct (reachable_attempts s Hs) as [Hu _].
  apply list_elem_of_lookup in Ha as [i Hi]. apply list_elem_of_lookup in Hb as [j Hj].
  assert (i = j) as <-; [|congruence]. eapply Hu; [done|done|]. apply attempt_clash_true.
  destruct Hab as [Hab|(H1 & H2 & Hab)]; [by left|]. right; right. naive_solver.
Qed.

(** C4: along every run from a reachable state an attempt keeps its row and the columns
    that identify it; once it left the active statuses it never becomes active again;
    an abandoned attempt stays abandoned; a recorded artifact, a bound run and its graph
    pin never change; the observation version never decreases; and its owner changes only
    with a higher fence. *)
Theorem attempt_life s s' i a :
  reachable s → rtc step s s' → attempts s !! i = Some a →
  ∃ a', attempts s' !! i = Some a' ∧ attempt_step false a a'.
Proof.
  intros Hs Hss Ha. destruct (steps_evolve s s' Hss (reachable_attempts s Hs)) as (_ & l1 & l2 & -> & HF).
  destruct (Forall2_lookup_l _ _ _ _ _ HF Ha) as (a' & Ha' & Hstep). exists a'. split; [|done].
  by apply lookup_app_l_Some.
Qed.

(** A launch that is granted was of a reserved attempt, which is [Launching] afterwards. *)
Lemma claim_launch_run aid d adm ac c f s :
  wp (claim_launch aid d adm ac c f) (λ b s', b = true → ∃ a t, attempt_at s aid = Some a ∧
    a_status a = Reserved ∧ attempts s' = update_where (λ r, bool_decide (a_id r = aid))
      (λ r, r <| a_status := Launching |> <| a_updated := t |>) (attempts s)) s.
Proof.
  unfold claim_launch, attempt, require_dispatch, update_attempt, update_claim, event. wp_all.
  all: try done.
  all: match goal with E : key _ _ = Ok ?x |- _ => apply key_ok in E as [[= ->] _] end.
  all: match goal with E : negb (bool_decide (_ = Reserved)) = false |- _ =>
    apply negb_false_iff, bool_decide_eq_true in E end.
  all: intros _; eexists _, _; split_and!; [eassumption|done|reflexivity].
Qed.

Lemma claim_launch_refused aid d adm ac c f a s :
  attempt_at s aid = Some a → a_status a ≠ Reserved → KEY aid = true →
  claim_launch aid d adm ac c f s = Ok (false, s).
Proof.
  intros Ha Hst HK. unfold claim_launch, attempt, lift, key. rewrite HK.
  unfold mbind, M_bind, gets. rewrite Ha. simpl. by rewrite bool_decide_eq_false_2.
Qed.

(** C3: a reservation is launched at most once: after a granted launch, whatever the service
    does next, asking again, by anyone and with any claim, is answered [false] and writes nothing. *)
Theorem launched_once aid d adm ac c f d' adm' ac' c' f' s s1 s2 :
  reachable s → claim_launch aid d adm ac c f s = Ok (true, s1) → rtc step s1 s2 →
  claim_launch aid d' adm' ac' c' f' s2 = Ok (false, s2).
Proof.
  intros Hs E Hss.
  assert (step s s1) as Hstep by (exists bool, (claim_launch aid d adm ac c f), true; split; [constructor|done]).
  destruct (wp_run _ _ _ _ _ (claim_launch_run aid d adm ac c f s) E) as (a & t & Ha & Hst & Hatt); [done|].
  assert (KEY aid = true) as HK.
  { unfold claim_launch, attempt, lift, key in E. destruct (KEY aid); [done|discriminate E]. }
  assert (attempts_inv (attempts s1)) as H1.
  { apply reachable_attempts. eapply rtc_r; [exact Hs|done]. }
  apply select_one_Some in Ha as [Hin Hid%bool_decide_eq_true].
  set (b := a <| a_status := Launching |> <| a_updated := t |>).
  assert (b ∈ attempts s1) as Hb.
  { rewrite Hatt. apply elem_of_update_where. exists a. by rewrite bool_decide_eq_true_2. }
  apply list_elem_of_lookup in Hb as [i Hi].
  destruct (steps_evolve s1 s2 Hss H1) as (H2 & l1 & l2 & E2 & HF).
  destruct (Forall2_lookup_l _ _ _ _ _ HF Hi) as (a' & Ha' & Hs').
  assert (a' ∈ attempts s2) as Hin2.
  { rewrite E2. apply elem_of_app. left. by eapply list_elem_of_lookup_2. }
  assert (a_id a' = aid) as Hid'.
  { destruct Hs' as [Hi' _ _ _ _ _ _ _]. injection Hi' as -> _ _ _ _ _ _ _ _ _ _ _ _ _ _. done. }
  destruct (attempt_at s2 aid) as [x|] eqn:Ex.
  - apply (claim_launch_refused _ _ _ _ _ _ x); [done| |done]. pose proof Ex as Ex'.
    apply select_one_Some in Ex as [Hx Hxid%bool_decide_eq_true].
    assert (x = a') as -> by (eapply attempts_inv_id; [exact H2|done|done|congruence]).
    intros Hr. by apply (st_reserved _ _ _ Hs') in Hr.
  - exfalso. unfold attempt_at in Ex. rewrite select_one_None in Ex. specialize (Ex a' Hin2).
    by rewrite bool_decide_eq_true_2 in Ex.
Qed.

(** C9: nothing recorded is rewritten: along every run the events, revisions, evidence,
    observations, claim history, retirements, messages, subagents and the driver audit only
    grow at the end; answers recorded for requests, receipts, report bytes, projects, references, design revisions,
    baselines and bindings stay as they are; and attempts, claims, deliveries, handoffs and issues
    keep their order and the columns that identify them. *)
Theorem ledger_append_only s s' : rtc step s s' → ledger s s'.
Proof. apply steps_keep; [apply _|]. apply operation_ledger. Qed.

(** C6: in every reachable state no two claims on a node share a fence, and a live exclusive
    claim has the highest fence of all exclusive claims there: at most one holds the node. *)
Theorem claims_exclusive s i j c d :
  reachable s → claims s !! i = Some c → claims s !! j = Some d → i ≠ j → same_node c d →
  cl_fence c ≠ cl_fence d ∧
  (holds_exclusively c → EXCLUSIVE (cl_purpose d) = true →
    (cl_fence d < cl_fence c)%Z ∧ cl_status d ≠ Live).
Proof.
  intros Hs Hc Hd Hij Hn. pose proof (reachable_claims s Hs) as Hinv.
  destruct (Hinv i j c d Hij Hc Hd) as [_ _ Hf Ht]. split; [auto|]. intros Hh Hx. split; [auto|].
  intros Hl. assert (c = d) as ->; [|by apply Hf].
  eapply claims_inv_holder; [exact Hinv|by eapply list_elem_of_lookup_2..|done|done|done].
Qed.

(** C7: seen from outside, the claims table is one fenced lock per node.  Whatever runs,
    the lock of a node moves by acquisitions of a free lock with a higher token, releases, and
    renewals with a higher token; in particular a holder that is replaced is left with an
    outdated fence. *)
Theorem claims_refine_lock s s' pid nk :
  reachable s → rtc step s s' →
  rtc lock_step (lock_of (claims s) pid nk) (lock_of (claims s') pid nk) ∧
  ∀ c d, c ∈ claims s → d ∈ claims s' → on_node pid nk c = true → on_node pid nk d = true →
    holds_exclusively c → holds_exclusively d → cl_id c ≠ cl_id d → (cl_fence c < cl_fence d)%Z.
Proof.
  intros Hs Hss. pose proof (reachable_claims s Hs) as Hinv.
  destruct (steps_keep claim_evolution s s' operation_claims Hss Hinv) as (Hinv' & _ & Hl).
  split; [apply Hl|]. intros c d Hc Hd Hnc Hnd Hhc Hhd Hne.
  exact (lock_of_fencing _ _ pid nk c d Hinv Hinv' (Hl pid nk) Hc Hd Hnc Hnd Hhc Hhd Hne).
Qed.
End attempt_properties.

Lemma attempts_exclusive_witness : ∃ a, attempts s_reserved = [a] ∧ ACTIVE (a_status a) = true ∧ a = a.
Proof.
  eexists. split; [vm_compute; reflexivity|]. split; [reflexivity|].
  eapply (attempts_exclusive s_reserved); [apply reachable_reserved| | |left; reflexivity];
    apply list_elem_of_In; vm_compute; left; reflexivity.
Defined.
Lemma attempt_life_witness : ∃ a a',
  attempts s_launching !! 0 = Some a ∧ a_status a = Launching ∧
  attempts s_candidate !! 0 = Some a' ∧ attempt_step false a a'.
Proof.
  assert (∃ a, attempts s_launching !! 0 = Some a ∧ a_status a = Launching) as (a & Ha & Hst)
    by (eexists; split; [vm_compute; reflexivity|reflexivity]).
  destruct (attempt_life s_launching s_candidate 0 a) as (a' & Ha' & Hs);
    [apply reachable_launching|apply run_candidate|exact Ha|].
  exists a, a'. split; [exact Ha|]. split; [exact Hst|]. split; [exact Ha'|exact Hs].
Defined.
Lemma launched_once_witness :
  claim_launch attempt_a None false None None None s_candidate = Ok (false, s_candidate).
Proof.
  eapply (launched_once attempt_a None false None None None None false None None None
            s_reserved s_launching s_candidate);
    [apply reachable_reserved| |apply run_candidate].
  unfold s_launching, after. destruct (claim_launch _ _ _ _ _ _ _) as [[b s]|] eqn:E.
  - assert (b = true) as ->; [|reflexivity].
    apply (f_equal (λ r, match r with Ok (b, _) => b | Err _ => true end)) in E. rewrite <- E.
    vm_compute. reflexivity.
  - exfalso. apply (f_equal (λ r, match r with Ok _ => true | Err _ => false end)) in E.
    vm_compute in E. discriminate E.
Defined.
Lemma ledger_append_only_witness : length (events s_launching) = 6 ∧ ledger s_launching s_candidate.
Proof. split; [vm_compute; reflexivity|]. apply ledger_append_only, run_candidate. Defined.
Lemma claims_exclusive_witness : ∃ c d,
  claims s_reclaimed !! 0 = Some c ∧ claims s_reclaimed !! 1 = Some d ∧ cl_driver d = "e" ∧
  (cl_fence c < cl_fence d)%Z.
Proof.
  assert (∃ c d, claims s_reclaimed !! 0 = Some c ∧ claims s_reclaimed !! 1 = Some d ∧
    cl_driver d = "e" ∧ same_node d c ∧ holds_exclusively d ∧ EXCLUSIVE (cl_purpose c) = true)
    as (c & d & Hc & Hd & Hdr & Hn & Hh & Hx).
  { eexists _, _. split; [vm_compute; reflexivity|]. split; [vm_compute; reflexivity|].
    split; [reflexivity|]. split; [split; reflexivity|]. split; [split; reflexivity|reflexivity]. }
  exists c, d. split; [exact Hc|]. split; [exact Hd|]. split; [exact Hdr|].
  apply (claims_exclusive s_reclaimed 1 0 d c); [apply reachable_reclaimed|exact Hd|exact Hc|lia|exact Hn|exact Hh|exact Hx].
Defined.
Lemma claims_refine_lock_witness : ∃ c d,
  select_one (holding "demo" "b") (claims s_claimed) = Some c ∧
  select_one (holding "demo" "b") (claims s_reclaimed) = Some d ∧ (cl_fence c < cl_fence d)%Z.
Proof.
  assert (∃ c d, select_one (holding "demo" "b") (claims s_claimed) = Some c ∧
    select_one (holding "demo" "b") (claims s_reclaimed) = Some d ∧ cl_id c ≠ cl_id d) as (c & d & Hc & Hd & Hne).
  { eexists _, _. split; [vm_compute; reflexivity|]. split; [vm_compute; reflexivity|]. discriminate. }
  exists c, d. split; [exact Hc|]. split; [exact Hd|].
  apply select_one_Some in Hc as [Hc Hhc], Hd as [Hd Hhd].
  apply holding_true in Hhc as [Hnc Hhc], Hhd as [Hnd Hhd].
  destruct (claims_refine_lock s_claimed s_reclaimed "demo" "b") as [_ Hf];
    [apply reachable_claimed|apply run_reclaimed|].
  exact (Hf c d Hc Hd Hnc Hnd Hhc Hhd Hne).
Defined.
