(* ===== verification/GraphProperties.v ===== *)
(** * What the graph service guarantees

    The round trip of the canonical text, the validators, the graph checks against
    their declarative meaning, and the effect of every operation on a node. *)
From S2P Require Import Prelude Json Text Dag Store Graph History.
From S2P Require Import Portfolio Presence Claims Enforcement Review Attempts Evidence External View Ledger.
From S2P Require Import Returns System Sample.

(** ** Texts and validators *)

(** C39: [json.loads] reads back every value from its canonical text, so the text (and a
    digest's input) determines the value. *)
Theorem canonical_roundtrip v : loads (canonical v) = Some v ∧ ∀ w, canonical w = canonical v → w = v.
Proof. split; [apply loads_canonical|]. intros w. apply (inj canonical). Qed.

(** C40: an accepted acceptance contract has 1 to 64 checks with distinct well-formed ids and
    non-empty bounded descriptions, sorted by id; storing it and submitting the stored form
    again is accepted unchanged; and the order in which the checks are listed does not matter. *)
Theorem contract_normal_form l cs :
  contract (JArr l) = Ok cs →
  1 ≤ length cs ≤ 64 ∧ NoDup (c_id <$> cs) ∧ StronglySorted check_le cs ∧
  (∀ c, c ∈ cs → KEY (c_id c) = true ∧ c_description c ≠ "" ∧ py_len (c_description c) ≤ Z.to_nat 2000) ∧
  contract (contract_json_of cs) = Ok cs ∧
  ∀ l', l ≡ₚ l' → contract (JArr l') = Ok cs.
Proof.
  intros H. apply contract_ok in H as (l0 & ds & [= <-] & Hl & HF & Hnd & Hp & Hs).
  assert (length cs = length l) as Hlen by (rewrite Hp; symmetry; by eapply Forall2_length).
  assert (Forall (λ c, ∃ v, parses_check v c) ds) as Hall.
  { apply Forall_lookup. intros i c Hc. destruct (Forall2_lookup_r _ _ _ _ _ HF Hc) as (v & _ & Hv). by exists v. }
  assert (NoDup (c_id <$> cs)) as Hnd' by by rewrite Hp.
  split_and!; try done; try lia.
  - intros c Hc. rewrite Hp in Hc. rewrite Forall_forall in Hall.
    destruct (Hall c Hc) as (v & [(m & _ & _ & Hk & _ & Ht)]).
    apply key_ok in Hk as [_ Hk]. apply text_ok in Ht as (? & ? & _). split_and!; [done|done|lia].
  - apply contract_ok. exists (check_json <$> cs), cs. rewrite length_fmap, Hlen.
    split_and!; try done; try lia. apply Forall2_fmap_l, Forall_Forall2_diag. rewrite Hp.
    eapply Forall_impl; [exact Hall|]. intros c [v Hv]. by eapply parses_check_json.
  - intros l' Hperm. destruct (Forall2_permuted _ _ _ _ Hperm HF) as (ds' & Hd & HF').
    apply contract_ok. exists l', ds'. pose proof (Permutation_length Hperm).
    split_and!; try done; try lia; [by rewrite <- Hd|by rewrite Hp].
Qed.

(** An accepted dependency list names at most [MAX_NODES] distinct well-formed keys, in
    sorted order, whatever order it was given in, and is accepted unchanged when stored. *)
Theorem dependencies_normal_form v ds :
  dependencies v = Ok ds →
  length ds ≤ MAX_NODES ∧ NoDup ds ∧ StronglySorted String.le ds ∧
  Forall (λ d, KEY d = true) ds ∧ dependencies (jstrs ds) = Ok ds ∧
  ∀ l, ds ≡ₚ l → dependencies (jstrs l) = Ok ds.
Proof.
  assert (∀ l, Forall (λ d, KEY d = true) l → mapM (λ v, key v "dependency") (JStr <$> l) = Ok l) as Hkeys.
  { induction 1 as [|d l Hd _ IH]; [done|]. simpl. rewrite Hd. simpl. unfold fmap in IH. rewrite IH. done. }
  intros H. destruct (dependencies_ok v ds H) as [Hnd Hsort].
  unfold dependencies in H. destruct v as [| | | |l|]; try done. res_inv_all. bsimpl.
  match goal with H : mapM _ _ = Ok ?x |- _ => rename H into Hm; rename x into r end.
  assert (Forall (λ d, KEY d = true) r ∧ length r = length l) as [Hk Hlen].
  { clear -Hm. revert r Hm. induction l as [|v l IH]; intros r Hm; simpl in Hm; [by injection Hm as <-|].
    res_inv_all. match goal with H : key _ _ = Ok _ |- _ => apply key_ok in H as [_ ?] end.
    match goal with H : mapM _ _ = Ok _ |- _ => apply IH in H as [? ?] end.
    injection Hm as <-. simpl. split; [by constructor|lia]. }
  assert (∀ k, r ≡ₚ k → dependencies (jstrs k) = Ok (py_sorted r)) as Hgo.
  { intros k Hp. unfold dependencies, jstrs. rewrite length_fmap, <- Hp.
    assert (length r <=? MAX_NODES = true) as -> by (rewrite Hlen; done). cbn [ensure mbind res_bind].
    simpl. rewrite Hkeys by by rewrite <- Hp. simpl. rewrite bool_decide_eq_true_2 by by rewrite <- Hp.
    simpl. by rewrite (py_sorted_proper _ _ Hp). }
  assert (length (py_sorted r) = length r) as Hl by (by rewrite py_sorted_perm).
  match goal with H : (_ <=? _) = true |- _ => apply Nat.leb_le in H end.
  split_and!; try done; [lia|by rewrite py_sorted_perm|apply Hgo; by rewrite py_sorted_perm|].
  intros k Hp. apply Hgo. by rewrite <- Hp, py_sorted_perm.
Qed.

(** ** Graphs *)

(** C37: [_validate_dag] accepts exactly the graphs with at most [MAX_NODES] nodes in which
    every dependency is a node and no node depends on itself through any chain. *)
Theorem validate_dag_correct g :
  validate_dag g = Ok tt ↔ size g ≤ MAX_NODES ∧ closed g ∧ acyclic g.
Proof. apply validate_dag_ok. Qed.

Lemma kahn_more children fuel fuel' queue degree visited n :
  kahn fuel children queue degree visited = Some n → fuel ≤ fuel' →
  kahn fuel' children queue degree visited = Some n.
Proof.
  revert fuel' queue degree visited. induction fuel as [|fuel IH]; intros fuel' [|x q] deg v H Hle;
    destruct fuel' as [|fuel']; try done; try lia. simpl in *.
  destruct (relax (preds children x) deg q) as [deg' q']. apply IH; [done|lia].
Qed.

(** Kahn's loop terminates: on every graph that links it stops within one iteration per
    node, with the same count for every larger bound, and never counts more than the nodes. *)
Theorem kahn_terminates g children degree :
  link_nodes g (map_to_list g) ((λ _, []) <$> g) ∅ = Ok (children, degree) →
  ∃ n, n ≤ size g ∧ ∀ fuel, size g ≤ fuel → kahn fuel children (ready_queue degree) degree 0 = Some n.
Proof.
  intros E. destruct (linked g children degree E) as (H1 & H2 & H3).
  destruct (kahn_runs g children H1 H2 (size g) [] (ready_queue degree) degree) as (V & deg & HV & Hinv);
    [by apply kahn_start|simpl; lia|].
  exists (length V). split.
  - pose proof (kahn_inv_size _ _ _ _ Hinv) as Hs. by rewrite app_nil_r in Hs.
  - intros fuel Hf. by eapply kahn_more.
Qed.

(** [facet_violations] is empty exactly when every named node obeys its facet's rules
    ([facet_rules]): its suffix, the targets of its dependencies, and its siblings. *)
Theorem check_facets_correct fs g : check_facets fs g = Ok tt ↔ facet_clean fs g.
Proof. apply check_facets_ok. Qed.

(** [shipping_gaps] reports, for an integration node, exactly the stems of the contract
    nodes it reaches whose implementation exists but is not among its direct dependencies. *)
Theorem shipping_gaps_correct fs g node m :
  (∃ missing, shipping_gaps fs g !! node = Some missing ∧ m ∈ missing) ↔
    fs !! node = Some (Some FIntegration) ∧
    ∃ c, tc (edge g) node c ∧ fs !! c = Some (Some FContract) ∧ facet_stem c fs = m ∧
      is_Some (fs !! m) ∧ fs !! m ≠ Some (Some FContract) ∧ m ≠ node ∧ ¬ edge g node m.
Proof. apply shipping_gaps_spec. Qed.

(** ** Operations on nodes *)
Section returns.
Context `{Host}.

Lemma prepare_keys old specs g fs ps g' fs' :
  prepare old specs g fs = Ok (ps, g', fs') → ∀ p, p ∈ ps → KEY (p_key p) = true.
Proof.
  revert g fs ps g' fs'. induction specs as [|spec specs IH]; intros g fs ps g' fs' E.
  - simpl in E. simplify_eq. by intros p ?%elem_of_nil.
  - cbn [prepare] in E. apply res_bind_ok in E as (p & Hp & E).
    apply res_bind_ok in E as ([[ps1 g1] fs1] & H1 & E). simplify_eq.
    apply prepare_one_ok in Hp as (_ & HK & _). intros q [->|Hq]%elem_of_cons; [done|]. by eapply IH.
Qed.

(** The two insert loops always finish. *)
Lemma insert_nodes_returns pid ps s : twp (for_each (insert_node pid) ps) (λ _ _, True) s.
Proof. apply (twp_for_each _ _ (λ _, True)); [done|]. done. Qed.
Lemma insert_edges_returns pid ps s :
  KEY pid = true → (∀ p, p ∈ ps → KEY (p_key p) = true ∧ is_Some (nodes s !! (pid, p_key p))) →
  twp (for_each (insert_edges pid) ps) (λ _ _, True) s.
Proof.
  intros HK Hps. eapply twp_mono; [|done].
  apply (twp_for_each _ _ (λ s', nodes s' = nodes s)); [done|]. intros p s' Hp E.
  destruct (Hps p Hp) as [HKp [n Hn]]. unfold insert_edges, insert_deps. twp_all.
  apply (twp_node _ _ _ _ n); [done|done|by simpl; rewrite E|done].
Qed.
End returns.

Section operation_properties.
Context `{Host}.

(** [add_nodes] in terms of its validation loop. *)
Lemma add_nodes_prepares pid l s :
  is_ok (add_nodes pid (JArr l) s) = true ↔
    KEY pid = true ∧ is_Some (projects s !! pid) ∧ 1 ≤ length l ≤ 200 ∧
    ∃ ps g fs, prepare (nodes_of s pid) l (graph_of s pid) (facets_of (nodes_of s pid)) = Ok (ps, g, fs) ∧
      size g ≤ MAX_NODES ∧ closed g ∧ acyclic g ∧ facet_clean fs g.
Proof.
  split.
  - assert (wp (add_nodes pid (JArr l)) (λ _ _, KEY pid = true ∧ is_Some (projects s !! pid) ∧
      1 ≤ length l ≤ 200 ∧ ∃ ps g fs,
      prepare (nodes_of s pid) l (graph_of s pid) (facets_of (nodes_of s pid)) = Ok (ps, g, fs) ∧
      validate_dag g = Ok tt ∧ check_facets fs g = Ok tt) s) as Hw.
    { unfold add_nodes, add. apply wp_bind, wp_project. intros row Hrow HK.
      apply wp_bind, wp_require. intros Hl. apply wp_bind, wp_gets, wp_bind, wp_gets.
      apply wp_bind, wp_lift. intros [[ps g] fs] Hp. apply wp_bind, wp_lift; intros [] Hdag.
      apply wp_bind, wp_lift; intros [] Hcl. apply run_wp. intros _ _ _.
      apply andb_true_iff in Hl as [?%Nat.leb_le ?%Nat.leb_le].
      split_and!; [done|by eexists|lia|lia|]. by exists ps, g, fs. }
    unfold wp in Hw. destruct (add_nodes pid (JArr l) s) as [[ks s']|]; [|done]. intros _.
    destruct Hw as (? & ? & ? & ps & g & fs & ? & Hdag%validate_dag_ok & Hcl%check_facets_ok).
    split_and!; try done; try lia. exists ps, g, fs. by destruct_and! Hdag.
  - intros (HK & [row Hrow] & Hl & ps & g & fs & Hp & Hsz & Hc & Ha & Hcl).
    assert (twp (add_nodes pid (JArr l)) (λ _ _, True) s) as Ht;
      [|unfold twp in Ht; by destruct (add_nodes _ _ _) as [[]|]].
    unfold add_nodes, add. apply twp_bind. eapply twp_project; [done|exact Hrow|].
    apply twp_bind, twp_require; [apply andb_true_iff; rewrite !Nat.leb_le; lia|].
    apply twp_bind, twp_gets, twp_bind, twp_gets, twp_bind. eapply twp_lift; [exact Hp|].
    apply twp_bind. eapply twp_lift; [by apply validate_dag_ok|].
    apply twp_bind. eapply twp_lift; [by apply check_facets_ok|].
    pose proof (prepare_keys _ _ _ _ _ _ _ Hp) as Hkeys. apply prepare_ok in Hp.
    apply twp_bind. eapply twp_mono; [apply twp_wp; [apply insert_nodes_returns|apply insert_nodes_run, Hp]|].
    intros [] s1 (_ & Hn & _ & _). apply twp_bind. eapply twp_mono; [apply insert_edges_returns; [done|]|done].
    intros p Hin. split; [by apply Hkeys|]. destruct (Hn p Hin) as [t ->]. by eexists.
Qed.

(** What a specification of a new node says: no other fields than the known ones, a key, a goal
    and a contract, and if given dependencies, a priority and a facet. *)
Record spec_reads (spec : json) (p : prepared) : Prop := SpecReads {
  sp_fields : ∃ m, spec = JObj m ∧ (∀ k, is_Some (m !! k) → k ∈ SPEC_FIELDS) ∧
    m !! "key" = Some (JStr (p_key p)) ∧ KEY (p_key p) = true ∧
    (∃ goal, m !! "goal" = Some (JStr goal) ∧ p_goal p = strip goal ∧ strip goal ≠ "" ∧
       (Z.of_nat (py_len goal) ≤ 20000)%Z) ∧
    (∃ l ds, m !! "acceptance" = Some (JArr l) ∧ 1 ≤ length l ≤ 64 ∧ Forall2 parses_check l ds ∧
       NoDup (c_id <$> ds) ∧ p_checks p ≡ₚ ds ∧ StronglySorted check_le (p_checks p)) ∧
    (∃ ds, default (JArr []) (m !! "dependencies") = JArr (JStr <$> ds) ∧ length ds ≤ MAX_NODES ∧
       Forall (λ d, KEY d = true) ds ∧ NoDup ds ∧ p_deps p ≡ₚ ds ∧ StronglySorted String.le (p_deps p)) ∧
    (default (JInt 0) (m !! "priority") = JInt (p_priority p) ∧ (-100000 ≤ p_priority p ≤ 100000)%Z) ∧
    match p_facet p with
    | Some f => m !! "facet" = Some (JStr (facet_text f))
    | None => m !! "facet" = None ∨ m !! "facet" = Some JNull
    end }.

Lemma only_fields_ok m fields : only_fields m fields = true ↔ ∀ k, is_Some (m !! k) → k ∈ fields.
Proof.
  unfold only_fields. rewrite forallb_forall. split.
  - intros Hf k [v Hk]. assert (List.In (k, v) (map_to_list m)) as Hin by by apply list_elem_of_In, elem_of_map_to_list.
    specialize (Hf _ Hin). by apply bool_decide_eq_true in Hf.
  - intros Hf [k v] Hin%list_elem_of_In%elem_of_map_to_list. apply bool_decide_eq_true, Hf. by exists v.
Qed.
Lemma text_reads v label most t :
  text v label most = Ok t ↔ ∃ s, v = JStr s ∧ t = strip s ∧ strip s ≠ "" ∧ (Z.of_nat (py_len s) ≤ most)%Z.
Proof.
  unfold text. split.
  - destruct v as [| | |s| |]; try done. case_bool_decide as Hs; [done|].
    destruct (most <? Z.of_nat (py_len s))%Z eqn:Hm; [done|]. intros [= <-]. apply Z.ltb_ge in Hm. by exists s.
  - intros (s & -> & -> & Hs & Hm%Z.ltb_ge). by rewrite bool_decide_eq_false_2, Hm.
Qed.
Lemma keys_read label l ds :
  mapM (λ v, key v label) l = Ok ds ↔ l = JStr <$> ds ∧ Forall (λ d, KEY d = true) ds.
Proof.
  revert ds. induction l as [|v l IH]; intros ds.
  - split; [intros [= <-]; by split|]. intros [E _]. by destruct ds.
  - split.
    + intros E. apply res_bind_ok in E as (d & [-> Hd]%key_ok & E). apply res_bind_ok in E as (ds' & [-> Hds]%IH & [= <-]).
      split; [done|by constructor].
    + intros [E Hds]. destruct ds as [|d ds]; [done|]. injection E as -> ->. apply Forall_cons in Hds as [Hd Hds]. simpl.
      rewrite Hd. simpl. change (mapM (λ v, key v label) (JStr <$> ds) ≫= (λ ds0, Ok (d :: ds0)) = Ok (d :: ds)).
      assert (mapM (λ v, key v label) (JStr <$> ds) = Ok ds) as -> by by apply IH. done.
Qed.
Lemma dependencies_read v ds :
  dependencies v = Ok ds ↔ ∃ l, v = JArr (JStr <$> l) ∧ length l ≤ MAX_NODES ∧ Forall (λ d, KEY d = true) l ∧
    NoDup l ∧ ds ≡ₚ l ∧ StronglySorted String.le ds.
Proof.
  unfold dependencies. split.
  - destruct v as [| | | |l|]; try done. intros ([] & Hl%ensure_ok & E)%res_bind_ok.
    apply res_bind_ok in E as (ds0 & [-> HK]%keys_read & E). apply res_bind_ok in E as ([] & Hn%ensure_ok & [= <-]).
    bsimpl. exists ds0. rewrite length_fmap in Hl. split_and!; [done|by apply Nat.leb_le|done|done|apply py_sorted_perm|apply py_sorted_sorted].
  - intros (l & -> & Hl & HK & Hn & Hp & Hs).
    assert (ensure (length (JStr <$> l) <=? MAX_NODES) (StateGraphError "dependencies must be a bounded list") = Ok tt) as ->
      by (apply ensure_ok; rewrite length_fmap; by apply Nat.leb_le).
    simpl. assert (mapM (λ v, key v "dependency") (JStr <$> l) = Ok l) as -> by by apply keys_read. simpl.
    rewrite bool_decide_eq_true_2 by done. simpl. f_equal.
    apply (StronglySorted_unique String.le); [apply py_sorted_sorted|done|]. by rewrite py_sorted_perm, Hp.
Qed.
Lemma facet_reads v o :
  check_facet v = Ok o ↔ match o with Some f => v = JStr (facet_text f) | None => v = JNull end.
Proof.
  unfold check_facet. split.
  - destruct v as [| | |s| |]; try done; [by intros [= <-]|]. destruct (find _ _) as [f|] eqn:E; [|done].
    intros [= <-]. apply find_some in E as [_ E]. by apply bool_decide_eq_true in E as <-.
  - destruct o as [f|]; [|by intros ->]. intros ->. by destruct f.
Qed.
Lemma field_some m k v : v ≠ JNull → field m k = v ↔ m !! k = Some v.
Proof. intros Hv. unfold field. destruct (m !! k); simpl; split; congruence. Qed.

Lemma prepare_one_reads old spec g p :
  prepare_one old spec g = Ok p ↔
    spec_reads spec p ∧ g !! p_key p = None ∧ ∀ d, d ∈ p_deps p → superseded_in old d = false.
Proof.
  unfold prepare_one. split.
  - destruct spec as [| | | | |m]; try done. intros ([] & Hf%ensure_ok & E)%res_bind_ok.
    apply res_bind_ok in E as (nk & [Hk HK]%key_ok & E). apply res_bind_ok in E as ([] & Hn%ensure_ok & E).
    apply res_bind_ok in E as (goal & (raw & Hg & -> & Hg1 & Hg2)%text_reads & E).
    apply res_bind_ok in E as (cs & (l & ds & Hc & Hl & HF & Hnd & Hp & Hs)%contract_ok & E).
    apply res_bind_ok in E as (deps & (dl & Hd & H1 & H2 & H3 & H4 & H5)%dependencies_read & E).
    apply res_bind_ok in E as (pr & Hpr%integer_ok & E). apply res_bind_ok in E as (own & Hown%facet_reads & E).
    apply res_bind_ok in E as ([] & Ha%ensure_ok & [= <-]). simpl. bsimpl. split_and!; [|done|by apply existsb_superseded; rewrite Ha].
    split. simpl. exists m. split_and!; try done; [by apply only_fields_ok|by apply field_some|..].
    + exists raw. by rewrite <- field_some.
    + exists l, ds. by rewrite <- field_some.
    + by exists dl.
    + by destruct Hpr.
    + lia.
    + lia.
    + destruct own as [f|]; [by apply field_some|]. unfold field in Hown. destruct (m !! "facet"); [right; by simpl in Hown; subst|by left].
  - intros [[(m & -> & Hf & Hk & HK & (raw & Hg & Eg & Hg1 & Hg2) & (l & ds & Hc & Hcs) & (dl & Hd & Hds) & (Hpr & Hb) & Hown)] [Hn Ha]].
    apply res_bind_ok. exists tt. split; [by apply ensure_ok, only_fields_ok|].
    apply res_bind_ok. exists (p_key p). split; [apply key_ok; split; [by apply field_some|done]|].
    apply res_bind_ok. exists tt. split; [by apply ensure_ok, bool_decide_eq_true|].
    apply res_bind_ok. exists (p_goal p). split; [apply text_reads; exists raw; split_and!; [by apply field_some|done..]|].
    apply res_bind_ok. exists (p_checks p). split; [apply contract_ok; exists l, ds; split; [by apply field_some|done]|].
    apply res_bind_ok. exists (p_deps p). split; [apply dependencies_read; by exists dl|].
    apply res_bind_ok. exists (p_priority p). split; [by apply integer_ok|].
    apply res_bind_ok. exists (p_facet p). split.
    { apply facet_reads. unfold field. destruct (p_facet p); [by rewrite Hown|]. by destruct Hown as [-> | ->]. }
    apply res_bind_ok. exists tt. split; [|by destruct p]. apply ensure_ok, negb_true_iff, not_true_iff_false.
    intros (d & Hin%list_elem_of_In & Hd')%existsb_exists. by rewrite (Ha d Hin) in Hd'.
Qed.

(** New nodes over a graph and its facets. *)
Definition with_nodes (ps : list prepared) (g : graph) : graph := list_to_map ((λ p, (p_key p, p_deps p)) <$> ps) ∪ g.
Definition with_facets (ps : list prepared) (fs : facets) : facets := list_to_map ((λ p, (p_key p, p_facet p)) <$> ps) ∪ fs.
Lemma insert_under {A} k (x : A) (l : list (string * A)) (m : gmap string A) :
  k ∉ l.*1 → list_to_map l ∪ <[k := x]> m = <[k := x]> (list_to_map l ∪ m).
Proof.
  intros Hk. rewrite insert_union_r; [done|]. by apply not_elem_of_list_to_map_1.
Qed.
Lemma prepare_reads old specs : ∀ g fs ps g' fs',
  prepare old specs g fs = Ok (ps, g', fs') ↔
    Forall2 spec_reads specs ps ∧ NoDup (p_key <$> ps) ∧ (∀ p, p ∈ ps → g !! p_key p = None) ∧
    (∀ p d, p ∈ ps → d ∈ p_deps p → superseded_in old d = false) ∧
    g' = with_nodes ps g ∧ fs' = with_facets ps fs.
Proof.
  induction specs as [|spec specs IH]; intros g fs ps g' fs'.
  - split.
    + intros [= <- <- <-]. split_and!; try done; [apply NoDup_nil_2|by intros ? ?%elem_of_nil|by intros ? ? ?%elem_of_nil|..];
        unfold with_nodes, with_facets; simpl; by rewrite (left_id_L ∅ (∪)).
    + intros (HF & _ & _ & _ & -> & ->). inversion HF. unfold with_nodes, with_facets. simpl. by rewrite !(left_id_L ∅ (∪)).
  - assert (∀ p (ps : list prepared), (∀ q, q ∈ ps → <[p_key p := p_deps p]> g !! p_key q = None) ↔
      p_key p ∉ p_key <$> ps ∧ ∀ q, q ∈ ps → g !! p_key q = None) as Hfresh.
    { intros p qs. split.
      - intros Hf. split.
        + intros (q & E & Hq)%list_elem_of_fmap. specialize (Hf q Hq). by rewrite E, lookup_insert_eq in Hf.
        + intros q Hq. specialize (Hf q Hq). by apply lookup_insert_None in Hf as [? _].
      - intros [Hn Hf] q Hq. apply lookup_insert_None. split; [by apply Hf|]. intros E. apply Hn. rewrite E.
        by apply list_elem_of_fmap_2. }
    assert (∀ p (ps : list prepared), p_key p ∉ p_key <$> ps →
      with_nodes ps (<[p_key p := p_deps p]> g) = with_nodes (p :: ps) g ∧
      with_facets ps (<[p_key p := p_facet p]> fs) = with_facets (p :: ps) fs) as Hcons.
    { intros p qs Hn. unfold with_nodes, with_facets.
      split; (rewrite insert_under by (rewrite <- list_fmap_compose; exact Hn)); rewrite insert_union_l; done. }
    cbn [prepare]. split.
    + intros (p & (Hr & Hg & Ha)%prepare_one_reads & E)%res_bind_ok.
      apply res_bind_ok in E as ([[ps0 g0] fs0] & (HF & Hnd & Hnew & Hal & -> & ->)%IH & [= <- <- <-]).
      apply Hfresh in Hnew as [Hp Hnew]. destruct (Hcons p ps0 Hp) as [-> ->].
      split_and!; [by constructor|by constructor| | |done|done].
      * by intros q [->|Hq]%elem_of_cons; [|apply Hnew].
      * intros q d [->|Hq]%elem_of_cons Hd; [by apply Ha|by eapply Hal].
    + intros (HF & Hnd & Hnew & Hal & -> & ->). inversion HF as [|? p ? ps0 Hr HF0]; subst.
      apply NoDup_cons in Hnd as [Hp Hnd].
      rewrite (proj2 (prepare_one_reads old spec g p)) by (split_and!; [done|apply Hnew; by left|intros d; apply Hal; by left]).
      simpl. destruct (Hcons p ps0 Hp) as [<- <-].
      apply res_bind_ok. exists (ps0, with_nodes ps0 (<[p_key p := p_deps p]> g), with_facets ps0 (<[p_key p := p_facet p]> fs)).
      split; [|done]. apply IH. split_and!; try done.
      * apply Hfresh. split; [done|]. intros q Hq. apply Hnew. by right.
      * intros q d Hq. apply Hal. by right.
Qed.

(** C36: [add_nodes] succeeds exactly when the project exists, 1 to 200 specifications are given,
    each of them reads as a node, the keys are distinct and new, no dependency is a superseded
    node of the project, and the graph with the new nodes and their edges still is bounded,
    closed, acyclic and obeys the facet rules; in every other case it refuses. *)
Theorem add_nodes_accepts pid l s :
  is_ok (add_nodes pid (JArr l) s) = true ↔
    KEY pid = true ∧ is_Some (projects s !! pid) ∧ 1 ≤ length l ≤ 200 ∧
    ∃ ps, Forall2 spec_reads l ps ∧ NoDup (p_key <$> ps) ∧ (∀ p, p ∈ ps → nodes s !! (pid, p_key p) = None) ∧
      (∀ p d, p ∈ ps → d ∈ p_deps p → n_status <$> nodes s !! (pid, d) ≠ Some SUPERSEDED) ∧
      let g := with_nodes ps (graph_of s pid) in
      size g ≤ MAX_NODES ∧ closed g ∧ acyclic g ∧ facet_clean (with_facets ps (facets_of (nodes_of s pid))) g.
Proof.
  assert (∀ ps : list prepared, ((∀ p, p ∈ ps → graph_of s pid !! p_key p = None) ↔ ∀ p, p ∈ ps → nodes s !! (pid, p_key p) = None) ∧
    ((∀ p d, p ∈ ps → d ∈ p_deps p → superseded_in (nodes_of s pid) d = false) ↔
      ∀ p d, p ∈ ps → d ∈ p_deps p → n_status <$> nodes s !! (pid, d) ≠ Some SUPERSEDED)) as Hold.
  { intros ps. split; split.
    - intros Hp p Hin. specialize (Hp p Hin). rewrite lookup_graph_of in Hp. by apply fmap_None in Hp.
    - intros Hp p Hin. rewrite lookup_graph_of. by apply fmap_None, Hp.
    - intros Hp p d Hin Hd. specialize (Hp p d Hin Hd). unfold superseded_in in Hp.
      apply bool_decide_eq_false in Hp. by rewrite lookup_nodes_of in Hp.
    - intros Hp p d Hin Hd. unfold superseded_in. apply bool_decide_eq_false. rewrite lookup_nodes_of. by eapply Hp. }
  split.
  - intros (HK & Hrow & Hl & ps & g & fs & (HF & Hnd & Hnew & Hal & -> & ->)%prepare_reads & Hg)%add_nodes_prepares.
    destruct (Hold ps) as [Ho1 Ho2]. pose proof (proj1 Ho1 Hnew) as Hnew'. pose proof (proj1 Ho2 Hal) as Hal'. split_and!; [done..|lia|lia|]. by exists ps.
  - intros (HK & Hrow & Hl & ps & HF & Hnd & Hnew & Hal & Hg). apply add_nodes_prepares. split_and!; [done..|lia|lia|].
    destruct (Hold ps) as [Ho1 Ho2]. pose proof (proj2 Ho1 Hnew) as Hnew'. pose proof (proj2 Ho2 Hal) as Hal'.
    exists ps, (with_nodes ps (graph_of s pid)), (with_facets ps (facets_of (nodes_of s pid))). split; [|done].
    by apply prepare_reads.
Qed.

(** The nodes [add_nodes] returns are new, and afterwards stand open at revision 1 with
    no receipt, the digest of their contract, and exactly the given dependencies, none of them
    superseded; every other node, edge and table keeps its rows. *)
Theorem add_nodes_effect pid specs s keys s' :
  graph_inv s → add_nodes pid specs s = Ok (keys, s') →
  NoDup keys ∧
  (∀ k, k ∈ keys → nodes s !! (pid, k) = None ∧ ∃ n, nodes s' !! (pid, k) = Some n ∧
     n_revision n = 1%Z ∧ n_status n = OPEN ∧ n_receipt n = None ∧ n_hash n = contract_digest (n_contract n) ∧
     ∀ d, depends_on s' pid k d → n_status <$> nodes s' !! (pid, d) ≠ Some SUPERSEDED) ∧
  (∀ q k, q ≠ pid ∨ k ∉ keys → nodes s' !! (q, k) = nodes s !! (q, k) ∧ deps_at s' q k = deps_at s q k) ∧
  s' = s <| nodes := nodes s' |> <| deps := deps s' |> <| revisions := revisions s' |>
         <| events := events s' |> <| ticks := ticks s' |>.
Proof.
  intros Hinv E. destruct (wp_run _ _ _ _ _ (add_run pid specs s) E) as (ps & g & fs & -> & Had).
  destruct Had as [Hp _ _ Hn Hno Hd Hdo _ _ Hr].
  assert (∀ k, k ∈ p_key <$> ps → nodes s !! (pid, k) = None) as Hnew.
  { intros k (p & -> & Hin)%list_elem_of_fmap. pose proof (pr_fresh _ _ _ _ _ _ Hp p Hin) as Hf.
    rewrite lookup_graph_of in Hf. by apply fmap_None in Hf. }
  split_and!; [by apply (pr_nodup _ _ _ _ _ _ Hp)| | |done].
  - intros k Hk. split; [by apply Hnew|]. apply list_elem_of_fmap in Hk as (p & -> & Hin).
    destruct (Hn p Hin) as [t Ht]. eexists. split; [exact Ht|]. split_and!; try done.
    intros d Hdep. unfold depends_on in Hdep. rewrite Hd in Hdep by done.
    assert (nodes s !! (pid, p_key p) = None) as Hnone by (by apply Hnew, list_elem_of_fmap_2).
    rewrite (gi_rows _ Hinv), (left_id_L ∅ (∪)) in Hdep by done. apply elem_of_list_to_set in Hdep.
    pose proof (pr_alive _ _ _ _ _ _ Hp p d Hin Hdep) as Hal. unfold superseded_in in Hal.
    apply bool_decide_eq_false in Hal. rewrite lookup_nodes_of in Hal.
    destruct (decide (d ∈ p_key <$> ps)) as [Hd'|Hd']; [|by rewrite Hno by auto].
    apply list_elem_of_fmap in Hd' as (q & -> & Hq). by destruct (Hn q Hq) as [t' ->].
  - intros q k Hqk. split; [by apply Hno|]. unfold deps_at. by rewrite Hdo.
Qed.

(** C28: a revision bumps the node's revision by one, leaves it STALE without a receipt,
    makes exactly the nodes that depend on it through any chain STALE without a receipt (a
    superseded one stays as it is), returns their names, and appends one revision row. *)
Theorem revise_effect pid nk e reason goal acceptance ds s r s' :
  revise_node pid nk e reason goal acceptance ds s = Ok (r, s') →
  ∃ old n', nodes s !! (pid, nk) = Some old ∧ nodes s' !! (pid, nk) = Some n' ∧
    e = JInt (n_revision old) ∧ n_revision n' = (n_revision old + 1)%Z ∧ re_revision r = n_revision n' ∧
    n_status old ≠ SUPERSEDED ∧ n_status n' = STALE ∧ n_receipt n' = None ∧
    n_hash n' = contract_digest (n_contract n') ∧
    (∀ k, k ∈ re_invalidated r ↔ rtc (depends_on s pid) k nk) ∧
    (∀ k m, k ≠ nk → k ∈ re_invalidated r → nodes s !! (pid, k) = Some m →
       ∃ t, nodes s' !! (pid, k) = Some (stale t m)) ∧
    (∀ q k, q ≠ pid ∨ k ∉ re_invalidated r → nodes s' !! (q, k) = nodes s !! (q, k)) ∧
    (∀ q k, (q, k) ≠ (pid, nk) → deps_at s' q k = deps_at s q k) ∧
    length (revisions s') = S (length (revisions s)) ∧
    s' = s <| nodes := nodes s' |> <| deps := deps s' |> <| revisions := revisions s' |>
           <| events := events s' |> <| ticks := ticks s' |>.
Proof.
  intros E. destruct (wp_run _ _ _ _ _ (revise_run pid nk e reason goal acceptance ds s) E)
    as (old & g & cs & ds' & -> & _ & [_ _ [= ->]] &
        [Hold Hopen _ _ _ _ [t Ht] Hhit Hmiss _ Hdo [t' Hrev] _ Hrest]).
  eexists old, _. split; [done|]. split; [exact Ht|]. simpl. split_and!; try done.
  - intros k. apply elem_of_affected.
  - intros k m Hne Hk Hm. destruct (Hhit k Hk Hne) as [t1 ->]. rewrite Hm. by exists t1.
  - rewrite Hrev, length_app. simpl. lia.
Qed.

(** A supersession that is not a repetition marks the node, takes its receipt away and
    makes exactly its transitive dependents stale; a repetition changes nothing. *)
Theorem supersede_effect pid nk e reason s r s' :
  supersede_node pid nk e reason s = Ok (r, s') →
  match r with
  | None => s' = s ∧ n_status <$> nodes s !! (pid, nk) = Some SUPERSEDED
  | Some keys =>
    (∃ n', nodes s' !! (pid, nk) = Some n' ∧ n_status n' = SUPERSEDED ∧ n_receipt n' = None) ∧
    (∀ k, k ∈ keys ↔ rtc (depends_on s pid) k nk) ∧
    (∀ k m, k ≠ nk → k ∈ keys → nodes s !! (pid, k) = Some m → ∃ t, nodes s' !! (pid, k) = Some (stale t m)) ∧
    (∀ q k, q ≠ pid ∨ k ∉ keys → nodes s' !! (q, k) = nodes s !! (q, k)) ∧
    s' = s <| nodes := nodes s' |> <| events := events s' |> <| ticks := ticks s' |>
  end.
Proof.
  intros E. destruct (wp_run _ _ _ _ _ (supersede_run pid nk e reason s) E) as (old & _ & Hold & Hc).
  case_bool_decide as Hst; destruct Hc as [-> Hc].
  - split; [done|]. by rewrite Hold; simpl; rewrite Hst.
  - destruct Hc as [_ [t Ht] Hhit Hmiss _ Hrest]. split_and!; try done.
    + eexists. split; [exact Ht|]. done.
    + intros k. apply elem_of_affected.
    + intros k m Hne Hk Hm. destruct (Hhit k Hk Hne) as [t1 ->]. rewrite Hm. by exists t1.
Qed.

(** A facet change writes the facet and its stamp, and one event, and nothing else; it
    happens only to an unlabelled node or one without receipt, and only into a facet-clean graph. *)
Theorem set_facet_effect pid nk v s r s' :
  set_node_facet pid nk v s = Ok (r, s') → fa_changed r = true →
  ∃ n t, nodes s !! (pid, nk) = Some n ∧ fa_previous r = n_facet n ∧
    (n_facet n = None ∨ n_receipt n = None) ∧
    facet_clean (<[nk := Some (fa_facet r)]> (facets_of (nodes_of s pid))) (graph_of s pid) ∧
    nodes s' = <[(pid, nk) := n <| n_facet := Some (fa_facet r) |> <| n_updated := t |>]> (nodes s) ∧
    s' = s <| nodes := nodes s' |> <| events := events s' |> <| ticks := ticks s' |>.
Proof.
  intros E Hc. destruct (wp_run _ _ _ _ _ (set_facet_run pid nk v s) E) as (n & own & Hn & -> & Hr).
  simpl in *. rewrite Hc in Hr. destruct Hr as (H1 & H2 & t & H3 & _ & H4). exists n, t. by split_and!.
Qed.

Lemma set_node_priority_run pid nk p e reason actor director s :
  wp (set_node_priority pid nk p e reason actor director) (λ r s', ∃ n,
    nodes s !! (pid, nk) = Some n ∧ pp_previous r = n_priority n ∧
    if pp_changed r then ∃ t,
      nodes s' = alter (λ m, m <| n_priority := pp_priority r |> <| n_updated := t |>) (pid, nk) (nodes s) ∧
      s' = s <| nodes := nodes s' |> <| events := events s' |> <| ticks := ticks s' |>
    else s' = s) s.
Proof. unfold set_node_priority, update_node, event. wp_all; eexists; split_and!; try done. by eexists. Qed.

(** A priority change never touches what the node means: its revision, goal, contract,
    status, receipt and edges are as before. *)
Theorem set_priority_effect pid nk p e reason actor director s r s' :
  set_node_priority pid nk p e reason actor director s = Ok (r, s') →
  content s' = content s ∧ shape s' = shape s ∧
  (∀ k, n_status <$> nodes s' !! k = n_status <$> nodes s !! k) ∧
  (∀ k, n_receipt <$> nodes s' !! k = n_receipt <$> nodes s !! k) ∧
  n_priority <$> nodes s' !! (pid, nk) = Some (if pp_changed r then pp_priority r else pp_previous r) ∧
  attempts s' = attempts s.
Proof.
  intros E. pose proof (wp_run _ _ _ _ _ (set_node_priority_content pid nk p e reason actor director s) E) as H1.
  pose proof (wp_run _ _ _ _ _ (set_node_priority_shape pid nk p e reason actor director s) E) as H2.
  destruct (wp_run _ _ _ _ _ (set_node_priority_run pid nk p e reason actor director s) E) as (n & Hn & Hp & Hr).
  split; [done|]. split; [done|]. destruct (pp_changed r); [destruct Hr as (t & En & Es)|subst s'].
  - rewrite En. split_and!; [intros k|intros k| |by rewrite Es];
      try (destruct (decide (k = (pid, nk))) as [->|]; [rewrite lookup_alter_eq, Hn|rewrite lookup_alter_ne]; done).
    by rewrite lookup_alter_eq, Hn.
  - split_and!; try done. by rewrite Hn, Hp.
Qed.

(** C29: no lost update: once a revision was accepted, every later revision that still
    expects the revision it replaced is refused, whatever the service did in between. *)
Theorem no_lost_update pid nk e reason goal acceptance ds s r s1 s2 reason' goal' acceptance' ds' :
  reachable s → revise_node pid nk e reason goal acceptance ds s = Ok (r, s1) → rtc step s1 s2 →
  is_ok (revise_node pid nk e reason' goal' acceptance' ds' s2) = false.
Proof.
  intros Hs E Hss.
  destruct (revise_node pid nk e reason' goal' acceptance' ds' s2) as [[r2 s3]|] eqn:E2; [exfalso|done].
  assert (reachable s1) as Hs1.
  { eapply rtc_r; [exact Hs|]. eexists _, _, r. split; [|exact E]. constructor. }
  assert (reachable s2) as Hs2 by (unfold reachable in *; by transitivity s1).
  destruct (wp_run _ _ _ _ _ (revise_run _ _ _ _ _ _ _ _) E) as (old & g & cs & d & _ & _ & [_ _ [= He]] & Hrv).
  destruct (wp_run _ _ _ _ _ (revise_run _ _ _ _ _ _ _ _) E2) as (old2 & ? & ? & ? & _ & _ & [_ _ [= He2]] & Hrv2).
  destruct (rv_node _ _ _ _ _ _ _ _ Hrv) as [t Ht].
  destruct (reachable_facts s1 Hs1) as [_ Hh1]. specialize (Hh1 pid nk). rewrite Ht in Hh1.
  destruct (reachable_facts s2 Hs2) as [_ Hh2]. specialize (Hh2 pid nk).
  rewrite (rv_old _ _ _ _ _ _ _ _ Hrv2) in Hh2.
  destruct Hh1 as (H1 & L1 & _), Hh2 as (H2 & L2 & _). simpl in H1, L1.
  destruct (lg_revisions _ _ (steps_keep ledger s1 s2 operation_ledger Hss)) as [k Hk].
  rewrite Hk, select_app, fmap_app in L2. apply (f_equal length) in L1, L2.
  rewrite length_app, L1, !length_seqZ in L2.
  assert (n_revision old = n_revision old2) by congruence. lia.
Qed.
End operation_properties.

(** ** The statements at work *)
Definition sample_checks : list json :=
  [jobj [("id", JStr "z"); ("kind", JStr "review"); ("description", JStr " read it ")];
   jobj [("id", JStr "a"); ("kind", JStr "test"); ("description", JStr "run it")]].
Definition sample_contract : list check := [Check "a" KTest "run it"; Check "z" KReview "read it"].
Lemma contract_normal_form_witness :
  contract (JArr sample_checks) = Ok sample_contract ∧
  contract (contract_json_of sample_contract) = Ok sample_contract.
Proof.
  assert (contract (JArr sample_checks) = Ok sample_contract) as E by (vm_compute; reflexivity).
  split; [exact E|]. destruct (contract_normal_form _ _ E) as (_ & _ & _ & _ & Hs & _). exact Hs.
Defined.
Lemma dependencies_normal_form_witness :
  dependencies (jstrs ["b"; "a"]) = Ok ["a"; "b"] ∧ dependencies (jstrs ["a"; "b"]) = Ok ["a"; "b"].
Proof.
  assert (dependencies (jstrs ["b"; "a"]) = Ok ["a"; "b"]) as E by (vm_compute; reflexivity).
  split; [exact E|]. destruct (dependencies_normal_form _ _ E) as (_ & _ & _ & _ & Hs & _). exact Hs.
Defined.

Definition chain : graph := list_to_map [("a", []); ("b", ["a"]); ("c", ["b"; "a"])].
Lemma kahn_terminates_witness :
  ∃ children degree n, link_nodes chain (map_to_list chain) ((λ _, []) <$> chain) ∅ = Ok (children, degree) ∧
    n ≤ 3 ∧ kahn 7 children (ready_queue degree) degree 0 = Some n.
Proof.
  destruct (link_nodes chain (map_to_list chain) ((λ _, []) <$> chain) ∅) as [[children degree]|] eqn:E;
    [|vm_compute in E; discriminate E].
  destruct (kahn_terminates chain children degree E) as (n & Hn & Hk).
  assert (size chain = 3) as Hs by (vm_compute; reflexivity). rewrite Hs in *.
  exists children, degree, n. split; [reflexivity|]. split; [exact Hn|]. apply Hk. lia.
Defined.

Definition adding : M db (list string) := add_nodes "demo" (JArr [spec "d" ["c"]]).
Lemma add_nodes_effect_witness : ∃ keys,
  adding s_nodes = Ok (keys, after adding s_nodes) ∧ NoDup keys ∧
  ∀ k, k ∈ keys → nodes s_nodes !! ("demo", k) = None.
Proof.
  unfold adding.
  returns keys E.
  exists keys. split; [exact E|]. destruct (reachable_facts s_nodes reachable_nodes) as [Hg _].
  destruct (add_nodes_effect "demo" (JArr [spec "d" ["c"]]) s_nodes keys _ Hg E) as (Hnd & Hnew & _).
  split; [exact Hnd|]. intros k Hk. apply (Hnew k Hk).
Defined.
Lemma revise_effect_witness : ∃ r old n',
  revising s_accepted = Ok (r, after revising s_accepted) ∧ nodes s_accepted !! ("demo", "a") = Some old ∧
  nodes (after revising s_accepted) !! ("demo", "a") = Some n' ∧ n_status n' = STALE ∧ n_receipt n' = None ∧
  re_revision r = n_revision n'.
Proof.
  unfold revising.
  returns r E.
  destruct (revise_effect "demo" "a" (JInt 1) (JStr "new goal") (Some (JStr "build a better")) None None s_accepted r _ E) as (old & n' & H1 & H2 & _ & _ & H3 & _ & H4 & H5 & _).
  exists r, old, n'. split; [exact E|]. auto.
Defined.
Definition superseding : M db (option (list string)) := supersede_node "demo" "b" (JInt 1) (JStr "dropped").
Lemma supersede_effect_witness : ∃ keys,
  superseding s_nodes = Ok (Some keys, after superseding s_nodes) ∧
  ∀ k, k ∈ keys ↔ rtc (depends_on s_nodes "demo") k "b".
Proof.
  unfold superseding.
  returns o E. destruct o as [keys|].
  - exists keys. split; [exact E|]. apply (supersede_effect "demo" "b" (JInt 1) (JStr "dropped") s_nodes (Some keys) _ E).
  - exfalso. apply (f_equal (λ r, match r with Ok (None, _) => true | _ => false end)) in E.
    vm_compute in E. discriminate E.
Defined.
Definition labelling : M db facet_result := set_node_facet "demo" "a" (JStr "design").
Lemma set_facet_effect_witness : ∃ r n,
  labelling s_nodes = Ok (r, after labelling s_nodes) ∧ fa_changed r = true ∧
  nodes s_nodes !! ("demo", "a") = Some n ∧ fa_previous r = n_facet n.
Proof.
  unfold labelling.
  returns r E.
  assert (fa_changed r = true) as Hc.
  { apply (f_equal (λ x, match x with Ok (r, _) => fa_changed r | Err _ => true end)) in E.
    rewrite <- E. vm_compute. reflexivity. }
  destruct (set_facet_effect "demo" "a" (JStr "design") s_nodes r _ E Hc) as (n & t & H1 & H2 & _).
  exists r, n. auto.
Defined.
Definition prioritising : M db priority_result :=
  set_node_priority "demo" "a" (JInt 5) (JInt 0) (JStr "urgent") None None.
Lemma set_priority_effect_witness : ∃ r,
  prioritising s_nodes = Ok (r, after prioritising s_nodes) ∧
  content (after prioritising s_nodes) = content s_nodes.
Proof.
  unfold prioritising.
  returns r E.
  exists r. split; [exact E|]. apply (set_priority_effect "demo" "a" (JInt 5) (JInt 0) (JStr "urgent") None None s_nodes r _ E).
Defined.
Lemma no_lost_update_witness :
  is_ok (revising s_nodes) = true ∧ is_ok (revising (after prioritising (after revising s_nodes))) = false.
Proof.
  unfold prioritising, revising.
  split; [vm_compute; reflexivity|].
  destruct (returns_run (revise_node "demo" "a" (JInt 1) (JStr "new goal") (Some (JStr "build a better")) None None)
    s_nodes) as [r E]; [vm_compute; reflexivity|].
  eapply (no_lost_update "demo" "a" (JInt 1) _ _ _ _ s_nodes r); [apply reachable_nodes|exact E|].
  apply steps_after; [constructor|apply rtc_refl].
Defined.
