(* ===== verification/ClaimProperties.v ===== *)
(** * What claims, leases and switches guarantee

    Granting, repeating, refusing and losing a claim; heartbeats; what claim
    enforcement lets through; policy revisions; presence. *)
From S2P Require Import Prelude Json Text Dag Store Graph History Portfolio Presence Claims.
From S2P Require Import Enforcement Review Attempts Evidence External Registry Inbox Issues Design.
From S2P Require Import Takeover Recovery Handoffs View Ledger System.
From S2P Require Import Returns Lifecycle Exclusion Sample.

(** ** Sweeping *)
(** What a sweep leaves of a claim. *)
Definition swept_row (current : Z) (c c' : claim_row) : Prop :=
  c' = c ∨ c' = c <| cl_status := Expired |> <| cl_updated := current |>.
(** The claims whose lease and grace have both passed. *)
Definition lapsed (pid : string) (current : Z) (nk : option string) (c : claim_row) : Prop :=
  cl_project c = pid ∧ in_node nk (cl_node c) = true ∧ cl_status c = Live ∧
  lease_state (Some (cl_expires c)) current = LReclaimable.
Record swept (pid : string) (current : Z) (nk : option string) (s s' : db) : Prop := Swept {
  sw_rows : Forall2 (swept_row current) (claims s) (claims s');
  sw_lapsed : ∀ i c c', claims s !! i = Some c → claims s' !! i = Some c' → lapsed pid current nk c →
    cl_status c' = Expired;
  sw_only : NoDup (cl_id <$> claims s) → ∀ i c c', claims s !! i = Some c → claims s' !! i = Some c' →
    c' = c ∨ lapsed pid current nk c;
  sw_rest : s' = s <| claims := claims s' |> <| claim_history := claim_history s' |>
              <| events := events s' |> <| ticks := ticks s' |>;
}.

Lemma lease_reclaimable e t :
  lease_state (Some e) t = LReclaimable ↔ (add_seconds e GRACE_SECONDS ≤ t)%Z.
Proof.
  unfold lease_state, add_seconds, GRACE_SECONDS, SECOND.
  destruct (t <? e)%Z eqn:E1; [apply Z.ltb_lt in E1; split; [done|lia]|].
  destruct (t <? e + 900 * 1000000)%Z eqn:E2; [apply Z.ltb_lt in E2|apply Z.ltb_ge in E2]; split; (done || lia).
Qed.
Lemma lapsed_due pid current nk s c :
  c ∈ claims s → lapsed pid current nk c → DueClaim c LReclaimable ∈ due s pid current nk.
Proof.
  intros Hc (Hp & Hn & Hst & Hl). unfold due, due_claims. apply elem_of_app. left.
  apply list_elem_of_In, in_flat_map. exists c. split.
  - apply list_elem_of_In, elem_of_select. split; [done|].
    pose proof (proj1 (lease_reclaimable _ _) Hl) as Hle. unfold add_seconds, GRACE_SECONDS, SECOND in Hle.
    rewrite (bool_decide_eq_true_2 (cl_project c = pid)) by done. unfold is_live.
    rewrite (bool_decide_eq_true_2 (cl_status c = Live)) by done. rewrite Hn.
    assert ((cl_expires c <=? current)%Z = true) as -> by (apply Z.leb_le; lia). done.
  - cbv zeta. rewrite Hl, bool_decide_eq_true_2 by done. by left.
Qed.
Lemma due_lapsed pid current nk s c :
  DueClaim c LReclaimable ∈ due s pid current nk → c ∈ claims s ∧ lapsed pid current nk c.
Proof.
  unfold due. rewrite elem_of_app. intros [Hin|Hin].
  - apply list_elem_of_In, in_flat_map in Hin as (d & Hd & Hin).
    apply list_elem_of_In, elem_of_select in Hd as [Hd Hp]. cbv zeta in Hin. unfold is_live in Hp. bsimpl.
    destruct (_ || _) in Hin; [|done]. destruct Hin as [[= -> Hl]|[]]. by split_and!.
  - apply list_elem_of_In, in_flat_map in Hin as (a & _ & Hin).
    destruct (a_lease a) as [e|]; [|done]. destruct (e <=? current)%Z; [|done].
    cbv zeta in Hin. destruct (expiry_seen _ _ _ _ _ _); [done|]. by destruct Hin.
Qed.

Lemma swept_row_identity t c c' : swept_row t c c' → claim_identity c' = claim_identity c.
Proof. by intros [->| ->]. Qed.
Lemma swept_row_live t c c' : swept_row t c c' → cl_status c' = Live → c' = c.
Proof. by intros [->| ->]. Qed.
Lemma swept_rows_elem t l l' c' : Forall2 (swept_row t) l l' → c' ∈ l' → ∃ c, c ∈ l ∧ swept_row t c c'.
Proof.
  intros HF (i & Hi)%list_elem_of_lookup. destruct (Forall2_lookup_r _ _ _ _ _ HF Hi) as (c & Hc & H).
  exists c. split; [by eapply list_elem_of_lookup_2|done].
Qed.

Section sweeping.
Context `{Host}.

Definition expired_rows (current : Z) (x : subject) (l : list claim_row) : list claim_row :=
  match x with
  | DueClaim c LReclaimable => update_where (λ d, bool_decide (cl_id d = cl_id c))
      (λ r, r <| cl_status := Expired |> <| cl_updated := current |>) l
  | _ => l
  end.
(** One subject: the row with its id, when the grace passed, and nothing else but the record. *)
Lemma expire_run actor pid current x s :
  twp (expire actor pid current x) (λ _ s', claims s' = expired_rows current x (claims s) ∧
    s' = s <| claims := claims s' |> <| claim_history := claim_history s' |>
           <| events := events s' |> <| ticks := ticks s' |>) s.
Proof.
  unfold expire, update_claim, history, event, now. destruct x as [c ph|a e ph].
  - destruct ph; unfold twp; simpl; (split; [done|by destruct s]).
  - unfold twp. simpl. split; [done|by destruct s].
Qed.

Lemma swept_row_update current x l l' :
  Forall2 (swept_row current) l l' → Forall2 (swept_row current) l (expired_rows current x l').
Proof.
  intros HF. destruct x as [c []|]; try done. unfold expired_rows, update_where.
  apply Forall2_fmap_r. eapply Forall2_impl; [exact HF|]. intros a b Hab. simpl.
  case_bool_decide; [|done]. destruct Hab as [->| ->]; by right.
Qed.

Lemma sweep_conn_run actor pid current nk s :
  twp (sweep_conn actor pid current nk) (λ xs s', xs = due s pid current nk ∧ swept pid current nk s s') s.
Proof.
  unfold sweep_conn. apply twp_bind, twp_gets, twp_bind.
  set (xs := due s pid current nk).
  assert (wp (for_each (expire actor pid current) xs) (λ _ s',
    Forall2 (swept_row current) (claims s) (claims s') ∧
    (∀ c i c', DueClaim c LReclaimable ∈ xs → claims s !! i = Some c → claims s' !! i = Some c' →
       cl_status c' = Expired) ∧
    (∀ i c c', claims s !! i = Some c → claims s' !! i = Some c' →
       c' = c ∨ ∃ d, DueClaim d LReclaimable ∈ xs ∧ cl_id d = cl_id c) ∧
    s' = s <| claims := claims s' |> <| claim_history := claim_history s' |>
           <| events := events s' |> <| ticks := ticks s' |>) s) as Hw.
  { apply (wp_for_each _ xs (λ done s',
      Forall2 (swept_row current) (claims s) (claims s') ∧
      (∀ c i c', DueClaim c LReclaimable ∈ done → claims s !! i = Some c → claims s' !! i = Some c' →
         cl_status c' = Expired) ∧
      (∀ i c c', claims s !! i = Some c → claims s' !! i = Some c' →
         c' = c ∨ ∃ d, DueClaim d LReclaimable ∈ done ∧ cl_id d = cl_id c) ∧
      s' = s <| claims := claims s' |> <| claim_history := claim_history s' |>
             <| events := events s' |> <| ticks := ticks s' |>)).
    { split_and!; [|by intros ? ? ? ?%elem_of_nil|intros; left; congruence|by destruct s].
      apply Forall2_same_length_lookup_2; [done|]. intros i x y Hx Hy. left. congruence. }
    intros done x rest s1 _ (HF & Hdone & Honly & Hrest).
    pose proof (expire_run actor pid current x s1) as He. unfold twp, wp in *.
    destruct (expire actor pid current x s1) as [[[] s2]|]; [|done]. destruct He as [Hc Hr].
    split_and!.
    - rewrite Hc. by apply swept_row_update.
    - intros c i c' Hin Hi Hi'. rewrite Hc in Hi'.
      destruct (Forall2_lookup_l _ _ _ _ _ HF Hi) as (c1 & Hi1 & Hrow).
      assert (cl_id c1 = cl_id c) as Hid by (by destruct Hrow as [->| ->]).
      apply elem_of_app in Hin as [Hin|Hin].
      + specialize (Hdone c i c1 Hin Hi Hi1). destruct x as [d []|]; simpl in Hi'; try congruence.
        unfold update_where in Hi'. rewrite list_lookup_fmap, Hi1 in Hi'. simpl in Hi'.
        injection Hi' as <-. by case_bool_decide.
      + apply list_elem_of_singleton in Hin as <-. simpl in Hi'. unfold update_where in Hi'.
        rewrite list_lookup_fmap, Hi1 in Hi'. simpl in Hi'.
        rewrite (bool_decide_eq_true_2 (cl_id c1 = cl_id c)) in Hi' by done. by injection Hi' as <-.
    - intros i c c' Hi Hi'. destruct (Forall2_lookup_l _ _ _ _ _ HF Hi) as (c1 & Hi1 & _).
      assert (c' = c1 ∨ ∃ d, x = DueClaim d LReclaimable ∧ cl_id d = cl_id c1) as Hstep.
      { rewrite Hc in Hi'. destruct x as [d []|]; simpl in Hi'; try (left; congruence).
        unfold update_where in Hi'. rewrite list_lookup_fmap, Hi1 in Hi'. simpl in Hi'. injection Hi' as <-.
        case_bool_decide; [right; by exists d|by left]. }
      destruct (Forall2_lookup_l _ _ _ _ _ HF Hi) as (c2 & Hi2 & Hrow).
      assert (cl_id c1 = cl_id c) as Hid by (simplify_eq; by destruct Hrow as [->| ->]).
      destruct Hstep as [->|(d & -> & Hd)].
      + destruct (Honly i c c1 Hi Hi1) as [->|(d & Hd & ?)]; [by left|right]. exists d.
        split; [|done]. apply elem_of_app. by left.
      + right. exists d. split; [apply elem_of_app; right; by apply list_elem_of_singleton|congruence].
    - rewrite Hr, Hrest. by destruct s. }
  eapply twp_mono; [apply twp_wp; [|exact Hw]|].
  - apply (twp_for_each _ _ (λ _, True)); [done|]. intros x s1 _ _.
    eapply twp_mono; [apply expire_run|done].
  - intros [] s1 (_ & HF & Hd & Ho & Hr). apply twp_ret. split; [done|]. split; [done| | |done].
    + intros i c c' Hi Hi' Hl. eapply Hd; [|exact Hi|exact Hi']. apply lapsed_due; [|done].
      by eapply list_elem_of_lookup_2.
    + intros Hnd i c c' Hi Hi'. destruct (Ho i c c' Hi Hi') as [->|(d & Hd' & Hid)]; [by left|right].
      apply due_lapsed in Hd' as [Hin Hl]. apply list_elem_of_lookup in Hin as [j Hj].
      assert (i = j) as <-; [|congruence].
      apply (NoDup_lookup _ i j (cl_id c) Hnd); [by rewrite list_lookup_fmap, Hi|].
      by rewrite list_lookup_fmap, Hj, <- Hid.
Qed.
End sweeping.

(** ** Granting *)
Section granting.
Context `{Host}.

Lemma require_driver_run d s :
  wp (require_driver d) (λ driver s', s' = s ∧ d = Some driver ∧ driver ≠ "") s.
Proof. unfold require_driver. destruct d as [d|]; [|done]. case_bool_decide; [done|]. by wp_all. Qed.
Lemma insert_claim_run pid nk driver fresh s :
  wp (insert_claim pid nk driver fresh) (λ c s', ∃ cid, c = fresh (1 + max_fence s pid nk)%Z cid ∧
    claim_conflict s c = false ∧ s' = s <| draws ::= S |> <| claims ::= (λ l, l ++ [c]) |>) s.
Proof.
  unfold insert_claim. apply wp_bind, wp_gets, wp_bind, wp_uuid4. intros u. cbv zeta.
  apply wp_bind, wp_gets, wp_bind. destruct (claim_conflict _ _) eqn:Hc.
  - apply run_wp. unfold mbind, M_bind. intros a s' E. by destruct (refuse_exclusive_holder _ _ _ _) as [[]|].
  - apply wp_modify, wp_ret. eexists. split; [reflexivity|]. split; [exact Hc|done].
Qed.

(** A claim of an exclusive purpose is alone once it is in. *)
Lemma inserted_alone s c x :
  claim_conflict s c = false → holds_exclusively c → x ∈ claims s ++ [c] → same_node x c →
  holds_exclusively x → x = c.
Proof.
  intros Hc [L1 X1] [Hx|Hx%list_elem_of_singleton]%elem_of_app [Hp Hn] [L2 X2]; [|done].
  exfalso. assert (claim_conflict s c = true) as E; [|congruence]. unfold claim_conflict.
  apply existsb_exists. exists x. split; [by apply list_elem_of_In|]. unfold claim_clash, is_live.
  rewrite (proj2 (on_node_true (cl_project c) (cl_node c) x)), L1, L2, X1, X2 by done.
  rewrite !(bool_decide_eq_true_2 (Live = Live)) by done. by rewrite !orb_true_r.
Qed.

(** The answer of [claim_node] that made a claim. *)
Record granted (pid nk : string) (s s' : db) (c : claim_row) : Prop := Granted {
  gr_node : ∃ n, nodes s !! (pid, nk) = Some n ∧ cl_revision c = n_revision n ∧ n_status n ≠ SUPERSEDED ∧
    (cl_purpose c = Implement → n_status n ≠ VERIFIED);
  gr_where : cl_project c = pid ∧ cl_node c = nk ∧ cl_status c = Live ∧ cl_attempt c = None;
  gr_lease : (MIN_LEASE_SECONDS ≤ cl_lease c ≤ MAX_LEASE_SECONDS)%Z ∧
    cl_expires c = add_seconds (cl_created c) (cl_lease c) ∧ cl_heartbeat c = cl_created c;
  gr_fence : ∀ x, x ∈ claims s → same_node x c → (cl_fence x < cl_fence c)%Z;
  gr_last : ∃ l, claims s' = l ++ [c] ∧ Forall2 (swept_row (cl_created c)) (claims s) l ∧
    (NoDup (cl_id <$> claims s) → ∀ i x x', claims s !! i = Some x → l !! i = Some x' →
       x' = x ∨ lapsed pid (cl_created c) (Some nk) x);
  gr_alone : holds_exclusively c → ∀ x, x ∈ claims s' → same_node x c → holds_exclusively x → x = c;
}.

(** The arguments [claim_node] accepts, and the digest of the request they make. *)
Record claim_args (d : option string) (pid nk u : string) (e : Z) (k : string) (l w : json)
    (sa : option string) (driver hash : string) : Prop := ClaimArgs {
  ca_driver : d = Some driver ∧ driver ≠ "";
  ca_purpose : is_Some (parse_purpose u);
  ca_keys : KEY pid = true ∧ KEY nk = true ∧ KEY k = true;
  ca_subagent : match sa with
    | Some label => own_subagent driver label && (Z.of_nat (py_len label) <=? 320)%Z | None => true end = true;
  ca_hash : ∃ sec ws, integer l "lease_seconds" MIN_LEASE_SECONDS MAX_LEASE_SECONDS = Ok sec ∧
    w = JStr ws ∧ (Z.of_nat (py_len ws) ≤ 500)%Z ∧ hash = digest (claim_request u e sec ws sa);
}.
Definition requested (pid nk driver k : string) (c : claim_row) : bool :=
  on_node pid nk c && bool_decide (cl_driver c = driver) && bool_decide (cl_request_key c = k).

Lemma claim_node_run actor d pid nk u e k l w sa s :
  wp (claim_node actor d pid nk u e k l w sa) (λ r s', ∃ driver hash,
    claim_args d pid nk u e k l w sa driver hash ∧ is_Some (nodes s !! (pid, nk)) ∧ nodes s' = nodes s ∧
    requested pid nk driver k (cv_row r.1) = true ∧ cl_request_hash (cv_row r.1) = hash ∧
    if r.2 then select_one (requested pid nk driver k) (claims s) = Some (cv_row r.1) ∧ claims s' = claims s
    else select_one (requested pid nk driver k) (claims s) = None ∧
      purpose_text (cl_purpose (cv_row r.1)) = u ∧ cl_revision (cv_row r.1) = e ∧
      granted pid nk s s' (cv_row r.1)) s.
Proof.
  unfold claim_node. apply wp_bind. eapply wp_mono; [apply require_driver_run|].
  intros driver s0 (-> & -> & Hne). apply wp_bind, wp_get_some. intros p Hp.
  apply wp_bind, wp_lift. intros sec Hl. pose proof Hl as [_ Hsec]%integer_ok.
  apply wp_bind, wp_lift. intros k' [[= ->] HK]%key_ok.
  apply wp_bind, wp_get_some. intros ws Hws. apply wp_bind, wp_require. intros Hsa. cbv zeta.
  apply wp_bind. eapply wp_mono; [apply twp_to_wp, mark_back_returns|]. intros [] s1 [E1 _].
  assert (claims s1 = claims s ∧ nodes s1 = nodes s) as [Hc1 Hn1] by (by rewrite E1). clear E1.
  apply wp_bind, wp_node. intros n Hn HKp HKn. rewrite Hn1 in Hn. apply wp_bind, wp_gets.
  change (λ c, on_node pid nk c && _ && _) with (requested pid nk driver k'). rewrite Hc1.
  set (hash := digest (claim_request u e sec ws sa)).
  assert (claim_args (Some driver) pid nk u e k' l w sa driver hash) as Hargs.
  { split; try done. exists sec, ws. destruct w as [| | |w'| |]; try done.
    destruct (Z.of_nat (py_len w') <=? 500)%Z eqn:E; [|done]. apply Z.leb_le in E.
    injection Hws as ->. by split_and!. }
  assert (is_Some (nodes s !! (pid, nk))) as Hsome by by eexists.
  destruct (select_one _ _) as [old|] eqn:Hold.
  { apply wp_bind, wp_require. intros Hh%bool_decide_eq_true. apply wp_bind, wp_now. intros t.
    apply wp_ret. exists driver, hash. pose proof Hold as [_ Hr]%select_one_Some. by split_and!. }
  apply wp_bind, wp_require. intros Hrev%bool_decide_eq_true.
  apply wp_bind, wp_require. intros Hopen. apply wp_bind, wp_now. intros t.
  apply wp_bind. pose proof (sweep_conn_run actor pid t (Some nk) (s1 <| ticks ::= S |>)) as Hsw.
  apply run_wp. intros xs s2 E. unfold twp in Hsw. rewrite E in Hsw. clear E.
  destruct Hsw as (_ & [Hrows _ Honly Hrest]). simpl in Hrows, Honly. rewrite Hc1 in Hrows, Honly.
  apply wp_bind. eapply (wp_mono _ (λ _ s', s' = s2)).
  { apply wp_when; intros _; [|done]. unfold refuse_exclusive_holder. wp_all; done. }
  intros [] ? ->. apply wp_bind. eapply wp_mono; [apply insert_claim_run|].
  intros c s3 (cid & Hc & Hconf & ->). unfold history, event. wp_all. simpl.
  apply negb_true_iff, orb_false_iff in Hopen as [Hop1%bool_decide_eq_false Hop2].
  apply find_some in Hp as [_ Hp%bool_decide_eq_true].
  exists driver, hash. subst c. split_and!; try done.
  - by rewrite Hrest.
  - unfold requested, on_node. simpl. by rewrite !bool_decide_eq_true_2.
  - split; simpl.
    + exists n. split_and!; try done. intros ->. rewrite bool_decide_eq_true_2 in Hop2 by done.
      by apply bool_decide_eq_false in Hop2.
    + done.
    + done.
    + intros x Hx [Hxp Hxn]. simpl in Hxp, Hxn. apply list_elem_of_lookup in Hx as [i Hi].
      destruct (Forall2_lookup_l _ _ _ _ _ Hrows Hi) as (x' & Hi' & Hs).
      assert (cl_fence x' ≤ max_fence s2 pid nk)%Z; [|destruct Hs as [->| ->]; simpl in *; lia].
      apply max_fence_spec; [by eapply list_elem_of_lookup_2|].
      apply on_node_true. by destruct Hs as [->| ->].
    + by exists (claims s2).
    + intros Hex x Hx Hsame Hxe. by eapply (inserted_alone s2).
Qed.

(** A claim that [claim_node] makes is live, on the node's present open revision, leased for
    the requested 60 to 86400 seconds, fenced above every earlier claim on the node, and, if its
    purpose is exclusive, the only live exclusive one; all other claims stay as they were,
    apart from those whose lease and grace had passed, which expire. *)
Theorem claim_granted actor d pid nk u e k l w sa s v s' :
  claim_node actor d pid nk u e k l w sa s = Ok ((v, false), s') →
  purpose_text (cl_purpose (cv_row v)) = u ∧ d = Some (cl_driver (cv_row v)) ∧
  cl_revision (cv_row v) = e ∧ granted pid nk s s' (cv_row v).
Proof.
  intros E. destruct (wp_run _ _ _ _ _ (claim_node_run actor d pid nk u e k l w sa s) E)
    as (driver & hash & [[-> _] _ _ _ _] & _ & _ & Hr & _ & _ & Hu & He & Hg).
  simpl in *. unfold requested in Hr. bsimpl. split_and!; solve [congruence|done].
Qed.
End granting.

(** ** Repeating, displacing and regaining *)
Section more_claims.
Context `{Host}.

Lemma select_one_evolved p l l1 l2 c :
  (∀ x y, claim_identity x = claim_identity y → p x = p y) →
  Forall2 claim_step l l1 → select_one p l = Some c →
  ∃ c', select_one p (l1 ++ l2) = Some c' ∧ claim_identity c' = claim_identity c.
Proof.
  intros Hp. unfold select_one. induction 1 as [|x y l l1 Hxy _ IH]; [done|]. simpl.
  rewrite (Hp y x) by apply Hxy. destruct (p x); [|by apply IH].
  intros [= <-]. exists y. split; [done|]. apply Hxy.
Qed.
Lemma requested_identity pid nk d k x y :
  claim_identity x = claim_identity y → requested pid nk d k x = requested pid nk d k y.
Proof.
  unfold claim_identity, requested, on_node. destruct x, y. simpl. intros [= -> -> -> -> -> -> -> -> -> -> -> ->].
  done.
Qed.

(** The guards every call passes before it looks for an earlier request. *)
Lemma claim_node_starts {B} (Q : B → db → Prop) (k' : string → purpose → Z → string → node_row → M db B)
    d pid nk u e k l w sa driver hash s n :
  claim_args d pid nk u e k l w sa driver hash → nodes s !! (pid, nk) = Some n →
  (∀ p sec ws s1, parse_purpose u = Some p → hash = digest (claim_request u e sec ws sa) →
     s1 = s <| declarations := declarations s1 |> <| audit := audit s1 |> <| drivers := drivers s1 |>
            <| ticks := ticks s1 |> → ticks s ≤ ticks s1 → twp (k' driver p sec ws n) Q s1) →
  twp (driver ← require_driver d;
       p ← get_some (parse_purpose u) (StateGraphError "purpose must be implement, review, investigate or plan");
       seconds ← lift (integer l "lease_seconds" MIN_LEASE_SECONDS MAX_LEASE_SECONDS);
       _ ← lift (key k "request_key");
       workspace ← get_some (match w with
                             | JStr w => if (Z.of_nat (py_len w) <=? 500)%Z then Some w else None
                             | _ => None end)
                     (StateGraphError "workspace must be text of at most 500 characters");
       require (match sa with
                | Some label => own_subagent driver label && (Z.of_nat (py_len label) <=? 320)%Z
                | None => true end) (ClaimError "not_your_subagent");;
       mark_back (Some driver) "claim_node";;
       n ← node pid nk;
       k' driver p seconds workspace n) Q s.
Proof.
  intros [[-> Hne] [p Hp] (HK1 & HK2 & HK3) Hsa (sec & ws & Hl & -> & Hws & ->)] Hn HQ.
  apply twp_bind. unfold require_driver. rewrite bool_decide_eq_false_2 by done. apply twp_ret.
  apply twp_bind. eapply twp_get_some; [exact Hp|]. apply twp_bind. eapply twp_lift; [exact Hl|].
  apply twp_bind. eapply twp_lift; [by apply key_ok|].
  apply twp_bind. eapply twp_get_some.
  { destruct (Z.of_nat (py_len ws) <=? 500)%Z eqn:E; [reflexivity|]. apply Z.leb_gt in E. lia. }
  apply twp_bind, twp_require; [done|]. apply twp_bind.
  eapply twp_mono; [apply mark_back_returns|]. intros [] s1 [E Ht].
  apply twp_bind. apply (twp_node _ _ _ _ n); [done|done|by rewrite E|]. by apply HQ.
Qed.

(** A request is idempotent: once [claim_node] answered it, every later call with the
    same arguments, by whatever actor and after whatever steps, returns the same claim
    marked as a repetition, and adds, changes and records no claim. *)
Theorem claim_idempotent actor actor' d pid nk u e k l w sa s v b s1 s2 :
  reachable s → claim_node actor d pid nk u e k l w sa s = Ok ((v, b), s1) → rtc step s1 s2 →
  ∃ v' s3, claim_node actor' d pid nk u e k l w sa s2 = Ok ((v', true), s3) ∧
    claim_identity (cv_row v') = claim_identity (cv_row v) ∧ claims s3 = claims s2 ∧
    claim_history s3 = claim_history s2 ∧ events s3 = events s2.
Proof.
  intros Hs E Hss. destruct (wp_run _ _ _ _ _ (claim_node_run actor d pid nk u e k l w sa s) E)
    as (driver & hash & Ha & Hn & En & Hr & Hh & Hb). simpl in *.
  assert (reachable s1) as Hs1.
  { eapply rtc_r; [exact Hs|]. eexists _, _, _. split; [|exact E]. constructor. }
  assert (select_one (requested pid nk driver k) (claims s1) = Some (cv_row v)) as Hsel.
  { destruct b.
    - destruct Hb as [Hold ->]. done.
    - destruct Hb as (Hnone & _ & _ & [_ _ _ _ (l0 & -> & HF & _) _]).
      assert (select_one (requested pid nk driver k) l0 = None) as Hl0; [|by rewrite select_one_snoc, Hl0, Hr].
      apply select_one_None. intros x' Hx'. destruct (swept_rows_elem _ _ _ _ HF Hx') as (x & Hx & Hrow).
      rewrite (requested_identity _ _ _ _ x' x) by by eapply swept_row_identity.
      by apply (proj1 (select_one_None _ _) Hnone). }
  destruct (steps_keep claim_evolution s1 s2 operation_claims Hss (reachable_claims s1 Hs1))
    as (_ & (l1 & l2 & E2 & HF) & _).
  destruct (select_one_evolved _ _ _ l2 _ (requested_identity pid nk driver k) HF Hsel) as (c & Hc & Hid).
  rewrite <- E2 in Hc. destruct (nodes_persist s1 s2 (pid, nk) Hs1 Hss) as [n Hn2]; [by rewrite En|].
  assert (cl_request_hash c = hash) as Hch by (injection Hid; congruence).
  assert (twp (claim_node actor' d pid nk u e k l w sa) (λ r s3, r.2 = true ∧
    cv_row r.1 = c ∧ claims s3 = claims s2 ∧ claim_history s3 = claim_history s2 ∧ events s3 = events s2) s2) as Ht.
  { unfold claim_node. eapply claim_node_starts; [exact Ha|exact Hn2|].
    intros p sec ws s3 _ Hd E3 _. apply twp_bind, twp_gets.
    change (λ c, on_node pid nk c && _ && _) with (requested pid nk driver k).
    assert (claims s3 = claims s2) as Ec by (by rewrite E3). rewrite Ec, Hc.
    apply twp_bind, twp_require; [apply bool_decide_eq_true; congruence|].
    unfold twp. simpl. rewrite Ec. split_and!; try done; by rewrite E3. }
  unfold twp in Ht. destruct (claim_node actor' _ _ _ _ _ _ _ _ _ s2) as [[[v' b'] s3]|]; [|done].
  simpl in Ht. destruct Ht as (-> & Hv & H1 & H2 & H3). exists v', s3. rewrite Hv. by split_and!.
Qed.

Lemma claims_inv_ids l : claims_inv l → NoDup (cl_id <$> l).
Proof.
  intros Hl. apply NoDup_alt. intros i j x Hi Hj. destruct (decide (i = j)) as [|Hne]; [done|].
  rewrite !list_lookup_fmap in Hi, Hj. apply fmap_Some in Hi as (c & Hi & ->), Hj as (d & Hj & E).
  by destruct (ck_id _ _ (Hl i j c d Hne Hi Hj)).
Qed.

(** An exclusive claim displaces nobody who still is in time: whoever held the node live and
    exclusively before the grant had let the lease and the whole grace period pass. *)
Theorem claim_displaces_only_lapsed actor d pid nk u e k l w sa s v s' x :
  reachable s → claim_node actor d pid nk u e k l w sa s = Ok ((v, false), s') →
  EXCLUSIVE (cl_purpose (cv_row v)) = true → x ∈ claims s → same_node x (cv_row v) → holds_exclusively x →
  (add_seconds (cl_expires x) GRACE_SECONDS ≤ cl_created (cv_row v))%Z.
Proof.
  intros Hs E Hex Hx Hsame Hhold.
  destruct (wp_run _ _ _ _ _ (claim_node_run actor d pid nk u e k l w sa s) E)
    as (driver & hash & _ & _ & _ & _ & _ & _ & _ & _ & [_ (_ & _ & Hlive & _) _ Hf (l0 & El & HF & Honly) Halone]).
  simpl in *. pose proof (claims_inv_ids _ (reachable_claims s Hs)) as Hnd. pose proof Hx as Hx0.
  apply list_elem_of_lookup in Hx as [i Hi]. destruct (Forall2_lookup_l _ _ _ _ _ HF Hi) as (x' & Hi' & _).
  destruct (Honly Hnd i x x' Hi Hi') as [->|(_ & _ & _ & Hl)]; [|by apply lease_reclaimable].
  exfalso. assert (x = cv_row v) as E'.
  { apply Halone; [done| |done|done]. rewrite El. apply elem_of_app. left. by eapply list_elem_of_lookup_2. }
  specialize (Hf x Hx0 Hsame). rewrite E' in Hf. lia.
Qed.

Lemma swept_free pid nk t s s' :
  (∀ x, x ∈ claims s → on_node pid nk x = true → holds_exclusively x → lapsed pid t (Some nk) x) →
  swept pid t (Some nk) s s' →
  ∀ x, x ∈ claims s' → (on_node pid nk x && is_live x && EXCLUSIVE (cl_purpose x)) = false.
Proof.
  intros Hl [HF Hexp _ _] x' (i & Hi')%list_elem_of_lookup.
  destruct (Forall2_lookup_r _ _ _ _ _ HF Hi') as (x & Hi & Hrow).
  destruct (on_node pid nk x' && is_live x' && EXCLUSIVE (cl_purpose x')) eqn:E; [|done]. exfalso.
  unfold is_live in E. bsimpl. assert (x' = x) as -> by (by eapply swept_row_live).
  assert (cl_status x = Expired); [|congruence]. eapply Hexp; [exact Hi|exact Hi'|].
  apply Hl; [by eapply list_elem_of_lookup_2|done|by split].
Qed.

(** C27: a node is never blocked for good: on an open node, a well-formed new request with the
    present revision succeeds as soon as every live exclusive holder is past its lease and grace. *)
Theorem claim_available actor d pid nk u e k l w sa s driver hash p n :
  claim_args d pid nk u e k l w sa driver hash → parse_purpose u = Some p →
  nodes s !! (pid, nk) = Some n → n_revision n = e → n_status n ≠ SUPERSEDED →
  (p = Implement → n_status n ≠ VERIFIED) →
  (∀ x, x ∈ claims s → requested pid nk driver k x = false ∧ cl_id x ≠ "claim-" +:+ uuid (draws s)) →
  (∀ x t, x ∈ claims s → on_node pid nk x = true → holds_exclusively x → ticks s ≤ t →
     (add_seconds (cl_expires x) GRACE_SECONDS ≤ clock t)%Z) →
  ∃ v s', claim_node actor d pid nk u e k l w sa s = Ok ((v, false), s').
Proof.
  intros Ha Hp Hn Hrev Hst Himp Hnew Hgone.
  assert (twp (claim_node actor d pid nk u e k l w sa) (λ r _, r.2 = false) s) as Ht;
    [|apply twp_returns in Ht as ([v b] & s' & E & Hb); simpl in Hb; subst b; by exists v, s'].
  unfold claim_node. eapply claim_node_starts; [exact Ha|exact Hn|].
  intros q sec ws s1 Hq _ E1 Ht. assert (q = p) as -> by congruence.
  apply twp_bind, twp_gets. change (λ c, on_node pid nk c && _ && _) with (requested pid nk driver k).
  assert (claims s1 = claims s ∧ draws s1 = draws s) as [Ec Ed] by (by rewrite E1).
  rewrite Ec, (proj2 (select_one_None _ _)) by (intros x Hx; by apply Hnew).
  apply twp_bind, twp_require; [by apply bool_decide_eq_true|].
  apply twp_bind, twp_require.
  { rewrite bool_decide_eq_false_2 by done. case_bool_decide; [|done].
    by rewrite bool_decide_eq_false_2 by auto. }
  apply twp_bind. unfold twp at 1. simpl. apply twp_bind. eapply twp_mono; [apply sweep_conn_run|].
  intros xs s2 [_ Hsw]. pose proof Hsw as [HF _ _ Hr]. simpl in HF.
  assert (∀ x, x ∈ claims s2 → (on_node pid nk x && is_live x && EXCLUSIVE (cl_purpose x)) = false) as Hfree.
  { eapply swept_free; [|exact Hsw]. simpl. rewrite Ec. intros x Hx Hon Hh. pose proof Hh as [Hl _].
    pose proof Hon as Hon'. unfold on_node in Hon'. bsimpl. split_and!; [done|by apply bool_decide_eq_true|done|].
    apply lease_reclaimable. by apply Hgone. }
  apply twp_bind. eapply (twp_mono _ (λ _ s', s' = s2)).
  { apply twp_when; intros _; [|done]. unfold refuse_exclusive_holder. apply twp_bind, twp_gets.
    by rewrite (proj2 (select_one_None _ _)). }
  intros [] ? ->. apply twp_bind. unfold insert_claim. apply twp_bind, twp_gets, twp_bind.
  unfold twp at 1, uuid4. cbv zeta. apply twp_bind, twp_gets, twp_bind.
  match goal with |- context [claim_conflict ?st ?c] => assert (claim_conflict st c = false) as -> end.
  { unfold claim_conflict. simpl. apply not_true_iff_false. intros (x & Hx & Hc)%existsb_exists.
    apply list_elem_of_In in Hx. destruct (swept_rows_elem _ _ _ _ HF Hx) as (x0 & Hx0 & Hrow).
    rewrite Ec in Hx0. destruct (Hnew x0 Hx0) as [Hnr Hid].
    rewrite <- (requested_identity pid nk driver k x x0) in Hnr by by eapply swept_row_identity.
    assert (cl_id x0 = cl_id x) as Eid by (by destruct Hrow as [->| ->]).
    unfold requested in Hnr. specialize (Hfree x Hx). unfold claim_clash in Hc. simpl in Hc.
    apply orb_true_iff in Hc as [Hc%bool_decide_eq_true|Hc]; [apply Hid; by rewrite Eid, Hc, Hr, <- Ed|].
    destruct (on_node pid nk x); [|done]. simpl in *. rewrite Hnr in Hc. simpl in Hc. by rewrite Hfree in Hc. }
  unfold twp. simpl. done.
Qed.
End more_claims.

(** ** Heartbeats *)
Section heartbeats.
Context `{Host} (driver pid : string) (t : Z).

Definition renewed_claim (c c' : claim_row) : Prop :=
  c' = c ∨ (cl_driver c = driver ∧ cl_project c = pid ∧ cl_status c = Live ∧
    c' = c <| cl_expires := add_seconds t (cl_lease c) |> <| cl_heartbeat := t |>).
Definition renewed_attempt (a a' : attempt_row) : Prop :=
  a' = a ∨ (a_owner a = Some driver ∧ a_project a = pid ∧ ACTIVE (a_status a) = true ∧
    a' = a <| a_lease := Some (add_seconds t DEFAULT_LEASE_SECONDS) |> <| a_heartbeat := Some t |>).
(** What heartbeats so far may have done. *)
Record beaten (s s' : db) : Prop := Beaten {
  bt_claims : Forall2 renewed_claim (claims s) (claims s');
  bt_attempts : Forall2 renewed_attempt (attempts s) (attempts s');
  bt_rest : s' = s <| claims := claims s' |> <| attempts := attempts s' |>;
}.

Lemma renewed_claim_update l l' c :
  NoDup (cl_id <$> l) → Forall2 renewed_claim l l' → c ∈ l' →
  cl_driver c = driver → cl_project c = pid → cl_status c = Live →
  Forall2 renewed_claim l (update_where (λ d, bool_decide (cl_id d = cl_id c))
    (λ r, r <| cl_expires := add_seconds t (cl_lease c) |> <| cl_heartbeat := t |>) l').
Proof.
  intros Hnd HF Hc Hd Hp Hl. apply list_elem_of_lookup in Hc as [i Hi].
  destruct (Forall2_lookup_r _ _ _ _ _ HF Hi) as (c0 & Hi0 & H0).
  unfold update_where. apply Forall2_fmap_r, Forall2_same_length_lookup_2; [by eapply Forall2_length|].
  intros j x x' Hj Hj'. pose proof (Forall2_lookup_lr _ _ _ _ _ _ HF Hj Hj') as Hx. simpl.
  case_bool_decide as Hid; [|done]. assert (j = i) as ->.
  { apply (NoDup_lookup _ j i (cl_id c) Hnd); rewrite list_lookup_fmap.
    - rewrite Hj. simpl. f_equal. rewrite <- Hid. by destruct Hx as [->|(_ & _ & _ & ->)].
    - rewrite Hi0. simpl. f_equal. by destruct H0 as [->|(_ & _ & _ & ->)]. }
  simplify_eq. right. destruct Hx as [->|(? & ? & ? & ->)]; by split_and!.
Qed.
Lemma renewed_attempt_update l l' a :
  NoDup (a_id <$> l) → Forall2 renewed_attempt l l' → a ∈ l' →
  a_owner a = Some driver → a_project a = pid → ACTIVE (a_status a) = true →
  Forall2 renewed_attempt l (update_where (λ d, bool_decide (a_id d = a_id a))
    (λ r, r <| a_lease := Some (add_seconds t DEFAULT_LEASE_SECONDS) |> <| a_heartbeat := Some t |>) l').
Proof.
  intros Hnd HF Ha Hd Hp Hl. apply list_elem_of_lookup in Ha as [i Hi].
  destruct (Forall2_lookup_r _ _ _ _ _ HF Hi) as (a0 & Hi0 & H0).
  unfold update_where. apply Forall2_fmap_r, Forall2_same_length_lookup_2; [by eapply Forall2_length|].
  intros j x x' Hj Hj'. pose proof (Forall2_lookup_lr _ _ _ _ _ _ HF Hj Hj') as Hx. simpl.
  case_bool_decide as Hid; [|done]. assert (j = i) as ->.
  { apply (NoDup_lookup _ j i (a_id a) Hnd); rewrite list_lookup_fmap.
    - rewrite Hj. simpl. f_equal. rewrite <- Hid. by destruct Hx as [->|(_ & _ & _ & ->)].
    - rewrite Hi0. simpl. f_equal. by destruct H0 as [->|(_ & _ & _ & ->)]. }
  simplify_eq. right. destruct Hx as [->|(? & ? & ? & ->)]; by split_and!.
Qed.

Context (s0 : db) (Hclaims : NoDup (cl_id <$> claims s0)) (Hattempts : NoDup (a_id <$> attempts s0)).

Lemma renew_claim_beaten c s :
  beaten s0 s → c ∈ claims s → cl_driver c = driver → cl_project c = pid → cl_status c = Live →
  wp (renew_claim t c) (λ _ s', beaten s0 s') s.
Proof.
  intros [H1 H2 H3] Hc Hd Hp Hl. unfold renew_claim, update_claim. wp_all. split; simpl; [|done|by rewrite H3].
  by apply renewed_claim_update.
Qed.
Lemma beat_claim_beaten item s : beaten s0 s → wp (beat_claim pid driver t item) (λ _ s', beaten s0 s') s.
Proof.
  intros Hb. unfold beat_claim. apply wp_bind, wp_gets.
  destruct (select_one _ _) as [c|] eqn:Hsel; [|by wp_all].
  apply select_one_Some in Hsel as [Hin Hsel]. bsimpl. unfold claim_code.
  repeat case_bool_decide; simpl; try by wp_all. unfold is_live.
  case_bool_decide; simpl; [|by wp_all]. by apply renew_claim_beaten.
Qed.
Lemma beat_attempt_beaten item s : beaten s0 s → wp (beat_attempt pid driver t item) (λ _ s', beaten s0 s') s.
Proof.
  intros Hb. unfold beat_attempt. apply wp_bind, wp_gets.
  destruct (select_one _ _) as [a|] eqn:Hsel; [|by wp_all].
  apply select_one_Some in Hsel as [Hin Hsel]. bsimpl.
  destruct (attempt_code driver item.2 (Some a)) eqn:Hcode; [by wp_all|].
  unfold attempt_code in Hcode. destruct (ACTIVE (a_status a)) eqn:Hact; [|done]. simpl in Hcode.
  repeat case_bool_decide; try done. unfold update_attempt. wp_all.
  destruct Hb as [B1 B2 B3]. split; simpl; [done| |by rewrite B3]. simpl in *.
  match goal with H : a_id a = ?x |- context [bool_decide (a_id _ = ?x)] => rewrite <- H end.
  by apply renewed_attempt_update.
Qed.
Lemma beat_subagent_beaten label s : beaten s0 s → wp (beat_subagent pid driver t label) (λ _ s', beaten s0 s') s.
Proof.
  intros Hb. unfold beat_subagent. destruct (own_subagent driver label); [|by wp_all].
  apply wp_bind, wp_gets. set (rows := merge_sort _ _).
  assert (∀ c, c ∈ rows → c ∈ claims s ∧ cl_driver c = driver ∧ cl_project c = pid ∧ cl_status c = Live) as Hrows.
  { intros c. unfold rows. rewrite merge_sort_Permutation, elem_of_select. unfold is_live.
    intros [? Hc]. by bsimpl. }
  destruct rows as [|r rs]; [by wp_all|]. revert Hrows. generalize (r :: rs). intros rows' Hrows.
  assert (∀ c, c ∈ rows' → ∃ x, x ∈ claims s0 ∧ cl_id x = cl_id c ∧ cl_lease x = cl_lease c ∧
    cl_driver x = driver ∧ cl_project x = pid ∧ cl_status x = Live) as Horig.
  { intros c Hc. destruct (Hrows c Hc) as (Hin & Hd & Hp & Hl). apply list_elem_of_lookup in Hin as [i Hi].
    destruct (Forall2_lookup_r _ _ _ _ _ (bt_claims _ _ Hb) Hi) as (x & Hx & Hxc).
    exists x. split; [by eapply list_elem_of_lookup_2|]. destruct Hxc as [->|(? & ? & ? & ->)]; by split_and!. }
  eapply wp_mono; [apply (wp_collect _ _ (λ s', beaten s0 s')); [done|]|done].
  intros c s' Hc [H1 H2 H3]. destruct (Horig c Hc) as (x & Hx & Hid & Hlease & Hd & Hp & Hl).
  unfold renew_claim, update_claim. wp_all. split; simpl; [|done|by rewrite H3].
  apply list_elem_of_lookup in Hx as [i Hi]. destruct (Forall2_lookup_l _ _ _ _ _ H1 Hi) as (x' & Hi' & Hxx).
  assert (cl_id x' = cl_id c ∧ cl_lease x' = cl_lease c ∧ cl_driver x' = driver ∧ cl_project x' = pid ∧
    cl_status x' = Live) as (E1 & E2 & E3 & E4 & E5).
  { destruct Hxx as [->|(? & ? & ? & ->)]; by split_and!. }
  rewrite <- E1, <- E2. apply renewed_claim_update; try done. by eapply list_elem_of_lookup_2.
Qed.
End heartbeats.

Section heartbeat_property.
Context `{Host}.

Lemma attempts_inv_ids l : attempts_inv l → NoDup (a_id <$> l).
Proof.
  intros [Hu _]. apply NoDup_alt. intros i j x Hi Hj. rewrite list_lookup_fmap in Hi, Hj.
  destruct (l !! i) as [a|] eqn:Ha; [|done]. destruct (l !! j) as [b|] eqn:Hb; [|done].
  simpl in Hi, Hj. eapply Hu; [done|done|]. apply attempt_clash_true. left. congruence.
Qed.

(** A heartbeat renews and does nothing else: it moves the expiry of live claims and
    active attempts of the calling driver in the named project to the beat plus their lease,
    and leaves every status, fence, owner, node, event and other row alone. *)
Theorem heartbeat_effect d pid cs xs ss s os t s' :
  reachable s → heartbeat d pid cs xs ss s = Ok ((os, t), s') →
  ∃ driver, d = Some driver ∧ driver ≠ "" ∧
    Forall2 (renewed_claim driver pid t) (claims s) (claims s') ∧
    Forall2 (renewed_attempt driver pid t) (attempts s) (attempts s') ∧
    s' = s <| claims := claims s' |> <| attempts := attempts s' |> <| drivers := drivers s' |>
           <| declarations := declarations s' |> <| audit := audit s' |> <| ticks := ticks s' |>.
Proof.
  intros Hs E. pose proof (claims_inv_ids _ (reachable_claims s Hs)) as Hc.
  pose proof (attempts_inv_ids _ (reachable_attempts s Hs)) as Ha.
  refine (wp_run _ (λ r s', ∃ driver, d = Some driver ∧ driver ≠ "" ∧
    Forall2 (renewed_claim driver pid r.2) (claims s) (claims s') ∧
    Forall2 (renewed_attempt driver pid r.2) (attempts s) (attempts s') ∧
    s' = s <| claims := claims s' |> <| attempts := attempts s' |> <| drivers := drivers s' |>
           <| declarations := declarations s' |> <| audit := audit s' |> <| ticks := ticks s' |>) _ _ _ _ E).
  unfold heartbeat. apply wp_bind. eapply wp_mono; [apply require_driver_run|].
  intros driver s0 (-> & -> & Hne). apply wp_bind, wp_require. intros _.
  apply wp_bind, wp_project. intros row _ _. apply wp_bind.
  pose proof (mark_back_returns (Some driver) "heartbeat" s) as Hm. apply run_wp. intros [] s1 E1.
  unfold twp in Hm. rewrite E1 in Hm. destruct Hm as [E2 _].
  apply wp_bind, wp_now. intros current. set (s2 := s1 <| ticks ::= S |>).
  assert (claims s2 = claims s ∧ attempts s2 = attempts s) as [Ec Ea] by (unfold s2; by rewrite E2).
  assert (beaten driver pid current s2 s2) as Hb0.
  { split; [| |by destruct s2]; apply Forall2_same_length_lookup_2; try done; intros; left; congruence. }
  rewrite <- Ec in Hc. rewrite <- Ea in Ha.
  apply wp_bind. eapply wp_mono; [apply (wp_collect _ _ (beaten driver pid current s2)); [done|]|].
  { intros x s'' _ Hb. by apply beat_claim_beaten. }
  intros ys s3 Hb3. apply wp_bind.
  eapply wp_mono; [apply (wp_collect _ _ (beaten driver pid current s2)); [done|]|].
  { intros x s'' _ Hb. by apply beat_attempt_beaten. }
  intros zs s4 Hb4. apply wp_bind.
  eapply wp_mono; [apply (wp_collect _ _ (beaten driver pid current s2)); [done|]|].
  { intros x s'' _ Hb. by apply beat_subagent_beaten. }
  intros ws s5 [H1 H2 H3]. apply wp_ret. exists driver. simpl. rewrite Ec in H1. rewrite Ea in H2.
  split_and!; try done. rewrite H3. unfold s2. by rewrite E2.
Qed.
End heartbeat_property.

(** ** Witnesses *)
Definition claiming : M db (claim_view * bool) :=
  claim_node "driver:d" (Some "d") "demo" "b" "implement" 1 "ck" (JInt 7200) (JStr "host:/w") None.
Lemma claim_granted_witness : ∃ v,
  claiming s_verified = Ok ((v, false), after claiming s_verified) ∧
  granted "demo" "b" s_verified (after claiming s_verified) (cv_row v).
Proof.
  unfold claiming. returns_flag v E. exists v. split; [exact E|].
  apply (claim_granted "driver:d" (Some "d") "demo" "b" "implement" 1 "ck" (JInt 7200) (JStr "host:/w") None
           s_verified v _ E).
Defined.
Lemma claim_idempotent_witness : ∃ v v' s3,
  claiming s_verified = Ok ((v, false), after claiming s_verified) ∧
  claiming s_external = Ok ((v', true), s3) ∧ claims s3 = claims s_external.
Proof.
  unfold claiming. returns_flag v E.
  assert (rtc step (after (claim_node "driver:d" (Some "d") "demo" "b" "implement" 1 "ck" (JInt 7200)
    (JStr "host:/w") None) s_verified) s_external) as Hs.
  { unfold s_external, s_claimed. sample_step. apply rtc_refl. }
  destruct (claim_idempotent "driver:d" "driver:d" (Some "d") "demo" "b" "implement" 1 "ck" (JInt 7200)
    (JStr "host:/w") None s_verified v false _ _ reachable_verified E Hs) as (v' & s3 & E3 & _ & Hc & _).
  exists v, v', s3. split; [exact E|]. split; [exact E3|exact Hc].
Defined.

(** A host on which an hour passes between two readings of the clock. *)
Section hourly.
#[local] Instance hourly_host : Host := {|
  clock n := (Z.of_nat n * (3600 * SECOND))%Z; uuid := @uuid sample_host; sha256 := @sha256 sample_host;
  hmac_sha256 := @hmac_sha256 sample_host; secret := @secret sample_host |}.

Definition s_hourly : db :=
  after (claim_node "driver:d" (Some "d") "demo" "a" "implement" 1 "ck" (JInt 60) (JStr "") None)
    (after (add_nodes "demo" (JArr [spec "a" []])) (after (create_project "demo" (JStr "Demo") None) empty_db)).
Lemma reachable_hourly : reachable s_hourly.
Proof. unfold s_hourly. do 3 sample_step. apply rtc_refl. Qed.
Definition taking : M db (claim_view * bool) :=
  claim_node "driver:e" (Some "e") "demo" "a" "implement" 1 "ck2" (JInt 60) (JStr "") None.

Lemma claim_displaces_only_lapsed_witness : ∃ v x,
  taking s_hourly = Ok ((v, false), after taking s_hourly) ∧ x ∈ claims s_hourly ∧ holds_exclusively x ∧
  (add_seconds (cl_expires x) GRACE_SECONDS ≤ cl_created (cv_row v))%Z.
Proof.
  unfold taking.
  assert (∃ v, claim_node "driver:e" (Some "e") "demo" "a" "implement" 1 "ck2" (JInt 60) (JStr "") None s_hourly
    = Ok ((v, false), after (claim_node "driver:e" (Some "e") "demo" "a" "implement" 1 "ck2" (JInt 60) (JStr "") None)
        s_hourly) ∧ cl_purpose (cv_row v) = Implement ∧ cl_project (cv_row v) = "demo" ∧ cl_node (cv_row v) = "a")
    as (v & E & Hp & H3 & H4) by (eexists; split; [vm_compute; reflexivity|repeat split]).
  assert (∃ x, claims s_hourly = [x] ∧ cl_status x = Live ∧ cl_purpose x = Implement ∧ cl_project x = "demo" ∧
    cl_node x = "a") as (x & Hx & H5 & H6 & H7 & H8) by (eexists; split; [vm_compute; reflexivity|repeat split]).
  assert (x ∈ claims s_hourly) as Hin by (rewrite Hx; by left).
  assert (holds_exclusively x) as Hh by (split; [exact H5|by rewrite H6]).
  exists v, x. split; [exact E|]. split; [exact Hin|]. split; [exact Hh|].
  apply (claim_displaces_only_lapsed "driver:e" (Some "e") "demo" "a" "implement" 1 "ck2" (JInt 60) (JStr "") None
    s_hourly v _ x reachable_hourly E); [by rewrite Hp|exact Hin|split; congruence|exact Hh].
Defined.

(** The node is free again although a live claim still holds it exclusively. *)
Lemma claim_available_witness : ∃ x v s',
  claims s_hourly = [x] ∧ holds_exclusively x ∧ taking s_hourly = Ok ((v, false), s').
Proof.
  unfold taking.
  assert (∃ x, claims s_hourly = [x] ∧ cl_status x = Live ∧ cl_purpose x = Implement ∧ cl_driver x = "d" ∧
    cl_id x ≠ "claim-" +:+ uuid (draws s_hourly) ∧
    (add_seconds (cl_expires x) GRACE_SECONDS ≤ clock (ticks s_hourly))%Z) as (x & Hx & H1 & H2 & H3 & H4 & H5).
  { eexists. split; [vm_compute; reflexivity|]. split_and!; try reflexivity; vm_compute; discriminate. }
  assert (∃ n, nodes s_hourly !! ("demo", "a") = Some n ∧ n_revision n = 1%Z ∧ n_status n = OPEN)
    as (n & Hn & H6 & H7) by (eexists; split; [vm_compute; reflexivity|repeat split]).
  destruct (claim_available "driver:e" (Some "e") "demo" "a" "implement" 1 "ck2" (JInt 60) (JStr "") None s_hourly
    "e" (digest (claim_request "implement" 1 60 "" None)) Implement n) as (v & s' & E);
    [|reflexivity|exact Hn|exact H6|by rewrite H7|by rewrite H7|..|exists x, v, s'; split; [exact Hx|split; [|exact E]]].
  - split; [by split|by eexists|by repeat split|reflexivity|]. exists 60%Z, "". by repeat split.
  - intros y. rewrite Hx. intros ->%list_elem_of_singleton. split; [|exact H4].
    unfold requested. rewrite H3. by rewrite andb_false_r.
  - intros y t. rewrite Hx. intros ->%list_elem_of_singleton _ _ Ht. etrans; [exact H5|].
    unfold clock, hourly_host. unfold SECOND. lia.
  - split; [exact H1|by rewrite H2].
Defined.
End hourly.

Definition beating : M db (list Claims.outcome * Z) :=
  heartbeat (Some "d") "demo" [(claim_b, 1%Z)] [(attempt_b, 1%Z)] [].
Lemma heartbeat_effect_witness : ∃ r,
  beating s_external = Ok (r, after beating s_external) ∧
  Forall2 (renewed_claim "d" "demo" r.2) (claims s_external) (claims (after beating s_external)).
Proof.
  unfold beating. returns r E. destruct r as [os t]. exists (os, t). split; [exact E|].
  destruct (heartbeat_effect (Some "d") "demo" [(claim_b, 1%Z)] [(attempt_b, 1%Z)] [] s_external os t _
    reachable_external E) as (driver & [= <-] & _ & HF & _). exact HF.
Defined.
