(* ===== verification/OwnershipProperties.v ===== *)
(** * Who owns an attempt or a claim

    Former owners are fenced out; a claim is taken over only from an owner that is
    offline; an attempt changes hands or ends only on the grounds the code names,
    and its claims go with it. *)
From S2P Require Import Prelude Lock Json Text Dag Store Graph History Portfolio Presence Claims.
From S2P Require Import Enforcement Review Attempts Evidence External Registry Inbox Issues Design.
From S2P Require Import Takeover Recovery Handoffs View Ledger System.
From S2P Require Import Returns Lifecycle Exclusion Sample ClaimProperties.


Section ownership.
Context `{Host} (env : environment).

(** ** Presence and clocks *)
Lemma presence_ticks s n driver t :
  effective_presence env (s <| ticks := n |>) driver t = effective_presence env s driver t.
Proof. done. Qed.
Lemma wp_presence_at driver (Q : presence → db → Prop) s :
  (∀ t, Q (effective_presence env s driver t) (s <| ticks ::= S |>)) → wp (presence_at env driver) Q s.
Proof. intros HQ. unfold presence_at. apply wp_bind, wp_now. intros t. apply wp_gets, HQ. Qed.

(** ** The grounds on which an attempt may be reclaimed *)
Definition offline_ground (s : db) (x : reclaimer) (a : attempt_row) : Prop :=
  ∃ owner driver t, a_owner a = Some owner ∧ rr_driver x = Some driver ∧ owner ≠ driver ∧
    shared_identity driver = false ∧
    owner_is_offline (effective_presence env s owner t) = true ∧ active_member s (a_project a) driver = true.
Definition reclaim_ground (s : db) (x : reclaimer) (a : attempt_row) (override : option string) (current : Z)
    (offline : bool) : Prop :=
  rr_admin x = true ∨ a_lease a = None ∧ is_Some override ∨
  (∃ e, a_lease a = Some e ∧ (add_seconds e GRACE_SECONDS ≤ current)%Z) ∨
  offline = true ∧ offline_ground s x a.

Lemma offline_evidence_ground x a s :
  wp (offline_owner_evidence env (a_project a) (a_owner a) (default "" (rr_driver x)))
    (λ p _, is_Some p → offline_ground s x a) s.
Proof.
  unfold offline_owner_evidence. destruct (truthy (a_owner a)) as [owner|] eqn:Ho.
  2: { apply wp_ret. by intros []. }
  pose proof (truthy_Some _ _ Ho) as Ho'.
  destruct (_ || _) eqn:Hne; [apply wp_ret; by intros []|]. bsimpl.
  apply wp_bind, wp_presence_at. intros t. destruct (negb _) eqn:Hoff; [apply wp_ret; by intros []|]. bsimpl.
  apply wp_bind, wp_lift. intros [] Hsh. apply wp_bind, wp_gets, wp_bind, wp_require. intros Hm.
  apply wp_ret. intros _. destruct (rr_driver x) as [driver|] eqn:Hd; [|done]. simpl in *.
  exists owner, driver, t. unfold refuse_shared_identity in Hsh. apply ensure_ok in Hsh. bsimpl. by split_and!.
Qed.
Lemma reclaimable_ground x a e o t b s :
  wp (reclaimable env x a e o t b) (λ _ _, reclaim_ground s x a o t b) s.
Proof.
  unfold reclaimable, reclaim_ground. apply wp_bind, wp_require. intros _. apply wp_bind, wp_gets, wp_bind, wp_lift.
  intros m _. apply wp_bind, wp_require. intros _. destruct (a_lease a) as [l|].
  - case_bool_decide as Hl; [apply wp_ret|].
    + right. right. left. exists l. by rewrite <- lease_reclaimable.
    + destruct (rr_admin x); [apply wp_ret; by left|]. apply wp_bind. destruct b; [|by apply wp_ret].
      eapply wp_mono; [apply offline_evidence_ground|]. intros [p|] s1 Hp; [|done]. apply wp_ret.
      do 3 right. split; [done|]. by apply Hp.
  - apply wp_bind, wp_require. intros Ho. apply wp_ret. apply orb_true_iff in Ho as [Ho|Ho]; [|by left].
    right. left. split; [done|]. by apply bool_decide_eq_true in Ho.
Qed.

(** ** Claims that stop *)
Definition stopped (status : claim_status) (t : Z) (c c' : claim_row) : Prop :=
  c' = c ∨ c' = c <| cl_status := status |> <| cl_updated := t |>.
Lemma stop_claims_run actor a t r (holder : option string) rows s :
  let status := if holder then Transferred else Released in
  wp (for_each (stop_claim actor a t r holder) rows) (λ _ s',
    Forall2 (stopped status t) (claims s) (claims s') ∧
    ∀ c', c' ∈ claims s' → cl_id c' ∈ cl_id <$> rows → cl_status c' = status) s.
Proof.
  intros status. apply (wp_for_each _ _ (λ seen s', Forall2 (stopped status t) (claims s) (claims s') ∧
    ∀ c', c' ∈ claims s' → cl_id c' ∈ cl_id <$> seen → cl_status c' = status)).
  { split; [|intros c' _ Hin; by apply elem_of_nil in Hin].
    apply Forall2_same_length_lookup_2; [done|]. intros; left; congruence. }
  intros seen c rest s1 _ [HF Hst]. unfold stop_claim. fold status. cbv zeta.
  apply wp_bind, wp_modify. set (s2 := s1 <| claims ::= _ |>).
  eapply wp_mono.
  { apply (claims_kept _ (λ s', claims s' = claims s2)); [frame_operation|done]. }
  intros ? s3 E3. rewrite E3. unfold s2. simpl. split.
  - apply Forall2_same_length_lookup_2.
    + rewrite length_update_where. by eapply Forall2_length.
    + intros i x x' Hx Hx'. unfold update_where in Hx'. rewrite list_lookup_fmap in Hx'.
      apply fmap_Some in Hx' as (y & Hy & ->).
      pose proof (Forall2_lookup_lr _ _ _ _ _ _ HF Hx Hy) as Hs. case_bool_decide; [|done].
      right. by destruct Hs as [->| ->].
  - intros c' (y & Hy & ->)%elem_of_update_where. case_bool_decide as Hid; [done|].
    rewrite fmap_app. intros [Hin|Hin]%elem_of_app; [by apply Hst|].
    apply list_elem_of_singleton in Hin. done.
Qed.

(** Nothing that moves with the attempt stays live. *)
Lemma stopped_all a t status l l' :
  status ≠ Live → Forall2 (stopped status t) l l' →
  (∀ c', c' ∈ l' → cl_id c' ∈ cl_id <$> select (moves_with a) l → cl_status c' = status) →
  ∀ c', c' ∈ l' → moves_with a c' = false.
Proof.
  intros Hne HF Hst c' Hc'. destruct (moves_with a c') eqn:Hm; [|done]. exfalso.
  pose proof Hc' as (i & Hi)%list_elem_of_lookup. destruct (Forall2_lookup_r _ _ _ _ _ HF Hi) as (c & Hc & Hs).
  assert (cl_status c' = Live) as Hl.
  { unfold moves_with, is_live in Hm. bsimpl. done. }
  assert (c' = c) as -> by (destruct Hs as [->| ->]; [done|simpl in Hl; congruence]).
  rewrite (Hst c Hc') in Hl; [done|]. apply list_elem_of_fmap. exists c. split; [done|].
  apply elem_of_select. split; [by eapply list_elem_of_lookup_2|done].
Qed.

(** *** and claims that move *)
Definition bound_claims_of (a : attempt_row) (holder : string) (s : db) : Prop :=
  ∀ c, c ∈ claims s → cl_project c = a_project a → cl_attempt c = Some (a_id a) → cl_status c = Live →
    cl_driver c = holder.
Definition claim_of (a : attempt_row) (holder : string) (v : claim_view) : Prop :=
  cl_project (cv_row v) = a_project a ∧ cl_node (cv_row v) = a_node a ∧ cl_driver (cv_row v) = holder ∧
  cl_attempt (cv_row v) = Some (a_id a) ∧ cl_status (cv_row v) = Live.

Lemma claim_after_moves actor a holder t r w p u s :
  bound_claims_of a holder s →
  wp (claim_after actor a holder t r w p u) (λ v s', bound_claims_of a holder s' ∧ claim_of a holder v) s.
Proof.
  intros Hb. unfold claim_after, new_claim_for. apply wp_bind. apply claims_kept; [frame_operation|]. intros s1 E1.
  apply wp_bind, wp_gets. cbv zeta. apply wp_bind, wp_uuid4. intros x. apply wp_bind.
  unfold add_claim at 1. apply wp_bind, wp_gets, wp_bind, wp_require. intros _. apply wp_modify.
  apply wp_bind. apply claims_kept; [frame_operation|]. intros s3 E3.
  apply wp_bind. apply claims_kept; [frame_operation|]. intros s4 E4. apply wp_ret. split; [|by split_and!].
  intros c Hc. rewrite E4, E3 in Hc. simpl in Hc. rewrite E1 in Hc.
  apply elem_of_app in Hc as [Hc|Hc%list_elem_of_singleton]; [by apply Hb|by subst].
Qed.
Lemma bind_held_moves actor a holder h t r s :
  claims_inv (claims s) → held_ok a s h → cl_driver h = holder → bound_claims_of a holder s →
  wp (bind_held_claim actor a h t r) (λ v s', bound_claims_of a holder s' ∧ claim_of a holder v) s.
Proof.
  intros Hs (Hin & [Hl _] & E1 & E2) Hd Hb. unfold bind_held_claim. apply wp_bind, wp_gets. cbv zeta.
  apply wp_bind, wp_modify.
  apply wp_bind. apply claims_kept; [frame_operation|]. intros s3 E3.
  apply wp_bind. apply claims_kept; [frame_operation|]. intros s4 E4. apply wp_ret. split; [|by split_and!].
  intros c Hc. rewrite E4, E3 in Hc. simpl in Hc. apply elem_of_update_where in Hc as (y & Hy & ->).
  case_bool_decide as Hid; [|by apply Hb]. intros _ _ _. simpl.
  by rewrite (claims_inv_id _ y h Hs Hy Hin Hid).
Qed.

Lemma move_claims_moves actor a holder t r l : ∀ held created s,
  claims_inv (claims s) → (∀ h, held = Some h → held_ok a s h ∧ cl_driver h = holder) →
  (∀ v, created = Some v → claim_of a holder v) → bound_claims_of a holder s →
  wp (move_claims actor a holder t r held created l) (λ v s', claims_inv (claims s') ∧ bound_claims_of a holder s' ∧
    (∀ h, v.1 = Some h → held_ok a s' h ∧ cl_driver h = holder) ∧ (∀ w, v.2 = Some w → claim_of a holder w)) s.
Proof.
  induction l as [|c l IH]; intros held created s Hs Hh Hv Hb; simpl; [by apply wp_ret|].
  assert (∀ w p u s, claims_inv (claims s) → bound_claims_of a holder s →
    wp (claim_after actor a holder t r w p u) (λ v s', claims_inv (claims s') ∧ (∃ c, claims s' = claims s ++ [c]) ∧
      bound_claims_of a holder s' ∧ claim_of a holder v) s) as Hnew.
  { intros w p u s0 Hs0 Hb0. eapply wp_mono; [apply wp_conj; [by apply new_claim_for_claims|by apply claim_after_moves]|].
    intros v s1 [[He Hc] [H1 H2]]. split_and!; [by apply He|done|done|done]. }
  apply wp_bind. apply (wp_mono _ (λ v s1, claims_inv (claims s1) ∧ bound_claims_of a holder s1 ∧
    claim_of a holder v.1 ∧ ∀ h, v.2 = Some h → held_ok a s1 h ∧ cl_driver h = holder)).
  - destruct held as [h|].
    + destruct (Hh h eq_refl) as [Hok Hdr]. destruct (EXCLUSIVE (cl_purpose c)); apply wp_bind.
      * eapply wp_mono; [apply wp_conj; [by apply bind_held_claims|by apply bind_held_moves]|].
        intros v s1 [He [H1 H2]]. apply wp_ret. split_and!; [by apply He|done|done|done].
      * eapply wp_mono; [by apply Hnew|]. intros v s1 (H1 & [d E] & H2 & H3). apply wp_ret. split_and!; try done.
        intros h' [= <-]. split; [|done]. destruct Hok as (Hin & ?). split; [|done]. rewrite E. apply elem_of_app. by left.
    + apply wp_bind. eapply wp_mono; [by apply Hnew|]. intros v s1 (H1 & _ & H2 & H3). apply wp_ret. by split_and!.
  - intros v s1 (H1 & H2 & H3 & H4). cbv beta zeta. apply IH; try done.
    intros w. destruct (_ || _); [by intros [= <-]|by apply Hv].
Qed.

Lemma transfer_moves actor a t r holder s :
  claims_inv (claims s) →
  wp (transfer_bound_claims actor a t r (Some holder)) (λ v s', bound_claims_of a holder s' ∧
    ∃ w, v.2 = Some w ∧ claim_of a holder w) s.
Proof.
  intros Hs. unfold transfer_bound_claims. apply wp_bind, wp_gets, wp_bind.
  eapply wp_mono; [apply wp_conj; [apply (stop_claims_run actor a t r (Some holder))|
    apply (keeps_for_each claim_evolution); intros; apply stop_claim_claims]|].
  intros ? s1 [[HF Hst] He]. cbv beta. destruct (He Hs) as [Hs1 _].
  assert (bound_claims_of a holder s1) as Hb1.
  { intros c Hc E1 E2 E3. exfalso. pose proof (stopped_all a t Transferred (claims s) (claims s1)) as Hm.
    specialize (Hm ltac:(done) HF Hst c Hc). unfold moves_with, is_live in Hm. rewrite E1, E2, E3 in Hm.
    rewrite !bool_decide_eq_true_2 in Hm by done. done. }
  apply wp_bind, wp_gets. cbv zeta. apply wp_bind, wp_gets, wp_bind.
  eapply wp_mono; [apply (move_claims_moves actor a holder)|]; [done| |done|done|].
  { intros h [Hin Hh]%select_one_Some. unfold on_node, is_live in Hh. bsimpl. by split_and!. }
  intros v s2 (Hs2 & Hb2 & Hh2 & Hv2). cbv beta. apply wp_bind.
  apply (wp_mono _ (λ v s3, bound_claims_of a holder s3 ∧ claim_of a holder v)).
  - destruct v as [[h|] [w|]]; simpl in *.
    + apply wp_ret. split; [done|by apply Hv2].
    + destruct (Hh2 h eq_refl). by apply bind_held_moves.
    + apply wp_ret. split; [done|by apply Hv2].
    + by apply claim_after_moves.
  - intros w s3 [H1 H2]. apply wp_ret. simpl. eauto.
Qed.
End ownership.

(** ** Attempts that end or change hands *)
Section attempts_owned.
Context `{Host} (env : environment).

Lemma voided aid t r s :
  wp (void_open_handoffs aid t r) (λ _ s', (∀ h, h ∈ handoffs s' → offer_of aid h = false) ∧
    s' = s <| handoffs := handoffs s' |>) s.
Proof.
  unfold void_open_handoffs. apply wp_bind, wp_gets, wp_bind, wp_modify, wp_ret. simpl. split; [|done].
  intros h (g & Hg & ->)%elem_of_update_where. destruct (offer_of aid g) eqn:E; [|done].
  unfold offer_of. simpl. by rewrite andb_false_r.
Qed.

(** What later writes of the same transaction leave alone. *)
Lemma untouched_wp2 {A} (m : M db A) (P : db → Prop) s :
  untouched attempts m → untouched claims m → untouched handoffs m → untouched nodes m →
  P s → (∀ s', attempts s' = attempts s → claims s' = claims s → handoffs s' = handoffs s → nodes s' = nodes s →
    P s → P s') → wp m (λ _ s', P s') s.
Proof.
  intros H1 H2 H3 H4 HP HPs.
  eapply wp_mono; [apply wp_conj; [apply H1|apply wp_conj; [apply H2|apply wp_conj; [apply H3|apply H4]]]|].
  intros a s' (E1 & E2 & E3 & E4). by apply HPs.
Qed.

(** One such write, [P] being kept. *)
Tactic Notation "kept_step" constr(P) ident(HP) :=
  apply wp_bind; eapply wp_mono; [by apply (untouched_wp2 _ P); [frame_operation..|by eauto|by eauto]|];
  clear HP; intros ? ? HP; cbv beta.

(** C22: an attempt is abandoned only while it is active and external, by a call that names
    its present fence, and only on the grounds the code gives (an admin; a lease with its
    grace behind; an unleased attempt with an override).  It then is [Abandoned] with a higher
    fence, no live claim is left that moves with it, and no offer of it stays open. *)
Theorem abandon_effect fs x aid e k r ref sha o s v s' :
  abandon_external_attempt env fs x aid e k r ref sha o s = Ok (v, s') →
  ∃ a kind over reason t,
    attempt_at s aid = Some a ∧ ACTIVE (a_status a) = true ∧ a_kind a = External ∧ e = JInt (a_fence a) ∧
    parse_abandon k = Some kind ∧ reclaim_ground env s x a over t false ∧
    attempt_at s' aid = Some (a <| a_status := Abandoned |> <| a_abandon := Some kind |> <| a_error := Some reason |>
      <| a_fence := (a_fence a + 1)%Z |> <| a_updated := t |>) ∧
    (∀ c, c ∈ claims s' → moves_with a c = false) ∧
    (∀ h, h ∈ handoffs s' → offer_of aid h = false) ∧ nodes s' = nodes s.
Proof.
  intros E. refine (wp_run _ (λ _ s', ∃ a kind over reason t, _) _ _ _ _ E). clear E.
  unfold abandon_external_attempt. apply wp_bind, wp_lift. intros reason _. apply wp_bind, wp_lift. intros over _.
  apply wp_bind, wp_get_some. intros kind Hk. apply wp_bind, wp_require. intros _. apply wp_bind, wp_lift.
  intros report _. apply wp_bind, wp_now. intros t. apply wp_bind, wp_attempt_at. intros a Ha _.
  apply wp_bind, wp_require. intros Hext%bool_decide_eq_true. apply wp_bind.
  eapply wp_mono; [apply wp_conj; [apply reclaimable_ground|apply wp_conj; [apply reclaimable_active|
    apply wp_conj; [apply (reclaimable_untouched env attempts)|apply wp_conj; [apply (reclaimable_untouched env claims)|
    apply wp_conj; [apply (reclaimable_untouched env handoffs)|apply (reclaimable_untouched env nodes)]]]]]; done|].
  intros checked s1 (Hg & [Hact He] & E1 & E2 & E3 & E4). simpl in E1, E2, E3, E4.
  apply wp_bind. eapply (wp_mono _ (λ _ s', attempts s' = attempts s ∧ claims s' = claims s ∧ nodes s' = nodes s)).
  { apply (untouched_wp2 _ (λ s', attempts s' = attempts s ∧ claims s' = claims s ∧ nodes s' = nodes s));
      [frame_operation..|by split_and!|].
    intros s0 F1 F2 F3 F4 (?&?&?). split_and!; congruence. }
  intros ? s2 (F1 & F2 & F4). apply wp_bind, wp_modify. set (s3 := s2 <| attempts ::= _ |>).
  assert (attempt_at s3 aid = Some (a <| a_status := Abandoned |> <| a_abandon := Some kind |>
    <| a_error := Some reason |> <| a_fence := (a_fence a + 1)%Z |> <| a_updated := t |>)) as Hnew.
  { unfold s3. apply (attempt_at_update s2 aid (λ r, r <| a_status := Abandoned |> <| a_abandon := Some kind |>
      <| a_error := Some reason |> <| a_fence := (a_fence a + 1)%Z |> <| a_updated := t |>)); [done|].
    rewrite (attempt_at_same s) by done. exact Ha. }
  apply wp_bind, wp_modify. set (s4 := s3 <| owners ::= _ |>). apply wp_bind.
  unfold transfer_bound_claims at 1. apply wp_bind, wp_gets, wp_bind.
  eapply wp_mono; [apply wp_conj; [apply (stop_claims_run _ a t _ None)|apply wp_conj;
    [apply (untouched_for_each attempts); intros; frame_operation|
     apply (untouched_for_each nodes); intros; frame_operation]]|].
  intros ? s5 ([HF Hst] & G1 & G4). cbv beta. apply wp_ret. apply wp_bind.
  eapply wp_mono; [apply voided|]. intros n s6 [Hv Es6]. cbv beta.
  assert (attempt_at s6 aid = attempt_at s3 aid ∧ claims s6 = claims s5 ∧ nodes s6 = nodes s) as (I1 & I2 & I4).
  { rewrite Es6. split_and!; [by apply (attempt_at_same s3)|done|]. simpl. by rewrite G4, <- F4. }
  apply (untouched_wp2 _ (λ s', ∃ a kind over reason t, _)); [frame_operation..| |].
  - exists a, kind, over, reason, t. split_and!; try done.
    + rewrite I1. exact Hnew.
    + intros c Hc. rewrite I2 in Hc. by apply (stopped_all a t Released (claims s4) (claims s5)).
  - intros s0 H1 H2 H3 H4 (a' & kind' & over' & reason' & t' & P).
    exists a', kind', over', reason', t'. by rewrite (attempt_at_same s6 s0), H2, H3, H4.
Qed.

(** Moving the claims to a new owner leaves the attempts, handoffs and nodes alone. *)
Lemma transfer_run actor a t r holder s :
  claims_inv (claims s) →
  wp (transfer_bound_claims actor a t r (Some holder)) (λ v s', bound_claims_of a holder s' ∧
    (∃ w, v.2 = Some w ∧ claim_of a holder w) ∧
    attempts s' = attempts s ∧ handoffs s' = handoffs s ∧ nodes s' = nodes s) s.
Proof.
  intros Hs. eapply wp_mono; [apply wp_conj; [by apply transfer_moves|apply claims_only_transfer]|].
  intros v s1 ([? ?] & t' & d & e & c & h & ->). by split_and!.
Qed.

(** The owner's writes on the attempt and its claims, at a state with the attempt of [s0]. *)
Lemma own_and_transfer actor aid driver a t r s :
  claims_inv (claims s) → attempt_at s aid = Some a →
  wp (update_attempt aid (own_attempt driver (a_fence a + 1) t);; transfer_bound_claims actor a t r (Some driver))
    (λ v s', attempt_at s' aid = Some (own_attempt driver (a_fence a + 1) t a) ∧ bound_claims_of a driver s' ∧
      (∃ w, v.2 = Some w ∧ claim_of a driver w) ∧ handoffs s' = handoffs s ∧ nodes s' = nodes s) s.
Proof.
  intros Hs Ha. apply wp_bind. unfold update_attempt. apply wp_modify.
  eapply wp_mono; [by apply transfer_run|]. intros v s1 (H1 & H2 & E1 & E2 & E3). split_and!; try done.
  rewrite (attempt_at_same _ s1 aid E1). by apply attempt_at_update.
Qed.

(** C21: an attempt is taken over only while it is active, by a named driver that is not its
    owner, is no shared identity and names the present fence, and only on the grounds the code
    gives (an admin, a lapsed lease, an unleased attempt with an override, an owner that is
    determinably offline to a fellow member).  The new owner then has the next fence and a
    fresh lease, every live claim of the attempt is the new owner's, it holds one, and no
    offer of the attempt stays open. *)
Theorem take_over_attempt_effect x aid e r o s v s' :
  reachable s → take_over_attempt env x aid e r o s = Ok (v, s') →
  ∃ a driver over t,
    attempt_at s aid = Some a ∧ ACTIVE (a_status a) = true ∧ e = JInt (a_fence a) ∧
    rr_driver x = Some driver ∧ a_owner a ≠ Some driver ∧ shared_identity driver = false ∧
    reclaim_ground env s x a over t true ∧
    attempt_at s' aid = Some (own_attempt driver (a_fence a + 1) t a) ∧
    bound_claims_of a driver s' ∧ (∃ w, rd_claim v = Some w ∧ claim_of a driver w) ∧
    (∀ h, h ∈ handoffs s' → offer_of aid h = false) ∧ nodes s' = nodes s.
Proof.
  intros Hs%reachable_claims E. refine (wp_run _ (λ v s', ∃ a driver over t, _) _ _ _ _ E). clear E v s'.
  unfold take_over_attempt. apply wp_bind, wp_lift. intros reason _. apply wp_bind, wp_lift. intros over _.
  apply wp_bind, wp_get_some. intros driver Hd%truthy_Some. apply wp_bind, wp_lift.
  intros [] Hsh%ensure_ok. bsimpl. apply wp_bind, wp_now. intros t. apply wp_bind, wp_attempt_at. intros a Ha _.
  apply wp_bind, wp_require. intros Hne. bsimpl. apply wp_bind.
  eapply wp_mono; [apply wp_conj; [apply reclaimable_ground|apply wp_conj; [apply reclaimable_active|
    apply wp_conj; [apply (reclaimable_untouched env attempts)|apply wp_conj; [apply (reclaimable_untouched env claims)|
    apply wp_conj; [apply (reclaimable_untouched env handoffs)|apply (reclaimable_untouched env nodes)]]]]]; done|].
  intros checked s1 (Hg & [Hact He] & E1 & E2 & E3 & E4). simpl in E1, E2, E3, E4. cbv zeta.
  apply wp_assoc, wp_bind. eapply wp_mono.
  { apply own_and_transfer; [by rewrite E2|]. rewrite (attempt_at_same s); [exact Ha|done]. }
  intros moved s2 (H1 & H2 & H3 & _ & H4). apply wp_bind. eapply wp_mono; [apply voided|].
  intros n s3 [Hv E5]. set (P := λ s' : db,
    attempt_at s' aid = Some (own_attempt driver (a_fence a + 1) t a) ∧ bound_claims_of a driver s' ∧
    (∀ h, h ∈ handoffs s' → offer_of aid h = false) ∧ nodes s' = nodes s).
  assert (P s3) as HP by (rewrite E5; split_and!; [exact H1|exact H2|exact Hv|simpl; by rewrite H4]).
  assert (∀ s0 s', attempts s' = attempts s0 → claims s' = claims s0 → handoffs s' = handoffs s0 →
    nodes s' = nodes s0 → P s0 → P s') as HPs.
  { intros s0 s' F1 F2 F3 F4 (G1 & G2 & G3 & G4). unfold P, bound_claims_of. rewrite F2, F3, F4.
    by rewrite (attempt_at_same s0). }
  do 4 kept_step P HP.
  apply wp_ret. destruct HP as (? & ? & ? & ?). exists a, driver, over, t. split_and!; try done.
Qed.

(** ** Handing over *)
(** The claim [new_claim_for] adds. *)
Definition fresh_claim (s : db) (c' : claim_row) : Prop :=
  cl_status c' = Live ∧ cl_fence c' = (1 + max_fence s (cl_project c') (cl_node c'))%Z.
Lemma new_claim_for_row actor aid p n v d t r w u l s :
  wp (new_claim_for actor aid p n v d t r w u l)
    (λ x s', claims s' = claims s ++ [cv_row x] ∧ fresh_claim s (cv_row x) ∧
       cl_project (cv_row x) = p ∧ cl_node (cv_row x) = n ∧ cl_driver (cv_row x) = d ∧ cl_purpose (cv_row x) = u ∧
       cl_workspace (cv_row x) = w ∧ cl_attempt (cv_row x) = aid) s.
Proof.
  unfold new_claim_for. apply wp_bind. apply claims_kept; [frame_operation|]. intros s1 E1.
  apply wp_bind, wp_gets. cbv zeta. apply wp_bind, wp_uuid4. intros x. apply wp_bind.
  unfold add_claim at 1. apply wp_bind, wp_gets, wp_bind, wp_require. intros _. apply wp_modify.
  apply wp_bind. apply claims_kept; [frame_operation|]. intros s3 E3.
  apply wp_bind. apply claims_kept; [frame_operation|]. intros s4 E4. apply wp_ret.
  unfold fresh_claim. rewrite E4, E3. simpl. unfold max_fence. rewrite E1. by split_and!.
Qed.

(** A row that changes its status keeps its fence. *)
Lemma max_fence_relabel p f (s s' : db) pid nk :
  claims s' = update_where p f (claims s) → (∀ c, cl_fence (f c) = cl_fence c) →
  (∀ c, cl_project (f c) = cl_project c ∧ cl_node (f c) = cl_node c) →
  (1 + max_fence s' pid nk = 1 + max_fence s pid nk)%Z.
Proof.
  intros E Hf Hn. unfold max_fence. rewrite E, select_update_where.
  2: { intros c _. unfold on_node. by destruct (Hn c) as [-> ->]. }
  do 2 f_equal. unfold update_where. rewrite <- list_fmap_compose. apply list_fmap_ext.
  intros i c _. simpl. by destruct (p c).
Qed.

(** What accepting did to the subject of the offer. *)
Definition attempt_handed (h : handoff_row) (aid driver : string) (e : json) (t : Z) (s s' : db) : Prop :=
  ∃ a, attempt_at s aid = Some a ∧ ACTIVE (a_status a) = true ∧ a_owner a = Some (hf_from h) ∧
    a_fence a = hf_fence h ∧ py_eq_int e (a_fence a) = true ∧
    attempt_at s' aid = Some (own_attempt driver (a_fence a + 1) t a) ∧
    bound_claims_of a driver s' ∧ ∃ w, claim_of a driver w.
Definition claim_handed (h : handoff_row) (pid cid driver : string) (e : json) (t : Z) (s s' : db) : Prop :=
  ∃ c c', c ∈ claims s ∧ cl_id c = cid ∧ cl_status c = Live ∧ cl_driver c = hf_from h ∧
    cl_fence c = hf_fence h ∧ py_eq_int e (cl_fence c) = true ∧
    claims s' = update_where (λ d, bool_decide (cl_id d = cid))
                  (λ d, d <| cl_status := Transferred |> <| cl_updated := t |>) (claims s) ++ [c'] ∧
    fresh_claim s c' ∧ cl_project c' = pid ∧ cl_node c' = cl_node c ∧ cl_driver c' = driver ∧
    cl_purpose c' = cl_purpose c ∧ cl_workspace c' = cl_workspace c ∧ cl_attempt c' = cl_attempt c.
Definition handed (h : handoff_row) (pid driver : string) (e : json) (t : Z) (s s' : db) : Prop :=
  match hf_attempt h, hf_claim h with
  | Some aid, _ => attempt_handed h aid driver e t s s'
  | None, Some cid => claim_handed h pid cid driver e t s s'
  | None, None => False
  end.

Lemma handed_same h pid driver e t s s1 s2 :
  attempts s2 = attempts s1 → claims s2 = claims s1 → handed h pid driver e t s s1 → handed h pid driver e t s s2.
Proof.
  intros E1 E2. unfold handed, attempt_handed, claim_handed, bound_claims_of.
  destruct (hf_attempt h) as [aid|].
  - by rewrite E2, (attempt_at_same s1 s2).
  - destruct (hf_claim h); [by rewrite E2|done].
Qed.

Lemma accept_attempt_run actor driver pid hid aid h e t s :
  claims_inv (claims s) →
  wp (accept_attempt actor driver pid hid aid h e t)
    (λ _ s', attempt_handed h aid driver e t s s' ∧ handoffs s' = handoffs s ∧ nodes s' = nodes s) s.
Proof.
  intros Hs. unfold accept_attempt. apply wp_bind, wp_attempt_at. intros a Ha _.
  apply wp_bind, wp_require. intros Hact. apply wp_bind, wp_require. intros Hg. bsimpl.
  apply wp_bind, wp_gets. cbv zeta. apply wp_assoc, wp_bind. eapply wp_mono; [by apply own_and_transfer|].
  intros m s1 (K1 & K2 & (w & _ & K3) & E3 & E4). set (P := λ s' : db,
    attempt_at s' aid = Some (own_attempt driver (a_fence a + 1) t a) ∧ bound_claims_of a driver s' ∧
    handoffs s' = handoffs s ∧ nodes s' = nodes s).
  assert (∀ s0 s', attempts s' = attempts s0 → claims s' = claims s0 → handoffs s' = handoffs s0 →
    nodes s' = nodes s0 → P s0 → P s') as HPs.
  { intros s0 s' F1 F2 F3 F4 (G1 & G2 & G3 & G4). unfold P, bound_claims_of. rewrite F2, F3, F4.
    by rewrite (attempt_at_same s0). }
  assert (P s1) as HP by done.
  do 3 kept_step P HP.
  apply wp_ret. destruct HP as (? & ? & ? & ?). split; [|done]. exists a. split_and!; by try exists w.
Qed.

Lemma accept_claim_run actor driver pid hid cid h e t s :
  wp (accept_claim actor driver pid hid cid h e t)
    (λ _ s', claim_handed h pid cid driver e t s s' ∧ handoffs s' = handoffs s ∧ nodes s' = nodes s) s.
Proof.
  unfold accept_claim. apply wp_bind, wp_gets, wp_bind, wp_get_some. intros c [Hc Hid]%select_one_Some. bsimpl.
  apply wp_bind, wp_require. intros Hg. unfold is_live in Hg. bsimpl. apply wp_bind, wp_modify.
  set (s1 := s <| claims ::= _ |>).
  set (P := λ s', claims s' = claims s1 ∧ handoffs s' = handoffs s ∧ nodes s' = nodes s).
  assert (∀ s0 s', claims s' = claims s0 → handoffs s' = handoffs s0 → nodes s' = nodes s0 → P s0 → P s') as HPs.
  { intros s0 s' F1 F2 F3 (G1 & G2 & G3). unfold P. by rewrite F1, F2, F3. }
  assert (P s1) as HP by done.
  do 2 kept_step P HP.
  apply wp_bind. eapply wp_mono; [apply wp_conj; [apply new_claim_for_row|apply claims_only_new_claim]|].
  intros x s3 [(F1 & F2 & F3) (? & ? & ? & ? & ? & ->)]. apply wp_ret. destruct HP as (G1 & G2 & G3).
  split; [|by split]. exists c, (cv_row x). split_and!; try (done || by apply F3).
  - simpl. simpl in F1. rewrite F1, G1. unfold s1. simpl. by subst cid.
  - destruct F2 as [F2 F4]. split; [done|]. rewrite F4. by eapply max_fence_relabel; [exact G1|..].
Qed.

(** The row of the result: the offer, decided. *)
Definition accepted (driver : string) (t : Z) (h : handoff_row) : handoff_row :=
  h <| hf_status := HandoffAccepted |> <| hf_decided := Some driver |> <| hf_reason := Some "accepted" |>
    <| hf_updated := t |>.
Lemma open_offer_ok h t : open_offer h t = Ok tt → hf_status h = Offered ∧ (t < hf_expires h)%Z.
Proof.
  unfold open_offer, handoff_view_of. simpl. destruct (_ && _) eqn:E; [done|].
  destruct (hf_status h) eqn:Es; try done. intros _. rewrite bool_decide_eq_true_2 in E by done. simpl in E.
  split; [done|lia].
Qed.
Lemma wp_handoff_at pid hid (Q : handoff_row → db → Prop) s :
  (∀ h, select_one (λ h, bool_decide (hf_id h = hid) && bool_decide (hf_project h = pid)) (handoffs s) = Some h →
     Q h s) → wp (handoff_at pid hid) Q s.
Proof.
  intros HQ. unfold handoff_at. apply wp_bind, wp_lift. intros x [E _]%key_ok. injection E as <-.
  apply wp_bind, wp_gets, wp_get_some. exact HQ.
Qed.

(** C23: only the driver an open, unexpired offer is made to accepts it, and only while its
    subject is what was offered: the offerer's, live, at the offered fence, which the call
    names.  The attempt then is the accepter's with the next fence and all its live claims;
    or the claim is [Transferred] and the accepter has a new one of the same node, purpose and
    workspace, fenced above every claim of the node. *)
Theorem accept_handoff_effect actor d pid hid e s v s' :
  reachable s → accept_handoff actor d pid hid e s = Ok (v, s') →
  ∃ h driver t, d = Some driver ∧ h ∈ handoffs s ∧ hf_id h = hid ∧ hf_project h = pid ∧
    hf_status h = Offered ∧ (t < hf_expires h)%Z ∧ hf_to h = driver ∧ hf_from h ≠ driver ∧
    handed h pid driver e t s s' ∧ nodes s' = nodes s ∧
    hv_row (hr_view v) = accepted driver t h ∧ accepted driver t h ∈ handoffs s'.
Proof.
  intros Hs%reachable_claims E. refine (wp_run _ (λ v s', ∃ h driver t, _) _ _ _ _ E). clear E v s'.
  unfold accept_handoff. apply wp_bind, wp_lift. intros driver Hd.
  assert (d = Some driver) as ->.
  { unfold require_handoff_driver in Hd. destruct (truthy d) eqn:Ht; [|done]. injection Hd as ->. by apply truthy_Some. }
  clear Hd. apply wp_bind, wp_now. intros t. apply wp_bind, wp_handoff_at. intros h Hsel. simpl in Hsel.
  pose proof Hsel as [Hh Hk]%select_one_Some. bsimpl.
  apply wp_bind, wp_lift. intros [] Hel. apply wp_bind, wp_lift. intros [] [Hopen Hexp]%open_offer_ok.
  assert (hf_to h = driver ∧ hf_from h ≠ driver) as [Hto Hne].
  { unfold eligible_target in Hel. apply res_bind_ok in Hel as ([] & E1%ensure_ok & E2%ensure_ok). by bsimpl. }
  apply wp_bind. set (s1 := s <| ticks ::= _ |>).
  apply (wp_mono _ (λ _ s2, handed h pid driver e t s s2 ∧ handoffs s2 = handoffs s ∧ nodes s2 = nodes s)).
  { unfold handed. destruct (hf_attempt h) as [aid|]; [by apply (accept_attempt_run _ _ _ _ _ _ _ _ s1)|].
    destruct (hf_claim h) as [cid|]; [by apply (accept_claim_run _ _ _ _ _ _ _ _ s1)|done]. }
  intros moved s2 (K1 & K2 & K3). apply wp_bind, wp_modify. set (s3 := s2 <| handoffs ::= _ |>).
  set (P := λ s' : db, handed h pid driver e t s s' ∧ handoffs s' = handoffs s3 ∧ nodes s' = nodes s).
  assert (∀ s0 s', attempts s' = attempts s0 → claims s' = claims s0 → handoffs s' = handoffs s0 →
    nodes s' = nodes s0 → P s0 → P s') as HPs.
  { intros s0 s' F1 F2 F3 F4 (G1 & G2 & G3). unfold P. rewrite F3, F4. split; [|done].
    by apply (handed_same h pid driver e t s s0). }
  assert (P s3) as HP by done. kept_step P HP.
  apply wp_bind, wp_handoff_at. intros h' Hsel'. apply wp_ret. destruct HP as (G1 & G2 & G3).
  rewrite G2 in Hsel'. unfold s3 in Hsel'. simpl in Hsel'.
  rewrite K2, select_one_update_where, Hsel in Hsel' by done. simpl in Hsel'.
  rewrite bool_decide_eq_true_2 in Hsel' by done. injection Hsel' as <-.
  exists h, driver, t. split_and!; try done. rewrite G2. unfold s3. simpl. rewrite K2.
  apply elem_of_update_where. exists h. by rewrite bool_decide_eq_true_2.
Qed.

(** ** Claims of offline drivers *)
Lemma wp_claim_at pid cid (Q : claim_row → db → Prop) s :
  (∀ c, c ∈ claims s → cl_id c = cid → cl_project c = pid → Q c s) → wp (claim_at pid cid) Q s.
Proof.
  intros HQ. unfold claim_at. apply wp_bind, wp_lift. intros x [E _]%key_ok. injection E as <-.
  apply wp_bind, wp_gets, wp_get_some. intros c [Hc Hk]%select_one_Some. bsimpl. by apply HQ.
Qed.
Lemma swept_fences t l l' (p : claim_row → bool) :
  (∀ c c', swept_row t c c' → p c' = p c) → Forall2 (swept_row t) l l' →
  cl_fence <$> select p l' = cl_fence <$> select p l.
Proof.
  intros Hp. induction 1 as [|c c' l l' Hc HF IH]; [done|]. simpl. rewrite (Hp _ _ Hc).
  destruct (p c); [|done]. csimpl. rewrite IH. by destruct Hc as [->| ->].
Qed.

(** What [move_taken] writes. *)
Lemma move_taken_run actor driver k hash r t old n p s :
  wp (move_taken actor driver k hash r t old n p) (λ v s', ∃ cid,
    v = (old <| cl_status := TakenOver |> <| cl_updated := t |>,
         taken_claim old n driver k hash t (1 + max_fence s (cl_project old) (cl_node old)) cid) ∧
    claims s' = update_where (λ c, bool_decide (cl_id c = cl_id old))
      (λ c, c <| cl_status := TakenOver |> <| cl_updated := t |>) (claims s) ++ [v.2]) s.
Proof.
  unfold move_taken. cbv zeta. apply wp_bind, wp_modify. set (s1 := s <| claims ::= _ |>).
  assert (∀ s2, claims s2 = claims s1 →
    (1 + max_fence s2 (cl_project old) (cl_node old) = 1 + max_fence s (cl_project old) (cl_node old))%Z) as Hm.
  { intros s2 E2. by eapply max_fence_relabel; [exact E2|..]. }
  apply wp_bind. apply claims_kept; [frame_operation|]. intros s2 E2.
  apply wp_bind, wp_gets, wp_bind, wp_uuid4. intros u. apply wp_bind.
  unfold add_claim at 1. apply wp_bind, wp_gets, wp_bind, wp_require. intros _. apply wp_modify.
  rewrite (Hm s2 E2). do 3 (apply wp_bind; apply claims_kept; [frame_operation|];
    let s := fresh "s" in let E := fresh "E" in intros s E).
  apply wp_ret. eexists. split; [reflexivity|]. simpl. rewrite E1, E0, E. simpl. by rewrite E2.
Qed.

(** What a takeover of [old] by [driver] leaves: the old row, and the new claim above all others. *)
Record claim_taken (old : claim_row) (driver : string) (s s' : db) (old' new : claim_row) : Prop := ClaimTaken {
  ct_old : ∃ t, old' = old <| cl_status := TakenOver |> <| cl_updated := t |>;
  ct_gone : old' ∈ claims s' ∧ ∀ c, c ∈ claims s' → cl_id c = cl_id old → c = old';
  ct_new : new ∈ claims s';
  ct_same : same_node new old ∧ cl_driver new = driver ∧ cl_purpose new = cl_purpose old ∧
    cl_workspace new = cl_workspace old ∧ cl_lease new = cl_lease old ∧ cl_status new = Live;
  ct_fence : ∀ c, c ∈ claims s → same_node c new → (cl_fence c < cl_fence new)%Z;
}.

Lemma swept_wp actor pid t nk s : wp (sweep_conn actor pid t nk) (λ _ s', swept pid t nk s s') s.
Proof.
  pose proof (sweep_conn_run actor pid t nk s) as Hr. unfold twp, wp in *.
  destruct (sweep_conn _ _ _ _ _) as [[xs s']|]; [apply Hr|done].
Qed.

(** C24: the claim of another driver is taken over only by an active member of the project
    that is no shared identity, while the claim is live at the fence the call names, its node
    is open, and its owner is offline and determinably so.  The old claim is [TakenOver]; the
    caller has a live one of the same node, purpose, workspace and lease, fenced above every
    claim of the node; attempts and nodes stay, and the active attempts are returned. *)
Theorem take_over_claim_effect actor d pid cid e r k s v s' :
  reachable s → take_over_claim env actor d pid cid e r k s = Ok (v, s') → tk_idempotent v = false →
  ∃ driver old n t, d = Some driver ∧ old ∈ claims s ∧ cl_id old = cid ∧ cl_project old = pid ∧
    cl_status old = Live ∧ e = JInt (cl_fence old) ∧ cl_driver old ≠ driver ∧
    shared_identity driver = false ∧ active_member s pid driver = true ∧
    owner_is_offline (effective_presence env s (cl_driver old) t) = true ∧
    nodes s !! (pid, cl_node old) = Some n ∧ takeover_closed old n = false ∧
    claim_taken old driver s s' (cv_row (tk_taken v)) (cv_row (tk_claim v)) ∧
    attempts s' = attempts s ∧ nodes s' = nodes s ∧
    tk_attempts v = select (λ a, bool_decide (a_project a = pid) && bool_decide (a_node a = cl_node old)
                                 && ACTIVE (a_status a)) (attempts s).
Proof.
  intros Hs%reachable_claims E.
  destruct (wp_run _ _ _ _ _ (take_over_claim_claims env actor d pid cid e r k s) E Hs) as [Hs' _].
  assert (untouched attempts (take_over_claim env actor d pid cid e r k)) as Ua by frame_operation.
  assert (untouched nodes (take_over_claim env actor d pid cid e r k)) as Un by frame_operation.
  pose proof (wp_run _ _ _ _ _ (Ua s) E) as Ea. pose proof (wp_run _ _ _ _ _ (Un s) E) as En. clear Ua Un.
  revert Ea En Hs'. refine (wp_run _ (λ v s', _ → _ → _ → tk_idempotent v = false → ∃ driver old n t, _) _ _ _ _ E).
  clear E v s'.
  unfold take_over_claim. apply wp_bind. eapply wp_mono; [apply require_driver_run|].
  intros driver ? (-> & -> & _). apply wp_bind, wp_lift. intros [] Hsh%ensure_ok. bsimpl.
  apply wp_bind, wp_lift. intros reason _. apply wp_bind, wp_require. intros _.
  do 2 (apply wp_bind, wp_lift; intros ? _). apply wp_bind, wp_get_some. intros fence Hf. cbv zeta.
  apply wp_bind, wp_project. intros row _ _. apply wp_bind, wp_now. intros t. apply wp_bind, wp_gets.
  destruct (select_one _ _) as [c|].
  { apply wp_bind, wp_require. intros _. apply wp_bind, wp_claim_at. intros. by apply wp_ret. }
  apply wp_bind, wp_claim_at. intros old0 Hold0 Hid0 _. apply wp_bind, wp_gets, wp_bind, wp_require. intros Hm.
  apply wp_bind, wp_require. intros Hne. bsimpl. apply wp_bind.
  eapply wp_mono; [apply swept_wp|]. intros ? s2 Hsw. cbv beta. apply wp_bind, wp_claim_at.
  intros old Hold Hid Hpid. apply wp_bind, wp_require. intros Hfence%bool_decide_eq_true.
  apply wp_bind, wp_require. intros Hl. unfold is_live in Hl. bsimpl. apply wp_bind, wp_node. intros n Hn _ _.
  apply wp_bind, wp_require. intros Hcl. bsimpl. apply wp_bind, wp_presence_at. intros t'.
  apply wp_bind, wp_require. intros Hoff.
  (* the sweep left the live row, the presence facts and the fences *)
  pose proof (sw_rest _ _ _ _ _ Hsw) as Er. pose proof (sw_rows _ _ _ _ _ Hsw) as HF.
  destruct (swept_rows_elem _ _ _ _ HF Hold) as (old1 & Hin & Hrow).
  pose proof (swept_row_live _ _ _ Hrow Hl) as <-. clear Hrow.
  set (s3 := s2 <| ticks ::= S |>) in *.
  assert (nodes s !! (pid, cl_node old) = Some n) as Hn' by (rewrite Er in Hn; exact Hn).
  assert (owner_is_offline (effective_presence env s (cl_driver old) t') = true) as Hoff'.
  { rewrite Er in Hoff. exact Hoff. }
  assert (attempts s3 = attempts s) as Ea3 by (unfold s3; rewrite Er; done).
  apply wp_bind. eapply wp_mono; [apply wp_conj; [apply move_taken_run|
    apply (untouched_at attempts); frame_operation]|].
  intros moved s4 [(ncid & -> & Ec) Ea4]. cbv beta. simpl in Ec. apply wp_bind, wp_gets, wp_bind.
  eapply wp_mono; [apply (untouched_at claims); frame_operation|]. intros notice s5 Ec5. cbv beta. apply wp_ret.
  intros Ea En Hs' _. exists driver, old, n, t'. rewrite Ea4, Ea3. split_and!; try done.
  - by destruct e; simplify_eq.
  - rewrite (claims_inv_id (claims s) old old0); [done..|congruence].
  - simpl. set (old' := old <| cl_status := TakenOver |> <| cl_updated := t |>).
    set (new := taken_claim _ _ _ _ _ _ _ _) in *.
    assert (old' ∈ claims s5) as Hold'.
    { rewrite Ec5, Ec. apply elem_of_app. left. apply elem_of_update_where. exists old.
      by rewrite bool_decide_eq_true_2. }
    split; [by exists t| |rewrite Ec5, Ec; apply elem_of_app; right; by apply list_elem_of_singleton|by split_and!|].
    + split; [done|]. intros c Hc Hcid. by apply (claims_inv_id (claims s5)).
    + intros c Hc [E1 E2]. pose proof (swept_fences _ _ _ (on_node (cl_project old) (cl_node old))
        ltac:(by intros ? ? [->| ->]) HF) as Hfs.
      assert (cl_fence c ≤ max_fence s3 (cl_project old) (cl_node old))%Z as Hle; [|unfold new; simpl; lia].
      unfold max_fence, s3. simpl. rewrite Hfs. apply (max_fence_spec s); [done|]. by apply on_node_true.
Qed.
End attempts_owned.

(** ** Fencing *)
Section fencing.
Context `{Host}.

(** The row of an attempt in a later state. *)
Lemma attempt_later s s' aid a :
  reachable s → rtc step s s' → attempt_at s aid = Some a →
  ∃ a', attempt_at s' aid = Some a' ∧ attempt_step false a a'.
Proof.
  intros Hs%reachable_attempts Hss Ha. destruct (steps_evolve s s' Hss Hs) as (Hs' & l1 & l2 & E & HF).
  pose proof Ha as [Hin Hid]%select_one_Some. bsimpl. apply list_elem_of_lookup in Hin as [i Hi].
  destruct (Forall2_lookup_l _ _ _ _ _ HF Hi) as (a' & Hi' & Hst).
  assert (a_id a' = a_id a) as Hid' by (pose proof (st_identity _ _ _ Hst); unfold attempt_identity in *; congruence).
  exists a'. split; [|done].
  assert (a' ∈ attempts s') as Hin' by (rewrite E; apply elem_of_app; left; by eapply list_elem_of_lookup_2).
  destruct (attempt_at s' aid) as [b|] eqn:Hb.
  - apply select_one_Some in Hb as [Hb Hbid]. bsimpl. f_equal. apply (attempts_inv_id (attempts s')); [done..|congruence].
  - exfalso. pose proof (proj1 (select_one_None _ _) Hb a' Hin'). simpl in *. bsimpl. congruence.
Qed.

Lemma stale_report s x a f :
  (0 ≤ f)%Z → (f < a_fence a)%Z → a_status a ≠ Abandoned → ∃ e, authorize_report s x a (Some f) = Err e.
Proof.
  intros H0 Hf Hst. unfold authorize_report.
  rewrite (bool_decide_eq_false_2 (a_status a = Abandoned)) by done.
  rewrite (bool_decide_eq_false_2 (f = a_fence a)), (bool_decide_eq_false_2 (a_fence a = 0%Z)) by lia.
  destruct (actor_continues (a_reporter a) (rp_actor x)), (a_owner a), (rp_driver x); simpl;
    repeat case_bool_decide; eexists; reflexivity.
Qed.

(** C8: the fence of an attempt never falls, and rises whenever the owner changes.  Once it
    has risen, no observation that names the old fence is recorded any more while the attempt
    is not abandoned: a former owner cannot write. *)
Theorem former_owner_fenced s s' aid a :
  reachable s → rtc step s s' → attempt_at s aid = Some a → (0 ≤ a_fence a)%Z →
  ∃ a', attempt_at s' aid = Some a' ∧ (a_fence a ≤ a_fence a')%Z ∧
    (a_owner a' ≠ a_owner a → (a_fence a < a_fence a')%Z) ∧
    ((a_fence a < a_fence a')%Z → a_status a' ≠ Abandoned →
     ∀ x g c st, g_attempt g = aid → g_fence g = Some (a_fence a) → is_ok (observe_commit x g c st s') = false).
Proof.
  intros Hs Hss Ha H0. destruct (attempt_later s s' aid a Hs Hss Ha) as (a' & Ha' & Hst).
  exists a'. split; [done|]. destruct (st_owner _ _ _ Hst) as [[E1 E2]|Hlt].
  - rewrite E1, E2. split_and!; [lia|done|lia].
  - split_and!; [lia|done|]. intros _ Hab x g c st Hg Hf.
    assert (wp (observe_commit x g c st) (λ _ _, False) s') as Hw; [|unfold wp in Hw; by destruct (observe_commit _ _ _ _ _) as [[]|]].
    unfold observe_commit. apply wp_bind. eapply wp_mono; [apply (untouched_at attempts); frame_operation|].
    intros ? s1 E1. cbv beta. apply wp_bind, wp_attempt_at. intros b Hb _. rewrite Hg, (attempt_at_same s' s1) in Hb by done.
    simplify_eq. apply wp_bind, wp_require. intros _. apply wp_bind, wp_gets, wp_bind, wp_lift. intros late Hl.
    exfalso. rewrite Hf in Hl. destruct (stale_report s1 x a' (a_fence a) H0 Hlt Hab) as [e He]. unfold id in Hl. congruence.
Qed.
End fencing.

(** ** Instances *)
Definition abandoning : M db reclaimed :=
  abandon_external_attempt sample_env sample_archive (Reclaimer "admin" None true) attempt_b (JInt 1)
    (JStr "unknown") (JStr "nobody answers") None None JNull.
Lemma abandon_effect_witness : ∃ v a,
  abandoning s_external = Ok (v, after abandoning s_external) ∧ attempt_at s_external attempt_b = Some a ∧
  (∃ b, attempt_at (after abandoning s_external) attempt_b = Some b ∧ a_status b = Abandoned ∧
    a_fence b = (a_fence a + 1)%Z) ∧
  ∀ c, c ∈ claims (after abandoning s_external) → moves_with a c = false.
Proof.
  assert (∃ v, abandoning s_external = Ok (v, after abandoning s_external)) as [v E] by (returns r E; by exists r).
  unfold abandoning in *. destruct (abandon_effect _ _ _ _ _ _ _ _ _ _ _ _ _ E)
    as (a & kind & over & reason & t & Ha & _ & _ & _ & _ & _ & Hb & Hc & _).
  exists v, a. split; [exact E|]. split; [exact Ha|]. split; [|exact Hc]. eexists. split; [exact Hb|]. by split.
Defined.

Definition taking_over : M db reclaimed :=
  take_over_attempt sample_env (Reclaimer "driver:e" (Some "e") false) attempt_b (JInt 1)
    (JStr "the owner is away") JNull.
Lemma take_over_attempt_effect_witness : ∃ v a t,
  taking_over s_away = Ok (v, after taking_over s_away) ∧ attempt_at s_away attempt_b = Some a ∧
  attempt_at (after taking_over s_away) attempt_b = Some (own_attempt "e" (a_fence a + 1) t a) ∧
  bound_claims_of a "e" (after taking_over s_away).
Proof.
  assert (∃ v, taking_over s_away = Ok (v, after taking_over s_away)) as [v E] by (returns r E; by exists r).
  unfold taking_over in *. destruct (take_over_attempt_effect _ _ _ _ _ _ _ _ _ reachable_away E)
    as (a & driver & over & t & Ha & _ & _ & [= <-] & _ & _ & _ & Hb & Hc & _).
  exists v, a, t. by split_and!.
Defined.

Definition accepting : M db handoff_result :=
  accept_handoff "driver:e" (Some "e") "demo" offer_b (JInt 1).
Lemma accept_handoff_effect_witness : ∃ v h t,
  accepting s_offered = Ok (v, after accepting s_offered) ∧ h ∈ handoffs s_offered ∧ hf_id h = offer_b ∧
  handed h "demo" "e" (JInt 1) t s_offered (after accepting s_offered).
Proof.
  assert (∃ v, accepting s_offered = Ok (v, after accepting s_offered)) as [v E] by (returns r E; by exists r).
  unfold accepting in *. destruct (accept_handoff_effect _ _ _ _ _ _ _ _ reachable_offered E)
    as (h & driver & t & [= <-] & Hh & Hid & _ & _ & _ & _ & _ & Hm & _).
  exists v, h, t. by split_and!.
Defined.

Definition taking_claim : M db takeover_result :=
  take_over_claim sample_env "driver:e" (Some "e") "demo" claim_b (JInt 1)
    (JStr "the owner has gone away for the week") "tk".
Lemma take_over_claim_effect_witness : ∃ v old,
  taking_claim s_away = Ok (v, after taking_claim s_away) ∧ cl_id old = claim_b ∧
  claim_taken old "e" s_away (after taking_claim s_away) (cv_row (tk_taken v)) (cv_row (tk_claim v)).
Proof.
  assert (∃ v, taking_claim s_away = Ok (v, after taking_claim s_away) ∧ tk_idempotent v = false) as (v & E & Hi)
    by (eexists; split; [vm_compute; reflexivity|reflexivity]).
  unfold taking_claim in *. destruct (take_over_claim_effect _ _ _ _ _ _ _ _ _ _ _ reachable_away E Hi)
    as (driver & old & n & t & [= <-] & _ & Hid & _ & _ & _ & _ & _ & _ & _ & _ & _ & Hc & _).
  exists v, old. by split_and!.
Defined.

(** After the takeover a report with the old fence is refused. *)
Lemma former_owner_fenced_witness :
  is_ok (observe_commit harness (parsed report_running) (gathered report_running) (Ok tt) (after taking_over s_away))
    = false.
Proof.
  assert (∃ a, attempt_at s_away attempt_b = Some a) as [a Ha] by (eexists; vm_compute; reflexivity).
  assert (rtc step s_away (after taking_over s_away)) as Hss.
  { unfold taking_over. apply steps_after; [apply op_take_over_attempt|apply rtc_refl]. }
  assert (a_fence a = 1%Z) as Hf.
  { assert (a_fence <$> attempt_at s_away attempt_b = Some 1%Z) as E by (vm_compute; reflexivity).
    rewrite Ha in E. by injection E. }
  destruct (former_owner_fenced s_away _ attempt_b a reachable_away Hss Ha) as (a' & Ha' & _ & _ & Hw).
  { rewrite Hf. done. }
  assert ((λ a, (a_fence a, a_status a)) <$> attempt_at (after taking_over s_away) attempt_b = Some (2%Z, Running))
    as E by (vm_compute; reflexivity).
  rewrite Ha' in E. injection E as E1 E2. apply Hw; [lia|by rewrite E2|reflexivity|by rewrite Hf].
Defined.
