(* ===== verification/RegistryProperties.v ===== *)
(** * Who may drive, with which credential

    In every reachable registry a token digest belongs to one driver, credentials fit
    the kind of their driver, and memberships name drivers; a retired driver stays
    retired; a token authenticates exactly the active driver that holds it. *)
From S2P Require Import Prelude Json Text Dag Store Graph History Portfolio Presence Claims.
From S2P Require Import Enforcement Review Attempts Evidence External Registry Inbox Issues Design.
From S2P Require Import Takeover Recovery Handoffs View Ledger System Returns Sample.

(** ** The invariant *)
Record driver_ok (d : string) (r : driver_row) : Prop := DriverOk {
  do_id : DRIVER_ID d = true;
  do_public : drv_kind r = PublicCf ↔ d = PUBLIC_DRIVER_ID;
  do_token : drv_kind r = Lan ↔ is_Some (drv_token r);
  do_admin : drv_admin r = true → drv_kind r = Lan;
  do_revision : (1 ≤ drv_revision r)%Z;
  do_retired : drv_status r = DriverRetired → drv_kind r = Lan;
}.
Definition member_key (m : member_row) : string * string := (mb_project m, mb_driver m).
Record registry_inv (s : db) : Prop := RegistryInv {
  ri_rows : ∀ d r, drivers s !! d = Some r → driver_ok d r;
  ri_token : ∀ d d' r r' t, drivers s !! d = Some r → drivers s !! d' = Some r' →
    drv_token r = Some t → drv_token r' = Some t → d = d';
  ri_members : NoDup (member_key <$> members s);
  ri_known : ∀ m, m ∈ members s → is_Some (drivers s !! mb_driver m) ∧ (1 ≤ mb_revision m)%Z;
}.

(** What an operation may do to a driver's row. *)
Record driver_step (r r' : driver_row) : Prop := DriverStep {
  ds_fixed : drv_kind r' = drv_kind r ∧ drv_name r' = drv_name r ∧ drv_host r' = drv_host r ∧
    drv_capabilities r' = drv_capabilities r ∧ drv_created r' = drv_created r;
  ds_revision : (drv_revision r ≤ drv_revision r')%Z;
  ds_same : drv_revision r' = drv_revision r → r' = r <| drv_seen := drv_seen r' |>;
  ds_retired : drv_status r = DriverRetired → drv_status r' = DriverRetired;
}.
#[export] Instance driver_step_preorder : PreOrder driver_step.
Proof.
  split.
  - intros r. split; try done. intros _. by destruct r.
  - intros r1 r2 r3 [F1 R1 S1 T1] [F2 R2 S2 T2]. split.
    + destruct F1 as (?&?&?&?&?), F2 as (?&?&?&?&?). split_and!; congruence.
    + lia.
    + intros E. rewrite S2 at 1 by lia. by rewrite (S1 ltac:(lia)).
    + auto.
Qed.
(** What it may do to the memberships: rows keep their place, and change with a higher revision. *)
Definition member_step (m m' : member_row) : Prop :=
  member_key m' = member_key m ∧ (mb_revision m ≤ mb_revision m')%Z ∧ (mb_revision m' = mb_revision m → m' = m).
#[export] Instance member_step_preorder : PreOrder member_step.
Proof.
  split; [by intros m; repeat split|]. intros m1 m2 m3 (E1 & L1 & S1) (E2 & L2 & S2).
  split_and!; [congruence|lia|]. intros E. rewrite S2 by lia. apply S1. lia.
Qed.

Record registry_step (s s' : db) : Prop := RegistryStep {
  rs_inv : registry_inv s';
  rs_drivers : ∀ d r, drivers s !! d = Some r → ∃ r', drivers s' !! d = Some r' ∧ driver_step r r';
  rs_members : ∃ l1 l2, members s' = l1 ++ l2 ∧ Forall2 member_step (members s) l1;
}.
Definition registry_evolution (s s' : db) : Prop := registry_inv s → registry_step s s'.
#[export] Instance registry_evolution_preorder : PreOrder registry_evolution.
Proof.
  split.
  - intros s Hs. split; [done| |].
    + intros d r Hr. by exists r.
    + exists (members s), []. by rewrite app_nil_r.
  - intros s1 s2 s3 H1 H2 Hs. destruct (H1 Hs) as [I2 D1 (l1 & l2 & E & F1)].
    destruct (H2 I2) as [I3 D2 (l3 & l4 & E' & F2)]. split; [done| |].
    + intros d r Hr. destruct (D1 d r Hr) as (r2 & Hr2 & S1). destruct (D2 d r2 Hr2) as (r3 & Hr3 & S2).
      exists r3. split; [done|]. by etrans.
    + rewrite E in F2. apply Forall2_app_inv_l in F2 as (k1 & k2 & F3 & _ & ->).
      exists k1, (k2 ++ l4). rewrite E', <- (assoc_L (++)). split; [done|]. by etrans.
Qed.

(** *** Being seen changes nothing else *)
Definition unseen (r : driver_row) : driver_row := r <| drv_seen := None |>.
Definition identities (s : db) : gmap string driver_row * list member_row := (unseen <$> drivers s, members s).
Lemma unseen_lookup s s' d r : identities s' = identities s → drivers s !! d = Some r →
  ∃ r', drivers s' !! d = Some r' ∧ unseen r' = unseen r.
Proof.
  intros [= E _] Hr. assert ((unseen <$> drivers s') !! d = Some (unseen r)) as Hr'.
  { by rewrite E, lookup_fmap, Hr. }
  rewrite lookup_fmap in Hr'. apply fmap_Some in Hr' as (r' & ? & ?). by exists r'.
Qed.
Lemma unseen_fields r r' : unseen r' = unseen r → r' = r <| drv_seen := drv_seen r' |>.
Proof. destruct r, r'. unfold unseen. simpl. by intros [= -> -> -> -> -> -> -> -> -> ->]. Qed.
Lemma driver_ok_unseen d r x : driver_ok d r → driver_ok d (r <| drv_seen := x |>).
Proof. by intros []. Qed.

Lemma registry_evolution_same s s' : identities s' = identities s → registry_evolution s s'.
Proof.
  intros E Hs. pose proof E as [= _ Em]. split.
  - destruct Hs as [I1 I2 I3 I4].
    assert (∀ d r', drivers s' !! d = Some r' → ∃ r, drivers s !! d = Some r ∧ r' = r <| drv_seen := drv_seen r' |>)
      as Hback.
    { intros d r' Hr'. destruct (unseen_lookup s' s d r' (eq_sym E) Hr') as (r & Hr & Hu).
      exists r. split; [done|]. by apply unseen_fields. }
    split.
    + intros d r' Hr'. destruct (Hback d r' Hr') as (r & Hr & ->). by apply driver_ok_unseen, I1.
    + intros d1 d2 r1 r2 t H1 H2 T1 T2. destruct (Hback d1 r1 H1) as (q1 & Q1 & E1).
      destruct (Hback d2 r2 H2) as (q2 & Q2 & E2). apply (I2 d1 d2 q1 q2 t Q1 Q2).
      * by rewrite E1 in T1.
      * by rewrite E2 in T2.
    + by rewrite Em.
    + intros m. rewrite Em. intros Hm. destruct (I4 m Hm) as [[r Hr] Hrev]. split; [|done].
      destruct (unseen_lookup s s' _ r E Hr) as (r' & -> & _). by eexists.
  - intros d r Hr. destruct (unseen_lookup s s' d r E Hr) as (r' & Hr' & Hu). exists r'. split; [done|].
    apply unseen_fields in Hu. rewrite Hu. split; done.
  - exists (members s), []. rewrite app_nil_r. by split.
Qed.

(** *** Rows that are written *)
Lemma driver_conflict_false s d r d' r' :
  driver_conflict s d r = false → drivers s !! d' = Some r' → d' ≠ d →
  ∀ t, drv_token r = Some t → drv_token r' ≠ Some t.
Proof.
  intros Hc Hr' Hne t Ht E. unfold driver_conflict in Hc.
  assert (driver_clash d r (d', r') = true) as Hcl.
  { unfold driver_clash. simpl. rewrite Ht, bool_decide_eq_false_2, bool_decide_eq_true_2 by done. done. }
  rewrite (proj2 (existsb_exists _ _)) in Hc; [done|]. exists (d', r'). split; [|done].
  by apply list_elem_of_In, elem_of_map_to_list.
Qed.

(** A row put in the table within its constraints. *)
Lemma registry_put s s' d r :
  drivers s' = <[d := r]> (drivers s) → members s' = members s → driver_conflict s d r = false → driver_ok d r →
  (∀ r0, drivers s !! d = Some r0 → driver_step r0 r) → registry_evolution s s'.
Proof.
  intros E Em Hc Hok Hstep Hs. pose proof (driver_conflict_false s d r) as Hcl. destruct Hs as [I1 I2 I3 I4].
  split.
  - split.
    + intros d' r'. rewrite E. intros [[<- <-]|[_ H]]%lookup_insert_Some; [done|by apply I1].
    + intros d1 d2 r1 r2 t. rewrite E.
      intros [[<- <-]|[N1 H1]]%lookup_insert_Some [[<- <-]|[N2 H2]]%lookup_insert_Some T1 T2; [done| | |].
      * exfalso. by apply (Hcl d2 r2 Hc H2 ltac:(done) t T1).
      * exfalso. by apply (Hcl d1 r1 Hc H1 ltac:(done) t T2).
      * by apply (I2 d1 d2 r1 r2 t).
    + by rewrite Em.
    + intros m. rewrite Em. intros Hm. destruct (I4 m Hm) as [Hk Hrev]. split; [|done]. rewrite E.
      by apply lookup_insert_is_Some'; right.
  - intros d' r' Hr'. rewrite E. destruct (decide (d' = d)) as [->|Hne].
    + exists r. rewrite lookup_insert_eq. split; [done|by apply Hstep].
    + exists r'. by rewrite lookup_insert_ne.
  - exists (members s), []. rewrite app_nil_r, Em. by split.
Qed.

(** A membership put in its place, or appended. *)
Lemma member_at_key s pid d m : member_at s pid d = Some m → m ∈ members s ∧ member_key m = (pid, d).
Proof.
  intros [Hin Hk]%select_one_Some. unfold of_member in Hk. bsimpl. split; [done|].
  unfold member_key. congruence.
Qed.
Lemma update_member_keys pid d m l :
  member_key m = (pid, d) → member_key <$> update_where (of_member pid d) (λ _, m) l = member_key <$> l.
Proof.
  intros Hm. unfold update_where. rewrite <- list_fmap_compose. apply list_fmap_ext. intros i x _. simpl.
  destruct (of_member pid d x) eqn:E; [|done]. unfold of_member in E. bsimpl. rewrite Hm. unfold member_key. congruence.
Qed.
Lemma member_put s s' m :
  registry_inv s → is_Some (drivers s !! mb_driver m) → drivers s' = drivers s →
  (∃ m0, member_at s (mb_project m) (mb_driver m) = Some m0 ∧ mb_revision m = (mb_revision m0 + 1)%Z ∧
     members s' = update_where (of_member (mb_project m) (mb_driver m)) (λ _, m) (members s)) ∨
  (member_at s (mb_project m) (mb_driver m) = None ∧ mb_revision m = 1%Z ∧ members s' = members s ++ [m]) →
  registry_step s s'.
Proof.
  intros [I1 I2 I3 I4] Hd Ed Hm. split; [split|..].
  - by rewrite Ed.
  - by rewrite Ed.
  - destruct Hm as [(m0 & _ & _ & ->)|(Hm0 & _ & ->)]; [by rewrite update_member_keys|].
    rewrite fmap_app. apply NoDup_app. split; [done|]. split; [|apply NoDup_singleton].
    intros k (x & -> & Hx)%list_elem_of_fmap Hk%list_elem_of_singleton.
    pose proof (proj1 (select_one_None _ _) Hm0 x Hx) as Hn. injection Hk as E1 E2.
    unfold of_member in Hn. by rewrite !bool_decide_eq_true_2 in Hn.
  - rewrite Ed. intros x Hx. destruct Hm as [(m0 & Hm0 & Hr & E)|(Hm0 & Hr & E)]; rewrite E in Hx.
    + apply elem_of_update_where in Hx as (y & Hy & ->). destruct (of_member _ _ y); [|by apply I4].
      split; [done|]. destruct (member_at_key _ _ _ _ Hm0) as [Hin _]. destruct (I4 m0 Hin). lia.
    + apply elem_of_app in Hx as [Hx|Hx%list_elem_of_singleton]; [by apply I4|]. subst. split; [done|lia].
  - intros d r Hr. exists r. by rewrite Ed.
  - destruct Hm as [(m0 & Hm0 & Hr & ->)|(Hm0 & _ & ->)]; [|exists (members s), [m]; by split].
    exists (update_where (of_member (mb_project m) (mb_driver m)) (λ _, m) (members s)), [].
    rewrite app_nil_r. split; [done|]. unfold update_where. apply Forall2_fmap_r, Forall_Forall2_diag.
    apply Forall_forall. intros x Hx. simpl. destruct (of_member _ _ x) eqn:E; [|done].
    assert (x = m0) as ->.
    { unfold of_member in E. bsimpl. destruct (member_at_key _ _ _ _ Hm0) as [Hin Hk].
      apply list_elem_of_lookup in Hx as [i Hi]. apply list_elem_of_lookup in Hin as [j Hj].
      assert (i = j) as ->; [|congruence]. apply (NoDup_lookup _ i j (member_key x) I3).
      - by rewrite list_lookup_fmap, Hi.
      - rewrite list_lookup_fmap, Hj. simpl. rewrite Hk. unfold member_key. congruence. }
    split_and!; [|lia|lia]. by rewrite (proj2 (member_at_key _ _ _ _ Hm0)).
Qed.

Section registry_operations.
Context `{Host} (pepper : string) (env : environment).

Lemma identities_seen d t s :
  identities (s <| drivers ::= alter (λ r, r <| drv_seen := t |>) d |>) = identities s.
Proof.
  unfold identities. simpl. f_equal. apply map_eq. intros i. rewrite !lookup_fmap.
  destruct (decide (i = d)) as [->|Hne]; [rewrite lookup_alter_eq|by rewrite lookup_alter_ne].
  by destruct (drivers s !! d).
Qed.
#[local] Hint Extern 1 (untouched identities (modify _)) =>
  apply untouched_modify; intros; apply identities_seen : untouched.

Lemma registry_untouched {A} (m : M db A) : untouched identities m → keeps registry_evolution m.
Proof. intros Hm s. eapply wp_mono; [apply Hm|]. intros a s' E. by apply registry_evolution_same. Qed.

Lemma identities_driver_audit d o a : untouched identities (driver_audit pepper d o a).
Proof. unfold driver_audit, now. frame. Qed.
Lemma identities_registry_get d : untouched identities (registry_get env d).
Proof. unfold registry_get, now. frame. Qed.

#[local] Hint Resolve identities_driver_audit identities_registry_get : untouched.

(** A write of one row, after reads and before the audit line and the answer. *)
Lemma registry_rest {A} (m : M db A) s0 s :
  registry_evolution s0 s → untouched identities m → wp m (λ _ s', registry_evolution s0 s') s.
Proof. intros H0 Hm. apply keeps_from; [apply _|done|]. by apply registry_untouched. Qed.

Lemma insert_driver_evolution d name kind adm tok host caps actor :
  (∀ t, driver_ok d (DriverRow name kind adm tok ((λ _, t) <$> tok) host caps DriverActive 1 t None)) →
  keeps registry_evolution (insert_driver pepper d name kind adm tok host caps actor).
Proof.
  intros Hok s. unfold insert_driver. apply wp_bind, wp_now. intros t. cbv zeta.
  apply wp_bind, wp_gets, wp_bind, wp_require. intros Hc. bsimpl. apply wp_bind, wp_modify.
  apply registry_rest; [|apply identities_driver_audit]. eapply registry_put; [reflexivity|done|done|apply Hok|].
  intros r0 Hr0. exfalso. match goal with Hn : ¬ is_Some _ |- _ => apply Hn; by eexists end.
Qed.
Lemma update_driver_run d r r0 (Q : () → db → Prop) s :
  drivers s !! d = Some r0 → (driver_ok d r0 → driver_ok d r) → driver_step r0 r →
  (∀ s', registry_evolution s s' → Q tt s') → wp (update_driver d r) Q s.
Proof.
  intros Hr0 Hok Hst HQ. unfold update_driver. apply wp_bind, wp_gets, wp_bind, wp_require. intros Hc. bsimpl.
  apply wp_modify, HQ. intros Hs. refine (registry_put s _ d r _ _ _ _ _ Hs); [done..| |].
  - by apply Hok, (ri_rows s Hs).
  - by intros ? [= <-]%(eq_trans (eq_sym Hr0)).
Qed.
Lemma current_driver_run d e (Q : driver_row → db → Prop) s :
  (∀ r, drivers s !! d = Some r → e = JInt (drv_revision r) → Q r s) → wp (current_driver d e) Q s.
Proof.
  intros HQ. unfold current_driver. apply wp_bind, wp_gets, wp_bind, wp_get_some. intros r Hr.
  apply wp_bind, wp_require. intros He%bool_decide_eq_true. apply wp_ret. by apply HQ.
Qed.

Lemma registry_ticked s s' : registry_evolution (s <| ticks ::= S |>) s' → registry_evolution s s'.
Proof. intros E. transitivity (s <| ticks ::= S |>); [by apply registry_evolution_same|exact E]. Qed.

(** The row of a driver with the next revision. *)
Lemma driver_step_next r r' :
  drv_kind r' = drv_kind r → drv_name r' = drv_name r → drv_host r' = drv_host r →
  drv_capabilities r' = drv_capabilities r → drv_created r' = drv_created r →
  drv_revision r' = (drv_revision r + 1)%Z → (drv_status r = DriverRetired → drv_status r' = DriverRetired) →
  driver_step r r'.
Proof. intros. split; [done|lia|lia|done]. Qed.

Lemma register_driver_evolution d n h c i a : keeps registry_evolution (register_driver pepper env d n h c i a).
Proof.
  intros s. unfold register_driver. apply wp_bind, wp_lift. intros driver Hd.
  assert (DRIVER_ID driver = true) as Hid.
  { unfold driver_id_of in Hd. destruct d; try done. destruct (DRIVER_ID s0) eqn:E; [|done]. by injection Hd as <-. }
  apply wp_bind, wp_require. intros Hne. bsimpl. do 3 (apply wp_bind, wp_lift; intros ? _).
  apply wp_bind, wp_get_some. intros adm _. apply wp_bind. unfold new_token at 1. unfold wp at 1. cbv beta iota.
  apply wp_bind, wp_gets, wp_bind, wp_require. intros _.
  set (s1 := s <| draws ::= S |>). assert (registry_evolution s s1) as E1 by by apply registry_evolution_same.
  apply wp_bind. eapply wp_mono; [apply insert_driver_evolution|].
  { intros t. by split; simpl. }
  intros ? s2 E2. cbv beta. apply registry_rest; [by transitivity s1|]. frame.
Qed.
Lemma rotate_token_evolution d e a : keeps registry_evolution (rotate_token pepper env d e a).
Proof.
  intros s. unfold rotate_token. apply wp_bind. unfold new_token at 1. unfold wp at 1. cbv beta iota.
  set (s1 := s <| draws ::= S |>). assert (registry_evolution s s1) as E1 by by apply registry_evolution_same.
  apply wp_bind, current_driver_run. intros r Hr _. do 2 (apply wp_bind, wp_require; intros ?). bsimpl.
  apply wp_bind, wp_now. intros t. apply wp_bind. eapply update_driver_run; [exact Hr| | |].
  - intros []. split; simpl; try done; try lia.
  - by apply driver_step_next.
  - intros s2 E2. apply registry_rest; [|frame].
    transitivity s1; [done|by apply registry_ticked].
Qed.
Lemma set_driver_status_evolution d v e r a : keeps registry_evolution (set_driver_status pepper env d v e r a).
Proof.
  intros s. unfold set_driver_status. apply wp_bind, wp_get_some. intros status _. apply wp_bind, wp_lift. intros ? _.
  apply wp_bind, current_driver_run. intros row Hr _. apply wp_bind, wp_require. intros Hret.
  apply wp_bind, wp_require. intros Hpub. bsimpl. apply wp_bind. eapply update_driver_run; [exact Hr| | |].
  - intros [? [Hp1 Hp2] ? ? ? ?]. split; simpl; try done; try lia. intros ->. destruct (drv_kind row) eqn:Ek; [done|].
    exfalso. by rewrite (Hp1 eq_refl) in Hpub.
  - by apply driver_step_next.
  - intros s2 E2. apply registry_rest; [exact E2|frame].
Qed.
Lemma set_driver_admin_evolution d v e r a : keeps registry_evolution (set_driver_admin pepper env d v e r a).
Proof.
  intros s. unfold set_driver_admin. apply wp_bind, wp_get_some. intros adm _. apply wp_bind, wp_lift. intros ? _.
  apply wp_bind, current_driver_run. intros row Hr _. apply wp_bind, wp_require. intros Hk. bsimpl.
  apply wp_bind. eapply update_driver_run; [exact Hr| | |].
  - intros []. split; simpl; try done; try lia. intros ->. by rewrite orb_false_r in Hk; bsimpl.
  - by apply driver_step_next.
  - intros s2 E2. apply registry_rest; [exact E2|frame].
Qed.

Lemma seed_public_evolution a : keeps registry_evolution (seed_public pepper a).
Proof.
  intros s. unfold seed_public. apply wp_bind, wp_gets. destruct (bool_decide _); [by apply wp_ret; reflexivity|].
  apply wp_bind. eapply wp_mono; [apply insert_driver_evolution|].
  - intros t. by split; simpl.
  - intros ? s1 E1. by apply wp_ret.
Qed.
Lemma seed_owner_evolution t a : keeps registry_evolution (seed_owner pepper t a).
Proof.
  intros s. unfold seed_owner. cbv zeta. apply wp_bind, wp_gets. destruct (drivers s !! _) as [r|] eqn:Hr.
  - destruct (bool_decide _); [by apply wp_ret; reflexivity|]. apply wp_bind, wp_now. intros stamp. apply wp_bind.
    eapply update_driver_run; [exact Hr| | |].
    + intros [? [Hp _] ? ? ? ?]. split; simpl; try done; try lia. split; [by eexists|]. intros _.
      destruct (drv_kind r); [done|]. by discriminate Hp.
    + by apply driver_step_next.
    + intros s2 E2. apply registry_rest; [by apply registry_ticked|frame].
  - apply wp_bind. eapply wp_mono; [apply insert_driver_evolution|].
    + intros t'. by split; simpl.
    + intros ? s1 E1. by apply wp_ret.
Qed.
Lemma seed_evolution t a : keeps registry_evolution (seed pepper t a).
Proof.
  unfold seed. apply keeps_bind; [apply _|apply seed_public_evolution|]. intros xs.
  apply keeps_bind; [apply _| |intros ys; apply keeps_ret; apply _].
  destruct (truthy t); [apply seed_owner_evolution|apply keeps_ret; apply _].
Qed.

(** *** Memberships *)
Lemma set_membership_evolution f p d v e r a : keeps registry_evolution (set_membership pepper f p d v e r a).
Proof.
  intros s. unfold set_membership. apply wp_bind, wp_get_some. intros status _. apply wp_bind, wp_get_some.
  intros pid _. apply wp_bind, wp_lift. intros ? _. apply wp_bind, wp_require. intros _.
  apply wp_bind, wp_gets, wp_bind, wp_require. intros Hd%bool_decide_eq_true. apply wp_bind, wp_gets.
  cbv zeta. apply wp_bind, wp_require. intros _. apply wp_bind, wp_now. intros t. apply wp_bind, wp_modify.
  set (m := MemberRow pid d status _ a t). set (s1 := _ <| members ::= _ |>).
  assert (registry_evolution s s1) as E1.
  { intros Hs. apply (member_put s s1 m Hs Hd); [done|]. simpl. unfold s1. simpl.
    destruct (member_at s pid d) as [m0|] eqn:Hm0; [left; exists m0|right].
    - by split_and!.
    - by split_and!. }
  apply wp_bind, wp_gets. apply registry_rest; [done|frame].
Qed.
End registry_operations.

(** ** Every operation *)
Section registry_system.
Context `{Host}.
#[local] Hint Extern 1 (untouched identities (modify _)) =>
  apply untouched_modify; intros; apply identities_seen : untouched.

Lemma operation_registry A (m : M db A) : operation m → keeps registry_evolution m.
Proof.
  intros Hop. destruct Hop;
    first
      [ apply seed_evolution | apply register_driver_evolution | apply rotate_token_evolution
      | apply set_driver_status_evolution | apply set_driver_admin_evolution | apply set_membership_evolution
      | apply registry_untouched;
        unfold add_nodes, set_node_facet, revise_node, split_node, revise, add, split;
        solve [frame_operation] ].
Qed.
Lemma registry_inv_empty : registry_inv empty_db.
Proof. split; [done|done|apply NoDup_nil_2|]. intros m Hm. by apply elem_of_nil in Hm. Qed.
Lemma reachable_registry s : reachable s → registry_inv s.
Proof.
  apply (reachable_invariant registry_inv); [apply registry_inv_empty|].
  intros A m Hm s0 Hs0. eapply wp_mono; [by apply operation_registry|]. intros a s' He. by apply (rs_inv s0), He.
Qed.

(** C12: in every reachable registry each row fits its kind: a LAN driver has a token digest and
    the public one has none and is no admin, ids are well formed, only a LAN driver is retired;
    a token digest belongs to one driver; memberships are one per project and driver, name a
    registered driver, and have positive revisions. *)
Theorem registry_wellformed s : reachable s → registry_inv s.
Proof. apply reachable_registry. Qed.

(** C35: along every run a driver keeps its row: its kind, name, host and capabilities stay, its
    revision never falls, it is the same row (but for when it was last seen) at the same
    revision, and once retired it stays retired; memberships likewise change only with a
    higher revision. *)
Theorem driver_life s s' :
  reachable s → rtc step s s' →
  (∀ d r, drivers s !! d = Some r → ∃ r', drivers s' !! d = Some r' ∧ driver_step r r') ∧
  ∃ l1 l2, members s' = l1 ++ l2 ∧ Forall2 member_step (members s) l1.
Proof.
  intros Hs%reachable_registry Hss.
  destruct (steps_keep registry_evolution s s' operation_registry Hss Hs) as [_ H1 H2]. done.
Qed.
End registry_system.

(** ** Tokens *)
Section tokens.
Context `{Host} (pepper : string) (env : environment).

Lemma identities_touch due d : untouched identities (touch due d).
Proof.
  unfold touch. apply untouched_when, untouched_bind; [by intros s; apply wp_now|]. intros t.
  apply untouched_modify. intros s. apply identities_seen.
Qed.
Lemma touch_returns due d s : ∃ s', touch due d s = Ok (tt, s') ∧ identities s' = identities s.
Proof.
  destruct (touch due d s) as [[[] s']|e] eqn:E.
  - exists s'. split; [done|]. exact (wp_run _ _ _ _ _ (identities_touch due d s) E).
  - unfold touch, when in E. by destruct due.
Qed.

(** A token (of bounded length) authenticates exactly the active LAN driver whose digest it
    has: the lookup always answers, with that driver's view, or with nothing when no driver
    has the digest or the one that has it is suspended or retired; and it changes nothing of
    the registry but when the driver was last seen. *)
Theorem lookup_token_exact due t s :
  reachable s → t ≠ "" → (Z.of_nat (py_len t) ≤ 512)%Z →
  ∃ o s', lookup_token pepper due (JStr t) s = Ok (o, s') ∧ identities s' = identities s ∧
    (∀ d r, drivers s !! d = Some r → drv_token r = Some (token_hash pepper t) →
       o = if bool_decide (drv_status r = DriverActive) then Some (driver_view_of d r) else None) ∧
    ((∀ d r, drivers s !! d = Some r → drv_token r ≠ Some (token_hash pepper t)) → o = None).
Proof.
  intros Hs%reachable_registry Hne Hlen. unfold lookup_token. rewrite (bool_decide_eq_false_2 (t = "")) by done.
  assert ((512 <? Z.of_nat (py_len t))%Z = false) as -> by lia. change (false || false) with false. cbv iota.
  set (h := token_hash pepper t). set (o := select_one (holds_token h) (map_to_list (drivers s))).
  assert (∀ d r, drivers s !! d = Some r → drv_token r = Some h → o = Some (d, r)) as Hfound.
  { intros d r Hr Ht. assert (holds_token h (d, r) = true) as Hh.
    { unfold holds_token. simpl. rewrite Ht. destruct (ri_rows s Hs d r Hr) as [_ _ [_ Hk] _ _ _].
      rewrite Hk by by eexists. by rewrite !bool_decide_eq_true_2. }
    destruct o as [[d' r']|] eqn:Ho.
    - apply select_one_Some in Ho as [Hin%elem_of_map_to_list Hh']. unfold holds_token in Hh'. simpl in Hh'. bsimpl.
      assert (d' = d) as -> by (eapply (ri_token s Hs); done). congruence.
    - apply select_one_None with (x := (d, r)) in Ho; [congruence|]. by apply elem_of_map_to_list. }
  assert ((∀ d r, drivers s !! d = Some r → drv_token r ≠ Some h) → o = None) as Hnone.
  { intros Hno. apply select_one_None. intros [d r] Hin%elem_of_map_to_list. unfold holds_token. simpl.
    by rewrite bool_decide_eq_false_2 by by apply (Hno d r). }
  assert ((row ← gets (λ s, select_one (holds_token h) (map_to_list (drivers s)));
           match row with
           | Some (driver, r) =>
             if bool_decide (drv_status r = DriverActive)
             then touch due driver;; mret (Some (driver_view_of driver r)) else mret None
           | None => mret None
           end) s = match o with
           | Some (driver, r) =>
             (if bool_decide (drv_status r = DriverActive)
              then touch due driver;; mret (Some (driver_view_of driver r)) else mret None) s
           | None => Ok (None, s)
           end) as -> by (unfold mbind, M_bind, gets; fold o; by destruct o as [[]|]).
  destruct o as [[d r]|] eqn:Ho.
  - destruct (bool_decide (drv_status r = DriverActive)) eqn:Ha.
    + destruct (touch_returns due d s) as (s' & Et & Es). exists (Some (driver_view_of d r)), s'.
      unfold mbind, M_bind. rewrite Et. split_and!; [done|done| |].
      * intros d' r' Hr' Ht. injection (Hfound d' r' Hr' Ht) as <- <-. by rewrite Ha.
      * intros Hno. by discriminate (Hnone Hno).
    + exists None, s. split_and!; [done..| |done]. intros d' r' Hr' Ht.
      injection (Hfound d' r' Hr' Ht) as <- <-. by rewrite Ha.
  - exists None, s. split_and!; [done..| |done]. intros d' r' Hr' Ht. by discriminate (Hfound d' r' Hr' Ht).
Qed.

(** What the audit line and the answer leave alone. *)
Lemma rows_kept {A} (m : M db A) s :
  untouched (λ s, (drivers s, members s)) m → wp m (λ _ s', (drivers s', members s') = (drivers s, members s)) s.
Proof. intros Hm. apply Hm. Qed.

(** A rotation is made only on a LAN driver that is not retired and at the revision the call
    names; it gives that driver the digest of the new token and the next revision, and leaves
    every other row.  The old token then authenticates nobody, unless its digest is the new
    one's. *)
Theorem rotate_token_effect d e a s v tok s' :
  reachable s → rotate_token pepper env d e a s = Ok ((v, tok), s') →
  ∃ r t, drivers s !! d = Some r ∧ drv_kind r = Lan ∧ drv_status r ≠ DriverRetired ∧ e = JInt (drv_revision r) ∧
    drivers s' = <[d := r <| drv_token := Some (token_hash pepper tok) |> <| drv_rotated := Some t |>
                          <| drv_revision := (drv_revision r + 1)%Z |>]> (drivers s) ∧
    members s' = members s ∧
    ∀ old, drv_token r = Some old → old ≠ token_hash pepper tok →
      ∀ d' r', drivers s' !! d' = Some r' → drv_token r' ≠ Some old.
Proof.
  intros Hs%reachable_registry E. assert (tok = (v, tok).2) as Ht by done. rewrite Ht. clear Ht.
  revert E. generalize (v, tok). clear v tok. intros v E.
  refine (wp_run _ (λ v s', ∃ r t, _) _ _ _ _ E). clear E v s'. unfold rotate_token. apply wp_bind. unfold new_token at 1. unfold wp at 1. cbv beta iota.
  apply wp_bind, current_driver_run. intros r Hr He. simpl in Hr.
  apply wp_bind, wp_require. intros Hk. apply wp_bind, wp_require. intros Hret. bsimpl.
  apply wp_bind, wp_now. intros t. apply wp_bind. unfold update_driver. apply wp_bind, wp_gets, wp_bind, wp_require.
  intros _. apply wp_modify.
  set (s2 := _ <| drivers ::= _ |>). apply wp_bind.
  eapply wp_mono; [apply (rows_kept (driver_audit pepper d (AuditRotate false) a)); unfold driver_audit, now; frame|].
  intros ? s3 E3. cbv beta. apply wp_bind.
  eapply wp_mono; [apply (rows_kept (registry_get env d)); unfold registry_get, now; frame|].
  intros ? s4 E4. apply wp_ret. simpl in E4. rewrite E3 in E4. injection E4 as Ed Em. unfold s2 in Ed, Em. simpl in Ed, Em.
  exists r, t. split_and!; try done. intros old Hold Hne d' r'. rewrite Ed.
  intros [[<- <-]|[Hd Hr']]%lookup_insert_Some; simpl; [intros [= Et]; by apply Hne|].
  intros Ht. apply Hd. by eapply (ri_token s Hs).
Qed.

(** ** Seeding *)
Lemma insert_driver_run d n k b tok h c actor s :
  wp (insert_driver pepper d n k b tok h c actor) (λ _ s', ∃ r, drivers s' = <[d := r]> (drivers s) ∧ drv_token r = tok) s.
Proof.
  unfold insert_driver. apply wp_bind, wp_now. intros t. cbv zeta.
  apply wp_bind, wp_gets, wp_bind, wp_require. intros _. apply wp_bind, wp_modify.
  eapply wp_mono; [apply (rows_kept (driver_audit pepper d _ actor)); unfold driver_audit, now; frame|].
  intros ? s2 [= Ed _]. eexists. split; [exact Ed|done].
Qed.
Lemma seed_public_run a s : wp (seed_public pepper a) (λ _ s', is_Some (drivers s' !! PUBLIC_DRIVER_ID)) s.
Proof.
  unfold seed_public. apply wp_bind, wp_gets. case_bool_decide; [by apply wp_ret|].
  apply wp_bind. eapply wp_mono; [apply insert_driver_run|]. intros ? s1 (r & E & _). apply wp_ret.
  rewrite E, lookup_insert_eq. by eexists.
Qed.
Lemma seed_owner_run k a s :
  is_Some (drivers s !! PUBLIC_DRIVER_ID) →
  wp (seed_owner pepper k a) (λ _ s', is_Some (drivers s' !! PUBLIC_DRIVER_ID) ∧
    ∃ r, drivers s' !! OWNER_CLI_DRIVER_ID = Some r ∧ drv_token r = Some (token_hash pepper k)) s.
Proof.
  intros Hp. unfold seed_owner. cbv zeta. apply wp_bind, wp_gets. destruct (drivers s !! OWNER_CLI_DRIVER_ID) as [r|] eqn:Hr.
  - case_bool_decide; [apply wp_ret; split; [done|by exists r]|]. apply wp_bind, wp_now. intros t. apply wp_bind.
    unfold update_driver. apply wp_bind, wp_gets, wp_bind, wp_require. intros _. apply wp_modify, wp_bind.
    eapply wp_mono; [apply (rows_kept (driver_audit pepper _ _ a)); unfold driver_audit, now; frame|].
    intros ? s2 [= Ed _]. apply wp_ret. rewrite Ed. rewrite lookup_insert_eq, lookup_insert_ne by done.
    split; [done|by eexists].
  - apply wp_bind. eapply wp_mono; [apply insert_driver_run|]. intros ? s1 (r & E & Ht). apply wp_ret.
    rewrite E, lookup_insert_eq, lookup_insert_ne by done. split; [done|by eexists].
Qed.

(** Seeding is idempotent: a second seeding with the same legacy token creates nothing, and
    leaves the whole database as it is; the first one leaves the public driver, and the owner
    with the token's digest when there is a token. *)
Theorem seed_idempotent t a a' s xs s1 :
  seed pepper t a s = Ok (xs, s1) →
  seed pepper t a' s1 = Ok ([], s1) ∧ is_Some (drivers s1 !! PUBLIC_DRIVER_ID) ∧
  ∀ k, truthy t = Some k → ∃ r, drivers s1 !! OWNER_CLI_DRIVER_ID = Some r ∧ drv_token r = Some (token_hash pepper k).
Proof.
  intros E. assert (is_Some (drivers s1 !! PUBLIC_DRIVER_ID) ∧ ∀ k, truthy t = Some k →
    ∃ r, drivers s1 !! OWNER_CLI_DRIVER_ID = Some r ∧ drv_token r = Some (token_hash pepper k)) as [Hp Ho].
  { refine (wp_run _ (λ _ s1, is_Some (drivers s1 !! PUBLIC_DRIVER_ID) ∧ _) _ _ _ _ E). clear E xs s1.
    unfold seed. apply wp_bind. eapply wp_mono; [apply seed_public_run|]. intros xs s1 Hp. cbv beta. apply wp_bind.
    destruct (truthy t) as [k|]; [|by apply wp_ret, wp_ret].
    eapply wp_mono; [by apply seed_owner_run|]. intros ys s2 [Hp2 Hr]. apply wp_ret. split; [done|]. by intros ? [= <-]. }
  split; [|done]. unfold seed, seed_public, seed_owner. unfold mbind, M_bind, gets, mret, M_ret.
  rewrite bool_decide_eq_true_2 by done. cbv beta iota zeta. destruct (truthy t) as [k|]; [|done].
  destruct (Ho k eq_refl) as (r & Hr & Ht). rewrite Hr. by rewrite bool_decide_eq_true_2.
Qed.
End tokens.

(** ** Instances *)
Lemma registry_wellformed_witness : registry_inv s_team.
Proof. apply (registry_wellformed s_team). apply reachable_team. Defined.

Lemma driver_life_witness : ∃ r', drivers s_team !! "d" = Some r' ∧ drv_kind r' = Lan.
Proof.
  assert (∃ r, drivers s_enrolled !! "d" = Some r ∧ drv_kind r = Lan) as (r & Hr & Hk)
    by (eexists; split; [vm_compute; reflexivity|reflexivity]).
  assert (rtc step s_enrolled s_team) as Hss.
  { unfold s_team, joining. do 2 (apply steps_after; [apply op_set_membership|]). apply rtc_refl. }
  destruct (driver_life s_enrolled s_team reachable_enrolled Hss) as [Hd _].
  destruct (Hd "d" r Hr) as (r' & Hr' & Hst). exists r'. split; [exact Hr'|].
  destruct (ds_fixed _ _ Hst) as [E _]. by rewrite E.
Defined.

(** The token the second driver got when it was registered. *)
Definition token_e : string := TOKEN_PREFIX +:+ hex_word 8 5.
Lemma lookup_token_exact_witness : ∃ r s',
  lookup_token pepper true (JStr token_e) s_team = Ok (Some (driver_view_of "e" r), s').
Proof.
  assert (∃ r, drivers s_team !! "e" = Some r ∧ drv_token r = Some (token_hash pepper token_e) ∧
    drv_status r = DriverActive) as (r & Hr & Ht & Ha)
    by (eexists; split; [vm_compute; reflexivity|split; [vm_compute; reflexivity|reflexivity]]).
  destruct (lookup_token_exact pepper true token_e s_team reachable_team) as (o & s' & E & _ & Ho & _);
    [done|vm_compute; discriminate|].
  exists r, s'. rewrite E, (Ho "e" r Hr Ht), Ha. reflexivity.
Defined.

Definition rotating : M db (driver_view * string) := rotate_token pepper sample_env "e" (JInt 1) "admin".
Lemma rotate_token_effect_witness : ∃ v tok r,
  rotating s_team = Ok ((v, tok), after rotating s_team) ∧ drv_token r = Some (token_hash pepper token_e) ∧
  ∀ d' r', drivers (after rotating s_team) !! d' = Some r' → drv_token r' ≠ Some (token_hash pepper token_e).
Proof.
  assert (∃ v tok, rotating s_team = Ok ((v, tok), after rotating s_team) ∧
    token_hash pepper token_e ≠ token_hash pepper tok) as (v & tok & E & Hne).
  { eexists _, _. split; [vm_compute; reflexivity|]. vm_compute. discriminate. }
  unfold rotating in *. destruct (rotate_token_effect _ _ _ _ _ _ _ _ _ reachable_team E)
    as (r & t & Hr & _ & _ & _ & _ & _ & Hold).
  assert (drv_token <$> drivers s_team !! "e" = Some (Some (token_hash pepper token_e))) as Ht
    by (vm_compute; reflexivity).
  rewrite Hr in Ht. injection Ht as Ht. exists v, tok, r. split; [exact E|]. split; [exact Ht|].
  by apply (Hold _ Ht).
Defined.
