(* ===== verification/DesignSearch.v ===== *)
(** * Following relations between design revisions

    Both searches of [Design] keep a set of the references found so far and a list of
    the revisions still to visit.  [search_inv] is what that means; a search whose list
    is empty has found exactly what is reachable, and the number of revisions is
    enough fuel. *)
From S2P Require Import Prelude Json Text Dag Store Graph Design.

(** ** Relations as edges *)
Definition design_edge (ty : string) (s : db) (pid : string) (p q : pin) : Prop :=
  ∃ d r, design_at s pid p = Some d ∧ r ∈ relations_of (dn_content d) ∧ rl_type r = ty ∧ rl_target r = q.
(** The revisions of a project, as references. *)
Definition design_pins (s : db) (pid : string) : gset pin :=
  list_to_set (omap (λ p : string * string * Z * design_row,
    if bool_decide (p.1.1.1 = pid) then Some (p.1.1.2, p.1.2) else None) (map_to_list (design_revisions s))).

Lemma design_at_pin s pid p d : design_at s pid p = Some d → dn_pin d = p.
Proof. unfold design_at. intros (row & _ & ->)%fmap_Some. done. Qed.
Lemma find_design_ok s pid p d : find_design s pid p = Ok d → design_at s pid p = Some d.
Proof.
  unfold find_design. intros (k & [[= <-] _]%key_ok & E)%res_bind_ok.
  apply res_bind_ok in E as (r & [[= <-] _]%integer_ok & E).
  destruct p as [did r]. simpl in *. destruct (design_at s pid (did, r)); congruence.
Qed.
Lemma elem_of_design_pins s pid p : p ∈ design_pins s pid ↔ is_Some (design_at s pid p).
Proof.
  unfold design_pins. rewrite elem_of_list_to_set, list_elem_of_omap. split.
  - intros ([[[pid' did] r] row] & Hin%elem_of_map_to_list & E). simpl in E. case_bool_decide; [|done].
    simplify_eq. unfold design_at. simpl. rewrite Hin. by eexists.
  - intros [d Hd]. unfold design_at in Hd. apply fmap_Some in Hd as (row & Hrow & ->).
    exists (pid, p.1, p.2, row). split; [by apply elem_of_map_to_list|]. simpl.
    rewrite bool_decide_eq_true_2 by done. by destruct p.
Qed.
Lemma size_list_to_set_le (l : list pin) : size (list_to_set l : gset pin) ≤ length l.
Proof.
  induction l as [|x l IH]; simpl; [done|]. rewrite size_union_alt, size_singleton.
  assert (size ((list_to_set l : gset pin) ∖ {[x]}) ≤ size (list_to_set l : gset pin)) by (apply subseteq_size; set_solver).
  lia.
Qed.
Lemma size_design_pins s pid : size (design_pins s pid) ≤ design_fuel s.
Proof.
  unfold design_fuel, design_pins. rewrite <- length_map_to_list.
  etransitivity; [apply size_list_to_set_le|]. generalize (map_to_list (design_revisions s)). intros l.
  induction l as [|x l IH]; [done|]. csimpl. destruct (bool_decide _); csimpl; simpl in *; lia.
Qed.

(** ** One item's relations *)
(** [new] is what scanning the relations [rs] of one item adds to the references found and
    to the list. *)
Record scanned (ty : string) (s : db) (pid : string) (rs : list design_relation) (found found' : gset pin)
    (new : list design_revision) : Prop := Scanned {
  sc_found : found' = list_to_set (dn_pin <$> new) ∪ found;
  sc_nodup : NoDup (dn_pin <$> new);
  sc_new : ∀ d, d ∈ new → design_at s pid (dn_pin d) = Some d ∧ dn_pin d ∉ found ∧
    ∃ r, r ∈ rs ∧ rl_type r = ty ∧ rl_target r = dn_pin d;
  sc_all : ∀ r, r ∈ rs → rl_type r = ty → rl_target r ∈ found';
}.
Lemma scanned_nil ty s pid found : scanned ty s pid [] found found [].
Proof. split; [set_solver|apply NoDup_nil_2|..]; intros ? ?%elem_of_nil; done. Qed.
Lemma scanned_skip ty s pid r rs found found' new :
  (rl_type r = ty → rl_target r ∈ found) → scanned ty s pid rs found found' new →
  scanned ty s pid (r :: rs) found found' new.
Proof.
  intros Hr [F N W A]. split; [done|done| |].
  - intros d Hd. destruct (W d Hd) as (?&?&q&?&?&?). split_and!; [done|done|]. exists q. split; [by right|done].
  - intros q [->|Hq]%elem_of_cons Ht; [|by apply A]. rewrite F. apply elem_of_union. right. by apply Hr.
Qed.
Lemma scanned_add ty s pid r rs found found' new d :
  rl_type r = ty → rl_target r ∉ found → design_at s pid (rl_target r) = Some d →
  scanned ty s pid rs ({[rl_target r]} ∪ found) found' new → scanned ty s pid (r :: rs) found found' (new ++ [d]).
Proof.
  intros Ht Hn Hd [F N W A]. pose proof (design_at_pin _ _ _ _ Hd) as Hp. split.
  - rewrite F, fmap_app, list_to_set_app_L. simpl. rewrite Hp. set_solver.
  - rewrite fmap_app. apply NoDup_app. split; [done|]. split; [|apply NoDup_singleton]. simpl.
    intros x (e & -> & He)%list_elem_of_fmap Hx%list_elem_of_singleton. destruct (W e He) as (_ & Hne & _).
    rewrite Hx, Hp in Hne. set_solver.
  - intros e [He|He%list_elem_of_singleton]%elem_of_app.
    + destruct (W e He) as (?&?&q&?&?&?). split_and!; [done|set_solver|]. exists q. split; [by right|done].
    + subst e. rewrite Hp. split_and!; [done|done|]. exists r. split_and!; [by left|done|done].
  - intros q [->|Hq]%elem_of_cons Hqt; [rewrite F; set_solver|by apply A].
Qed.

Lemma scan_supersedes_scanned s pid check content rs : ∀ found pending found' pending',
  scan_supersedes s pid check content found pending rs = Ok (found', pending') →
  ∃ new, pending' = new ++ pending ∧ scanned "supersedes" s pid rs found found' new.
Proof.
  induction rs as [|r rs IH]; intros found pending found' pending'; simpl.
  - intros [= <- <-]. exists []. split; [done|apply scanned_nil].
  - intros (target & Hf%find_design_ok & E)%res_bind_ok. apply res_bind_ok in E as ([] & _ & E).
    destruct (_ && _) eqn:Hc in E; bsimpl.
    + destruct (IH _ _ _ _ E) as (new & -> & Hs). exists (new ++ [target]).
      rewrite <- (assoc_L (++)). split; [done|]. by apply scanned_add.
    + destruct (IH _ _ _ _ E) as (new & -> & Hs). exists new. split; [done|]. apply scanned_skip; [|done].
      intros Ht. apply andb_false_iff in Hc as [Hc|Hc]; bsimpl; [done|]. by apply dec_stable.
Qed.
Lemma scan_depends_scanned s pid rs : ∀ seen found pending seen' found' pending',
  scan_depends s pid seen found pending rs = Ok (seen', found', pending') →
  ∃ new, pending' = new ++ pending ∧ scanned "depends_on" s pid rs seen seen' new ∧
    found' = list_to_map ((λ d, (dn_pin d, d)) <$> new) ∪ found.
Proof.
  induction rs as [|r rs IH]; intros seen found pending seen' found' pending'; simpl.
  - intros [= <- <- <-]. exists []. split; [done|]. split; [apply scanned_nil|]. simpl. by rewrite (left_id_L ∅ (∪)).
  - destruct (_ && _) eqn:Hc; bsimpl.
    + intros (d & Hf%find_design_ok & E)%res_bind_ok. destruct (IH _ _ _ _ _ _ E) as (new & -> & Hs & ->).
      exists (new ++ [d]). rewrite <- (assoc_L (++)). split; [done|]. split; [by apply scanned_add|].
      rewrite fmap_app, list_to_map_app. simpl. rewrite (design_at_pin _ _ _ _ Hf).
      rewrite <- (assoc_L (∪)). f_equal. by rewrite insert_empty, <- insert_union_singleton_l.
    + intros E. destruct (IH _ _ _ _ _ _ E) as (new & -> & Hs & ->). exists new. split; [done|]. split; [|done].
      apply scanned_skip; [|done]. intros Ht. apply andb_false_iff in Hc as [Hc|Hc]; bsimpl; [done|].
      by apply dec_stable.
Qed.

(** ** The searches *)
Record search_inv (ty : string) (s : db) (pid : string) (root : pin → Prop) (found : gset pin)
    (pending : list design_revision) : Prop := SearchInv {
  si_sound : ∀ q, q ∈ found → ∃ p, root p ∧ rtc (design_edge ty s pid) p q;
  si_pending : ∀ d, d ∈ pending → design_at s pid (dn_pin d) = Some d ∧ dn_pin d ∈ found;
  si_closed : ∀ p q, p ∈ found → p ∉ dn_pin <$> pending → design_edge ty s pid p q → q ∈ found;
  si_exist : found ⊆ design_pins s pid;
  si_roots : ∀ p, root p → p ∈ found;
}.
(** What is left to do: an item of the list, or a revision that was not found yet. *)
Definition search_work (s : db) (pid : string) (found : gset pin) (pending : list design_revision) : nat :=
  length pending + (size (design_pins s pid) - size found).

Section search.
Context (ty : string) (s : db) (pid : string) (root : pin → Prop).

Lemma search_step found found' d new pending :
  search_inv ty s pid root found (d :: pending) → scanned ty s pid (relations_of (dn_content d)) found found' new →
  search_inv ty s pid root found' (new ++ pending) ∧
  search_work s pid found' (new ++ pending) < search_work s pid found (d :: pending).
Proof.
  intros [S P C X R] [F N W A]. destruct (P d) as [Hd Hin]; [by left|].
  assert (∀ e, e ∈ new → design_edge ty s pid (dn_pin d) (dn_pin e)) as Hedge.
  { intros e He. destruct (W e He) as (_ & _ & r & Hr & Ht & Hq). by exists d, r. }
  assert (∀ q, q ∈ found' ↔ q ∈ dn_pin <$> new ∨ q ∈ found) as HF by (intros q; rewrite F; set_solver).
  assert (found' ⊆ design_pins s pid) as X'.
  { intros q [(e & -> & He)%list_elem_of_fmap|Hq]%HF; [|by apply X]. apply elem_of_design_pins.
    destruct (W e He) as [-> _]. by eexists. }
  split; [split|].
  - intros q [(e & -> & He)%list_elem_of_fmap|Hq]%HF; [|by apply S].
    destruct (S _ Hin) as (p & Hp & Hpd). exists p. split; [done|]. eapply rtc_r; [exact Hpd|]. by apply Hedge.
  - intros e [He|He]%elem_of_app.
    + split; [by apply W|]. apply HF. left. apply list_elem_of_fmap. by exists e.
    + destruct (P e) as [H1 H2]; [by right|]. split; [done|]. apply HF. by right.
  - intros p q Hp Hnp Hpq. rewrite fmap_app, not_elem_of_app in Hnp. destruct Hnp as [Hn1 Hn2].
    destruct (proj1 (HF p) Hp) as [?|Hp']; [done|]. destruct (decide (p = dn_pin d)) as [->|Hne].
    + destruct Hpq as (d' & r & Hd' & Hr & Ht & <-). simplify_eq. by apply A.
    + apply HF. right. apply (C p); [done| |done]. csimpl. apply not_elem_of_cons. by split.
  - done.
  - intros p Hp. apply HF. right. by apply R.
  - unfold search_work. rewrite length_app. simpl. apply subseteq_size in X'.
    assert (size found' = length new + size found) as E; [|lia].
    rewrite F, size_union.
    + rewrite size_list_to_set by done. by rewrite length_fmap.
    + intros q Hq1%elem_of_list_to_set Hq2. apply list_elem_of_fmap in Hq1 as (e & -> & He).
      by destruct (W e He) as (_ & ? & _).
Qed.

Lemma search_done found :
  search_inv ty s pid root found [] → ∀ q, q ∈ found ↔ ∃ p, root p ∧ rtc (design_edge ty s pid) p q.
Proof.
  intros [S P C X R] q. split; [apply S|]. intros (p & Hp & Hpq). apply R in Hp.
  induction Hpq as [p|p p' q Hpp' _ IH]; [done|]. apply IH. apply (C p); [done|apply not_elem_of_nil|done].
Qed.
End search.

Lemma supersedes_walk_inv s pid root fuel : ∀ found pending,
  search_inv "supersedes" s pid root found pending → search_work s pid found pending ≤ fuel →
  match supersedes_walk fuel s pid found pending with
  | Some (Ok all) => search_inv "supersedes" s pid root all []
  | Some (Err _) => True
  | None => False
  end.
Proof.
  induction fuel as [|fuel IH]; intros found [|d pending] Hs Hw; simpl; try done.
  - unfold search_work in Hw. simpl in Hw. lia.
  - destruct (scan_supersedes _ _ _ _ _ _ _) as [[found' pending']|] eqn:E; [|done].
    destruct (scan_supersedes_scanned _ _ _ _ _ _ _ _ _ E) as (new & -> & Hsc).
    destruct (search_step _ _ _ _ _ _ _ _ _ Hs Hsc). apply IH; [done|lia].
Qed.
Lemma depends_walk_inv s pid root bound fuel : ∀ seen found pending,
  search_inv "depends_on" s pid root seen pending → search_work s pid seen pending ≤ fuel →
  (∀ p d, found !! p = Some d ↔ p ∈ seen ∧ p ∉ bound ∧ design_at s pid p = Some d) → bound ⊆ seen →
  match depends_walk fuel s pid seen found pending with
  | Some (Ok all) => ∃ seen', search_inv "depends_on" s pid root seen' [] ∧
      ∀ p d, all !! p = Some d ↔ p ∈ seen' ∧ p ∉ bound ∧ design_at s pid p = Some d
  | Some (Err _) => True
  | None => False
  end.
Proof.
  induction fuel as [|fuel IH]; intros seen found [|d pending] Hs Hw Hf Hb; simpl; try (by exists seen).
  - unfold search_work in Hw. simpl in Hw. lia.
  - destruct (scan_depends _ _ _ _ _ _) as [[[seen' found'] pending']|] eqn:E; [|done].
    destruct (scan_depends_scanned _ _ _ _ _ _ _ _ _ E) as (new & -> & Hsc & ->).
    destruct (search_step _ _ _ _ _ _ _ _ _ Hs Hsc). destruct Hsc as [F N W A].
    apply IH; [done|lia| |rewrite F; set_solver].
    intros p e. rewrite F, elem_of_union, elem_of_list_to_set, lookup_union_Some_raw, Hf.
    set (m := list_to_map _).
    assert (∀ p e, m !! p = Some e ↔ e ∈ new ∧ dn_pin e = p) as Hm.
    { intros p' e'. unfold m. rewrite <- elem_of_list_to_map.
      - rewrite list_elem_of_fmap. split; [by intros (x & [= -> ->] & Hx)|]. intros [Hx <-]. by exists e'.
      - by rewrite <- list_fmap_compose. }
    rewrite Hm. split.
    + intros [[He <-]|[_ (Hin & Hnb & Hd)]]; [|by split_and!; [right|..]].
      destruct (W e He) as (Hd & Hns & _). split_and!; [left; apply list_elem_of_fmap; by exists e|set_solver|done].
    + intros ([(e' & -> & He')%list_elem_of_fmap|Hin] & Hnb & Hd).
      * left. destruct (W e' He') as [Hd' _]. by simplify_eq.
      * right. split_and!; [|done..]. destruct (m !! p) as [e'|] eqn:Hme; [|done]. apply Hm in Hme as [He' <-].
        destruct (W e' He') as (_ & Hns & _). done.
Qed.

(** ** What the searches of [Design] find *)
(** Everything a revision supersedes, directly or not. *)
Definition superseding (s : db) (pid : string) : relation pin := tc (design_edge "supersedes" s pid).

Lemma superseded_by_spec s pid selected d fuel :
  design_at s pid (dn_pin d) = Some d → design_fuel s ≤ fuel →
  match superseded_by fuel s pid selected d with
  | Some (Ok all) => ∀ q, q ∈ all ↔ superseding s pid (dn_pin d) q
  | Some (Err _) => True
  | None => False
  end.
Proof.
  intros Hd Hfuel. unfold superseded_by. destruct (scan_supersedes _ _ _ _ _ _ _) as [[found pending]|] eqn:E; [|done].
  destruct (scan_supersedes_scanned _ _ _ _ _ _ _ _ _ E) as (new & -> & [F N W A]). rewrite app_nil_r.
  assert (∀ q, q ∈ found ↔ design_edge "supersedes" s pid (dn_pin d) q) as Hroot.
  { intros q. split.
    - rewrite F, (right_id_L ∅ (∪)), elem_of_list_to_set. intros (e & -> & He)%list_elem_of_fmap.
      destruct (W e He) as (_ & _ & r & ? & ? & ?). by exists d, r.
    - intros (d' & r & Hd' & Hr & Ht & <-). simplify_eq. by apply A. }
  assert (search_inv "supersedes" s pid (design_edge "supersedes" s pid (dn_pin d)) found new) as Hs.
  { split.
    - intros q Hq. exists q. split; [by apply Hroot|done].
    - intros e He. split; [by apply W|]. rewrite F. apply elem_of_union. left.
      apply elem_of_list_to_set, list_elem_of_fmap. by exists e.
    - intros p q Hp Hn _. rewrite F, (right_id_L ∅ (∪)), elem_of_list_to_set in Hp. done.
    - rewrite F. intros q. rewrite (right_id_L ∅ (∪)), elem_of_list_to_set. intros (e & -> & He)%list_elem_of_fmap.
      apply elem_of_design_pins. destruct (W e He) as [-> _]. by eexists.
    - intros p. by apply Hroot. }
  pose proof (supersedes_walk_inv s pid _ fuel found new Hs) as Hw. pose proof (size_design_pins s pid) as Hsz.
  assert (size found = length new) as Hlen.
  { rewrite F, (right_id_L ∅ (∪)), size_list_to_set by done. by rewrite length_fmap. }
  pose proof (subseteq_size _ _ (si_exist _ _ _ _ _ _ Hs)) as Hle.
  destruct (supersedes_walk _ _ _ _ _) as [[all|]|]; [|done|apply Hw; unfold search_work; lia].
  intros q. rewrite (search_done _ _ _ _ _ (Hw ltac:(unfold search_work; lia))). unfold superseding. split.
  - intros (p & Hp & Hpq). by eapply tc_rtc_r; [apply tc_once|].
  - intros Hq. inversion Hq as [x y Hq1|x p y Hp Hq1]; subst; [by exists q|]. exists p. split; [done|by apply tc_rtc].
Qed.

(** The [depends_on] closure of the bound revisions. *)
Lemma depends_walk_spec s pid (ds : list design_revision) fuel :
  (∀ d, d ∈ ds → design_at s pid (dn_pin d) = Some d) → length ds + design_fuel s ≤ fuel →
  match depends_walk fuel s pid (list_to_set (dn_pin <$> ds)) ∅ (reverse ds) with
  | Some (Ok all) => ∀ p d, all !! p = Some d ↔
      design_at s pid p = Some d ∧ p ∉ dn_pin <$> ds ∧ ∃ b, b ∈ ds ∧ rtc (design_edge "depends_on" s pid) (dn_pin b) p
  | Some (Err _) => True
  | None => False
  end.
Proof.
  intros Hds Hfuel. set (bound := list_to_set (dn_pin <$> ds) : gset pin).
  assert (∀ p, p ∈ bound ↔ p ∈ dn_pin <$> ds) as Hbound by (intros; apply elem_of_list_to_set).
  assert (search_inv "depends_on" s pid (.∈ dn_pin <$> ds) bound (reverse ds)) as Hs.
  { split.
    - intros q Hq%Hbound. by exists q.
    - intros d Hd. rewrite elem_of_reverse in Hd. split; [by apply Hds|]. apply Hbound, list_elem_of_fmap. by exists d.
    - intros p q Hp%Hbound Hn. rewrite fmap_reverse, elem_of_reverse in Hn. done.
    - intros p (d & -> & Hd)%Hbound%list_elem_of_fmap. apply elem_of_design_pins. rewrite Hds by done. by eexists.
    - intros p. apply Hbound. }
  pose proof (depends_walk_inv s pid _ bound fuel bound ∅ (reverse ds) Hs) as Hw.
  pose proof (size_design_pins s pid) as Hsz.
  specialize (Hw ltac:(unfold search_work; rewrite length_reverse; lia)).
  specialize (Hw ltac:(intros p d; rewrite lookup_empty; split; [done|by intros (? & ? & _)]) ltac:(done)).
  destruct (depends_walk _ _ _ _ _ _) as [[all|]|]; [|done..]. destruct Hw as (seen & Hseen & Hall).
  intros p d. rewrite Hall, (search_done _ _ _ _ _ Hseen), Hbound. split.
  - intros ((q & (b & -> & Hb)%list_elem_of_fmap & Hr) & Hn & Hd). split_and!; [done..|]. by exists b.
  - intros (Hd & Hn & b & Hb & Hr). split_and!; [|done..]. exists (dn_pin b). split; [|done].
    apply list_elem_of_fmap. by exists b.
Qed.
