(* ===== verification/DesignProperties.v ===== *)
(** * Design revisions, selections and bindings

    Revisions are numbered from one without gaps and never change; their relations
    point to older revisions, so they form no cycle; a baseline selects one revision
    per design, closed under its references, none of which replaces another.  All of
    this holds in every reachable state. *)
From S2P Require Import Prelude Json Text Dag Store Graph History Portfolio Presence Claims.
From S2P Require Import Enforcement Review Attempts Evidence External Registry Inbox Issues Design.
From S2P Require Import Takeover Recovery Handoffs View Ledger System Sample DesignSearch.

(** ** What is stored *)
Lemma relation_roundtrip r : relation_of (relation_json r) = Some r.
Proof. by destruct r as [ty [d v] why]. Qed.
Lemma relations_roundtrip (rs : list design_relation) : omap relation_of (relation_json <$> rs) = rs.
Proof. induction rs as [|r rs IH]; [done|]. csimpl. by rewrite relation_roundtrip, IH. Qed.
Lemma manifest_roundtrip (ds : list design_revision) : manifest_pins (manifest_of ds) = dn_pin <$> ds.
Proof.
  unfold manifest_pins, manifest_of. change (array_of _) with
    ((λ d, jobj [("design_id", JStr (dn_pin d).1); ("revision", JInt (dn_pin d).2);
                 ("content_hash", JStr (dr_hash (dn_row d)))]) <$> ds).
  induction ds as [|d ds IH]; [done|]. csimpl. rewrite IH. by destruct (dn_pin d).
Qed.

(** What a stored payload says of itself. *)
Record payload_ok (expected : Z) (payload : json) (rs : list design_relation) : Prop := PayloadOk {
  po_relations : relations_of payload = rs;
  po_parent : jget "parent_revision" payload = Some (if bool_decide (expected = 0%Z) then JNull else JInt expected);
  po_approved : is_approved payload = true → jget "open_questions" payload = Some (JArr []);
  po_scope : is_Some (jget "scope" payload);
  po_unique : NoDup (relation_key <$> rs);
}.
Lemma design_payload_ok expected a payload rs :
  design_payload expected a = Ok (payload, rs) → payload_ok expected payload rs.
Proof.
  unfold design_payload. destruct (one_of LIFECYCLES _) as [lifecycle|]; [|done].
  destruct (one_of DESIGN_KINDS _) as [kind|]; [|done].
  intros (questions & _ & E)%res_bind_ok. apply res_bind_ok in E as ([] & Hq%ensure_ok & E).
  apply res_bind_ok in E as (title & _ & E). apply res_bind_ok in E as (statement & _ & E).
  apply res_bind_ok in E as (rationale & _ & E). apply res_bind_ok in E as (scope & _ & E).
  apply res_bind_ok in E as (relations & _ & E). cbv zeta in E.
  apply res_bind_ok in E as ([] & Hn%ensure_ok & E). injection E as <- <-. bsimpl. split.
  - unfold relations_of. change (array_of _) with (relation_json <$> merge_sort relation_le relations).
    apply relations_roundtrip.
  - reflexivity.
  - intros Ha%bool_decide_eq_true. assert (lifecycle = "approved") as ->.
    { change (Some (JStr lifecycle) = Some (JStr "approved")) in Ha. by injection Ha. }
    rewrite (bool_decide_eq_true_2 ("approved" = "approved")), orb_false_r in Hq by done. bsimpl. by subst.
  - eexists. reflexivity.
  - done.
Qed.

(** ** The invariant *)
Definition link (s : db) (pid : string) (p q : pin) : Prop := ∃ ty, design_edge ty s pid p q.

Record revision_ok `{Host} (s : db) (pid : string) (p : pin) (row : design_row) : Prop := RevisionOk {
  rv_number : (1 ≤ p.2 ≤ 1000000)%Z ∧ (p.2 = 1%Z ∨ is_Some (design_at s pid (p.1, p.2 - 1)%Z));
  rv_hash : dr_hash row = digest (dr_payload row);
  rv_payload : payload_ok (p.2 - 1) (dr_payload row) (relations_of (dr_payload row));
  rv_targets : ∀ r, r ∈ relations_of (dr_payload row) → ∃ t, design_at s pid (rl_target r) = Some t ∧
    (rl_type r = "supersedes" → jget "scope" (dn_content t) = jget "scope" (dr_payload row));
}.
(** A selection of revisions. *)
Record selection_ok (s : db) (pid : string) (ds : list design_revision) : Prop := SelectionOk {
  so_exist : ∀ d, d ∈ ds → design_at s pid (dn_pin d) = Some d;
  so_one : NoDup ((λ d, (dn_pin d).1) <$> ds);
  so_closed : ∀ d q, d ∈ ds → design_edge "depends_on" s pid (dn_pin d) q ∨ design_edge "references" s pid (dn_pin d) q →
    q ∈ dn_pin <$> ds;
  so_approved : ∀ d e, d ∈ ds → e ∈ ds → design_edge "depends_on" s pid (dn_pin d) (dn_pin e) →
    is_approved (dn_content d) = true → is_approved (dn_content e) = true;
  so_current : ∀ d e, d ∈ ds → e ∈ ds → ¬ superseding s pid (dn_pin d) (dn_pin e);
  so_once : ∀ d e q, d ∈ ds → e ∈ ds → superseding s pid (dn_pin d) q → superseding s pid (dn_pin e) q → d = e;
}.
Record design_inv `{Host} (s : db) : Prop := DesignInv {
  dv_revisions : ∀ pid did r row, design_revisions s !! (pid, did, r) = Some row → revision_ok s pid (did, r) row;
  dv_acyclic : ∀ pid p, ¬ tc (link s pid) p p;
  dv_baselines : ∀ pid bid b, design_baselines s !! (pid, bid) = Some b → bs_hash b = digest (bs_manifest b) ∧
    ∃ ds, bs_manifest b = manifest_of ds ∧ ds ≠ [] ∧ selection_ok s pid ds;
  dv_heads : ∀ pid bid, design_heads s !! pid = Some bid → is_Some (design_baselines s !! (pid, bid));
}.

(** *** Adding a revision *)
(** A step that keeps the revisions, from a state whose relations point to revisions. *)
Record extends (s s' : db) : Prop := Extends {
  ex_kept : ∀ pid p d, design_at s pid p = Some d → design_at s' pid p = Some d;
  ex_targets : ∀ pid p q, link s pid p q → is_Some (design_at s pid q);
}.
Lemma inv_targets `{Host} s pid p q : design_inv s → link s pid p q → is_Some (design_at s pid q).
Proof.
  intros Hs (ty & d & r & Hd & Hr & _ & <-). unfold design_at in Hd. apply fmap_Some in Hd as (row & Hrow & ->).
  destruct p as [did v]. destruct (rv_targets _ _ _ _ (dv_revisions s Hs _ _ _ _ Hrow) r Hr) as (t & -> & _).
  by eexists.
Qed.

Section extension.
Context (s s' : db) (Hx : extends s s').

Lemma extends_edge ty pid p q : is_Some (design_at s pid p) → design_edge ty s' pid p q ↔ design_edge ty s pid p q.
Proof.
  intros [d Hd]. pose proof (ex_kept _ _ Hx _ _ _ Hd) as Hd'. split; intros (e & r & He & Hr & Ht & Hq).
  - exists e, r. by simplify_eq.
  - exists e, r. rewrite (ex_kept _ _ Hx _ _ _ He). by simplify_eq.
Qed.
Lemma extends_rtc ty pid p q :
  is_Some (design_at s pid p) → rtc (design_edge ty s' pid) p q → rtc (design_edge ty s pid) p q.
Proof.
  intros Hp Hr. induction Hr as [p|p p' q Hpp' _ IH]; [done|]. apply extends_edge in Hpp'; [|done].
  eapply rtc_l; [exact Hpp'|]. apply IH. eapply (ex_targets _ _ Hx). by exists ty.
Qed.
Lemma extends_superseding pid p q :
  is_Some (design_at s pid p) → superseding s' pid p q → superseding s pid p q.
Proof.
  intros Hp Hr. induction Hr as [p q Hpq|p p' q Hpp' _ IH].
  - apply tc_once. by apply extends_edge.
  - apply extends_edge in Hpp'; [|done]. eapply tc_l; [exact Hpp'|]. apply IH. eapply (ex_targets _ _ Hx).
    by exists "supersedes".
Qed.
Lemma extends_link pid p q : is_Some (design_at s pid p) → link s' pid p q → link s pid p q.
Proof. intros Hp [ty He]. exists ty. by apply extends_edge. Qed.
Lemma extends_links pid p q : is_Some (design_at s pid p) → tc (link s' pid) p q → tc (link s pid) p q ∧ is_Some (design_at s pid q).
Proof.
  intros Hp Hr. induction Hr as [p q Hpq|p p' q Hpp' _ IH].
  - apply extends_link in Hpq; [|done]. split; [by apply tc_once|]. by eapply (ex_targets _ _ Hx).
  - apply extends_link in Hpp'; [|done]. destruct IH as [IH1 IH2]; [by eapply (ex_targets _ _ Hx)|].
    split; [|done]. by eapply tc_l.
Qed.
Lemma extends_selection pid ds : selection_ok s pid ds → selection_ok s' pid ds.
Proof.
  intros [X O C A U N]. assert (∀ d, d ∈ ds → is_Some (design_at s pid (dn_pin d))) as He.
  { intros d Hd. rewrite X by done. by eexists. }
  split; try done.
  - intros d Hd. by apply (ex_kept _ _ Hx), X.
  - intros d q Hd Hq. rewrite !extends_edge in Hq by auto. by eapply C.
  - intros d e Hd Hde Hq. rewrite extends_edge in Hq by auto. by apply A.
  - intros d e Hd Hde Hq%extends_superseding; [|auto]. by apply (U d e).
  - intros d e q Hd Hde Hq%extends_superseding Hq'%extends_superseding; [|auto..]. by eapply N.
Qed.
Lemma extends_revision `{Host} pid p row : revision_ok s pid p row → revision_ok s' pid p row.
Proof.
  intros [[N1 N2] Hh P T]. split; try done.
  - split; [done|]. destruct N2 as [?|[d Hd]]; [by left|right]. rewrite (ex_kept _ _ Hx _ _ _ Hd). by eexists.
  - intros r Hr. destruct (T r Hr) as (t & Ht & Hsc). exists t. split; [|done]. by apply (ex_kept _ _ Hx).
Qed.
End extension.

Section design_put.
Context `{Host} (s s' : db) (pid : string) (p0 : pin) (row : design_row).
Context (Hs : design_inv s) (Hnew : design_at s pid p0 = None) (Hok : revision_ok s pid p0 row).
Context (Er : design_revisions s' = <[(pid, p0.1, p0.2) := row]> (design_revisions s)).
Context (Eb : design_baselines s' = design_baselines s) (Eh : design_heads s' = design_heads s).

Lemma put_at pid' p : design_at s' pid' p =
  if bool_decide (pid' = pid ∧ p = p0) then Some (DesignRevision p0 row) else design_at s pid' p.
Proof.
  unfold design_at. rewrite Er. case_bool_decide as Hp; [destruct Hp as [-> ->]; by rewrite lookup_insert_eq|].
  rewrite lookup_insert_ne; [done|]. intros [= -> E1 E2]. apply Hp. split; [done|]. destruct p, p0. simpl in *. congruence.
Qed.
Lemma put_extends : extends s s'.
Proof.
  split; [|intros; by eapply inv_targets]. intros pid' p d Hd. rewrite put_at.
  case_bool_decide as Hp; [destruct Hp as [-> ->]; congruence|done].
Qed.
Lemma put_link q : link s' pid p0 q → is_Some (design_at s pid q).
Proof.
  intros (ty & d & r & Hd & Hr & _ & <-). rewrite put_at, bool_decide_eq_true_2 in Hd by done. injection Hd as <-.
  destruct (rv_targets _ _ _ _ Hok r Hr) as (t & -> & _). by eexists.
Qed.
Lemma put_inv : design_inv s'.
Proof.
  pose proof put_extends as Hx. split.
  - intros pid' did r row'. rewrite Er. intros [[E <-]|[_ Hr]]%lookup_insert_Some.
    + injection E as <- <- <-. destruct p0. by apply (extends_revision s).
    + apply (extends_revision s); [done|]. by apply (dv_revisions s Hs).
  - intros pid' p Hc. destruct (design_at s pid' p) as [d|] eqn:Hd.
    { destruct (extends_links s s' Hx pid' p p) as [Hc' _]; [by eexists|done|]. by apply (dv_acyclic s Hs pid' p). }
    assert (∀ q, link s' pid' p q → pid' = pid ∧ p = p0) as Hp.
    { intros q (ty & e & r & He & _). rewrite put_at in He. case_bool_decide; [done|congruence]. }
    assert (∃ q, link s' pid' p q ∧ (q = p ∨ tc (link s' pid') q p)) as (q & Hq & Hqp).
    { inversion Hc as [x y H1|x q y H1 H2]; subst; [exists p|exists q]; auto. }
    destruct (Hp q Hq) as [-> ->]. apply put_link in Hq. destruct Hqp as [->|Hqp]; [by rewrite Hnew in Hq; destruct Hq|].
    destruct (extends_links s s' Hx pid q p0 Hq Hqp) as [_ [d Hd']]. congruence.
  - intros pid' bid b. rewrite Eb. intros Hb. destruct (dv_baselines s Hs _ _ _ Hb) as (Hh & ds & Hm & Hne & Hsel).
    split; [done|]. exists ds. split_and!; [done|done|]. by apply (extends_selection s).
  - intros pid' bid. rewrite Eh, Eb. apply (dv_heads s Hs).
Qed.
End design_put.

(** *** Selecting *)
Lemma scan_supersedes_checked s pid selected content rs : ∀ found pending v,
  scan_supersedes s pid (Some selected) content found pending rs = Ok v →
  ∀ r, r ∈ rs → ∃ t, design_at s pid (rl_target r) = Some t ∧ member_relation selected content t r = Ok tt.
Proof.
  induction rs as [|r rs IH]; intros found pending v; simpl; [by intros _ r ?%elem_of_nil|].
  intros (t & Ht%find_design_ok & E)%res_bind_ok. apply res_bind_ok in E as ([] & Hm & E).
  intros r' [->|Hr']%elem_of_cons; [by exists t|]. destruct (_ && _) in E; by eapply IH.
Qed.

(** The items of a selection that passed. *)
Lemma check_supersessions_ok s pid selected pins fuel ds : ∀ replaced,
  (∀ d, d ∈ ds → design_at s pid (dn_pin d) = Some d) → design_fuel s ≤ fuel →
  check_supersessions fuel s pid selected pins replaced ds = Some (Ok tt) →
  (∀ d q, d ∈ ds → superseding s pid (dn_pin d) q → q ∉ pins ∧ q ∉ replaced) ∧
  (∀ i j d e q, ds !! i = Some d → ds !! j = Some e → superseding s pid (dn_pin d) q →
     superseding s pid (dn_pin e) q → i = j) ∧
  (∀ d r, d ∈ ds → r ∈ relations_of (dn_content d) →
     ∃ t, design_at s pid (rl_target r) = Some t ∧ member_relation selected (dn_content d) t r = Ok tt).
Proof.
  induction ds as [|d ds IH]; intros replaced Hd Hfuel; simpl.
  { intros _. split_and!; [by intros ? ? ?%elem_of_nil|by intros ? ? ? ? ?|by intros ? ? ?%elem_of_nil]. }
  pose proof (superseded_by_spec s pid selected d fuel (Hd d ltac:(by left)) Hfuel) as Hspec.
  destruct (superseded_by fuel s pid selected d) as [[all|]|] eqn:E; [|done..].
  case_bool_decide as Hdisj; [|done]. intros Hrest.
  destruct (IH _ (λ e He, Hd e (list_elem_of_further _ _ _ He)) Hfuel Hrest) as (H1 & H2 & H3). split_and!.
  - intros e q [->|He]%elem_of_cons Hq.
    + apply Hspec in Hq. set_solver.
    + destruct (H1 e q He Hq). set_solver.
  - intros [|i] [|j] e1 e2 q; simpl.
    + done.
    + intros [= <-] He2 Hq1%Hspec Hq2. exfalso. destruct (H1 e2 q (list_elem_of_lookup_2 _ _ _ He2) Hq2). set_solver.
    + intros He1 [= <-] Hq1 Hq2%Hspec. exfalso. destruct (H1 e1 q (list_elem_of_lookup_2 _ _ _ He1) Hq1). set_solver.
    + intros He1 He2 Hq1 Hq2. f_equal. by eapply H2.
  - intros e r [->|He]%elem_of_cons; [|by apply H3]. unfold superseded_by in E.
    destruct (scan_supersedes _ _ _ _ _ _ _) as [v|] eqn:Es; [|done]. by eapply scan_supersedes_checked.
Qed.

Lemma mapM_ok {A B} (f : A → res B) (l : list A) k : mapM f l = Ok k → Forall2 (λ x y, f x = Ok y) l k.
Proof.
  revert k. induction l as [|x l IH]; intros k; simpl; [by intros [= <-]|].
  intros (y & Hy & E)%res_bind_ok. apply res_bind_ok in E as (ys & Hys & [= <-]). constructor; [done|by apply IH].
Qed.
Lemma size_list_to_map_le (l : list pin) : size (list_to_map l : gmap string Z) ≤ length l.
Proof.
  induction l as [|[k v] l IH]; [done|]. simpl. rewrite map_size_insert.
  destruct (_ !! k); simpl; lia.
Qed.
Lemma size_list_to_map_nodup (l : list pin) : size (list_to_map l : gmap string Z) = length l → NoDup l.*1.
Proof.
  induction l as [|[k v] l IH]; [intros; apply NoDup_nil_2|]. simpl. intros E.
  pose proof (size_list_to_map_le l) as Hle.
  destruct ((list_to_map l : gmap string Z) !! k) as [v'|] eqn:Hk.
  - rewrite map_size_insert_Some in E by by eexists. lia.
  - rewrite map_size_insert_None in E by done. apply NoDup_cons. split; [|apply IH; lia].
    by apply not_elem_of_list_to_map.
Qed.

Lemma selection_made s pid refs ds :
  size (list_to_map refs : gmap string Z) = length refs → mapM (find_design s pid) refs = Ok ds →
  finished (check_supersessions (design_fuel s) s pid (list_to_map refs) (list_to_set refs) ∅ ds) = Ok tt →
  selection_ok s pid ds ∧ dn_pin <$> ds = refs.
Proof.
  intros Hsize Hds%mapM_ok Hc. apply size_list_to_map_nodup in Hsize.
  assert (dn_pin <$> ds = refs) as Hpins.
  { clear -Hds. induction Hds as [|p d refs ds Hpd _ IH]; [done|]. csimpl. rewrite IH. f_equal.
    by eapply design_at_pin, find_design_ok. }
  assert (∀ d, d ∈ ds → design_at s pid (dn_pin d) = Some d) as Hat.
  { intros d (i & Hi)%list_elem_of_lookup. destruct (Forall2_lookup_r _ _ _ _ _ Hds Hi) as (p & _ & Hp%find_design_ok).
    by rewrite (design_at_pin _ _ _ _ Hp). }
  destruct (check_supersessions _ _ _ _ _ _ _) as [[[]|]|] eqn:E; try done. clear Hc.
  destruct (check_supersessions_ok _ _ _ _ _ _ _ Hat (le_n _) E) as (H1 & H2 & H3). clear E.
  split; [|done]. assert (∀ d r, d ∈ ds → r ∈ relations_of (dn_content d) →
    rl_type r = "depends_on" ∨ rl_type r = "references" → rl_target r ∈ dn_pin <$> ds ∧
    (rl_type r = "depends_on" → is_approved (dn_content d) = true →
     ∀ e, design_at s pid (rl_target r) = Some e → is_approved (dn_content e) = true)) as Hrel.
  { intros d r Hd Hr Hty. destruct (H3 d r Hd Hr) as (t & Ht & Hm). unfold member_relation in Hm.
    assert (bool_decide (rl_type r = "depends_on") || bool_decide (rl_type r = "references") = true) as Eb.
    { apply orb_true_iff. destruct Hty; [left|right]; by apply bool_decide_eq_true. }
    rewrite Eb in Hm. apply res_bind_ok in Hm as ([] & Hsel%ensure_ok & Happ%ensure_ok). bsimpl. split.
    - rewrite Hpins. apply elem_of_list_to_map in Hsel; [|done]. by destruct (rl_target r).
    - intros Hdep Ha e He. simplify_eq. rewrite (bool_decide_eq_true_2 _ Hdep), Ha in Happ. by destruct (is_approved _). }
  split.
  - done.
  - assert ((λ d, (dn_pin d).1) <$> ds = refs.*1) as ->; [|done]. by rewrite <- Hpins, <- list_fmap_compose.
  - intros d q Hd Hq. assert (∃ r, r ∈ relations_of (dn_content d) ∧ rl_target r = q ∧
      (rl_type r = "depends_on" ∨ rl_type r = "references")) as (r & Hr & <- & Hty).
    { destruct Hq as [(d' & r & Hd' & Hr & Ht & Hq)|(d' & r & Hd' & Hr & Ht & Hq)];
        rewrite (Hat d Hd) in Hd'; injection Hd' as <-; exists r; auto. }
    by destruct (Hrel d r Hd Hr Hty).
  - intros d e Hd He (d' & r & Hd' & Hr & Ht & Hq) Ha. rewrite (Hat d Hd) in Hd'. injection Hd' as <-.
    destruct (Hrel d r Hd Hr (or_introl Ht)) as [_ Happ]. apply (Happ Ht Ha). rewrite Hq. by apply Hat.
  - intros d e Hd He Hq. destruct (H1 d _ Hd Hq) as [Hn _]. apply Hn. rewrite <- Hpins.
    apply elem_of_list_to_set, list_elem_of_fmap. by exists e.
  - intros d e q [i Hi]%list_elem_of_lookup [j Hj]%list_elem_of_lookup Hq1 Hq2.
    assert (i = j) as -> by by eapply H2. congruence.
Qed.

(** ** Every operation *)
Definition designs (s : db) := (design_revisions s, design_baselines s, design_heads s).
Section design_system.
Context `{Host}.

(** What a step that leaves the revisions alone keeps. *)
Lemma same_revisions s s' :
  design_revisions s' = design_revisions s → design_inv s →
  (∀ pid did r row, design_revisions s' !! (pid, did, r) = Some row → revision_ok s' pid (did, r) row) ∧
  (∀ pid p, ¬ tc (link s' pid) p p) ∧ ∀ pid ds, selection_ok s pid ds → selection_ok s' pid ds.
Proof.
  intros E1 Hs. assert (∀ pid p, design_at s' pid p = design_at s pid p) as Ed.
  { intros. unfold design_at. by rewrite E1. }
  assert (extends s s') as Hx by (split; [intros ? ? ? ?; by rewrite Ed|intros; by eapply inv_targets]).
  split_and!.
  - intros pid did r row. rewrite E1. intros Hr. apply (extends_revision s); [done|]. by apply (dv_revisions s Hs).
  - intros pid p Hc. destruct (design_at s pid p) as [d|] eqn:Hd.
    + destruct (extends_links s s' Hx pid p p) as [Hc' _]; [by eexists|done|]. by apply (dv_acyclic s Hs pid p).
    + assert (∃ q, link s' pid p q) as (q & ty & d & r & Hd' & _).
      { inversion Hc as [x y H1|x q y H1 H2]; subst; eauto. }
      rewrite Ed in Hd'. congruence.
  - intros pid ds. by apply (extends_selection s).
Qed.
Lemma design_inv_same s s' : designs s' = designs s → design_inv s → design_inv s'.
Proof.
  intros [= E1 E2 E3] Hs. destruct (same_revisions s s' E1 Hs) as (H1 & H2 & H3). split; [done|done| |].
  - intros pid bid b. rewrite E2. intros Hb. destruct (dv_baselines s Hs _ _ _ Hb) as (Hh & ds & Hm & Hne & Hsel).
    split; [done|]. exists ds. split_and!; [done|done|]. by apply H3.
  - intros pid bid. rewrite E2, E3. apply (dv_heads s Hs).
Qed.

(** The latest revision is one, when there is any. *)
Lemma design_latest_some s pid did :
  (1 ≤ design_latest s pid did)%Z → is_Some (design_at s pid (did, design_latest s pid did)).
Proof.
  unfold design_latest. set (l := omap _ _). intros Hl. assert (foldr Z.max 0%Z l ∈ l) as Hin.
  { clearbody l. induction l as [|z l IH]; simpl in *; [lia|]. destruct (Z.le_gt_cases (foldr Z.max 0%Z l) z).
    - rewrite Z.max_l by lia. left.
    - rewrite Z.max_r by lia. right. apply IH. lia. }
  apply list_elem_of_omap in Hin as ([[[pid' did'] r] row] & Hin%elem_of_map_to_list & E). simpl in E.
  case_bool_decide as Hk; [|done]. injection E as E. injection Hk as -> ->. unfold design_at. simpl. rewrite <- E, Hin. by eexists.
Qed.
(** The call's own checks on a revision and its relations. *)
Lemma check_targets_ok s pid did latest scope rs v :
  mapM (check_target s pid did latest scope) rs = Ok v →
  ∀ r, r ∈ rs → ∃ t, design_at s pid (rl_target r) = Some t ∧
    (rl_type r = "supersedes" → jget "scope" (dn_content t) = Some scope).
Proof.
  intros HF%mapM_ok r [i Hi]%list_elem_of_lookup. destruct (Forall2_lookup_l _ _ _ _ _ HF Hi) as (u & _ & E).
  unfold check_target in E. apply res_bind_ok in E as ([] & _ & E). apply res_bind_ok in E as (t & Ht%find_design_ok & E).
  exists t. split; [done|]. intros Hty. apply ensure_ok' in E. rewrite (bool_decide_eq_true_2 _ Hty) in E. simpl in E. by bsimpl.
Qed.

Lemma create_revision_inv x p d e a s :
  design_inv s → wp (create_revision x p d e a) (λ _ s', design_inv s') s.
Proof.
  intros Hs. unfold create_revision. apply wp_bind, wp_lift. intros did _. apply wp_bind, wp_lift.
  intros expected He. apply wp_bind, wp_lift. intros [payload rs] Hp%design_payload_ok.
  apply wp_bind, wp_project. intros row _ _. apply wp_bind, wp_gets. cbv zeta.
  apply wp_bind, wp_require. intros Hl%bool_decide_eq_true. change (id s) with s in *.
  apply wp_bind, wp_lift. intros v Hv. pose proof (check_targets_ok _ _ _ _ _ _ _ Hv) as Ht.
  apply wp_bind, wp_now. intros t. apply wp_bind, wp_modify. set (s2 := _ <| design_revisions ::= _ |>).
  apply wp_bind. eapply wp_mono; [apply (untouched_at designs); unfold event, now; frame|]. intros ? s3 E3. cbv beta.
  apply wp_bind, wp_gets, wp_lift. intros f Hf. apply (design_inv_same s2); [done|].
  assert (1 ≤ design_latest s p did + 1 ≤ 1000000)%Z as Hrange.
  { unfold find_design in Hf. apply res_bind_ok in Hf as (? & _ & Hf). by apply res_bind_ok in Hf as (? & [[= <-] ?]%integer_ok & _). }
  pose proof (design_next_free s p did) as Hfree.
  apply (put_inv s s2 p (did, design_latest s p did + 1)%Z (DesignRow payload (digest payload) x t)); try done.
  - unfold design_at. simpl. by rewrite Hfree.
  - destruct Hp as [P1 P2 P3 [scope Hscope] P5]. split; simpl; [split; [done|]|done| |].
    + destruct (decide (expected = 0%Z)) as [->|Hne]; [left; lia|right].
      rewrite Z.add_simpl_r. apply design_latest_some. apply integer_ok in He as [_ He]. lia.
    + rewrite Z.add_simpl_r, Hl, P1. split; [done..|by eexists|done].
    + intros r. rewrite P1. intros Hr. destruct (Ht r Hr) as (tgt & Htgt & Hsc). exists tgt. split; [done|].
      intros Hty. by rewrite (Hsc Hty), Hscope.
Qed.

Lemma create_baseline_inv x p b l e s :
  design_inv s → wp (create_baseline x p b l e) (λ _ s', design_inv s') s.
Proof.
  intros Hs. unfold create_baseline. apply wp_bind, wp_lift. intros bid _. apply wp_bind, wp_lift. intros ? _.
  apply wp_bind, wp_lift. intros refs Hrefs. cbv zeta. apply wp_bind, wp_require. intros Hsize%bool_decide_eq_true.
  apply wp_bind, wp_project. intros row _ _. apply wp_bind, wp_gets. change (id s) with s in *.
  apply wp_bind, wp_require. intros Hfree%bool_decide_eq_true. apply wp_bind, wp_require. intros Hhead%bool_decide_eq_true.
  apply wp_bind, wp_lift. intros ds Hds. apply wp_bind, wp_lift. intros [] Hc.
  destruct (selection_made s p _ ds Hsize Hds Hc) as [Hsel Hpins].
  apply wp_bind, wp_now. intros t. apply wp_bind, wp_modify. set (s2 := _ <| design_heads ::= _ |>).
  apply wp_bind. eapply wp_mono; [apply (untouched_at designs); unfold event, now; frame|]. intros ? s3 E3. apply wp_ret.
  apply (design_inv_same s2); [done|]. destruct (same_revisions s s2 eq_refl Hs) as (H1 & H2 & H3).
  split; [done|done| |].
  - intros pid' bid' b'. unfold s2. simpl. intros [[[= <- <-] <-]|[_ Hb]]%lookup_insert_Some.
    + split; [done|]. exists ds. split_and!; [done| |by apply H3]. intros ->. simpl in Hpins.
      destruct l as [| | | |l|]; try done. apply res_bind_ok in Hrefs as ([] & Hlen%ensure_ok & HF%mapM_ok).
      apply Forall2_length in HF. apply (f_equal length) in Hpins. rewrite (Permutation_length (merge_sort_Permutation _ _)) in Hpins. simpl in Hpins.
      apply andb_true_iff in Hlen as [Hlen%Nat.leb_le _]. simpl in *. lia.
    + destruct (dv_baselines s Hs _ _ _ Hb) as (Hh & ds' & Hm & Hne & Hsel'). split; [done|]. exists ds'.
      split_and!; [done|done|by apply H3].
  - intros pid' bid'. unfold s2. simpl. intros [[<- <-]|[Hne Hb]]%lookup_insert_Some.
    + rewrite lookup_insert_eq. by eexists.
    + rewrite lookup_insert_ne by congruence. by apply (dv_heads s Hs).
Qed.

Lemma operation_design A (m : M db A) : operation m → ∀ s, design_inv s → wp m (λ _ s', design_inv s') s.
Proof.
  intros Hop s Hs. destruct Hop;
    first
      [ by apply create_revision_inv | by apply create_baseline_inv
      | eapply wp_mono;
        [apply (untouched_at designs);
         unfold add_nodes, set_node_facet, revise_node, split_node, revise, add, split;
         solve [frame_operation]
        |intros ? s1 E1; by apply (design_inv_same s)] ].
Qed.
Lemma design_inv_empty : design_inv empty_db.
Proof.
  split; [done| |done|done]. intros pid p Hc.
  assert (∃ q, link empty_db pid p q) as (q & ty & d & r & Hd & _); [|done].
  inversion Hc as [x y H1|x q y H1 H2]; subst; eauto.
Qed.
Lemma reachable_design s : reachable s → design_inv s.
Proof. apply (reachable_invariant design_inv); [apply design_inv_empty|apply operation_design]. Qed.
End design_system.

(** ** What the design facts guarantee *)
Section design_theorems.
Context `{Host}.

(** C13: in every reachable state each design revision is numbered from one without a gap, with
    its predecessor as parent and the digest of its payload; its relations point to revisions
    that exist, and to one of the same scope when it supersedes it; an approved one has no
    open question; and relations between revisions never form a cycle. *)
Theorem design_revisions_sound s pid :
  reachable s →
  (∀ did r row, design_revisions s !! (pid, did, r) = Some row → revision_ok s pid (did, r) row) ∧
  ∀ p, ¬ tc (link s pid) p p.
Proof.
  intros Hs%reachable_design. split; [intros; by apply dv_revisions|intros; by apply dv_acyclic].
Qed.

(** C14: in every reachable state a baseline is the exact selection its manifest names, with the
    manifest's digest: existing revisions, one per design, closed under [depends_on] and
    [references], approved items depending on approved ones only, none superseding another
    one, directly or not, and no revision superseded by two of them. *)
Theorem baseline_sound s pid bid b :
  reachable s → design_baselines s !! (pid, bid) = Some b →
  bs_hash b = digest (bs_manifest b) ∧
  ∃ ds, bs_manifest b = manifest_of ds ∧ manifest_pins (bs_manifest b) = dn_pin <$> ds ∧ ds ≠ [] ∧
    selection_ok s pid ds.
Proof.
  intros Hs%reachable_design Hb. destruct (dv_baselines s Hs _ _ _ Hb) as (Hh & ds & Hm & Hne & Hsel).
  split; [done|]. exists ds. split_and!; try done. by rewrite Hm, manifest_roundtrip.
Qed.

(** C38: with the number of revisions as fuel both searches over design relations finish, on any
    database: the one for what a revision supersedes, whatever it is checked against, and the
    one for the dependencies of existing revisions. *)
Theorem design_searches_finish s pid selected d ds :
  (∀ e, e ∈ d :: ds → design_at s pid (dn_pin e) = Some e) →
  is_Some (superseded_by (design_fuel s) s pid selected d) ∧
  is_Some (depends_walk (length ds + design_fuel s) s pid (list_to_set (dn_pin <$> ds)) ∅ (reverse ds)).
Proof.
  intros He. pose proof (superseded_by_spec s pid selected d (design_fuel s) (He d ltac:(by left)) (le_n _)) as H1.
  pose proof (depends_walk_spec s pid ds (length ds + design_fuel s)
    (λ e Hin, He e (list_elem_of_further _ _ _ Hin)) (le_n _)) as H2.
  by destruct (superseded_by _ _ _ _ _), (depends_walk _ _ _ _ _ _).
Qed.

(** A binding that passed its checks. *)
Definition bound_ok (s : db) (pid : string) (selected : list pin) (b : prepared_binding) : Prop :=
  let d := pb_design b in
  design_at s pid (dn_pin d) = Some d ∧ dn_pin d ∈ selected ∧ pb_purpose b ∈ BINDING_PURPOSES ∧
  jget "scope" (dn_content d) = Some (pb_scope b) ∧
  (pb_purpose b ≠ "context" → is_approved (dn_content d) = true).
Lemma prepare_binding_ok s pid (l : list pin) v b :
  prepare_binding s pid (list_to_map (reverse l)) v = Ok b → bound_ok s pid l b.
Proof.
  unfold prepare_binding. destruct v as [| | | | |m]; try done. intros ([] & _ & E)%res_bind_ok.
  apply res_bind_ok in E as (ref & _ & E). destruct (one_of BINDING_PURPOSES _) as [purpose|] eqn:Hp; [|done].
  apply res_bind_ok in E as ([] & Hsel%ensure_ok & E). apply res_bind_ok in E as (d & Hd%find_design_ok & E).
  apply res_bind_ok in E as (scope & _ & E). apply res_bind_ok in E as ([] & Hsc%ensure_ok & E).
  apply res_bind_ok in E as ([] & Ha%ensure_ok & E). injection E as <-. bsimpl. unfold bound_ok. simpl.
  rewrite (design_at_pin _ _ _ _ Hd). split_and!; try done.
  - apply elem_of_list_to_map_2 in Hsel. rewrite elem_of_reverse in Hsel. by destruct ref.
  - unfold one_of in Hp. destruct (field m "purpose") as [| | |w| |]; try done.
    destruct (bool_decide (w ∈ BINDING_PURPOSES)) eqn:Hw; [|done]. injection Hp as <-. by bsimpl.
  - intros Hne. rewrite bool_decide_eq_false_2 in Ha by done. done.
Qed.

(** The request a prepared binding answers. *)
Definition binding_request (b : prepared_binding) : json :=
  jobj [("design_id", JStr (dn_pin (pb_design b)).1); ("revision", JInt (dn_pin (pb_design b)).2);
        ("purpose", JStr (pb_purpose b)); ("coverage_scope", pb_scope b)].
Lemma exact_fields_read m fields : NoDup fields → exact_fields m fields = true →
  m = list_to_map ((λ k, (k, field m k)) <$> fields).
Proof.
  intros Hnd Hdom%bool_decide_eq_true. apply map_eq. intros k. destruct (decide (k ∈ fields)) as [Hk|Hk].
  - assert (is_Some (m !! k)) as [v Hv] by (apply elem_of_dom; rewrite Hdom; by apply elem_of_list_to_set).
    rewrite Hv. symmetry. apply elem_of_list_to_map.
    + rewrite <- list_fmap_compose. simpl. by rewrite list_fmap_id.
    + apply list_elem_of_fmap. exists k. split; [|done]. unfold field. by rewrite Hv.
  - assert (m !! k = None) as -> by (apply not_elem_of_dom; rewrite Hdom; by rewrite elem_of_list_to_set).
    symmetry. apply not_elem_of_list_to_map_1. rewrite <- list_fmap_compose. simpl. by rewrite list_fmap_id.
Qed.
Lemma scope_of_ok v j : scope_of v = Ok j → j = v.
Proof.
  unfold scope_of. destruct v as [| | | | |m]; try done. intros ([] & _ & E)%res_bind_ok.
  apply res_bind_ok in E as (items & HF%mapM_ok & [= <-]).
  assert (prod_map id JStr <$> items = sort_items (map_to_list m)) as E.
  { induction HF as [|[k w] it l items Hit HF IH]; [done|]. csimpl. f_equal; [|done].
    unfold scope_item in Hit. apply res_bind_ok in Hit as (k' & [[= <-] _]%key_ok & Hit).
    apply res_bind_ok in Hit as (w' & [Hw _]%key_ok & [= <-]). simpl in Hw. by subst w. }
  unfold jobj. by rewrite E, list_to_map_sort_items.
Qed.
Lemma prepare_binding_request s pid selected v b : prepare_binding s pid selected v = Ok b → v = binding_request b.
Proof.
  unfold prepare_binding. destruct v as [| | | | |m]; try done. intros ([] & Hm%ensure_ok & E)%res_bind_ok.
  apply res_bind_ok in E as (ref & Href & E). destruct (one_of BINDING_PURPOSES _) as [purpose|] eqn:Hp; [|done].
  apply res_bind_ok in E as ([] & _ & E). apply res_bind_ok in E as (d & Hd%find_design_ok & E).
  apply res_bind_ok in E as (scope & Hsc%scope_of_ok & E). apply res_bind_ok in E as ([] & _ & E).
  apply res_bind_ok in E as ([] & _ & [= <-]). unfold binding_request. simpl. rewrite (design_at_pin _ _ _ _ Hd), Hsc.
  apply exact_fields_read in Hm; [|by apply (bool_decide_unpack _); vm_compute].
  assert (∀ x y : json, field (list_to_map [("design_id", x); ("revision", y)]) "design_id" = x ∧
    field (list_to_map [("design_id", x); ("revision", y)]) "revision" = y) as Hf by (intros x y; by split).
  unfold ref_of, jobj in Href. cbv beta iota in Href. apply res_bind_ok in Href as ([] & _ & Href).
  apply res_bind_ok in Href as (did & [Hdid _]%key_ok & Href). apply res_bind_ok in Href as (r & [Hr _]%integer_ok & [= <-]).
  rewrite (proj1 (Hf _ _)) in Hdid. rewrite (proj2 (Hf _ _)) in Hr.
  assert (field m "purpose" = JStr purpose) as Hpu.
  { unfold one_of in Hp. destruct (field m "purpose") as [| | |w| |]; try done. case_match; by simplify_eq. }
  rewrite Hm. unfold jobj. csimpl. by rewrite Hdid, Hr, Hpu.
Qed.

(** C30: binding a node to a baseline freezes exactly what it says: the 1 to 64 bindings stored
    are the requested ones, in some order; each is to an existing revision the baseline selects,
    in its own scope, and to an approved one unless it is only context; the dependencies in the
    snapshot are exactly the existing revisions that the bound ones reach through [depends_on],
    the bound ones left out; the node moves on from the revision the caller expects to the next
    one; and the snapshot is stored with its digest at that revision, where none was before. *)
Theorem bind_node_effect x pid nk e bid bindings reason s r snapshot s' :
  bind_node x pid nk e bid bindings reason s = Ok ((r, snapshot), s') →
  ∃ l b bs deps, bindings = JArr l ∧ 1 ≤ length l ≤ 64 ∧ l ≡ₚ binding_request <$> bs ∧
    design_baselines s !! (pid, bid) = Some b ∧
    Forall (bound_ok s pid (manifest_pins (bs_manifest b))) bs ∧
    NoDup ((λ b, ((dn_pin (pb_design b)).1, pb_purpose b)) <$> bs) ∧
    jget "baseline_id" snapshot = Some (JStr bid) ∧ jget "manifest" snapshot = Some (bs_manifest b) ∧
    jget "bindings" snapshot = Some (JArr (binding_json_of pid <$> bs)) ∧
    jget "design_dependencies" snapshot = Some (JArr (revision_json pid <$> deps)) ∧
    (∀ d, d ∈ deps ↔ design_at s pid (dn_pin d) = Some d ∧ dn_pin d ∉ (dn_pin ∘ pb_design) <$> bs ∧
       ∃ b, b ∈ bs ∧ rtc (design_edge "depends_on" s pid) (dn_pin (pb_design b)) (dn_pin d)) ∧
    (∃ n n', nodes s !! (pid, nk) = Some n ∧ e = JInt (n_revision n) ∧ re_revision r = (n_revision n + 1)%Z ∧
       nodes s' !! (pid, nk) = Some n' ∧ n_revision n' = re_revision r) ∧
    design_bindings s !! (pid, nk, re_revision r) = None ∧
    design_bindings s' = <[(pid, nk, re_revision r) := DesignBindingRow snapshot (digest snapshot)]> (design_bindings s).
Proof.
  intros E. pattern r, snapshot.
  match goal with |- ?P r snapshot => change ((λ v : revise_result * json, P v.1 v.2) (r, snapshot)) end.
  revert E. generalize (r, snapshot). clear r snapshot. intros v E. cbv beta.
  refine (wp_run _ (λ v s', ∃ l b bs deps, _) _ _ _ _ E). clear E v s'.
  unfold bind_node. apply wp_bind, wp_get_some. intros values Hvalues. apply wp_bind, wp_node. intros n _ _ _.
  apply wp_bind, wp_gets. change (id s) with s. apply wp_bind, wp_lift. intros b Hb.
  assert (design_baselines s !! (pid, bid) = Some b) as Hb'.
  { unfold find_baseline in Hb. apply res_bind_ok in Hb as (? & [[= <-] _]%key_ok & Hb).
    destruct (design_baselines s !! (pid, bid)); congruence. }
  cbv zeta. apply wp_bind, wp_lift. intros bs0 Hbs%mapM_ok. set (bs := merge_sort (prepared_le pid) bs0).
  assert (Forall (bound_ok s pid (manifest_pins (bs_manifest b))) bs) as Hok.
  { unfold bs. rewrite (merge_sort_Permutation _ bs0). clear -Hbs.
    induction Hbs as [|v c vs bs0 Hc _ IH]; constructor; [by eapply prepare_binding_ok|done]. }
  assert (values ≡ₚ binding_request <$> bs) as Hreq.
  { unfold bs. rewrite (merge_sort_Permutation _ bs0). clear -Hbs.
    induction Hbs as [|v c vs bs0 Hc _ IH]; [done|]. csimpl. by rewrite (prepare_binding_request _ _ _ _ _ Hc), <- IH. }
  apply wp_bind, wp_require. intros Hnd%bool_decide_eq_true. apply wp_bind, wp_lift. intros found Hfound.
  set (ds := pb_design <$> bs).
  assert (∀ d, d ∈ ds → design_at s pid (dn_pin d) = Some d) as Hds.
  { intros d (c & -> & Hc)%list_elem_of_fmap. by destruct (proj1 (Forall_forall _ _) Hok c Hc). }
  pose proof (depends_walk_spec s pid ds (length bs + design_fuel s) Hds) as Hspec.
  assert (dn_pin <$> ds = (dn_pin ∘ pb_design) <$> bs) as Hpins by (unfold ds; by rewrite <- list_fmap_compose).
  rewrite Hpins in Hspec. specialize (Hspec ltac:(unfold ds; by rewrite length_fmap)).
  destruct (depends_walk _ _ _ _ _ _) as [[found'|]|]; try done. injection Hfound as <-.
  set (deps := snd <$> merge_sort dependency_le (map_to_list found')).
  apply wp_bind. eapply wp_mono; [apply wp_conj; [apply revise_run|
    apply (untouched_at (λ s, (design_baselines s, design_bindings s)) (revise _ _ _ _ _ _ _)); unfold revise; frame_operation]|].
  intros v s1 [(old & g & cs & ds' & -> & _ & [_ _ [= ->]] & Hrv) [= _ Eb]]. apply wp_bind, wp_gets, wp_bind, wp_require. intros Hnone. bsimpl.
  apply wp_bind, wp_modify. set (s2 := s1 <| design_bindings ::= _ |>). apply wp_bind.
  eapply wp_mono; [apply (untouched_at (λ s, (design_bindings s, nodes s))); frame_operation|]. intros ? s3 [= E3 En3]. apply wp_ret.
  exists values, b, bs, deps. rewrite E3, En3. unfold s2. simpl. rewrite Eb in *.
  assert (bindings = JArr values ∧ 1 ≤ length values ≤ 64) as [-> Hlen].
  { destruct bindings as [| | | |l|]; try done. destruct ((1 <=? length l) && (length l <=? 64)) eqn:Hl; [|done].
    injection Hvalues as ->. apply andb_true_iff in Hl as [?%Nat.leb_le ?%Nat.leb_le]. done. }
  destruct Hrv as [Hold _ _ _ _ _ [t Hnew] _ _ _ _ _ _ _]. split_and!; try done; try lia.
  - unfold deps. by rewrite <- list_fmap_compose.
  - intros d. unfold deps. rewrite list_elem_of_fmap. split.
    + intros ([p d'] & -> & Hin). rewrite (merge_sort_Permutation dependency_le (map_to_list found')) in Hin.
      apply elem_of_map_to_list, Hspec in Hin as (Hd & Hn & c & Hc & Hr).
      simpl. rewrite (design_at_pin _ _ _ _ Hd). split_and!; [done|done|].
      apply list_elem_of_fmap in Hc as (b' & -> & Hb''). by exists b'.
    + intros (Hd & Hn & c & Hc & Hr). exists (dn_pin d, d). split; [done|].
      rewrite (merge_sort_Permutation dependency_le (map_to_list found')). apply elem_of_map_to_list, Hspec. split_and!; [done|done|].
      exists (pb_design c). split; [|done]. apply list_elem_of_fmap. by exists c.
  - by eexists _, _.
  - by apply eq_None_not_Some.
Qed.
End design_theorems.

(** ** Instances *)
(** A rule, a decision that depends on it, the baseline of both, and a node bound to the decision. *)
Definition sample_scope : json := jobj [("area", JStr "core")].
Definition sample_design (title : string) (rs : list json) : design_args :=
  DesignArgs (JStr title) (JStr "it holds") (JStr "because") (JArr []) sample_scope (JStr "approved") (JStr "rule") (JArr rs).
Definition depending_on (did : string) : json :=
  jobj [("type", JStr "depends_on"); ("target", pin_json (did, 1%Z)); ("rationale", JStr "it needs it")].
Definition s_rule : db := after (create_revision "boss" "demo" "rule-a" (JInt 0) (sample_design "rule" [])) s_nodes.
Definition s_decision : db :=
  after (create_revision "boss" "demo" "dec-b" (JInt 0) (sample_design "decision" [depending_on "rule-a"])) s_rule.
Definition s_baseline : db :=
  after (create_baseline "boss" "demo" "base-1" (JArr [pin_json ("dec-b", 1%Z); pin_json ("rule-a", 1%Z)]) None) s_decision.
Definition binding_decision : M db (revise_result * json) :=
  bind_node "boss" "demo" "a" (JInt 1) "base-1"
    (JArr [jobj [("design_id", JStr "dec-b"); ("revision", JInt 1); ("purpose", JStr "implements");
                 ("coverage_scope", sample_scope)]]) (JStr "bind it").
Lemma reachable_decision : reachable s_decision.
Proof. unfold s_decision, s_rule. do 2 (apply steps_after; [apply op_create_revision|]). apply reachable_nodes. Qed.
Lemma reachable_baseline : reachable s_baseline.
Proof. unfold s_baseline. apply steps_after; [apply op_create_baseline|apply reachable_decision]. Qed.

Lemma design_revisions_sound_witness : ∃ row,
  design_revisions s_decision !! ("demo", "dec-b", 1%Z) = Some row ∧
  revision_ok s_decision "demo" ("dec-b", 1%Z) row ∧ link s_decision "demo" ("dec-b", 1%Z) ("rule-a", 1%Z).
Proof.
  destruct (design_revisions_sound s_decision "demo" reachable_decision) as [Hr _].
  assert (∃ row, design_revisions s_decision !! ("demo", "dec-b", 1%Z) = Some row) as [row Hrow]
    by (eexists; vm_compute; reflexivity).
  exists row. split; [exact Hrow|]. split; [by apply Hr|].
  exists "depends_on", (DesignRevision ("dec-b", 1%Z) row), (Relation "depends_on" ("rule-a", 1%Z) "it needs it").
  split.
  { change (DesignRevision ("dec-b", 1%Z) <$> design_revisions s_decision !! ("demo", "dec-b", 1%Z) =
      Some (DesignRevision ("dec-b", 1%Z) row)). by rewrite Hrow. }
  assert (relations_of <$> (dr_payload <$> design_revisions s_decision !! ("demo", "dec-b", 1%Z)) =
    Some [Relation "depends_on" ("rule-a", 1%Z) "it needs it"]) as E by (vm_compute; reflexivity).
  rewrite Hrow in E. injection E as E. simpl. change (dn_content _) with (dr_payload row). rewrite E.
  split; [by left|split; reflexivity].
Defined.

Lemma baseline_sound_witness : ∃ b ds,
  design_baselines s_baseline !! ("demo", "base-1") = Some b ∧
  dn_pin <$> ds = [("dec-b", 1%Z); ("rule-a", 1%Z)] ∧ selection_ok s_baseline "demo" ds.
Proof.
  assert (∃ b, design_baselines s_baseline !! ("demo", "base-1") = Some b ∧
    manifest_pins (bs_manifest b) = [("dec-b", 1%Z); ("rule-a", 1%Z)]) as (b & Hb & Hp)
    by (eexists; split; [vm_compute; reflexivity|vm_compute; reflexivity]).
  destruct (baseline_sound s_baseline "demo" "base-1" b reachable_baseline Hb) as (_ & ds & _ & Hds & _ & Hsel).
  exists b, ds. split; [exact Hb|]. split; [by rewrite <- Hds|exact Hsel].
Defined.

Lemma design_searches_finish_witness : ∃ d, dn_pin d = ("dec-b", 1%Z) ∧
  is_Some (superseded_by (design_fuel s_baseline) s_baseline "demo" ∅ d).
Proof.
  assert (∃ d, design_at s_baseline "demo" ("dec-b", 1%Z) = Some d ∧ dn_pin d = ("dec-b", 1%Z)) as (d & Hd & Hp)
    by (eexists; split; [vm_compute; reflexivity|reflexivity]).
  exists d. split; [exact Hp|]. apply (design_searches_finish s_baseline "demo" ∅ d []).
  intros e [->|[]%elem_of_nil]%elem_of_cons. by rewrite Hp.
Defined.

(** The snapshot of the bound decision freezes one dependency, which the decision reaches. *)
Lemma bind_node_effect_witness : ∃ r snapshot (bs : list prepared_binding) d,
  binding_decision s_baseline = Ok ((r, snapshot), after binding_decision s_baseline) ∧
  jget "design_dependencies" snapshot = Some (JArr [revision_json "demo" d]) ∧
  ∃ b, b ∈ bs ∧ rtc (design_edge "depends_on" s_baseline "demo") (dn_pin (pb_design b)) (dn_pin d).
Proof.
  assert (∃ r snapshot, binding_decision s_baseline = Ok ((r, snapshot), after binding_decision s_baseline) ∧
    length (array_of (jget "design_dependencies" snapshot)) = 1) as (r & snapshot & E & Hlen)
    by (eexists _, _; split; vm_compute; reflexivity).
  pose proof E as E'. unfold binding_decision in E'.
  destruct (bind_node_effect _ _ _ _ _ _ _ _ _ _ _ E') as (l & b & bs & deps & _ & _ & Hl & _ & _ & _ & _ & _ & _ & Hdeps & Hin & _).
  rewrite Hdeps in Hlen. simpl in Hlen. rewrite length_fmap in Hlen.
  destruct deps as [|d [|]]; [discriminate Hlen| |discriminate Hlen]. exists r, snapshot, bs, d. split; [exact E|]. split; [exact Hdeps|].
  destruct (proj1 (Hin d) (list_elem_of_here _ _)) as (_ & _ & Hb). exact Hb.
Defined.
