(* ===== verification/DesignImpact.v ===== *)
(** * What a change of a design revision touches

    The breadth-first search of [impact] is exact: within its bound it finds every
    selected revision that depends on the subject, however indirectly, each with a
    shortest chain of dependencies; and the nodes it names are those whose binding in
    force holds the subject. *)
From stdpp Require Import sorting.
From S2P Require Import Prelude Json Text Dag Store Graph Attempts Design DesignSearch DesignQueries.
From S2P Require Import System Sample DesignProperties.

(** ** Breadth-first search *)
Section search.
Context (next : pin → list pin) (root : pin) (most : nat).

(** Chains of children from the root, by their length. *)
Inductive walks : nat → pin → Prop :=
  | walks_root : walks 0 root
  | walks_step n p q : walks n p → q ∈ next p → walks (S n) q.

(** How far below the root the parents put a node. *)
Inductive depth (parents : gmap pin (option pin)) : pin → nat → Prop :=
  | depth_root p : parents !! p = Some None → depth parents p 0
  | depth_child p q n : parents !! p = Some (Some q) → depth parents q n → depth parents p (S n).

Lemma depth_functional parents p n m : depth parents p n → depth parents p m → n = m.
Proof.
  intros H. revert m. induction H as [p Hp|p q n Hp _ IH]; intros m Hm; inversion Hm; subst; simplify_eq; [done|].
  f_equal. by apply IH.
Qed.
Lemma depth_mono parents parents' p n : parents ⊆ parents' → depth parents p n → depth parents' p n.
Proof.
  intros Hs. induction 1 as [p Hp|p q n Hp _ IH]; [apply depth_root|eapply depth_child; [|done]]; by eapply lookup_weaken.
Qed.
Lemma depth_dom parents p n : depth parents p n → p ∈ dom parents.
Proof. intros H. apply elem_of_dom. destruct H; by eexists. Qed.

(** The parents form a tree of shortest walks. *)
Record tree (parents : gmap pin (option pin)) : Prop := Tree {
  tr_root : parents !! root = Some None;
  tr_only : ∀ p, parents !! p = Some None → p = root;
  tr_edge : ∀ p q, parents !! p = Some (Some q) → p ∈ next q;
  tr_depth : ∀ p, p ∈ dom parents → ∃ n, depth parents p n ∧ n < size parents;
  tr_least : ∀ p n m, depth parents p n → walks m p → n ≤ m;
  tr_size : size parents ≤ most;
}.
(** While nothing was skipped: the queue holds one level and part of the next one; nearer nodes
    are known, and so are the children of whatever is neither queued nor [busy]. *)
Record level (parents : gmap pin (option pin)) (busy : pin → Prop) (k : nat) (q1 q2 : list pin) : Prop := Level {
  lv_first : ∀ p, p ∈ q1 → depth parents p k;
  lv_second : ∀ p, p ∈ q2 → depth parents p (S k);
  lv_near : ∀ m p, m ≤ k → walks m p → ∃ n, depth parents p n ∧ n ≤ m;
  lv_bound : ∀ p n, depth parents p n → n ≤ S k;
  lv_closed : ∀ p q, p ∈ dom parents → p ∉ q1 ++ q2 → ¬ busy p → q ∈ next p → q ∈ dom parents;
}.

Lemma tree_walks parents p n : tree parents → depth parents p n → walks n p.
Proof.
  intros Ht. induction 1 as [p Hp|p q n Hp _ IH].
  - rewrite (tr_only _ Ht p Hp). apply walks_root.
  - eapply walks_step; [exact IH|by apply (tr_edge _ Ht)].
Qed.

(** A new child below a node of the tree. *)
Section insert.
Context (parents : gmap pin (option pin)) (child target : pin) (k : nat).
Context (Ht : tree parents) (Hnew : parents !! child = None) (Htarget : depth parents target k).
Let parents' := <[child := Some target]> parents.

Lemma insert_grows : parents ⊆ parents'.
Proof. by apply insert_subseteq. Qed.
Lemma depth_new : depth parents' child (S k).
Proof. eapply depth_child; [apply lookup_insert_eq|]. eapply depth_mono; [apply insert_grows|done]. Qed.
Lemma depth_insert p n : depth parents' p n → depth parents p n ∨ p = child ∧ n = S k.
Proof.
  intros Hp. pose proof (depth_dom _ _ _ Hp) as Hd. unfold parents' in Hd. rewrite dom_insert_L in Hd.
  apply elem_of_union in Hd as [->%elem_of_singleton|Hd].
  - right. split; [done|]. by eapply depth_functional; [|apply depth_new].
  - left. destruct (tr_depth _ Ht p Hd) as (m & Hm & _).
    by rewrite (depth_functional _ _ _ _ Hp (depth_mono _ _ _ _ insert_grows Hm)).
Qed.
Lemma tree_insert :
  child ∈ next target → size parents < most → (∀ m, walks m child → S k ≤ m) → tree parents'.
Proof.
  intros He Hs Hleast. unfold parents'.
  assert (size (<[child := Some target]> parents) = S (size parents)) as Hsize by by apply map_size_insert_None.
  split.
  - rewrite lookup_insert_ne; [by apply tr_root|]. intros ->. by rewrite (tr_root _ Ht) in Hnew.
  - intros p [[_ ?]|[_ Hp]]%lookup_insert_Some; [done|by apply (tr_only _ Ht)].
  - intros p q [[<- [= <-]]|[_ Hp]]%lookup_insert_Some; [done|by apply (tr_edge _ Ht)].
  - intros p. rewrite dom_insert_L, Hsize. intros [->%elem_of_singleton|Hp]%elem_of_union.
    + exists (S k). split; [apply depth_new|]. destruct (tr_depth _ Ht target) as (n & Hn & Hl).
      { by eapply depth_dom. } rewrite (depth_functional _ _ _ _ Htarget Hn). lia.
    + destruct (tr_depth _ Ht p Hp) as (n & Hn & Hl). exists n. split; [|lia]. eapply depth_mono; [apply insert_grows|done].
  - intros p n m [Hp|[-> ->]]%depth_insert Hw; [by eapply (tr_least _ Ht)|by apply Hleast].
  - rewrite Hsize. lia.
Qed.
End insert.

Lemma tree_start : 1 ≤ most → tree {[root := None]}.
Proof.
  intros Hm. split.
  - apply lookup_insert_eq.
  - intros p [<- _]%lookup_singleton_Some. done.
  - by intros p q [_ ?]%lookup_singleton_Some.
  - intros p. rewrite dom_singleton_L. intros ->%elem_of_singleton. exists 0. split; [apply depth_root, lookup_insert_eq|].
    rewrite map_size_singleton. lia.
  - intros p n m Hp _. inversion Hp as [|? q ? Hq]; subst; [lia|]. by apply lookup_singleton_Some in Hq as [_ ?].
  - by rewrite map_size_singleton.
Qed.
Lemma level_start : level {[root := None]} (λ _, False) 0 [root] [].
Proof.
  assert (depth {[root := None]} root 0) as Hr by apply depth_root, lookup_insert_eq.
  split.
  - by intros p ->%list_elem_of_singleton.
  - by intros p ?%elem_of_nil.
  - intros m p Hm Hw. assert (m = 0) as -> by lia. inversion Hw; subst. by exists 0.
  - intros p n Hp. inversion Hp as [|? q ? Hq]; subst; [lia|]. by apply lookup_singleton_Some in Hq as [_ ?].
  - intros p q Hp Hn _ _. exfalso. apply Hn. rewrite dom_singleton_L in Hp. apply elem_of_singleton in Hp as ->. by left.
Qed.
(** The next level begins when the present one is used up. *)
Lemma level_next parents k q2 :
  tree parents → level parents (λ _, False) k [] q2 → level parents (λ _, False) (S k) q2 [].
Proof.
  intros Ht [H1 H2 H3 H4 H5]. split.
  - done.
  - by intros p ?%elem_of_nil.
  - intros m p Hm Hw. destruct (decide (m ≤ k)) as [Hle|Hgt]; [by apply H3|]. assert (m = S k) as -> by lia.
    inversion Hw as [|n u q Hu Hq]; subst. destruct (H3 k u) as (n & Hn & Hnk); [done..|].
    assert (p ∈ dom parents) as Hp.
    { eapply (H5 u); [by eapply depth_dom| |tauto|done]. intros Hin%H2. pose proof (depth_functional _ _ _ _ Hn Hin). lia. }
    destruct (tr_depth _ Ht p Hp) as (i & Hi & _). exists i. split; [done|]. by eapply H4.
  - intros p n Hp. specialize (H4 p n Hp). lia.
  - intros p q Hp Hn. rewrite app_nil_r in Hn. by apply H5.
Qed.
Lemma level_insert parents child target k q1 q2 :
  tree parents → parents !! child = None → depth parents target k →
  level parents (λ p, p = target) k q1 q2 →
  level (<[child := Some target]> parents) (λ p, p = target) k q1 (q2 ++ [child]).
Proof.
  intros Ht Hnew Htarget [H1 H2 H3 H4 H5]. pose proof (insert_grows parents child target Hnew) as Hsub. split.
  - intros p Hp. eapply depth_mono; [exact Hsub|by apply H1].
  - intros p [Hp| ->%list_elem_of_singleton]%elem_of_app; [eapply depth_mono; [exact Hsub|by apply H2]|by apply depth_new].
  - intros m p Hm Hw. destruct (H3 m p Hm Hw) as (n & Hn & ?). exists n. split; [by eapply depth_mono|done].
  - intros p n [Hp|[-> ->]]%(depth_insert parents child target k Ht Hnew Htarget); [by eapply H4|done].
  - intros p q Hp Hn Hb Hq. rewrite dom_insert_L in Hp |- *. apply elem_of_union. apply elem_of_union in Hp as [Hp|Hp].
    + apply elem_of_singleton in Hp as ->. exfalso. apply Hn. rewrite !elem_of_app. right. right. by left.
    + right. eapply H5; [done| |done|done]. intros Hin. apply Hn. rewrite (assoc_L (++)). apply elem_of_app. by left.
Qed.

(** What a search has found when it meets a child of [target]. *)
Definition progress (target : pin) (k : nat) (q1 : list pin) (known : pin → Prop)
    (st : gmap pin (option pin) * list pin * bool) : Prop :=
  let '(parents, queue, clipped) := st in
  tree parents ∧ (∀ p, known p → p ∈ dom parents ∨ clipped = true) ∧
  if clipped then size parents = most
  else ∃ q2, queue = q1 ++ q2 ∧ depth parents target k ∧ level parents (λ p, p = target) k q1 q2.
Definition pending_work (st : gmap pin (option pin) * list pin * bool) : nat :=
  length st.1.2 + (most - size st.1.1).
Lemma visit_progress target k q1 known st child :
  child ∈ next target → progress target k q1 known st →
  progress target k q1 (λ p, known p ∨ p = child) (visit most target st child) ∧
  pending_work (visit most target st child) = pending_work st.
Proof.
  intros Hc. destruct st as [[parents queue] clipped]. intros (Ht & Hk & Hl). unfold visit.
  case_bool_decide as Hin; [|destruct (most <=? size parents)%nat eqn:Hm].
  - split; [|done]. split_and!; [done| |done]. intros p [?| ->]; [by apply Hk|]. left. by apply elem_of_dom.
  - apply Nat.leb_le in Hm. pose proof (tr_size _ Ht). split; [|done]. split_and!; [done| |lia]. intros p _. by right.
  - apply Nat.leb_gt in Hm. destruct clipped; [lia|]. destruct Hl as (q2 & -> & Htarget & Hl).
    assert (parents !! child = None) as Hnew by (by apply eq_None_not_Some). split.
    + split_and!.
      * eapply tree_insert; [done..|]. intros m Hw. destruct (decide (S k ≤ m)) as [|Hlt]; [done|]. exfalso.
        destruct (lv_near _ _ _ _ _ Hl m child) as (n & Hn%depth_dom & _); [lia|done|].
        by apply not_elem_of_dom in Hnew.
      * intros p Hp. left. rewrite dom_insert_L. apply elem_of_union. destruct Hp as [Hp| ->]; [|left; by apply elem_of_singleton].
        right. destruct (Hk p Hp) as [?|?]; done.
      * exists (q2 ++ [child]). rewrite (assoc_L (++)). split_and!; [done| |by apply level_insert].
        eapply depth_mono; [by apply insert_grows|done].
    + unfold pending_work. simpl. rewrite length_app, map_size_insert_None by done. simpl. lia.
Qed.
Lemma visits_progress target k q1 cs : ∀ known st,
  (∀ c, c ∈ cs → c ∈ next target) → progress target k q1 known st →
  progress target k q1 (λ p, known p ∨ p ∈ cs) (foldl (visit most target) st cs) ∧
  pending_work (foldl (visit most target) st cs) = pending_work st.
Proof.
  induction cs as [|c cs IH]; intros known st Hcs Hst; simpl.
  - split; [|done]. destruct st as [[parents queue] clipped]. destruct Hst as (? & Hk & ?). split_and!; [done| |done].
    intros p [?|?%elem_of_nil]; [by apply Hk|done].
  - destruct (visit_progress target k q1 known st c) as [H1 E1]; [apply Hcs; by left|done|].
    destruct (IH (λ p, known p ∨ p = c) (visit most target st c)) as [H2 E2]; [intros; apply Hcs; by right|done|].
    split; [|congruence]. destruct (foldl _ _ _) as [[parents queue] clipped]. destruct H2 as (? & Hk & ?).
    split_and!; [done| |done]. intros p [?|[->|?]%elem_of_cons]; apply Hk; tauto.
Qed.

(** The state between two nodes of the queue. *)
Definition searching (st : gmap pin (option pin) * list pin * bool) : Prop :=
  let '(parents, queue, clipped) := st in
  tree parents ∧
  if clipped then size parents = most
  else ∃ k q1 q2, queue = q1 ++ q2 ∧ level parents (λ _, False) k q1 q2.
(** The parents a finished search returns. *)
Record searched (parents : gmap pin (option pin)) (clipped : bool) : Prop := Searched {
  se_tree : tree parents;
  se_all : if clipped then size parents = most else ∀ m p, walks m p → p ∈ dom parents;
}.

Lemma searching_pop parents target queue clipped :
  searching (parents, target :: queue, clipped) →
  ∃ k q1, progress target k q1 (λ _, False) (parents, queue, clipped).
Proof.
  intros [Ht Hl]. destruct clipped; [by exists 0, []|]. destruct Hl as (k & q1 & q2 & E & Hl).
  assert (∃ k q1 q2, target :: queue = q1 ++ q2 ∧ q1 ≠ [] ∧ level parents (λ _, False) k q1 q2) as (k' & l1 & l2 & E' & Hne & Hl').
  { destruct q1; [|by eexists _, _, _]. exists (S k), q2, []. rewrite app_nil_r. split_and!; [done|by destruct q2|].
    by apply level_next. }
  destruct l1 as [|x l1]; [done|]. injection E' as <- ->. destruct Hl' as [H1 H2 H3 H4 H5].
  exists k', l1. split_and!; [done|done|]. exists l2. split_and!; [done|apply H1; by left|]. split; try done.
  - intros p Hp. apply H1. by right.
  - intros p q Hp Hn Hb. apply H5; [done| |tauto]. simpl. intros [->|?]%elem_of_cons; done.
Qed.
Lemma progress_searching target k q1 known st :
  progress target k q1 known st → (∀ c, c ∈ next target → known c) → searching st.
Proof.
  destruct st as [[parents queue] clipped]. intros (Ht & Hk & Hl) Hall. split; [done|]. destruct clipped; [done|].
  destruct Hl as (q2 & -> & _ & [H1 H2 H3 H4 H5]). exists k, q1, q2. split; [done|]. split; try done.
  intros p q Hp Hn _ Hq. destruct (decide (p = target)) as [->|Hne]; [|by eapply H5].
  destruct (Hk q (Hall q Hq)); done.
Qed.
Lemma breadth_first_run fuel : ∀ parents queue clipped,
  searching (parents, queue, clipped) → pending_work (parents, queue, clipped) ≤ fuel →
  ∃ parents' clipped', breadth_first next most fuel parents queue clipped = Some (parents', clipped') ∧
    searched parents' clipped'.
Proof.
  induction fuel as [|fuel IH]; intros parents queue clipped Hst Hf.
  all: destruct queue as [|target queue]; simpl.
  1,3: exists parents, clipped; split; [done|]; destruct Hst as [Ht Hl]; split; [done|].
  1,2: destruct clipped; [done|]; destruct Hl as (k & q1 & q2 & [-> ->]%eq_sym%app_nil & Hl).
  1,2: induction 1 as [|m p q _ IHw Hq]; [apply elem_of_dom; rewrite (tr_root _ Ht); done|];
       eapply (lv_closed _ _ _ _ _ Hl p q); [done|by apply not_elem_of_nil|tauto|done].
  - unfold pending_work in Hf. simpl in Hf. lia.
  - destruct (searching_pop _ _ _ _ Hst) as (k & q1 & Hp).
    destruct (visits_progress target k q1 (merge_sort pin_lex (next target)) (λ _, False) (parents, queue, clipped))
      as [Hv Ev]; [|exact Hp|].
    { intros c. by rewrite merge_sort_Permutation. }
    destruct (foldl _ _ _) as [[parents1 queue1] clipped1]. apply IH.
    + eapply progress_searching; [exact Hv|]. intros c Hc. right. by rewrite merge_sort_Permutation.
    + rewrite Ev. unfold pending_work in *. simpl in *. lia.
Qed.
Lemma breadth_first_exact :
  1 ≤ most → ∃ parents clipped,
    breadth_first next most most {[root := None]} [root] false = Some (parents, clipped) ∧ searched parents clipped.
Proof.
  intros Hm. apply breadth_first_run.
  - split; [by apply tree_start|]. exists 0, [root], []. split; [done|apply level_start].
  - unfold pending_work. simpl. rewrite map_size_singleton. lia.
Qed.

(** *** Paths *)
(** A chain of children from the root to [p]. *)
Record chain (p : pin) (path : list pin) : Prop := Chain {
  ch_head : head path = Some root;
  ch_last : last path = Some p;
  ch_steps : ∀ i x y, path !! i = Some x → path !! S i = Some y → y ∈ next x;
}.
Lemma chain_root : chain root [root].
Proof. split; [done|done|]. by intros [|i] x y ? ?. Qed.
Lemma chain_snoc p q path : chain p path → q ∈ next p → chain q (path ++ [q]).
Proof.
  intros [H1 H2 H3] Hq. split.
  - destruct path; [done|]. exact H1.
  - apply last_snoc.
  - intros i x y Hx Hy. apply lookup_app_Some in Hy as [Hy|[Hl Hy]].
    + apply (H3 i); [|done]. rewrite lookup_app_l in Hx; [done|]. apply lookup_lt_Some in Hy. lia.
    + apply list_lookup_singleton_Some in Hy as [E <-]. rewrite lookup_app_l in Hx by lia.
      rewrite last_lookup in H2. replace (pred (length path)) with i in H2 by lia. congruence.
Qed.
Lemma chain_walks p path : chain p path → walks (pred (length path)) p.
Proof.
  revert p. induction path as [|q path IH] using rev_ind; intros p [H1 H2 H3]; [done|].
  rewrite last_snoc in H2. injection H2 as ->. rewrite length_app. simpl. rewrite Nat.add_1_r. simpl.
  destruct (last path) as [x|] eqn:Hx.
  2:{ apply last_None in Hx as ->. simpl in *. injection H1 as ->. apply walks_root. }
  assert (length path ≠ 0) as Hne by (intros E%length_zero_iff_nil; by subst).
  assert (path !! pred (length path) = Some x) as Hp by by rewrite <- last_lookup.
  replace (length path) with (S (pred (length path))) by lia. apply (walks_step _ x).
  - apply IH. split; [by destruct path|done|]. intros i y z Hy Hz. apply (H3 i); by apply lookup_app_l_Some.
  - apply (H3 (pred (length path))); [by apply lookup_app_l_Some|].
    replace (S (pred (length path))) with (length path) by lia. by rewrite list_lookup_middle.
Qed.
Lemma path_to_run parents fuel : ∀ p n,
  tree parents → depth parents p n → n ≤ fuel →
  ∃ path, path_to fuel parents p = Some path ∧ chain p path ∧ length path = S n.
Proof.
  induction fuel as [|fuel IH]; intros p n Ht Hp Hn; inversion Hp as [? E|? q m E Hq]; subst; simpl; rewrite ?E.
  1,3: exists [p]; rewrite (tr_only _ Ht p E); split_and!; [done|apply chain_root|done].
  - lia.
  - destruct (IH q m Ht Hq) as (path & -> & Hc & Hl); [lia|]. exists (path ++ [p]). split_and!; [done| |].
    + eapply chain_snoc; [done|]. by apply (tr_edge _ Ht).
    + rewrite length_app, Hl. simpl. lia.
Qed.
(** The path shown to a node found is a shortest chain. *)
Lemma path_shortest parents p :
  tree parents → p ∈ dom parents →
  ∃ path, path_to (size parents) parents p = Some path ∧ chain p path ∧
    ∀ other, chain p other → length path ≤ length other.
Proof.
  intros Ht Hp. destruct (tr_depth _ Ht p Hp) as (n & Hn & Hl).
  destruct (path_to_run parents (size parents) p n) as (path & E & Hc & Hlen); [done|done|lia|].
  exists path. split_and!; [done|done|]. intros other Ho. pose proof (tr_least _ Ht p n _ Hn (chain_walks _ _ Ho)).
  destruct other as [|x other]; [by destruct Ho|]. simpl in *. lia.
Qed.
End search.

(** ** The relations of a selection *)
#[export] Instance pin_lex_po : PartialOrder pin_lex.
Proof.
  split; [split|].
  - intros [d r]. right. simpl. split; [done|lia].
  - intros [d r] [d' r'] [d'' r'']. unfold pin_lex. simpl.
    intros [[N1 L1]|[-> L1]] [[N2 L2]|[E2 L2]]; subst; [left| |left; done|right; split; [done|lia]].
    + split; [|by transitivity d']. intros ->. apply N1. by apply (anti_symm String.le).
    + by left.
  - intros [d r] [d' r']. unfold pin_lex. simpl.
    intros [[N1 L1]|[-> L1]] [[N2 L2]|[E2 L2]]; subst; try done; [|f_equal; lia].
    exfalso. apply N1. by apply (anti_symm String.le).
Qed.
#[export] Instance pin_lex_total : Total pin_lex.
Proof.
  intros [d r] [d' r']. unfold pin_lex. simpl. destruct (decide (d = d')) as [->|Hne].
  - destruct (Z.le_ge_cases r r'); [left|right]; by right.
  - destruct (total String.le d d'); [left|right]; left; done.
Qed.
Lemma elem_of_sorted_pins p X : p ∈ sorted_pins X ↔ p ∈ X.
Proof. unfold sorted_pins. by rewrite merge_sort_Permutation, elem_of_elements. Qed.
Lemma sorted_pins_NoDup X : NoDup (sorted_pins X).
Proof. unfold sorted_pins. rewrite merge_sort_Permutation. apply NoDup_elements. Qed.

(** The selected revision [p] depends on [q]. *)
Definition leads (s : db) (pid : string) (selected : list pin) (q p : pin) : Prop :=
  p ∈ selected ∧ design_edge "depends_on" s pid p q.
(** A chain of dependencies from the changed revision to a dependent one. *)
Record dependency_path (s : db) (pid : string) (selected : list pin) (root p : pin) (path : list pin) : Prop :=
  DependencyPath {
    dpp_head : head path = Some root;
    dpp_last : last path = Some p;
    dpp_steps : ∀ i x y, path !! i = Some x → path !! S i = Some y → leads s pid selected x y }.

Section selection.
Context (s : db) (pid : string) (selected : list pin).
Let rows := candidate_rows s pid selected.
Let bodies : gmap pin json := list_to_map ((λ d, (dn_pin d, dn_content d)) <$> rows).

Lemma elem_of_candidate_rows d : d ∈ rows ↔ dn_pin d ∈ selected ∧ design_at s pid (dn_pin d) = Some d.
Proof.
  unfold rows, candidate_rows. rewrite list_elem_of_omap. split.
  - intros (p & Hp & Hd). rewrite elem_of_sorted_pins, elem_of_list_to_set in Hp. by rewrite (design_at_pin _ _ _ _ Hd).
  - intros [Hp Hd]. exists (dn_pin d). by rewrite elem_of_sorted_pins, elem_of_list_to_set.
Qed.
Lemma lookup_bodies p j : bodies !! p = Some j ↔ p ∈ selected ∧ ∃ d, design_at s pid p = Some d ∧ j = dn_content d.
Proof.
  split.
  - intros Hj%elem_of_list_to_map_2. apply list_elem_of_fmap in Hj as (d & [= -> ->] & [Hp Hd]%elem_of_candidate_rows).
    split; [done|]. by exists d.
  - intros [Hp (d & Hd & ->)]. pose proof (design_at_pin _ _ _ _ Hd) as <-. apply elem_of_list_to_map_1'.
    + intros y (e & [= E ->] & [_ He]%elem_of_candidate_rows)%list_elem_of_fmap. rewrite <- E in He. congruence.
    + apply list_elem_of_fmap. exists d. split; [done|]. by apply elem_of_candidate_rows.
Qed.
Lemma elem_of_bodies p : p ∈ dom bodies ↔ p ∈ selected ∧ is_Some (design_at s pid p).
Proof.
  rewrite elem_of_dom. split.
  - intros [j [Hp (d & Hd & _)]%lookup_bodies]. split; [done|by exists d].
  - intros [Hp [d Hd]]. exists (dn_content d). apply lookup_bodies. split; [done|by exists d].
Qed.

Context (subject : design_revision).
Let root := dn_pin subject.
Context (Hsubject : design_at s pid root = Some subject).
Let all := <[root := dn_content subject]> bodies.

Lemma body_of_all p d : p = root ∨ p ∈ selected → design_at s pid p = Some d → body_of all p = dn_content d.
Proof.
  intros Hp Hd. unfold body_of, all. destruct (decide (p = root)) as [->|Hne].
  - rewrite lookup_insert_eq. simpl. congruence.
  - rewrite lookup_insert_ne by done. assert (bodies !! p = Some (dn_content d)) as ->; [|done].
    apply lookup_bodies. destruct Hp; [done|]. split; [done|by exists d].
Qed.
Lemma elem_of_reverse q p : p ∈ reverse_of all (dom bodies) root q ↔ leads s pid selected q p.
Proof.
  unfold reverse_of, leads, design_edge. rewrite list_elem_of_bind. split.
  - intros (x & (r & -> & Hr)%list_elem_of_fmap & Hx). apply elem_of_select in Hr as [Hr Hq], Hx as [_ Hx]. bsimpl.
    apply elem_of_bodies in Hx as [Hx [d Hd]]. split; [done|]. exists d, r.
    rewrite (body_of_all x d) in Hr by (done || by right). done.
  - intros [Hp (d & r & Hd & Hr & Ht & Hq)]. exists p. split.
    + apply list_elem_of_fmap. exists r. split; [done|]. apply elem_of_select.
      rewrite (body_of_all p d) by (done || by right). split; [done|]. by rewrite !bool_decide_eq_true_2.
    + assert (p ∈ dom bodies) as Hin by (apply elem_of_bodies; split; [done|by exists d]).
      apply elem_of_select. rewrite bool_decide_eq_true_2 by done. split; [|done].
      unfold source_pins. apply elem_of_sorted_pins, elem_of_union. by right.
Qed.
Lemma chain_dependency p path :
  chain (reverse_of all (dom bodies) root) root p path ↔ dependency_path s pid selected root p path.
Proof.
  split; intros [H1 H2 H3]; split; try done; intros i x y Hx Hy; specialize (H3 i x y Hx Hy); by apply elem_of_reverse.
Qed.
Lemma leads_walks p :
  rtc (leads s pid selected) root p → ∃ m, walks (reverse_of all (dom bodies) root) root m p.
Proof.
  revert p. apply (rtc_ind_r (λ p, ∃ m, walks _ root m p)); [exists 0; apply walks_root|]. intros p q _ Hq [m Hm].
  exists (S m). eapply walks_step; [exact Hm|]. by apply elem_of_reverse.
Qed.
End selection.

(** ** Bindings in force *)
Lemma foldl_newer ps : ∀ p,
  (foldl newer p ps = p ∨ foldl newer p ps ∈ ps) ∧ ∀ q, q ∈ p :: ps → (q.1 ≤ (foldl newer p ps).1)%Z.
Proof.
  induction ps as [|x ps IH]; intros p; simpl.
  - split; [by left|]. intros q ->%list_elem_of_singleton. lia.
  - destruct (IH (newer p x)) as [H1 H2]. assert (p.1 ≤ (newer p x).1 ∧ x.1 ≤ (newer p x).1)%Z as [Hp Hx].
    { unfold newer. destruct (p.1 <? x.1)%Z eqn:E; [apply Z.ltb_lt in E|apply Z.ltb_ge in E]; lia. }
    assert ((newer p x).1 ≤ (foldl newer (newer p x) ps).1)%Z as Hn by (apply H2; by left).
    split.
    + destruct H1 as [->|H1]; [|right; by right]. unfold newer. destruct (p.1 <? x.1)%Z; [right; by left|by left].
    + intros q [->|[->|Hq]%elem_of_cons]%elem_of_cons; [lia|lia|]. apply H2. by right.
Qed.
(** The newest binding of a node that is not above its revision. *)
Definition newest_binding (s : db) (pid nk : string) (revision rev : Z) (row : design_binding_row) : Prop :=
  design_bindings s !! (pid, nk, rev) = Some row ∧ (rev ≤ revision)%Z ∧
  ∀ rev', is_Some (design_bindings s !! (pid, nk, rev')) → (rev' ≤ revision)%Z → (rev' ≤ rev)%Z.
Lemma binding_in_force_spec s pid nk revision rev row :
  binding_in_force s pid nk revision = Some (rev, row) ↔ newest_binding s pid nk revision rev row.
Proof.
  assert (∀ p, p ∈ select (λ p : Z * design_binding_row, (p.1 <=? revision)%Z) (binding_revisions s pid nk) ↔
    design_bindings s !! (pid, nk, p.1) = Some p.2 ∧ (p.1 ≤ revision)%Z) as Hin.
  { intros [r b]. rewrite elem_of_select, Z.leb_le. unfold binding_revisions. rewrite list_elem_of_omap. simpl. split.
    - intros [([[[p n] r'] b'] & Hb%elem_of_map_to_list & E) Hr]. simpl in E. case_bool_decide; [|done]. by simplify_eq.
    - intros [Hb Hr]. split; [|done]. exists (pid, nk, r, b). split; [by apply elem_of_map_to_list|]. simpl.
      by rewrite bool_decide_eq_true_2. }
  assert (∀ rev' row', newest_binding s pid nk revision rev' row' → newest_binding s pid nk revision rev row →
    (rev', row') = (rev, row)) as Hfun.
  { intros rev' row' (H1 & H2 & H3) (H4 & H5 & H6). assert (rev' = rev) as ->; [|congruence].
    apply Z.le_antisymm; [apply H6|apply H3]; by eauto. }
  unfold binding_in_force. destruct (select _ _) as [|p ps] eqn:E.
  - split; [done|]. intros (H1 & H2 & _). exfalso. apply (not_elem_of_nil (rev, row)), Hin. done.
  - destruct (foldl_newer ps p) as [H1 H2].
    assert (newest_binding s pid nk revision (foldl newer p ps).1 (foldl newer p ps).2) as Hnew.
    { assert (foldl newer p ps ∈ p :: ps) as Hm by (destruct H1 as [->|?]; [by left|by right]).
      apply Hin in Hm as [? ?]. split_and!; [done|done|]. intros rev' [row' Hr] Hle. apply (H2 (rev', row')), Hin. done. }
    split; [|intros Hx; f_equal; rewrite <- (Hfun _ _ Hnew Hx); by destruct (foldl newer p ps)].
    intros [= Ep]. by rewrite Ep in Hnew.
Qed.
(** A snapshot holds the subject: bound, or as a dependency of what is bound. *)
Definition holds_subject (subject : pin) (snapshot : json) : Prop :=
  ∃ j, j ∈ array_of (jget "bindings" snapshot) ++ array_of (jget "design_dependencies" snapshot) ∧ pin_of j = Some subject.
Lemma holds_subject_spec subject snapshot :
  bool_decide (bound_purposes subject snapshot = []) && negb (depends_on_subject subject snapshot) = false ↔
  holds_subject subject snapshot.
Proof.
  unfold holds_subject. rewrite andb_false_iff, bool_decide_eq_false, negb_false_iff. unfold depends_on_subject.
  rewrite existsb_exists. split.
  - intros [Hb|(j & Hj%list_elem_of_In & Hp)]; bsimpl.
    + unfold bound_purposes in Hb. destruct (select _ _) as [|j l] eqn:E; [done|].
      assert (j ∈ j :: l) as Hj by by left. rewrite <- E in Hj. apply elem_of_select in Hj as [Hj Hp]. bsimpl.
      exists j. split; [|done]. apply elem_of_app. by left.
    + exists j. split; [|done]. apply elem_of_app. by right.
  - intros (j & [Hj|Hj]%elem_of_app & Hp); [left|right; exists j; rewrite <- list_elem_of_In; by rewrite bool_decide_eq_true_2].
    unfold bound_purposes. intros E%fmap_nil_inv. apply (not_elem_of_nil j). rewrite <- E. apply elem_of_select.
    by rewrite bool_decide_eq_true_2.
Qed.
Lemma elem_of_bound_nodes s pid subject bid nk :
  nk ∈ ni_node <$> omap id (bound_nodes s pid subject bid) ↔
  ∃ n rev row, nodes s !! (pid, nk) = Some n ∧ newest_binding s pid nk (n_revision n) rev row ∧
    holds_subject subject (bd_snapshot row).
Proof.
  rewrite list_elem_of_fmap. setoid_rewrite list_elem_of_omap. unfold bound_nodes. setoid_rewrite list_elem_of_omap.
  split.
  - intros (x & -> & o & ([k n] & Hk & E) & Ho). simpl in Ho. subst o. rewrite sort_items_perm, elem_of_map_to_list in Hk.
    rewrite lookup_slice in Hk. unfold bound_node in E. simpl in E.
    destruct (binding_in_force _ _ _ _) as [[rev row]|] eqn:Eb; [|done]. simpl in E. injection E as E.
    destruct (_ && _) eqn:Eh in E; [done|]. injection E as <-. simpl. exists n, rev, row.
    apply binding_in_force_spec in Eb. by apply holds_subject_spec in Eh.
  - intros (n & rev & row & Hn & Hb%binding_in_force_spec & Hh%holds_subject_spec).
    assert (∃ x, bound_node s pid subject bid (nk, n) = Some (Some x) ∧ ni_node x = nk) as (x & Hx & Ex).
    { unfold bound_node. simpl. rewrite Hb. simpl. rewrite Hh. by eexists. }
    exists x. split; [done|]. exists (Some x). split; [|done]. exists (nk, n). split; [|done].
    by rewrite sort_items_perm, elem_of_map_to_list, lookup_slice.
Qed.

(** ** The answer *)
(** The dependents listed, each with the path to it. *)
Definition dependent_ok (s : db) (pid : string) (selected : list pin) (root : pin) (d : dependent) : Prop :=
  dp_pin d ≠ root ∧ ∃ path, dependency_path s pid selected root (dp_pin d) path ∧
    dp_length d = length path ∧ dp_path d = shown_path path ∧
    ∀ other, dependency_path s pid selected root (dp_pin d) other → length path ≤ length other.

Lemma integer_in z label low high : (low ≤ z ≤ high)%Z → integer (JInt z) label low high = Ok z.
Proof. intros [H1%Z.leb_le H2%Z.leb_le]. unfold integer. by rewrite H1, H2. Qed.
Lemma mapM_total {A B} (f : A → option B) l : (∀ x, x ∈ l → is_Some (f x)) → ∃ ys, mapM f l = Some ys.
Proof. intros H. apply mapM_is_Some, Forall_forall. exact H. Qed.

(** The part of [impact] that searches. *)
Lemma dependents_run s pid selected subject (most : nat) :
  design_at s pid (dn_pin subject) = Some subject → 1 ≤ most →
  let root := dn_pin subject in
  let rows : gmap pin json := list_to_map ((λ d, (dn_pin d, dn_content d)) <$> candidate_rows s pid selected) in
  let bodies := <[root := dn_content subject]> rows in
  ∃ parents clipped ds,
    breadth_first (reverse_of bodies (dom rows) root) most most {[root := None]} [root] false = Some (parents, clipped) ∧
    mapM (λ p, dependent_of bodies p <$> path_to (size parents) parents p) (sorted_pins (dom parents ∖ {[root]})) = Some ds ∧
    dp_pin <$> ds = sorted_pins (dom parents ∖ {[root]}) ∧ Forall (dependent_ok s pid selected root) ds ∧
    size parents = S (length ds) ∧ size parents ≤ most ∧
    (if clipped then size parents = most
     else ∀ p, rtc (leads s pid selected) root p → p ≠ root → p ∈ dp_pin <$> ds).
Proof.
  intros Hsub Hm root rows bodies. set (next := reverse_of bodies (dom rows) root).
  destruct (breadth_first_exact next root most Hm) as (parents & clipped & Eb & [Ht Hall]).
  assert (∀ p, p ∈ sorted_pins (dom parents ∖ {[root]}) ↔ p ∈ dom parents ∧ p ≠ root) as Hlist
    by (intros p; rewrite elem_of_sorted_pins, elem_of_difference, elem_of_singleton; done).
  destruct (mapM_total (λ p, dependent_of bodies p <$> path_to (size parents) parents p)
    (sorted_pins (dom parents ∖ {[root]}))) as [ds Eds].
  { intros p [Hp _]%Hlist. destruct (path_shortest next root most parents p Ht Hp) as (path & -> & _). by eexists. }
  assert (dp_pin <$> ds = sorted_pins (dom parents ∖ {[root]})) as Epins.
  { apply mapM_Some in Eds. clear -Eds. induction Eds as [|p d l k Hp _ IH]; [done|]. csimpl. rewrite IH. f_equal.
    by apply fmap_Some in Hp as (path & _ & ->). }
  exists parents, clipped, ds. split_and!; [exact Eb|exact Eds|exact Epins| | |by apply tr_size in Ht|].
  - apply mapM_Some in Eds. apply Forall_forall. intros d (i & Hi)%list_elem_of_lookup.
    destruct (Forall2_lookup_r _ _ _ _ _ Eds Hi) as (p & Hp & Hd). apply list_elem_of_lookup_2, Hlist in Hp as [Hp Hne].
    destruct (path_shortest next root most parents p Ht Hp) as (path & E & Hc & Hs). rewrite E in Hd. injection Hd as <-.
    split; [done|]. exists path. split; [by apply chain_dependency|]. split_and!; [done..|].
    intros other Ho. apply Hs. by apply chain_dependency.
  - apply (f_equal length) in Epins. rewrite length_fmap in Epins. rewrite Epins. unfold sorted_pins.
    rewrite (Permutation_length (merge_sort_Permutation _ _)). fold (size (dom parents ∖ {[root]} : gset pin)).
    change (length (elements _)) with (size (dom parents ∖ {[root]} : gset pin)).
    assert (root ∈ dom parents) as Hr by (apply elem_of_dom; rewrite (tr_root _ _ _ _ Ht); done).
    rewrite size_difference, size_singleton, size_dom by (by apply singleton_subseteq_l).
    assert (size parents ≠ 0); [|lia]. intros E%map_size_empty_inv. subst. by rewrite dom_empty_L in Hr.
  - destruct clipped; [done|]. intros p Hp Hne. rewrite Epins. apply Hlist. split; [|done].
    destruct (leads_walks s pid selected subject Hsub p Hp) as (m & Hw). by eapply Hall.
Qed.

(** [impact] answers whenever the revision and a baseline are there.  It lists, once each and
    up to the page's limit, designs of the baseline that depend on the revision, directly or
    not, each with a shortest chain of dependencies; unless it says that it stopped at the bound
    on the visits, all of them.  The nodes it lists are exactly those whose newest binding, not
    above their own revision, holds the revision.  Nothing is written. *)
Theorem impact_exact pid did revision bid limit most b baseline subject s :
  (1 ≤ limit ≤ 100)%Z → (1 ≤ most ≤ 1000)%Z →
  query_baseline pid bid s = Ok (Some (b, baseline), s) → find_design s pid (did, revision) = Ok subject →
  let selected := manifest_pins (bs_manifest baseline) in
  ∃ view ds ns, impact pid did revision bid (JInt limit) (JInt most) s = Ok (view, s) ∧
    qp_items (iv_dependents view) = take (Z.to_nat limit) ds ∧ NoDup (dp_pin <$> ds) ∧
    Forall (dependent_ok s pid selected (did, revision)) ds ∧
    iv_visited view = S (length ds) ∧ (Z.of_nat (iv_visited view) ≤ most)%Z ∧
    (if iv_clipped view then Z.of_nat (iv_visited view) = most
     else ∀ p, rtc (leads s pid selected) (did, revision) p → p ≠ (did, revision) → p ∈ dp_pin <$> ds) ∧
    qp_items (iv_nodes view) = take (Z.to_nat limit) ns ∧
    ∀ nk, nk ∈ ni_node <$> ns ↔
      ∃ n rev row, nodes s !! (pid, nk) = Some n ∧ newest_binding s pid nk (n_revision n) rev row ∧
        holds_subject (did, revision) (bd_snapshot row).
Proof.
  intros Hl Hm Hb Hf selected. pose proof (find_design_ok _ _ _ _ Hf) as Hsub. pose proof (design_at_pin _ _ _ _ Hsub) as Hpin.
  rewrite <- Hpin in Hsub.
  destruct (dependents_run s pid selected subject (Z.to_nat most) Hsub) as (parents & clipped & ds & E1 & E2 & E3 & H1 & H2 & H3 & H4);
    [lia|].
  eexists _, ds, (omap id (bound_nodes s pid (dn_pin subject) b)). split.
  { unfold impact. rewrite !integer_in by done. unfold mbind, M_bind, lift. simpl. rewrite Hb. simpl.
    unfold gets. simpl. rewrite Hf. simpl. fold selected. rewrite E1. simpl. rewrite E2. simpl. reflexivity. }
  simpl. rewrite Hpin in *. split_and!; try done; [rewrite E3; apply sorted_pins_NoDup|lia| |].
  - destruct clipped; [lia|done].
  - intros nk. apply elem_of_bound_nodes.
Qed.

(** ** Instances *)
(** The decision depends on the rule and the node is bound to the decision: a change of the rule
    touches both. *)
Definition s_design_bound : db := after binding_decision s_baseline.
Lemma impact_exact_witness : ∃ view, impact "demo" "rule-a" 1 None (JInt 50) (JInt 1000) s_design_bound = Ok (view, s_design_bound) ∧
  dp_pin <$> qp_items (iv_dependents view) = [("dec-b", 1%Z)].
Proof.
  assert (∃ row, query_baseline "demo" None s_design_bound = Ok (Some ("base-1", row), s_design_bound) ∧
    manifest_pins (bs_manifest row) = [("dec-b", 1%Z); ("rule-a", 1%Z)]) as (row & Hb & Hp).
  { assert (∃ row, design_baselines s_design_bound !! ("demo", "base-1") = Some row ∧
      manifest_pins (bs_manifest row) = [("dec-b", 1%Z); ("rule-a", 1%Z)]) as (row & Hrow & Hp)
      by (eexists; split; [vm_compute; reflexivity|vm_compute; reflexivity]).
    exists row. split; [|exact Hp].
    assert (is_Some (projects s_design_bound !! "demo")) as [p Hproj] by (eexists; vm_compute; reflexivity).
    assert (design_heads s_design_bound !! "demo" = Some "base-1") as Hh by (vm_compute; reflexivity).
    unfold query_baseline, project, mbind, M_bind, gets, lift, find_baseline, get_some, mret, M_ret. simpl.
    rewrite Hproj. simpl. rewrite Hh. simpl. rewrite Hrow. reflexivity. }
  assert (∃ subject, find_design s_design_bound "demo" ("rule-a", 1%Z) = Ok subject) as [subject Hf]
    by (eexists; vm_compute; reflexivity).
  destruct (impact_exact "demo" "rule-a" 1 None 50 1000 "base-1" row subject s_design_bound)
    as (view & ds & ns & E & Hds & Hnd & Hok & _ & _ & Hall & _); [lia|lia|exact Hb|exact Hf|].
  exists view. split; [exact E|].
  assert (match impact "demo" "rule-a" 1 None (JInt 50) (JInt 1000) s_design_bound with
    | Ok (v, _) => bool_decide (dp_pin <$> qp_items (iv_dependents v) = [("dec-b", 1%Z)]) | Err _ => false end = true) as Hc
    by (vm_compute; reflexivity).
  rewrite E in Hc. by apply bool_decide_eq_true in Hc.
Defined.
