(* ===== verification/IssueProperties.v ===== *)
(** * The issue backlog

    An issue keeps what was reported; it changes only while it is open, with the next
    version each time; one resolution closes it for good, and names what it says. *)
From S2P Require Import Prelude Json Text Dag Store Graph History Portfolio Presence Claims.
From S2P Require Import Enforcement Review Attempts Evidence External Registry Inbox Issues Design.
From S2P Require Import Takeover Recovery Handoffs View Ledger System Sample.

(** ** The invariant *)
Record issue_ok (i : issue_row) : Prop := IssueOk {
  io_version : (1 ≤ is_version i)%Z;
  io_kind : is_kind i ∈ ISSUE_KINDS;
  io_status : is_status i = "open" ∧ is_resolution i = None ∨
    is_status i ∈ RESOLUTIONS ∧ ∃ j, is_resolution i = Some j ∧ jget "resolution" j = Some (JStr (is_status i));
}.
Record issues_inv (l : list issue_row) : Prop := IssuesInv {
  ii_rows : Forall issue_ok l;
  ii_ids : NoDup (is_id <$> l);
  ii_requests : NoDup ((λ i, (is_project i, is_request_key i)) <$> l);
}.
(** What may happen to one issue: nothing once it is closed, nothing without a new version. *)
Record issue_step (s s' : db) (i i' : issue_row) : Prop := IssueStep {
  ip_identity : issue_identity i' = issue_identity i;
  ip_version : (is_version i ≤ is_version i')%Z;
  ip_same : is_version i' = is_version i ∨ is_status i ≠ "open" →
    i' = i ∧ issue_links s' (is_id i) = issue_links s (is_id i);
}.
Definition issue_evolution (s s' : db) : Prop :=
  issues_inv (issues s) → issues_inv (issues s') ∧
  ∃ l1 l2, issues s' = l1 ++ l2 ∧ Forall2 (issue_step s s') (issues s) l1.

Lemma issue_step_id s s' i i' : issue_step s s' i i' → is_id i' = is_id i.
Proof. intros [E _ _]. unfold issue_identity in E. congruence. Qed.
Lemma issue_step_trans s1 s2 s3 i1 i2 i3 :
  issue_step s1 s2 i1 i2 → issue_step s2 s3 i2 i3 → issue_step s1 s3 i1 i3.
Proof.
  intros H1 H2. pose proof (issue_step_id _ _ _ _ H1) as Hid. destruct H1 as [E1 V1 S1], H2 as [E2 V2 S2].
  split; [congruence|lia|]. intros Hc. assert (i2 = i1 ∧ issue_links s2 (is_id i1) = issue_links s1 (is_id i1)) as [-> L1].
  { apply S1. destruct Hc as [Hc|Hc]; [left; lia|by right]. }
  destruct S2 as [-> L2]; [destruct Hc as [Hc|Hc]; [by left|by right]|]. split; [done|congruence].
Qed.
Lemma issue_steps_trans s1 s2 s3 l1 l2 l3 :
  Forall2 (issue_step s1 s2) l1 l2 → Forall2 (issue_step s2 s3) l2 l3 → Forall2 (issue_step s1 s3) l1 l3.
Proof.
  intros H1. revert l3. induction H1; intros l3 H2; inversion H2; subst; constructor; eauto using issue_step_trans.
Qed.
#[export] Instance issue_evolution_preorder : PreOrder issue_evolution.
Proof.
  split.
  - intros s Hs. split; [done|]. exists (issues s), []. rewrite app_nil_r. split; [done|].
    apply Forall_Forall2_diag, Forall_forall. intros i _. by split.
  - intros s1 s2 s3 H1 H2 Hs. destruct (H1 Hs) as (Hs2 & l1 & l2 & E & F1).
    destruct (H2 Hs2) as (Hs3 & l3 & l4 & E' & F2). split; [done|]. rewrite E in F2.
    apply Forall2_app_inv_l in F2 as (k1 & k2 & F3 & _ & ->). exists k1, (k2 ++ l4).
    rewrite E', <- (assoc_L (++)). split; [done|]. by eapply issue_steps_trans.
Qed.

(** *** Steps that leave the backlog alone, but for the links of one issue *)
Definition others (id : string) (s s' : db) : Prop :=
  issues s' = issues s ∧ ∀ id', id' ≠ id → issue_links s' id' = issue_links s id'.
#[export] Instance others_preorder id : PreOrder (others id).
Proof.
  split; [done|]. intros s1 s2 s3 [E1 L1] [E2 L2]. split; [congruence|]. intros id' Hne. by rewrite L2, L1.
Qed.
Definition backlog (s : db) := (issues s, issue_nodes s).
Lemma others_same id s s' : backlog s' = backlog s → others id s s'.
Proof. intros [= E1 E2]. split; [done|]. intros id' _. unfold issue_links. by rewrite E2. Qed.
Lemma issue_evolution_same s s' : backlog s' = backlog s → issue_evolution s s'.
Proof.
  intros [= E1 E2] Hs. rewrite E1. split; [done|]. exists (issues s), []. rewrite app_nil_r. split; [done|].
  apply Forall_Forall2_diag, Forall_forall. intros i _. split; [done|done|]. intros _. unfold issue_links. by rewrite E2.
Qed.

(** One open issue changes, with the next version. *)
Lemma change_one s s' i f :
  i ∈ issues s → is_status i = "open" →
  issues s' = update_where (λ j, bool_decide (is_id j = is_id i)) f (issues s) →
  (∀ id, id ≠ is_id i → issue_links s' id = issue_links s id) →
  issue_identity (f i) = issue_identity i → is_version (f i) = (is_version i + 1)%Z → (issue_ok i → issue_ok (f i)) →
  issue_evolution s s'.
Proof.
  intros Hi Ho E Hl Hid Hv Hok Hs. destruct Hs as [R D Q].
  assert (∀ j, j ∈ issues s → is_id j = is_id i → j = i) as Huniq.
  { intros j Hj Hji. apply list_elem_of_lookup in Hi as [n Hn]. apply list_elem_of_lookup in Hj as [m Hm].
    assert (m = n) as ->; [|congruence]. apply (NoDup_lookup _ m n (is_id j) D); rewrite list_lookup_fmap.
    - by rewrite Hm. - rewrite Hn. simpl. congruence. }
  assert (∀ j, j ∈ issues s → issue_step s s' j (if bool_decide (is_id j = is_id i) then f j else j)) as Hstep.
  { intros j Hj. case_bool_decide as Hji.
    - rewrite (Huniq j Hj Hji). split; [done|lia|]. intros [Hc|Hc]; [lia|done].
    - split; [done|done|]. intros _. split; [done|]. by apply Hl. }
  split; [split|].
  - rewrite E. apply Forall_forall. intros j' (j & Hj & ->)%elem_of_update_where.
    pose proof (proj1 (Forall_forall _ _) R j Hj) as Hjo. case_bool_decide as Hji; [|done].
    rewrite (Huniq j Hj Hji). apply Hok. by rewrite <- (Huniq j Hj Hji).
  - assert (is_id <$> issues s' = is_id <$> issues s) as ->; [|done]. rewrite E. unfold update_where.
    rewrite <- list_fmap_compose. apply list_fmap_ext. intros n j Hj%list_elem_of_lookup_2. simpl.
    apply Hstep in Hj. by apply issue_step_id in Hj.
  - assert ((λ i, (is_project i, is_request_key i)) <$> issues s' = (λ i, (is_project i, is_request_key i)) <$> issues s)
      as ->; [|done]. rewrite E. unfold update_where. rewrite <- list_fmap_compose. apply list_fmap_ext.
    intros n j Hj%list_elem_of_lookup_2. simpl. apply Hstep in Hj as [Hj _ _]. unfold issue_identity in Hj. congruence.
  - exists (issues s'), []. rewrite app_nil_r. split; [done|]. rewrite E. unfold update_where. apply Forall2_fmap_r.
    apply Forall_Forall2_diag, Forall_forall. intros j Hj. by apply Hstep.
Qed.
(** A new issue. *)
Lemma add_one s s' i :
  issues s' = issues s ++ [i] →
  existsb (λ j, bool_decide (is_id j = is_id i) ||
    bool_decide (is_project j = is_project i) && bool_decide (is_request_key j = is_request_key i)) (issues s) = false →
  (∀ id, id ≠ is_id i → issue_links s' id = issue_links s id) → issue_ok i → issue_evolution s s'.
Proof.
  intros E Hc Hl Hok [R D Q].
  assert (∀ j, j ∈ issues s → is_id j ≠ is_id i ∧ (is_project j, is_request_key j) ≠ (is_project i, is_request_key i)) as Hnew.
  { intros j Hj. assert (bool_decide (is_id j = is_id i) ||
      bool_decide (is_project j = is_project i) && bool_decide (is_request_key j = is_request_key i) = false) as Hf.
    { destruct (_ || _) eqn:Et; [|done]. rewrite (proj2 (existsb_exists _ _)) in Hc; [done|].
      exists j. split; [by apply list_elem_of_In|done]. }
    apply orb_false_iff in Hf as [H1 H2]. bsimpl. split; [done|]. intros [= E1 E2].
    by rewrite E1, E2, !bool_decide_eq_true_2 in H2. }
  split; [split|].
  - rewrite E. apply Forall_app. split; [done|by apply Forall_singleton].
  - rewrite E, fmap_app. apply NoDup_app. split; [done|]. split; [|apply NoDup_singleton].
    intros x (j & -> & Hj)%list_elem_of_fmap Hx%list_elem_of_singleton. by destruct (Hnew j Hj).
  - rewrite E, fmap_app. apply NoDup_app. split; [done|]. split; [|apply NoDup_singleton].
    intros x (j & -> & Hj)%list_elem_of_fmap Hx%list_elem_of_singleton. by destruct (Hnew j Hj).
  - exists (issues s), [i]. split; [done|]. apply Forall_Forall2_diag, Forall_forall. intros j Hj. split; [done|done|].
    intros _. split; [done|]. apply Hl. by destruct (Hnew j Hj).
Qed.

(** ** Operations *)
Section issue_runs.
Context `{Host} (actor : string).

Lemma issue_at_run pid id (Q : issue_row → db → Prop) s :
  (∀ i, i ∈ issues s → is_id i = id → is_project i = pid → Q i s) → wp (issue_at pid id) Q s.
Proof.
  intros HQ. unfold issue_at. apply wp_bind, wp_lift. intros x [[= <-] _]%key_ok.
  apply wp_bind, wp_gets, wp_get_some. intros i [Hi Hk]%select_one_Some. bsimpl. by apply HQ.
Qed.
Lemma open_issue_run pid id e (Q : issue_row → db → Prop) s :
  (∀ i, i ∈ issues s → is_id i = id → is_project i = pid → is_status i = "open" →
     py_eq_int e (is_version i) = true → Q i s) → wp (open_issue pid id e) Q s.
Proof.
  intros HQ. unfold open_issue. apply wp_bind, wp_project. intros row _ _. apply wp_bind, issue_at_run.
  intros i Hi Hid Hp. apply wp_bind, wp_require. intros He. apply wp_bind, wp_require.
  intros Ho%bool_decide_eq_true. apply wp_ret. by apply HQ.
Qed.

(** Links of one issue are added, and nothing else changes. *)
Record grows (id : string) (s s' : db) : Prop := Grows {
  gw_rest : s' = s <| issue_nodes := issue_nodes s' |>;
  gw_others : ∀ id', id' ≠ id → issue_links s' id' = issue_links s id';
  gw_links : issue_links s id ⊆ issue_links s' id;
}.
#[export] Instance grows_preorder id : PreOrder (grows id).
Proof.
  split.
  - intros s. split; [by destruct s|done|done].
  - intros s1 s2 s3 [R1 O1 L1] [R2 O2 L2]. split.
    + rewrite R2, R1. done.
    + intros id' Hne. by rewrite O2, O1.
    + by etrans.
Qed.
Lemma add_links_run id ks s : wp (add_links id ks) (λ _ s', grows id s s' ∧ list_to_set ks ⊆ issue_links s' id) s.
Proof.
  unfold add_links. apply wp_modify. unfold issue_links. simpl. split; [split|].
  - done.
  - intros id' Hne. unfold issue_links. simpl. by rewrite lookup_insert_ne.
  - unfold issue_links. simpl. rewrite lookup_insert_eq. simpl. set_solver.
  - rewrite lookup_insert_eq. simpl. set_solver.
Qed.

Lemma resolve_node_run pid resolution i r s :
  wp (resolve_node pid resolution i r) (λ _ s', grows (is_id i) s s' ∧
    ∀ nk, ro_node r = Some nk → is_Some (nodes s !! (pid, nk)) ∧ nk ∈ issue_links s' (is_id i) ∧
      (resolution ≠ "duplicate" → revision_since s pid nk
         (if bool_decide (resolution = "absorbed") then default 1%Z (ro_revision r) else 1%Z) (is_created i) = Ok tt)) s.
Proof.
  unfold resolve_node. destruct (ro_node r) as [nk|]; [|by apply wp_ret].
  apply wp_bind, wp_node. intros n Hn _ _. cbv zeta. apply wp_bind.
  apply (wp_mono _ (λ _ s1, s1 = s ∧ (resolution ≠ "duplicate" → revision_since s pid nk
    (if bool_decide (resolution = "absorbed") then default 1%Z (ro_revision r) else 1%Z) (is_created i) = Ok tt))).
  { destruct (bool_decide (resolution = "duplicate")) eqn:Hdup; bsimpl; [by apply wp_ret|].
    apply wp_bind, wp_gets, wp_bind, wp_lift. intros [] Hr. by apply wp_ret. }
  intros extra s1 [-> Hrev]. apply wp_bind. eapply wp_mono; [apply add_links_run|]. intros ? s2 [Hg Hl].
  apply wp_ret. split; [done|]. intros ? [= <-]. split_and!; [by eexists|set_solver|done].
Qed.
Lemma resolve_fixed_run pid resolution i r s :
  wp (resolve_fixed pid resolution i r) (λ _ s', grows (is_id i) s s' ∧
    ∀ rid, resolution = "fixed" → ro_receipt r = Some rid → ∃ rc, acceptances s !! rid = Some rc ∧
      rc_project rc = pid ∧ ro_artifact r = Some (rc_artifact rc) ∧ rc_evidence rc ≠ [] ∧
      rc_node rc ∈ issue_links s' (is_id i)) s.
Proof.
  unfold resolve_fixed. destruct (bool_decide (resolution = "fixed")) eqn:Hf; bsimpl.
  2: { apply wp_ret. by split. }
  destruct (ro_receipt r) as [rid|]; [|by apply wp_ret]. apply wp_bind, wp_gets, wp_bind, wp_lift. intros rc Hrc.
  apply wp_bind. eapply wp_mono; [apply add_links_run|]. intros ? s2 [Hg Hl]. apply wp_ret. split; [done|].
  intros ? _ [= <-]. exists rc. unfold checked_receipt in Hrc.
  apply res_bind_ok in Hrc as (x & [[= <-] _]%key_ok & Hrc). change (id s) with s in Hrc.
  destruct (acceptances s !! rid) as [rc'|]; [|done].
  apply res_bind_ok in Hrc as ([] & H1%ensure_ok & Hrc). apply res_bind_ok in Hrc as ([] & _ & Hrc).
  apply res_bind_ok in Hrc as ([] & H3%ensure_ok & Hrc). apply res_bind_ok in Hrc as ([] & H4%ensure_ok & Hrc).
  injection Hrc as ->. bsimpl. split_and!; try done. set_solver.
Qed.
Lemma resolve_duplicate_run pid i r s :
  wp (resolve_duplicate pid i r) (λ _ s', s' = s ∧
    ∀ d, ro_duplicate r = Some d → d ≠ is_id i ∧ ∃ j, j ∈ issues s ∧ is_id j = d ∧ is_project j = pid) s.
Proof.
  unfold resolve_duplicate. destruct (ro_duplicate r) as [d|]; [|by apply wp_ret].
  apply wp_bind, wp_require. intros Hne. bsimpl. apply wp_bind, issue_at_run. intros j Hj Hid Hp. apply wp_ret.
  split; [done|]. intros ? [= <-]. split; [done|]. by exists j.
Qed.

(** A closed issue. *)
Definition closed_as (resolution : string) (res : json) (t : Z) (i : issue_row) : issue_row :=
  i <| is_status := resolution |> <| is_version := (is_version i + 1)%Z |> <| is_resolution := Some res |>
    <| is_updated := t |>.
(** What the record of a resolution rests on. *)
Record grounds (pid : string) (s : db) (i : issue_row) (resolution : string) (r : resolve_args) (links : gset string)
    : Prop := Grounds {
  gr_shape : given_fields r ∈ resolution_shapes resolution;
  gr_issue_node : ∀ nk, ro_node r = Some nk → is_Some (nodes s !! (pid, nk)) ∧ nk ∈ links ∧
    (resolution ≠ "duplicate" → revision_since s pid nk
       (if bool_decide (resolution = "absorbed") then default 1%Z (ro_revision r) else 1%Z) (is_created i) = Ok tt);
  gr_receipt : ∀ rid, resolution = "fixed" → ro_receipt r = Some rid → ∃ rc, acceptances s !! rid = Some rc ∧
    rc_project rc = pid ∧ ro_artifact r = Some (rc_artifact rc) ∧ rc_evidence rc ≠ [] ∧ rc_node rc ∈ links;
  gr_duplicate : ∀ d, ro_duplicate r = Some d → d ≠ is_id i ∧ ∃ j, j ∈ issues s ∧ is_id j = d ∧ is_project j = pid;
}.

Lemma resolve_issue_run pid id e v reason d r s :
  wp (resolve_issue actor pid id e v reason d r) (λ _ s', ∃ i resolution res t,
    i ∈ issues s ∧ is_id i = id ∧ is_project i = pid ∧ is_status i = "open" ∧ py_eq_int e (is_version i) = true ∧
    v = JStr resolution ∧ resolution ∈ RESOLUTIONS ∧ jget "resolution" res = Some (JStr resolution) ∧
    issues s' = update_where (λ j, bool_decide (is_id j = id)) (closed_as resolution res t) (issues s) ∧
    (∀ id', id' ≠ id → issue_links s' id' = issue_links s id') ∧ issue_links s id ⊆ issue_links s' id ∧
    grounds pid s i resolution r (issue_links s' id) ∧ nodes s' = nodes s) s.
Proof.
  unfold resolve_issue. apply wp_bind, wp_lift. intros x [[= <-] _]%key_ok. apply wp_bind, wp_get_some.
  intros resolution Hres. assert (v = JStr resolution ∧ resolution ∈ RESOLUTIONS) as [-> Hin].
  { unfold one_of in Hres. destruct v as [| | |w| |]; try done. case_bool_decide; [|done]. by injection Hres as ->. }
  apply wp_bind, wp_lift. intros why _. apply wp_bind, wp_lift. intros dir _. apply wp_bind, wp_lift. intros [] Hshape.
  apply wp_bind, open_issue_run. intros i Hi Hid Hp Ho He.
  apply wp_bind. eapply wp_mono; [apply resolve_node_run|]. intros np s1 [G1 N1]. cbv beta.
  apply wp_bind. eapply wp_mono; [apply resolve_fixed_run|]. intros fp s2 [G2 N2]. cbv beta.
  apply wp_bind, wp_lift. intros op _. apply wp_bind.
  eapply wp_mono; [apply resolve_duplicate_run|]. intros dp ? [-> N3]. cbv beta zeta.
  pose proof (transitivity G1 G2) as [Er Hoth Hlinks].
  assert (issue_links s1 (is_id i) ⊆ issue_links s2 (is_id i)) as Hmono by apply G2.
  apply wp_bind, wp_now. intros t. apply wp_bind, wp_modify. set (s3 := _ <| issues ::= _ |>).
  set (res := jobj (("actor", JStr actor) :: _)) in *.
  apply wp_bind. eapply wp_mono; [apply (untouched_wp (λ s, (issues s, issue_nodes s, nodes s)) _ _ (λ _ _, True));
    [frame_operation|by apply run_wp]|]. intros ? s4 [_ [= F1 F2 F3]].
  apply wp_bind, issue_at_run. intros j Hj _ _. apply wp_gets.
  assert (issues s2 = issues s ∧ nodes s2 = nodes s ∧ acceptances s1 = acceptances s) as (I2 & I3 & I4).
  { rewrite Er. split_and!; [done|done|]. by rewrite (gw_rest _ _ _ G1). }
  exists i, resolution, res, t. unfold issue_links in *. rewrite F1, F2, F3. unfold s3. simpl.
  split_and!; try done.
  - unfold res, jobj, jget. simpl. rewrite lookup_insert_ne by done. by rewrite lookup_insert_eq.
  - rewrite I2. by subst id.
  - by subst id.
  - by subst id.
  - subst id. split.
    + unfold check_resolution in Hshape. apply res_bind_ok in Hshape as ([] & _ & Hshape).
      apply res_bind_ok in Hshape as ([] & _ & Hshape%ensure_ok). by bsimpl.
    + intros nk Hnk. destruct (N1 nk Hnk) as (Hn & Hl & Hr). split_and!; [done|by eauto using elem_of_weaken|done].
    + intros rid Hf Hr. rewrite I4 in N2. by apply N2.
    + intros d' Hd'. rewrite I2 in N3. by apply N3.
Qed.

Lemma resolve_issue_evolution pid id e v reason d r :
  keeps issue_evolution (resolve_issue actor pid id e v reason d r).
Proof.
  intros s. eapply wp_mono; [apply resolve_issue_run|].
  intros ? s' (i & resolution & res & t & Hi & <- & _ & Ho & _ & _ & Hin & Hres & E & Hl & _ & _ & _).
  apply (change_one s s' i (closed_as resolution res t)); try done.
  intros [V K _]. split; simpl; [lia|done|]. right. split; [done|]. by exists res.
Qed.

Lemma link_issue_evolution p id e n r x : keeps issue_evolution (link_issue p id e n r x).
Proof.
  intros s. unfold link_issue. do 2 (apply wp_bind, wp_lift; intros ? _). apply wp_bind, wp_get_some. intros replace _.
  apply wp_bind, open_issue_run. intros i Hi Hid Hp Ho He. apply wp_bind.
  eapply wp_mono; [apply (untouched_wp (λ s, s) _ _ (λ _ _, True)); [unfold issue_node_keys; frame|by apply run_wp]|].
  intros keys ? [_ ->]. apply wp_bind, wp_gets. cbv zeta. apply wp_bind, wp_require. intros _.
  apply wp_bind, wp_modify, wp_bind, wp_now. intros t. apply wp_bind, wp_modify. set (s2 := _ <| issues ::= _ |>).
  assert (issue_evolution s s2) as E2.
  { eapply (change_one s s2 i (λ r, r <| is_version := (is_version r + 1)%Z |> <| is_updated := t |>)); try done.
    - intros id' Hne. unfold s2, issue_links. simpl. by rewrite lookup_insert_ne.
    - intros [V K S]. split; simpl; [lia|done|done]. }
  apply keeps_from; [apply _|done|]. intros s3.
  eapply wp_mono; [apply (untouched_wp backlog _ _ (λ _ _, True)); [frame_operation|by apply run_wp]|].
  intros ? s4 [_ Eb]. by apply issue_evolution_same.
Qed.

Lemma report_issue_evolution p r k t b d n x : keeps issue_evolution (report_issue actor p r k t b d n x).
Proof.
  intros s. unfold report_issue. do 2 (apply wp_bind, wp_lift; intros ? _). apply wp_bind, wp_get_some. intros kind Hk.
  assert (kind ∈ ISSUE_KINDS) as Hin.
  { unfold one_of in Hk. destruct k as [| | |w| |]; try done. case_bool_decide; [|done]. by injection Hk as <-. }
  do 3 (apply wp_bind, wp_lift; intros ? _). apply wp_bind.
  apply (wp_mono _ (λ _ s', s' = s)); [destruct x; repeat (apply wp_bind, wp_lift; intros ? _); by apply wp_ret|].
  intros source ? ->. apply wp_bind, wp_project. intros row _ _. apply wp_bind.
  eapply wp_mono; [apply (untouched_wp (λ s, s) _ _ (λ _ _, True)); [unfold issue_node_keys; frame|by apply run_wp]|].
  intros keys ? [_ ->]. cbv zeta. apply wp_bind, wp_gets. destruct (select_one _ _) as [i|].
  { apply wp_bind, wp_require. intros _. apply wp_bind, wp_gets, wp_ret. reflexivity. }
  apply wp_bind, wp_uuid4. intros u. apply wp_bind, wp_now. intros stamp. apply wp_bind.
  unfold insert_issue at 1. apply wp_bind, wp_gets, wp_bind, wp_require. intros Hc%negb_true_iff. simpl in Hc.
  apply wp_modify, wp_bind. set (i := IssueRow _ _ _ _ _ _ _ _ _ _ _ _ _ _ _) in *. set (s1 := _ <| issues ::= _ |>).
  eapply wp_mono; [apply (add_links_run (is_id i))|]. intros ? s2 [[E2 O2 _] _]. cbv beta.
  assert (issue_evolution s s2) as Hev.
  { apply (add_one s s2 i); [by rewrite E2|done|intros id Hne; by rewrite O2|]. by split; [..|left]. }
  apply keeps_from; [apply _|done|]. intros s3.
  eapply wp_mono; [apply (untouched_wp backlog _ _ (λ _ _, True)); [frame_operation|by apply run_wp]|].
  intros ? s4 [_ Eb]. by apply issue_evolution_same.
Qed.
End issue_runs.

(** ** Every operation *)
Section issue_system.
Context `{Host}.
Lemma operation_issues A (m : M db A) : operation m → keeps issue_evolution m.
Proof.
  intros Hop. destruct Hop;
    first
      [ apply report_issue_evolution | apply link_issue_evolution | apply resolve_issue_evolution
      | intros s0; eapply wp_mono;
        [apply (untouched_at backlog);
         unfold add_nodes, set_node_facet, revise_node, split_node, revise, add, split;
         solve [frame_operation]
        |intros ? s1 E1; by apply issue_evolution_same] ].
Qed.
Lemma reachable_issues s : reachable s → issues_inv (issues s).
Proof.
  apply (reachable_invariant (λ s, issues_inv (issues s))); [split; [done|apply NoDup_nil_2|apply NoDup_nil_2]|].
  intros A m Hm s0 Hs0. eapply wp_mono; [by apply operation_issues|]. intros a s' He. by apply He.
Qed.

(** C34: every issue of a reachable state has a known kind and a positive version, and is open
    without a resolution or closed with the one its status names; ids, and request keys within
    a project, are unique.  Along every run an issue keeps what was reported of it; its version
    never falls; and its row and its links are the same at the same version, and for good once
    it is closed. *)
Theorem issue_life s s' :
  reachable s → rtc step s s' →
  issues_inv (issues s) ∧ ∃ l1 l2, issues s' = l1 ++ l2 ∧ Forall2 (issue_step s s') (issues s) l1.
Proof.
  intros Hs%reachable_issues Hss. split; [done|].
  by destruct (steps_keep issue_evolution s s' operation_issues Hss Hs) as [_ H1].
Qed.

(** An issue is resolved only while it is open, at the version the call names, with the
    fields its resolution takes and no other: a named node exists and is linked, at a revision
    that is there and not older than the issue; [fixed] names a receipt of the project, with
    exactly its artifact and with evidence, and links its node; a duplicate names another
    issue of the project.  The issue then has the resolution as its status, with the next
    version; no other issue changes, no link is lost, and no node changes. *)
Theorem resolve_issue_effect actor pid id e v reason d r s view s' :
  resolve_issue actor pid id e v reason d r s = Ok (view, s') →
  ∃ i resolution res t, i ∈ issues s ∧ is_id i = id ∧ is_project i = pid ∧ is_status i = "open" ∧
    py_eq_int e (is_version i) = true ∧ v = JStr resolution ∧ resolution ∈ RESOLUTIONS ∧
    jget "resolution" res = Some (JStr resolution) ∧
    issues s' = update_where (λ j, bool_decide (is_id j = id)) (closed_as resolution res t) (issues s) ∧
    (∀ id', id' ≠ id → issue_links s' id' = issue_links s id') ∧ issue_links s id ⊆ issue_links s' id ∧
    grounds pid s i resolution r (issue_links s' id) ∧ nodes s' = nodes s.
Proof. intros E. exact (wp_run _ _ _ _ _ (resolve_issue_run actor pid id e v reason d r s) E). Qed.
End issue_system.

(** ** Instances *)
(** A defect of the first node, and its rejection. *)
Definition reporting : M db (issue_view * bool) :=
  report_issue "driver:d" "demo" (JStr "rk-i") (JStr "defect") (JStr "it breaks") (JStr "at night")
    (JStr "boss") (JArr [JStr "a"]) JNull.
Definition s_issue : db := after reporting s_nodes.
Definition issue_a : string := "iss-" +:+ String.substring 0 16 (hex_word 32 0).
Definition rejecting : M db issue_view :=
  resolve_issue "driver:d" "demo" issue_a (JInt 1) (JStr "rejected") (JStr "it is meant so")
    (JStr "boss") (ResolveArgs None None None None None).
Definition s_resolved : db := after rejecting s_issue.
Lemma reachable_issue : reachable s_issue.
Proof. unfold s_issue, reporting. apply steps_after; [apply op_report_issue|apply reachable_nodes]. Qed.

Lemma issue_life_witness : ∃ i i', issues s_issue !! 0 = Some i ∧ is_status i = "open" ∧
  issues s_resolved !! 0 = Some i' ∧ issue_identity i' = issue_identity i.
Proof.
  assert (∃ i, issues s_issue !! 0 = Some i ∧ is_status i = "open") as (i & Hi & Ho)
    by (eexists; split; [vm_compute; reflexivity|reflexivity]).
  assert (rtc step s_issue s_resolved) as Hss.
  { unfold s_resolved, rejecting. apply steps_after; [apply op_resolve_issue|apply rtc_refl]. }
  destruct (issue_life s_issue s_resolved reachable_issue Hss) as (_ & l1 & l2 & E & HF).
  destruct (Forall2_lookup_l _ _ _ _ _ HF Hi) as (i' & Hi' & Hst).
  exists i, i'. split; [exact Hi|]. split; [exact Ho|]. split; [|apply Hst].
  rewrite E. by apply lookup_app_l_Some.
Defined.

Lemma resolve_issue_effect_witness : ∃ view res t,
  rejecting s_issue = Ok (view, s_resolved) ∧ jget "resolution" res = Some (JStr "rejected") ∧
  issues s_resolved = update_where (λ j, bool_decide (is_id j = issue_a)) (closed_as "rejected" res t) (issues s_issue).
Proof.
  assert (∃ view, rejecting s_issue = Ok (view, after rejecting s_issue)) as [view E] by (returns r E; by exists r).
  pose proof E as E'. unfold rejecting in E' at 1.
  destruct (resolve_issue_effect _ _ _ _ _ _ _ _ _ _ _ E')
    as (i & resolution & res & t & _ & _ & _ & _ & _ & [= <-] & _ & Hres & Hi & _).
  exists view, res, t. split; [exact E|]. split; [exact Hres|exact Hi].
Defined.
