(* ===== verification/InboxProperties.v ===== *)
(** * The driver inbox

    Deliveries are numbered without a gap and go one way; a request is carried out
    once; whoever follows the paging cursors, of an inbox or of the conversation with
    the user, is shown every message exactly once, whatever arrives meanwhile. *)
From S2P Require Import Prelude Json Text Dag Store Graph History Portfolio Presence Claims.
From S2P Require Import Enforcement Review Attempts Evidence External Registry Inbox Issues Design.
From S2P Require Import Takeover Recovery Handoffs View Ledger System Sample.

(** ** The invariant *)
Definition status_version (v : delivery_status) : Z :=
  match v with Unread => 1 | Acknowledged => 2 | Resolved => 3 end.

(** A message starts a thread or joins the one of the message it answers; it is the user's,
    to the user, or between drivers. *)
Record message_ok (l : list message_row) (m : message_row) : Prop := MessageOk {
  mo_thread : im_thread m = im_id m ∨
    ∃ p, p ∈ l ∧ im_reply m = Some (im_id p) ∧ im_thread m = im_thread p;
  mo_to_user : im_to_user m = true → is_Some (im_sender m) ∧ is_Some (im_project m) ∧ im_from_user m = false;
  mo_from_user : im_from_user m = true → im_sender m = None ∧ is_Some (im_project m);
}.
Definition inbox_of (s : db) (t : string) : list delivery_row := select (delivered_to t) (deliveries s).
Record inbox_inv (s : db) : Prop := InboxInv {
  bi_ids : NoDup (im_id <$> messages s);
  bi_messages : ∀ m, m ∈ messages s → message_ok (messages s) m;
  bi_delivery_ids : NoDup (dl_id <$> deliveries s);
  bi_delivered : ∀ d, d ∈ deliveries s → ∃ m, m ∈ messages s ∧ im_id m = dl_message d ∧ im_to_user m = false;
  bi_pairs : NoDup ((λ d, (dl_message d, dl_target d)) <$> deliveries s);
  bi_numbered : ∀ t, dl_seq <$> inbox_of s t = seq 1 (length (inbox_of s t));
  bi_version : ∀ d, d ∈ deliveries s → dl_version d = status_version (dl_status d);
  bi_marks : ∀ pid r, read_marks s !! pid = Some r →
    ∃ m, m ∈ messages s ∧ in_conversation pid m = true ∧ place_of m = read_place r;
}.
(** What happens to a delivery: nothing, or a later status with a higher version. *)
Definition delivery_step (d d' : delivery_row) : Prop :=
  delivery_identity d' = delivery_identity d ∧ (d' = d ∨ (dl_version d < dl_version d')%Z).
Record inbox_step (s s' : db) : Prop := InboxStep {
  bk_messages : messages s `prefix_of` messages s';
  bk_deliveries : ∃ l1 l2, deliveries s' = l1 ++ l2 ∧ Forall2 delivery_step (deliveries s) l1;
  bk_marks : ∀ pid r, read_marks s !! pid = Some r →
    ∃ r', read_marks s' !! pid = Some r' ∧ place_le (read_place r) (read_place r');
}.
Definition inbox_evolution (s s' : db) : Prop := inbox_inv s → inbox_inv s' ∧ inbox_step s s'.

(** *** Places are totally ordered *)
Lemma place_le_refl p : place_le p p.
Proof. right. split; [done|]. apply String.le_po. Qed.
#[export] Instance place_le_po : PartialOrder place_le.
Proof.
  split; [split|].
  - intros p. apply place_le_refl.
  - intros p q r [H1|[H1 H2]] [H3|[H3 H4]]; [left; lia..|]. right. split; [lia|]. by transitivity q.2.
  - intros [t i] [u j] [H1|[H1 H2]] [H3|[H3 H4]]; simpl in *; try lia. subst. f_equal. by apply (anti_symm String.le).
Qed.
#[export] Instance place_le_total : Total place_le.
Proof.
  intros [t i] [u j]. unfold place_le. simpl. destruct (Z.lt_total t u) as [?|[->|?]]; [left; by left| |right; by left].
  destruct (total String.le i j); [left|right]; by right.
Qed.
Lemma place_lt_spec p q : place_lt p q = true ↔ ¬ place_le q p.
Proof.
  unfold place_lt. rewrite andb_true_iff, negb_true_iff, bool_decide_eq_true, bool_decide_eq_false. split.
  - intros [H1 H2] H3. apply H2. by apply (anti_symm place_le).
  - intros H. destruct (total place_le p q) as [H1|H1]; [|done]. split; [done|]. by intros ->.
Qed.

(** *** Steps compose *)
Lemma delivery_step_refl d : delivery_step d d.
Proof. split; [done|by left]. Qed.
Lemma delivery_steps_refl l : Forall2 delivery_step l l.
Proof. apply Forall_Forall2_diag, Forall_forall. intros d _. apply delivery_step_refl. Qed.
Lemma delivery_step_trans d1 d2 d3 : delivery_step d1 d2 → delivery_step d2 d3 → delivery_step d1 d3.
Proof.
  intros [E1 [->|L1]] [E2 [->|L2]]; split; try congruence; [by left|right; done|right; done|right; lia].
Qed.
Lemma delivery_steps_trans l1 l2 l3 :
  Forall2 delivery_step l1 l2 → Forall2 delivery_step l2 l3 → Forall2 delivery_step l1 l3.
Proof.
  intros H1. revert l3. induction H1; intros l3 H2; inversion H2; subst; constructor; eauto using delivery_step_trans.
Qed.
#[export] Instance inbox_step_preorder : PreOrder inbox_step.
Proof.
  split.
  - intros s. split; [done| |].
    + exists (deliveries s), []. rewrite app_nil_r. split; [done|apply delivery_steps_refl].
    + intros pid r Hr. exists r. split; [done|apply place_le_refl].
  - intros s1 s2 s3 [M1 (l1 & l2 & E1 & F1) K1] [M2 (l3 & l4 & E2 & F2) K2]. split; [by etrans| |].
    + rewrite E1 in F2. apply Forall2_app_inv_l in F2 as (k1 & k2 & F3 & _ & ->). exists k1, (k2 ++ l4).
      rewrite E2, <- (assoc_L (++)). split; [done|]. by eapply delivery_steps_trans.
    + intros pid r Hr. destruct (K1 pid r Hr) as (r1 & Hr1 & L1). destruct (K2 pid r1 Hr1) as (r2 & Hr2 & L2).
      exists r2. split; [done|]. by transitivity (read_place r1).
Qed.
#[export] Instance inbox_evolution_preorder : PreOrder inbox_evolution.
Proof.
  split; [intros s Hs; by split|]. intros s1 s2 s3 H1 H2 Hs. destruct (H1 Hs) as [Hs2 K1]. destruct (H2 Hs2) as [Hs3 K2].
  split; [done|]. by transitivity s2.
Qed.

(** The three tables an inbox is made of. *)
Definition mail (s : db) := (messages s, deliveries s, read_marks s).
Lemma inbox_same s s' : mail s' = mail s → inbox_evolution s s'.
Proof.
  intros [= E1 E2 E3] [H1 H2 H3 H4 H5 H6 H7 H8]. split.
  - split; unfold inbox_of in *; rewrite ?E1, ?E2, ?E3; done.
  - split; rewrite ?E1, ?E2, ?E3; [done| |].
    + exists (deliveries s), []. rewrite app_nil_r. split; [done|apply delivery_steps_refl].
    + intros pid r Hr. exists r. split; [done|apply place_le_refl].
Qed.
Lemma inbox_untouched {A} (m : M db A) : untouched mail m → keeps inbox_evolution m.
Proof. intros Hm s. eapply wp_mono; [apply Hm|]. intros ? s'. apply inbox_same. Qed.

(** ** Writing *)
Lemma message_ok_grows l l' m : l `prefix_of` l' → message_ok l m → message_ok l' m.
Proof.
  intros [k ->] [H1 H2 H3]. split; [|done..]. destruct H1 as [?|(p & Hp & ?)]; [by left|]. right. exists p.
  split; [|done]. apply elem_of_app. by left.
Qed.
Lemma NoDup_key {A B} (f : A → B) l x y : NoDup (f <$> l) → x ∈ l → y ∈ l → f x = f y → x = y.
Proof.
  intros Hl [i Hi]%list_elem_of_lookup [j Hj]%list_elem_of_lookup E.
  assert (i = j) as <-; [|congruence].
  eapply (NoDup_lookup (f <$> l) i j (f x)); [done|by rewrite list_lookup_fmap, Hi|].
  rewrite list_lookup_fmap, Hj. simpl. by rewrite E.
Qed.
Lemma update_where_one {A B} (key : A → B) p f l1 x l2 :
  NoDup (key <$> l1 ++ x :: l2) → (∀ y, p y = true → key y = key x) → p x = true →
  update_where p f (l1 ++ x :: l2) = l1 ++ f x :: l2.
Proof.
  intros Hl Hp Hx. rewrite fmap_app in Hl. csimpl in Hl. apply NoDup_app in Hl as (_ & H1 & [H2 _]%NoDup_cons).
  assert (∀ l, (∀ y, y ∈ l → key y ≠ key x) → update_where p f l = l) as Hid.
  { intros l Hl. unfold update_where. rewrite <- (list_fmap_id l) at 2. apply list_fmap_ext. intros i y Hy. simpl.
    destruct (p y) eqn:E; [|done]. destruct (Hl y); [by eapply list_elem_of_lookup_2|by apply Hp]. }
  unfold update_where in *. rewrite fmap_app. csimpl. rewrite Hx. f_equal; [|f_equal]; apply Hid; intros y Hy E.
  - apply (H1 (key y)); [by apply list_elem_of_fmap_2|]. rewrite E. by left.
  - apply H2. rewrite <- E. by apply list_elem_of_fmap_2.
Qed.
Lemma last_delivery_length s t : inbox_inv s → last_delivery s t = length (inbox_of s t).
Proof.
  intros Hs. unfold last_delivery. fold (inbox_of s t). rewrite (bi_numbered s Hs).
  generalize (length (inbox_of s t)) as n. induction n as [|n IH]; [done|].
  rewrite seq_S, foldr_app. simpl. assert (∀ k l, foldr Nat.max k l = Nat.max k (foldr Nat.max 0 l)) as Hf.
  { intros k l. induction l as [|x l IHl]; simpl; [lia|]. rewrite IHl. lia. }
  rewrite Hf, IH. lia.
Qed.
Lemma inbox_of_app s t l : select (delivered_to t) (deliveries s ++ l) = inbox_of s t ++ select (delivered_to t) l.
Proof. apply select_app. Qed.

Lemma insert_message_run (m : message_row) s :
  inbox_inv s → message_ok (messages s ++ [m]) m →
  wp (insert_message m) (λ _ s', inbox_inv s' ∧ inbox_step s s' ∧ s' = s <| messages ::= (λ l, l ++ [m]) |> ∧
    ∀ n, n ∈ messages s → im_id n ≠ im_id m) s.
Proof.
  intros Hs Hm. unfold insert_message. apply wp_bind, wp_gets, wp_bind, wp_require. intros Hc. bsimpl.
  assert (∀ n, n ∈ messages s → im_id n ≠ im_id m) as Hne.
  { intros n Hn E. assert (existsb (λ n, bool_decide (im_id n = im_id m)) (messages s) = true) as Hx; [|congruence].
    apply existsb_exists. exists n. split; [by apply list_elem_of_In|]. by rewrite bool_decide_eq_true_2. }
  apply wp_modify. pose proof Hs as [H1 H2 H3 H4 H5 H6 H7 H8].
  assert (messages s `prefix_of` messages s ++ [m]) as Hpre by by apply prefix_app_r.
  split; [|split; [|done]].
  - split; simpl; try done.
    + rewrite fmap_app. apply NoDup_app. split; [done|]. split; [|apply NoDup_singleton].
      intros x Hx ->%list_elem_of_singleton. apply list_elem_of_fmap in Hx as (n & E & Hn). by apply (Hne n).
    + intros n [Hn| ->%list_elem_of_singleton]%elem_of_app; [|done]. eapply message_ok_grows; [done|by apply H2].
    + intros d Hd. destruct (H4 d Hd) as (n & Hn & ?). exists n. split; [|done]. apply elem_of_app. by left.
    + intros pid r Hr. destruct (H8 pid r Hr) as (n & Hn & ?). exists n. split; [|done]. apply elem_of_app. by left.
  - split; simpl; [done| |].
    + exists (deliveries s), []. rewrite app_nil_r. split; [done|apply delivery_steps_refl].
    + intros pid r Hr. exists r. split; [done|apply place_le_refl].
Qed.

(** A fresh delivery: unread, with the next number of its inbox. *)
Definition next_in (s : db) (mid : string) (d : delivery_row) : Prop :=
  dl_message d = mid ∧ dl_seq d = S (length (inbox_of s (dl_target d))) ∧ dl_status d = Unread ∧ dl_version d = 1%Z.
Lemma insert_delivery_run (d : delivery_row) (m : message_row) s :
  inbox_inv s → m ∈ messages s → im_to_user m = false → next_in s (im_id m) d →
  wp (insert_delivery d) (λ _ s', inbox_inv s' ∧ inbox_step s s' ∧ s' = s <| deliveries ::= (λ l, l ++ [d]) |>) s.
Proof.
  intros Hs Hm Hu (Hd & Hq & Hst & Hv). unfold insert_delivery. apply wp_bind, wp_gets, wp_bind, wp_require. intros Hc. bsimpl.
  assert (∀ e, e ∈ deliveries s → delivery_clash d e = false) as Hne.
  { intros e He. destruct (delivery_clash d e) eqn:E; [|done].
    assert (existsb (delivery_clash d) (deliveries s) = true) as Hx; [|congruence].
    apply existsb_exists. exists e. split; [by apply list_elem_of_In|done]. }
  apply wp_modify. pose proof Hs as [H1 H2 H3 H4 H5 H6 H7 H8]. split; [|split; [|done]].
  - split; unfold inbox_of; simpl; try done.
    + rewrite fmap_app. apply NoDup_app. split; [done|]. split; [|apply NoDup_singleton].
      intros x Hx ->%list_elem_of_singleton. apply list_elem_of_fmap in Hx as (e & E & He).
      specialize (Hne e He). unfold delivery_clash in Hne. bsimpl. by rewrite E in *.
    + intros e [He| ->%list_elem_of_singleton]%elem_of_app; [by apply H4|]. by exists m.
    + rewrite fmap_app. apply NoDup_app. split; [done|]. split; [|apply NoDup_singleton].
      intros x Hx ->%list_elem_of_singleton. apply list_elem_of_fmap in Hx as (e & E & He).
      specialize (Hne e He). unfold delivery_clash in Hne. apply orb_false_iff in Hne as [Hne _].
      apply orb_false_iff in Hne as [_ Hne]. injection E as E1 E2. rewrite E1, E2 in Hne.
      by rewrite !bool_decide_eq_true_2 in Hne.
    + intros t. rewrite inbox_of_app. simpl. destruct (delivered_to t d) eqn:Ht.
      * apply bool_decide_eq_true in Ht. rewrite fmap_app, length_app, H6, seq_app. simpl. do 2 f_equal. by rewrite Hq, Ht.
      * by rewrite app_nil_r.
    + intros e [He| ->%list_elem_of_singleton]%elem_of_app; [by apply H7|]. by rewrite Hv, Hst.
  - split; simpl; [done| |].
    + exists (deliveries s), [d]. split; [done|apply delivery_steps_refl].
    + intros pid r Hr. exists r. split; [done|apply place_le_refl].
Qed.

Section writes.
Context `{Host}.

(** What a fan-out appends: one delivery per recipient. *)
Definition fanned_out (mid : string) (targets : list string) (ds : list delivery_row) : Prop :=
  dl_target <$> ds = targets ∧ Forall (λ d, dl_message d = mid ∧ dl_status d = Unread ∧ dl_version d = 1%Z) ds.
Definition others_kept (s s' : db) : Prop :=
  messages s' = messages s ∧ read_marks s' = read_marks s ∧ inbox_requests s' = inbox_requests s.

Lemma deliver_run (m : message_row) t s :
  inbox_inv s → m ∈ messages s → im_to_user m = false →
  wp (deliver (im_id m) t) (λ ds s', inbox_inv s' ∧ inbox_step s s' ∧ others_kept s s' ∧
    deliveries s' = deliveries s ++ ds ∧ fanned_out (im_id m) [t] ds) s.
Proof.
  intros Hs Hm Hu. unfold deliver. apply wp_bind, wp_gets, wp_bind, wp_uuid4. intros u. cbv zeta. apply wp_bind.
  set (s1 := s <| draws ::= S |>). assert (inbox_inv s1 ∧ inbox_step s s1) as [Hs1 K1] by by apply (inbox_same s s1).
  eapply wp_mono; [apply (insert_delivery_run _ m); [done|done|done|]|].
  { unfold next_in. simpl. split_and!; try done. f_equal. exact (last_delivery_length s1 t Hs1). }
  intros _ s2 (Hs2 & K2 & ->). apply wp_ret. split_and!; try done; [by transitivity s1|repeat constructor..].
Qed.
Lemma fan_out_run (m : message_row) ts : ∀ s,
  inbox_inv s → m ∈ messages s → im_to_user m = false →
  wp (collect (deliver (im_id m)) ts) (λ ds s', inbox_inv s' ∧ inbox_step s s' ∧ others_kept s s' ∧
    deliveries s' = deliveries s ++ ds ∧ fanned_out (im_id m) ts ds) s.
Proof.
  induction ts as [|t ts IH]; intros s Hs Hm Hu; simpl.
  { apply wp_ret. rewrite app_nil_r. by split_and!. }
  apply wp_bind. eapply wp_mono; [by apply deliver_run|]. intros xs s1 (Hs1 & K1 & (O1 & O2 & O3) & D1 & T1 & F1).
  apply wp_bind. eapply wp_mono; [apply IH; [done|by rewrite O1|done]|].
  intros ys s2 (Hs2 & K2 & (O4 & O5 & O6) & D2 & T2 & F2). apply wp_ret. split_and!; try congruence.
  - by transitivity s1.
  - split_and!; congruence.
  - by rewrite D2, D1, (assoc_L (++)).
  - split; [by rewrite fmap_app, T1, T2|by apply Forall_app].
Qed.

Lemma evolve_run {A} (m : M db A) :
  (∀ s, inbox_inv s → wp m (λ _ s', inbox_inv s' ∧ inbox_step s s') s) → keeps inbox_evolution m.
Proof.
  intros Hm s. unfold wp. destruct (m s) as [[a s']|] eqn:E; [|done]. intros Hs.
  exact (wp_run m (λ _ s', inbox_inv s' ∧ inbox_step s s') s a s' (Hm s Hs) E).
Qed.

(** A message with its deliveries, written from a state with the same mail as [s]. *)
Lemma message_run (m : message_row) ts s s1 :
  inbox_inv s → mail s1 = mail s → message_ok (messages s ++ [m]) m → im_to_user m = false →
  wp (insert_message m;; collect (deliver (im_id m)) ts)
    (λ ds s', inbox_inv s' ∧ inbox_step s s' ∧ messages s' = messages s ++ [m] ∧ read_marks s' = read_marks s ∧
      inbox_requests s' = inbox_requests s1 ∧ deliveries s' = deliveries s ++ ds ∧ fanned_out (im_id m) ts ds) s1.
Proof.
  intros Hs E Hm Hu. destruct (inbox_same s s1 E Hs) as [Hs1 K1]. injection E as E1 E2 E3.
  apply wp_bind. eapply wp_mono; [apply insert_message_run; [done|by rewrite E1]|]. intros _ s2 (Hs2 & K2 & -> & _).
  eapply wp_mono; [apply fan_out_run; [done| |done]|].
  { simpl. apply elem_of_app. right. by apply list_elem_of_singleton. }
  intros ds s3 (Hs3 & K3 & (O1 & O2 & O3) & D & F). simpl in *. rewrite E1 in O1. rewrite E2 in D. rewrite E3 in O2.
  split_and!; try done. transitivity s1; [done|]. etransitivity; [exact K2|exact K3].
Qed.

Lemma inbox_deliver_notice t x p k r : keeps inbox_evolution (deliver_notice t x p k r).
Proof.
  apply evolve_run. intros s Hs. unfold deliver_notice. apply wp_bind, wp_gets.
  destruct (bool_decide _); [|apply wp_ret; by split].
  apply wp_bind, wp_uuid4. intros u. apply wp_bind, wp_uuid4. intros v. apply wp_bind, wp_now. intros n. cbv zeta.
  set (m := MessageRow _ _ _ _ _ _ _ _ _ _ _ _ _). set (s1 := s <| draws ::= S |> <| draws ::= S |> <| ticks ::= S |>).
  destruct (inbox_same s s1) as [Hs1 K1]; [done..|]. apply wp_bind.
  eapply wp_mono; [apply insert_message_run; [done|]|]. { split; [by left|done..]. }
  intros _ s2 (Hs2 & K2 & -> & _). apply wp_bind, wp_gets, wp_bind.
  eapply wp_mono; [apply (insert_delivery_run _ m); [done| |done|]|].
  { simpl. apply elem_of_app. right. by apply list_elem_of_singleton. }
  { unfold next_in. simpl. split_and!; try done. f_equal. exact (last_delivery_length _ t Hs2). }
  intros _ s3 (Hs3 & K3 & ->). apply wp_ret. split; [done|]. transitivity s1; [done|]. etransitivity; [exact K2|exact K3].
Qed.

(** *** Requests *)
Context (actor : string) (driver : option string) (trusted : bool).

(** A request is answered from its record; or carried out, recorded, and told. *)
Lemma answered_run o k p w tell (Q : json → db → Prop) s :
  (∀ r, inbox_requests s !! (actor, o, k) = Some (RequestRow p r) → Q r s) →
  (inbox_requests s !! (actor, o, k) = None →
   wp w (λ r s', inbox_requests s' !! (actor, o, k) = None →
     wp (tell r) Q (s' <| inbox_requests ::= <[(actor, o, k) := RequestRow p r]> |>)) s) →
  wp (answered actor o k p w tell) Q s.
Proof.
  intros H1 H2. unfold answered, replay_request. apply wp_bind, wp_bind, wp_gets.
  destruct (inbox_requests s !! (actor, o, k)) as [[p' r]|] eqn:E.
  - apply wp_bind, wp_require. intros Hp. bsimpl. simpl in Hp. subst p'. apply wp_ret, wp_ret. by apply H1.
  - apply wp_ret, wp_bind. eapply wp_mono; [by apply H2|]. intros r s' Hr. unfold record_request.
    apply wp_bind, wp_bind, wp_gets, wp_bind, wp_require. intros Hn. bsimpl.
    apply wp_bind, wp_modify, wp_ret, Hr.
    destruct (inbox_requests s' !! _); [|done]. exfalso. by apply Hn.
Qed.
Lemma once_run o k p w (Q : json → db → Prop) s :
  (∀ r, inbox_requests s !! (actor, o, k) = Some (RequestRow p r) → Q r s) →
  (inbox_requests s !! (actor, o, k) = None →
   wp w (λ r s', inbox_requests s' !! (actor, o, k) = None →
     Q r (s' <| inbox_requests ::= <[(actor, o, k) := RequestRow p r]> |>)) s) →
  wp (once actor o k p w) Q s.
Proof.
  intros H1 H2. apply answered_run; [done|]. intros Hn. eapply wp_mono; [by apply H2|]. intros r s' Hr Hn'.
  apply wp_ret. by apply Hr.
Qed.
Lemma inbox_answered o k p w tell :
  (∀ s, inbox_inv s → wp w (λ _ s', inbox_inv s' ∧ inbox_step s s') s) → (∀ r, keeps inbox_evolution (tell r)) →
  keeps inbox_evolution (answered actor o k p w tell).
Proof.
  intros Hw Htell. apply evolve_run. intros s Hs. apply answered_run; [intros; by split|]. intros _.
  eapply wp_mono; [by apply Hw|]. intros r s' [Hs' K] _. set (s2 := s' <| inbox_requests ::= _ |>).
  destruct (inbox_same s' s2) as [H1 H2]; [done..|]. eapply wp_mono; [apply Htell|]. intros r' s3 H3.
  destruct (H3 H1) as [H4 H5]. split; [done|]. transitivity s'; [done|]. by transitivity s2.
Qed.
Lemma inbox_once o k p w :
  (∀ s, inbox_inv s → wp w (λ _ s', inbox_inv s' ∧ inbox_step s s') s) → keeps inbox_evolution (once actor o k p w).
Proof. intros Hw. apply inbox_answered; [done|]. intros r. apply inbox_untouched. frame. Qed.

(** *** What a sender is told of the recipients' presence *)
Definition PRESENCE_FIELDS : gset string := {["recipient_presence"; "recipient_presence_total"; "advice"]}.
(** An entry of the block: a registered driver, as its last sighting shows it at some instant. *)
Definition seen_as (env : environment) (s : db) (i : presence_item) : Prop :=
  ∃ row current, drivers s !! pi_driver i = Some row ∧ pi_seen i = drv_seen row ∧
    presence_now env (drv_seen row) current = (pi_status i, pi_age i).
(** The answer [r] to a request that was recorded as [r0]. *)
Definition presented (env : environment) (system fan_out : bool) (s : db) (r0 r : json) : Prop :=
  if system then r = r0
  else ∃ m items, r0 = JObj m ∧ Forall (seen_as env s) items ∧ r = JObj (presence_hint fan_out items ∪ m).
(** The record, with the fields of the presence block over it. *)
Definition told (hinted : bool) (r0 r : json) : Prop :=
  r = r0 ∨ hinted = true ∧ ∃ m hint, r0 = JObj m ∧ r = JObj (hint ∪ m) ∧ dom hint ⊆ PRESENCE_FIELDS.

Lemma presence_hint_dom fan_out items : dom (presence_hint fan_out items) ⊆ PRESENCE_FIELDS.
Proof.
  destruct items as [|i items]; [set_solver|]. unfold presence_hint. rewrite dom_list_to_map_L.
  generalize (omap presence_advice (i :: items)) as advice. intros advice.
  destruct fan_out, advice; try case_match; set_solver.
Qed.
Lemma presented_told env system fan_out s r0 r : presented env system fan_out s r0 r → told (negb system) r0 r.
Proof.
  destruct system; [by left|]. intros (m & items & -> & _ & ->). right. split; [done|].
  eexists m, _. split_and!; [done..|apply presence_hint_dom].
Qed.
Lemma presence_row_run env fan_out d s :
  wp (presence_row env fan_out d) (λ l s', (∃ k, s' = s <| ticks := k |>) ∧ Forall (seen_as env s) l) s.
Proof.
  assert (∃ k, s = s <| ticks := k |>) as Hid by (exists (ticks s); by destruct s).
  unfold presence_row. apply wp_bind, wp_gets. destruct (drivers s !! d) as [row|] eqn:E; [|by apply wp_ret].
  destruct (_ || _); [|by apply wp_ret]. apply wp_bind, wp_now. intros t.
  destruct (presence_now env (drv_seen row) t) as [status age] eqn:Ep. apply wp_ret.
  split; [by exists (S (ticks s))|]. repeat constructor. by exists row, t.
Qed.
Lemma presence_rows_run env fan_out ids : ∀ s,
  wp (collect (presence_row env fan_out) ids) (λ l s', (∃ k, s' = s <| ticks := k |>) ∧ Forall (seen_as env s) l) s.
Proof.
  induction ids as [|d ids IH]; intros s; simpl.
  - apply wp_ret. split; [|constructor]. exists (ticks s). by destruct s.
  - apply wp_bind. eapply wp_mono; [apply presence_row_run|]. intros xs s1 [[k ->] H1].
    apply wp_bind. eapply wp_mono; [apply IH|]. intros ys s2 [[j ->] H2]. apply wp_ret.
    split; [by exists j|by apply Forall_app].
Qed.
Lemma tell_presence_run env system fan_out r s :
  wp (tell_presence env system fan_out r)
    (λ r' s', (∃ k, s' = s <| ticks := k |>) ∧ presented env system fan_out s r r') s.
Proof.
  unfold tell_presence. destruct system.
  { apply wp_ret. split; [|done]. exists (ticks s). by destruct s. }
  destruct r as [| | | | |m]; try done. unfold recipient_presence_block. apply wp_bind, wp_bind.
  eapply wp_mono; [apply presence_rows_run|]. intros items s' [Hs' HF]. apply wp_ret, wp_ret.
  split; [done|]. by exists m, items.
Qed.

(** *** The operations *)
#[local] Opaque once answered.
(** The message a reply answers is there. *)
Lemma reply_parent_run pid reply ok s :
  wp (reply_parent pid reply ok) (λ o s', s' = s ∧
    match o with
    | None => reply = None
    | Some m => m ∈ messages s ∧ reply = Some (im_id m) ∧ in_conversation pid m = true ∧ ok m = true
    end) s.
Proof.
  unfold reply_parent, conversation_message. destruct reply as [r|]; [|by apply wp_ret].
  apply wp_bind, wp_bind, wp_require. intros _. apply wp_gets. apply wp_bind, wp_get_some. intros m [Hm Hk]%select_one_Some.
  bsimpl. apply wp_bind, wp_require. intros Hok. apply wp_ret. split; [done|]. split_and!; try done. by subst r.
Qed.
Lemma parent_thread l (m : message_row) o :
  match o with None => im_reply m = None | Some p => p ∈ l ∧ im_reply m = Some (im_id p) end →
  im_thread m = default (im_id m) (im_thread <$> o) →
  im_thread m = im_id m ∨ ∃ p, p ∈ l ++ [m] ∧ im_reply m = Some (im_id p) ∧ im_thread m = im_thread p.
Proof.
  destruct o as [p|]; simpl; [|by left]. intros [Hp Hr] Ht. right. exists p. split_and!; try done.
  apply elem_of_app. by left.
Qed.

(** Over a computation that only reads. *)
Ltac only_reads :=
  apply wp_bind; eapply wp_mono; [apply (untouched_at (λ s : db, s)); solve [frame_operation]|];
  intros ? ? ->; cbv beta.

(** Who a message goes to. *)
Definition recipients (s : db) (target members : option string) : list string :=
  match truthy members with
  | Some p => members_of s p (default "" driver)
  | None => option_list target
  end.

Lemma check_recipients_run ts s :
  wp (check_recipients ts) (λ _ s', s' = s ∧ ts ≠ [] ∧ (length ts ≤ MAX_RECIPIENTS)%nat ∧
    Forall (λ d, is_Some (drivers s !! d)) ts) s.
Proof.
  unfold check_recipients. apply wp_bind, wp_require. intros Hl. bsimpl.
  eapply wp_mono; [apply (wp_for_each _ _ (λ l s', s' = s ∧ Forall (λ d, is_Some (drivers s !! d)) l))|].
  - by split.
  - intros l1 d l2 s1 _ [-> HF]. unfold known_driver. apply wp_bind, wp_gets, wp_require. intros Hd. bsimpl.
    split; [done|]. apply Forall_app. by split; [|constructor].
  - intros _ s' [-> HF]. split_and!; try done. by apply Nat.leb_le.
Qed.
Lemma send_work_run subject body target members pid kind mode refs reply sender s :
  inbox_inv s →
  wp (send_work driver subject body target members pid kind mode refs reply sender)
    (λ r s', inbox_inv s' ∧ inbox_step s s' ∧ read_marks s' = read_marks s ∧ inbox_requests s' = inbox_requests s ∧
      ∃ m ds, messages s' = messages s ++ [m] ∧ deliveries s' = deliveries s ++ ds ∧
        fanned_out (im_id m) (recipients s target members) ds ∧
        ds ≠ [] ∧ (length ds ≤ MAX_RECIPIENTS)%nat ∧ Forall (λ d, is_Some (drivers s !! dl_target d)) ds ∧
        r = jobj [("message_id", JStr (im_id m)); ("deliveries", JArr (delivery_json <$> ds))] ∧
        im_sender m = sender ∧ im_project m = pid ∧ im_kind m = kind ∧ im_mode m = mode ∧
        im_text m = Some (subject, body) ∧ im_refs m = JObj refs ∧ im_reply m = reply ∧
        im_to_user m = false ∧ im_from_user m = false) s.
Proof.
  intros Hs. unfold send_work. only_reads. apply wp_bind.
  apply (wp_mono _ (λ ts s', s' = s ∧ ts = recipients s target members)).
  { unfold recipients. destruct (truthy members) as [p|]; [|by apply wp_ret]. only_reads. by apply wp_gets. }
  intros ts ? [-> ->]. apply wp_bind. eapply wp_mono; [apply check_recipients_run|]. intros _ ? (-> & Hne & Hlen & Hknown).
  do 2 only_reads. apply wp_bind.
  apply (wp_mono _ (λ th s', s' = s ∧ (th = None ∨ ∃ p, p ∈ messages s ∧ reply = Some (im_id p) ∧ th = Some (im_thread p)))).
  { destruct (truthy reply) as [r|] eqn:Hr; [|by apply wp_ret; split; [|left]].
    apply wp_bind, wp_gets, wp_bind, wp_get_some. intros p Hp. apply wp_ret. split; [done|]. right. exists p.
    apply truthy_Some in Hr. unfold delivered_message in Hp. destruct driver as [d|]; [|done]. simpl in Hp.
    destruct (existsb _ _); [|done]. apply select_one_Some in Hp as [Hp Hk]. bsimpl. by subst. }
  intros th ? [-> Hth]. apply wp_bind, wp_uuid4. intros u. cbv zeta. apply wp_bind, wp_now. intros stamp.
  set (m := MessageRow _ _ _ _ _ _ _ _ _ _ _ _ _). set (s1 := s <| draws ::= S |> <| ticks ::= S |>).
  apply wp_assoc, wp_bind. change (uuid_text u) with (im_id m).
  eapply wp_mono; [apply (message_run m _ s s1); [done|done| |done]|].
  { split; [|done..]. destruct Hth as [->|(p & Hp & Hr & ->)]; [by left|]. right. exists p. split_and!; try done.
    apply elem_of_app. by left. }
  intros ds s2 (H1 & H2 & H3 & H4 & H5 & H6 & H7). apply wp_ret. split_and!; try done. exists m, ds.
  destruct H7 as [Ht HF]. rewrite <- Ht in Hne, Hlen, Hknown. rewrite length_fmap in Hlen. rewrite Forall_fmap in Hknown.
  split_and!; try done. by intros ->.
Qed.

Lemma inbox_send_driver_message env b k u y t g p x o r w :
  keeps inbox_evolution (send_driver_message actor driver trusted env b k u y t g p x o r w).
Proof.
  unfold send_driver_message. keep_with fail; try apply _. apply inbox_answered.
  - intros s Hs. eapply wp_mono; [by apply send_work_run|]. intros r0 s' (H1 & H2 & _). done.
  - intros r0 s. eapply wp_mono; [apply tell_presence_run|]. intros r1 s' [[j ->] _]. by apply inbox_same.
Qed.
Lemma inbox_send_user_message k u b p r y g : keeps inbox_evolution (send_user_message actor driver k u b p r y g).
Proof.
  unfold send_user_message. keep_with fail; try apply _. apply inbox_once. intros s Hs.
  do 3 only_reads. apply wp_bind. eapply wp_mono; [apply reply_parent_run|]. intros parent ? [-> Hp].
  apply wp_bind, wp_uuid4. intros v. cbv zeta. apply wp_bind, wp_now. intros stamp.
  set (m := MessageRow _ _ _ _ _ _ _ _ _ _ _ _ _). set (s1 := s <| draws ::= S |> <| ticks ::= S |>).
  destruct (inbox_same s s1) as [Hs1 K1]; [done..|].
  apply wp_bind. eapply wp_mono; [apply insert_message_run; [done|]|].
  { split; [|done..]. eapply parent_thread; [|done]. destruct parent; [|done]. destruct Hp as (? & ? & _). done. }
  intros _ s2 (Hs2 & K2 & _). apply wp_ret. split; [done|by transitivity s1].
Qed.

Lemma user_message_run (p : list delivery_row → json) (m : message_row) ts s s1 :
  inbox_inv s → mail s1 = mail s → message_ok (messages s ++ [m]) m → im_to_user m = false →
  wp (insert_message m;; ds ← collect (deliver (im_id m)) ts; mret (p ds))
    (λ r s', inbox_inv s' ∧ inbox_step s s') s1.
Proof.
  intros Hs E Hm Hu. apply wp_assoc, wp_bind. eapply wp_mono; [by apply (message_run m ts s s1)|].
  intros ds s2 (H1 & H2 & _). by apply wp_ret.
Qed.
Lemma inbox_send_user_conversation_message k p b u y t :
  keeps inbox_evolution (send_user_conversation_message actor driver trusted k p b u y t).
Proof.
  unfold send_user_conversation_message. keep_with fail; try apply _. apply inbox_once. intros s Hs.
  only_reads. apply wp_bind. eapply wp_mono; [apply reply_parent_run|]. intros parent ? [-> Hp]. do 2 only_reads.
  apply wp_bind, wp_uuid4. intros v. cbv zeta. apply wp_bind, wp_now. intros stamp.
  set (m := MessageRow _ _ _ _ _ _ _ _ _ _ _ _ _). change (uuid_text v) with (im_id m).
  eapply (user_message_run (λ ds, jobj _)); [done..| |done].
  split; [|done|done]. eapply parent_thread; [|done]. destruct parent; [|done]. destruct Hp as (? & ? & _). done.
Qed.

Lemma inbox_mark_read p i : keeps inbox_evolution (mark_user_conversation_read actor driver trusted p i).
Proof.
  apply evolve_run. intros s Hs. unfold mark_user_conversation_read. do 3 only_reads.
  apply wp_bind, wp_gets, wp_bind, wp_get_some. intros m [Hm Hk]%select_one_Some. bsimpl.
  apply wp_bind, wp_gets. cbv zeta. apply wp_bind, wp_when.
  - intros Ha. apply wp_bind, wp_now. intros stamp. apply wp_modify. set (s1 := s <| ticks ::= S |> <| read_marks ::= _ |>).
    assert (inbox_inv s1 ∧ inbox_step s s1) as [Hs1 K1].
    { pose proof Hs as [I1 I2 I3 I4 I5 I6 I7 I8]. split; split; unfold inbox_of; simpl; try done.
      - intros pid r. rewrite lookup_insert_Some. intros [[<- <-]|[_ Hr]]; [|by apply I8]. exists m.
        split_and!; try done. unfold place_of, read_place. simpl. by subst i.
      - exists (deliveries s), []. rewrite app_nil_r. split; [done|apply delivery_steps_refl].
      - intros pid r Hr. destruct (decide (pid = p)) as [->|Hne].
        + rewrite lookup_insert_eq. eexists. split; [done|]. rewrite Hr in Ha. apply place_lt_spec in Ha.
          unfold place_of in Ha. subst i. destruct (total place_le (read_place r) (im_created m, im_id m)); [done|done].
        + rewrite lookup_insert_ne by done. exists r. split; [done|apply place_le_refl]. }
    apply wp_bind, wp_gets, wp_bind, wp_get_some. intros ? _. apply wp_bind, wp_gets, wp_ret. by split.
  - intros _. apply wp_bind, wp_gets, wp_bind, wp_get_some. intros ? _. apply wp_bind, wp_gets, wp_ret. by split.
Qed.
Lemma inbox_list b w a l : keeps inbox_evolution (list_driver_messages actor driver trusted b w a l).
Proof. apply inbox_untouched. frame_operation. Qed.

(** A delivery moves on. *)
Definition moved_to (st : delivery_status) (e : delivery_row) : delivery_row :=
  e <| dl_status := st |> <| dl_version := (dl_version e + 1)%Z |>.
Definition at_version (d e : delivery_row) : bool :=
  bool_decide (dl_id e = dl_id d) && bool_decide (dl_version e = dl_version d).
Lemma moved_delivery (d : delivery_row) st s s1 :
  inbox_inv s → d ∈ deliveries s → st ≠ Unread → dl_status d = status_before st →
  messages s1 = messages s → read_marks s1 = read_marks s →
  deliveries s1 = update_where (at_version d) (moved_to st) (deliveries s) →
  inbox_inv s1 ∧ inbox_step s s1.
Proof.
  intros Hs Hd Hst Hb E1 E3 E2. pose proof Hs as [H1 H2 H3 H4 H5 H6 H7 H8].
  assert (∀ {A} (g : delivery_row → A), (∀ e, g (moved_to st e) = g e) → g <$> deliveries s1 = g <$> deliveries s) as Hg.
  { intros A g Hg. rewrite E2. by apply fmap_update_where. }
  assert (Forall2 delivery_step (deliveries s) (deliveries s1)) as HF.
  { rewrite E2. unfold update_where. apply Forall2_fmap_r. apply Forall_Forall2_diag, Forall_forall. intros e _.
    change (delivery_step e (if at_version d e then moved_to st e else e)).
    destruct (at_version d e); [|apply delivery_step_refl].
    split; [done|]. right. unfold moved_to. simpl. lia. }
  split.
  - split; rewrite ?E1, ?E3; try done.
    + by rewrite (Hg _ dl_id).
    + intros e. rewrite E2. intros (e0 & He0 & ->)%elem_of_update_where. destruct (at_version d e0); exact (H4 e0 He0).
    + by rewrite (Hg _ (λ d, (dl_message d, dl_target d))).
    + intros t. assert (dl_seq <$> inbox_of s1 t = dl_seq <$> inbox_of s t) as E.
      { unfold inbox_of. rewrite E2, select_update_where by done. by apply fmap_update_where. }
      rewrite E, H6. f_equal. apply (f_equal length) in E. by rewrite !length_fmap in E.
    + intros e. rewrite E2. intros (e0 & He0 & ->)%elem_of_update_where. specialize (H7 e0 He0).
      destruct (at_version d e0) eqn:Hh; [|done]. unfold at_version in Hh. bsimpl.
      assert (e0 = d) as -> by by apply (NoDup_key dl_id (deliveries s)).
      simpl. rewrite H7, Hb. by destruct st.
  - split; rewrite ?E1, ?E3; [done| |].
    + exists (deliveries s1), []. by rewrite app_nil_r.
    + intros pid r Hr. exists r. split; [done|apply place_le_refl].
Qed.
Lemma inbox_transition i e k v r : keeps inbox_evolution (transition actor driver trusted i e k v r).
Proof.
  apply evolve_run. intros s Hs. unfold transition. apply wp_bind, wp_require. intros Hv. do 2 only_reads.
  apply wp_bind, wp_gets, wp_bind, wp_get_some. intros d [Hd Hk]%select_one_Some. bsimpl.
  apply wp_bind, wp_gets, wp_bind, wp_lift. intros ? _. apply once_run; [intros; by split|]. intros _.
  apply wp_bind, wp_require. intros Hver. apply wp_bind, wp_require. intros Hst. bsimpl. cbv zeta.
  apply wp_bind, wp_modify, wp_ret. intros _. apply (moved_delivery d v); try done. simpl. by subst.
Qed.

End writes.

(** ** Every reachable inbox *)
Section inbox_system.
Context `{Host}.

Lemma inbox_notify t x p k r : keeps inbox_evolution (notify t x p k r).
Proof.
  unfold notify. destruct (truthy t); [|apply inbox_untouched; frame].
  apply keeps_bind; [apply _|apply inbox_deliver_notice|]. intros. apply inbox_untouched. frame.
Qed.
(** Past the steps of an operation that leave the mail alone, up to its notice. *)
Ltac to_notice :=
  repeat first
    [ progress intros
    | apply inbox_notify
    | apply inbox_untouched; solve [frame_operation]
    | match goal with
      | |- keeps _ (match ?x with _ => _ end) => destruct x
      | |- keeps _ (let _ := _ in _) => cbv zeta
      end
    | apply keeps_bind; [apply _| |] ].
Lemma inbox_take_over_claim env a d p c e r k : keeps inbox_evolution (take_over_claim env a d p c e r k).
Proof. unfold take_over_claim. to_notice. Qed.
Lemma inbox_abandon env fs x i e k r f g o : keeps inbox_evolution (abandon_external_attempt env fs x i e k r f g o).
Proof. unfold abandon_external_attempt. to_notice. Qed.
Lemma inbox_take_over_attempt env x i e r o : keeps inbox_evolution (take_over_attempt env x i e r o).
Proof. unfold take_over_attempt. to_notice. Qed.
Lemma inbox_offer_handoff fs a d p k e g i c t : keeps inbox_evolution (offer_handoff fs a d p k e g i c t).
Proof. unfold offer_handoff. to_notice. Qed.
Lemma inbox_accept_handoff a d p i e : keeps inbox_evolution (accept_handoff a d p i e).
Proof. unfold accept_handoff. to_notice. Qed.
Lemma inbox_decline_handoff a d p i r : keeps inbox_evolution (decline_handoff a d p i r).
Proof. unfold decline_handoff. to_notice. Qed.

Lemma operation_inbox A (m : M db A) : operation m → keeps inbox_evolution m.
Proof.
  intros Hop. destruct Hop;
    first
      [ apply inbox_send_driver_message | apply inbox_send_user_message | apply inbox_send_user_conversation_message
      | apply inbox_mark_read | apply inbox_list | apply inbox_transition | apply inbox_take_over_claim
      | apply inbox_abandon | apply inbox_take_over_attempt | apply inbox_offer_handoff | apply inbox_accept_handoff
      | apply inbox_decline_handoff
      | apply inbox_untouched;
        unfold add_nodes, set_node_facet, revise_node, split_node, revise, add, split;
        solve [frame_operation] ].
Qed.
Lemma reachable_inbox s : reachable s → inbox_inv s.
Proof.
  apply (reachable_invariant inbox_inv).
  - split; simpl; try done; try apply NoDup_nil_2; intros; by apply not_elem_of_nil in H0.
  - intros A m Hm s0 Hs0. eapply wp_mono; [by apply operation_inbox|]. intros a s' He. by apply He.
Qed.
End inbox_system.

(** ** What the inbox promises *)
Section inbox_theorems.
Context `{Host}.

(** C31: in every reachable state the deliveries of a driver are numbered 1, 2, ... without a gap,
    each of a message that is not to the user, one per message and driver, with the version
    its status has; a message starts a thread or joins the one of the message it answers; the
    read marker of a project is at a message of its conversation.  Along every run messages
    stay as they are, a delivery only moves on with a higher version, and a read marker never
    moves back. *)
Theorem inbox_life s s' : reachable s → rtc step s s' → inbox_inv s ∧ inbox_step s s'.
Proof.
  intros Hs%reachable_inbox Hss. split; [done|].
  by destruct (steps_keep inbox_evolution s s' operation_inbox Hss Hs) as [_ H1].
Qed.

(** What a message must not touch. *)
Definition standing (s : db) :=
  (projects s, nodes s, revisions s, events s, attempts s, evidence s, (acceptances s, claims s, handoffs s, issues s)).

Lemma sized_ok least most v t : sized least most v = Some t → v = JStr t.
Proof. unfold sized. destruct v; try done. destruct (_ && _); [|done]. by intros [= ->]. Qed.


(** The three ways of writing a message, and whether its first answer shows presence. *)
Inductive sending : bool → M db json → Prop :=
  | send_to_drivers a d b env y k u t g m p x o r w :
      sending (negb y) (send_driver_message a d b env y k u t g m p x o r w)
  | send_to_user a d k u b p r y g : sending false (send_user_message a d k u b p r y g)
  | send_from_user a d b k p t u y g : sending false (send_user_conversation_message a d b k p t u y g).

(** A request repeated: its record, and nothing written. *)
Definition repeats (h : bool) (m : M db json) (s s1 : db) : Prop :=
  ∀ r, m s = Ok (r, s1) → ∃ r0, told h r0 r ∧ ∀ s2, inbox_requests s1 ⊆ inbox_requests s2 → m s2 = Ok (r0, s2).
Lemma repeats_get_some {A} h (o : option A) e f s s1 :
  (∀ a, repeats h (f a) s s1) → repeats h (get_some o e ≫= f) s s1.
Proof. destruct o as [a|]; intros Hf; [exact (Hf a)|done]. Qed.
Lemma repeats_require h b e (f : unit → M db json) s s1 :
  repeats h (f tt) s s1 → repeats h (require b e ≫= f) s s1.
Proof. destruct b; intros Hf; [exact Hf|done]. Qed.
Lemma repeats_lift {A} h (o : res A) f s s1 :
  (∀ a, repeats h (f a) s s1) → repeats h (lift o ≫= f) s s1.
Proof. destruct o as [a|]; intros Hf; [exact (Hf a)|done]. Qed.
Lemma answered_again actor o k p w tell s r :
  inbox_requests s !! (actor, o, k) = Some (RequestRow p r) → answered actor o k p w tell s = Ok (r, s).
Proof.
  intros E. unfold answered, replay_request, gets, require, mbind, M_bind, mret, M_ret. simpl. rewrite E. simpl.
  rewrite bool_decide_eq_true_2 by done. done.
Qed.
Lemma repeats_answered h a o k p w tell s s1 :
  (∀ r s, wp (tell r) (λ r' s', inbox_requests s' = inbox_requests s ∧ told h r r') s) →
  repeats h (answered a o k p w tell) s s1.
Proof.
  intros Ht r E. assert (∃ r0, told h r0 r ∧ inbox_requests s1 !! (a, o, k) = Some (RequestRow p r0)) as (r0 & H1 & H2).
  { refine (wp_run _ (λ r s', ∃ r0, told h r0 r ∧ inbox_requests s' !! (a, o, k) = Some (RequestRow p r0)) _ _ _ _ E).
    apply answered_run; [intros r0 Hr; exists r0; split; [by left|done]|]. intros _. unfold wp at 1.
    destruct (w s) as [[r0 s0]|]; [|done]. intros _. eapply wp_mono; [apply Ht|]. intros r1 s2 [-> H1].
    exists r0. split; [done|]. simpl. by rewrite lookup_insert_eq. }
  exists r0. split; [done|]. intros s2 Hreq. apply answered_again. by eapply lookup_weaken.
Qed.
Lemma repeats_once a o k p w s s1 : repeats false (once a o k p w) s s1.
Proof. apply repeats_answered. intros r s0. apply wp_ret. split; [done|by left]. Qed.
Lemma repeats_told a o k p w env y f s s1 : repeats (negb y) (answered a o k p w (tell_presence env y f)) s s1.
Proof.
  apply repeats_answered. intros r s0. eapply wp_mono; [apply tell_presence_run|]. intros r' s' [[j ->] Hp].
  split; [done|by eapply presented_told].
Qed.

(** C33: sending is idempotent: the same request, repeated at any later time, returns the answer
    that was recorded and writes nothing.  That is the answer the first call got; only one sent to
    drivers by a driver or an owner also had the recipients' presence over it, which is not repeated. *)
Theorem send_repeated hinted m s r s1 :
  sending hinted m → m s = Ok (r, s1) →
  ∃ r0, told hinted r0 r ∧ ∀ s2, rtc step s1 s2 → m s2 = Ok (r0, s2).
Proof.
  intros Hm E. assert (repeats hinted m s s1) as Hr.
  { destruct Hm; [unfold send_driver_message|unfold send_user_message|unfold send_user_conversation_message];
      repeat (first [apply repeats_get_some|apply repeats_require|apply repeats_lift]; intros);
      first [apply repeats_told|apply repeats_once]. }
  destruct (Hr r E) as (r0 & H1 & H2). exists r0. split; [done|]. intros s2 Hss. apply H2.
  exact (lg_requests _ _ (steps_keep ledger s1 s2 operation_ledger Hss)).
Qed.
Lemma standing_transition a d b i e k v r : untouched standing (transition a d b i e k v r).
Proof. frame_operation. Qed.
(** A delivery is acknowledged or resolved only by who may write to that inbox, at the version
    the caller names and from the status before; exactly that delivery moves on, once per request
    key, and no message, mark or part of the graph changes. *)
Theorem transition_effect actor driver trusted did e k v reason s r s' :
  reachable s → transition actor driver trusted did e k v reason s = Ok (r, s') →
  standing s' = standing s ∧ messages s' = messages s ∧ read_marks s' = read_marks s ∧
  ∃ d key p, d ∈ deliveries s ∧ dl_id d = did ∧ k = JStr key ∧
    authorize actor driver trusted s (Some (dl_target d)) true reason = Ok tt ∧
    inbox_requests s' !! (actor, delivery_status_text v, key) = Some (RequestRow p r) ∧
    (s' = s ∨
     e = JInt (dl_version d) ∧ v ≠ Unread ∧ dl_status d = status_before v ∧
     ∃ l1 l2, deliveries s = l1 ++ d :: l2 ∧ deliveries s' = l1 ++ moved_to v d :: l2).
Proof.
  intros Hs%reachable_inbox E. split; [exact (wp_run _ _ _ _ _ (standing_transition _ _ _ _ _ _ _ _ s) E)|].
  refine (wp_run _ (λ r s', messages s' = messages s ∧ read_marks s' = read_marks s ∧ ∃ d key p, _) _ _ _ _ E).
  clear E r s'. unfold transition. apply wp_bind, wp_require. intros Hv. apply wp_bind, wp_get_some. intros version Hver.
  apply wp_bind, wp_get_some. intros key ->%sized_ok. apply wp_bind, wp_gets, wp_bind, wp_get_some.
  intros d [Hd Hk]%select_one_Some. bsimpl. apply wp_bind, wp_gets, wp_bind, wp_lift. intros [] Ha. apply once_run.
  - intros r Hr. split_and!; [done..|]. eexists d, key, _. split_and!; [done..|exact Ha|exact Hr|by left].
  - intros _. apply wp_bind, wp_require. intros Hversion. apply wp_bind, wp_require. intros Hst. bsimpl. cbv zeta.
    apply wp_bind, wp_modify, wp_ret. intros _. split_and!; [done..|]. eexists d, key, _. simpl. rewrite lookup_insert_eq.
    split_and!; [done..|exact Ha|done|]. right. split_and!; try done.
    { destruct e as [| |z| | |]; try done. destruct (1 <=? z)%Z; [|done]. injection Hver as ->. by subst. }
    apply list_elem_of_split in Hd as (l1 & l2 & Hl). exists l1, l2. split; [done|].
    pose proof (bi_delivery_ids s Hs) as Hnd. rewrite Hl in Hnd |- *. apply (update_where_one dl_id); [done|..].
    + intros y Hy. bsimpl. congruence.
    + subst. by rewrite !bool_decide_eq_true_2.
Qed.
End inbox_theorems.

(** ** Instances *)
(** A message of one driver to the other, and its acknowledgement. *)
Definition greeting : M db json :=
  send_driver_message "driver:d" (Some "d") true sample_env false (JStr "mk") (JStr "hello") (JStr "read me") (Some "e") None None
    "note" "transient" JNull None.
Definition s_mail : db := after greeting s_team.
Definition first_delivery : string := Eval vm_compute in default "" (dl_id <$> head (deliveries s_mail)).
Definition acknowledging : M db json :=
  transition "driver:e" (Some "e") true first_delivery (JInt 1) (JStr "ak") Acknowledged None.
Definition s_read : db := after acknowledging s_mail.
Lemma reachable_mail : reachable s_mail.
Proof. unfold s_mail, greeting. apply steps_after; [apply op_send_driver_message|apply reachable_team]. Qed.
Lemma run_read : rtc step s_mail s_read.
Proof. unfold s_read, acknowledging. apply steps_after; [apply op_transition|apply rtc_refl]. Qed.
Lemma reachable_read : reachable s_read.
Proof. unfold reachable. transitivity s_mail; [apply reachable_mail|apply run_read]. Qed.

Lemma inbox_life_witness : ∃ d d', deliveries s_mail = [d] ∧ dl_version d = 1%Z ∧
  deliveries s_read !! 0 = Some d' ∧ delivery_step d d'.
Proof.
  assert (∃ d, deliveries s_mail = [d]) as [d Hd] by (eexists; vm_compute; reflexivity).
  destruct (inbox_life s_mail s_read reachable_mail run_read) as [Hs [_ (l1 & l2 & E & HF) _]].
  rewrite Hd in HF. inversion HF as [|? d' ? ? Hst _]; subst. exists d, d'. split; [exact Hd|]. split_and!.
  - assert (dl_status <$> deliveries s_mail = [Unread]) as Hu by (vm_compute; reflexivity).
    rewrite Hd in Hu. injection Hu as Hu. rewrite (bi_version _ Hs d), Hu; [reflexivity|]. rewrite Hd. by left.
  - rewrite E. reflexivity.
  - exact Hst.
Defined.


Lemma send_repeated_witness : ∃ r r0, greeting s_team = Ok (r, s_mail) ∧ told true r0 r ∧
  greeting s_read = Ok (r0, s_read).
Proof.
  assert (∃ r, greeting s_team = Ok (r, after greeting s_team)) as [r E] by (returns r E; by exists r).
  destruct (send_repeated true greeting s_team r s_mail) as (r0 & Ht & Hr); [apply (send_to_drivers _ _ _ _ false)|exact E|].
  exists r, r0. split; [exact E|]. split; [exact Ht|]. apply Hr. exact run_read.
Defined.
(** The first answer advises about an absent recipient, the repetition does not. *)
Example advice_is_not_repeated :
  match greeting s_team, greeting s_read with
  | Ok (r, _), Ok (r0, _) => (is_Some (jget "advice" r) ∧ jget "advice" r0 = None ∧ jget "message_id" r = jget "message_id" r0)
  | _, _ => False
  end.
Proof. vm_compute. split_and!; [by eexists|reflexivity|reflexivity]. Qed.

Lemma transition_effect_witness : ∃ r d, acknowledging s_mail = Ok (r, s_read) ∧ deliveries s_mail = [d] ∧
  deliveries s_read = [moved_to Acknowledged d].
Proof.
  assert (∃ r, acknowledging s_mail = Ok (r, after acknowledging s_mail)) as [r E] by (returns r E; by exists r).
  assert (∃ d, deliveries s_mail = [d]) as [d Hd] by (eexists; vm_compute; reflexivity).
  pose proof E as E'. unfold acknowledging in E' at 1.
  destruct (transition_effect _ _ _ _ _ _ _ _ _ _ _ reachable_mail E')
    as (_ & _ & _ & d' & key & p & _ & _ & _ & _ & _ & [H|(_ & _ & _ & l1 & l2 & H1 & H2)]).
  - assert (dl_version <$> deliveries (after acknowledging s_mail) = [2%Z]) as Hv by (vm_compute; reflexivity).
    assert (dl_version <$> deliveries s_mail = [1%Z]) as Hv' by (vm_compute; reflexivity). rewrite H, Hv' in Hv. discriminate Hv.
  - exists r, d. split; [exact E|]. split; [exact Hd|]. rewrite Hd in H1. destruct l1 as [|? [|]]; [|discriminate H1..].
    injection H1 as <- <-. exact H2.
Defined.

(** The refusal of an empty address list speaks of active members, and the query asks for
    members only: a suspended driver of the project is addressed, and gets its delivery. *)
Definition suspending : M db driver_view :=
  set_driver_status pepper sample_env "e" (JStr "suspended") (JInt 1) (JStr "on leave") "admin".
Definition announcing : M db json :=
  send_driver_message "driver:d" (Some "d") true sample_env false (JStr "all") (JStr "hello") (JStr "to all") None (Some "demo") None
    "note" "transient" JNull None.
Example suspended_member_addressed :
  let s := after suspending s_team in
  drv_status <$> drivers s !! "e" = Some DriverSuspended ∧ is_ok (announcing s) = true ∧
  dl_target <$> deliveries (after announcing s) = ["e"].
Proof. vm_compute. split_and!; reflexivity. Qed.
