(* ===== verification/InboxReading.v ===== *)
(** * Reading the driver inbox

    Paging through an inbox, and through the conversation with the user, while messages
    keep arriving: what a reader who follows the cursors has been shown. *)
From stdpp Require Import sorting.
From S2P Require Import Prelude Json Text Dag Store Graph History Portfolio Presence Claims.
From S2P Require Import Enforcement Review Attempts Evidence External Registry Inbox Issues Design.
From S2P Require Import Takeover Recovery Handoffs View Ledger System Sample InboxProperties.

(** ** Generic facts *)
Section lists.
Context {A : Type}.

Lemma select_and (p q : A → bool) l : select (λ x, p x && q x) l = select q (select p l).
Proof. induction l as [|x l IH]; simpl; [done|]. destruct (p x); simpl; by rewrite IH. Qed.
Lemma StronglySorted_take (R : relation A) n l : StronglySorted R l → StronglySorted R (take n l).
Proof. intros Hl. rewrite <- (take_drop n l) in Hl. by eapply StronglySorted_app_1_l. Qed.
Lemma NoDup_fmap_select {B} (f : A → B) p l : NoDup (f <$> l) → NoDup (f <$> select p l).
Proof.
  induction l as [|x l IH]; [done|]. csimpl. rewrite NoDup_cons. intros [Hx Hl]. destruct (p x); [|by apply IH].
  csimpl. apply NoDup_cons. split; [|by apply IH]. intros (y & Ey & [Hy _]%elem_of_select)%list_elem_of_fmap.
  apply Hx. rewrite Ey. by apply list_elem_of_fmap_2.
Qed.
(** The rows numbered above [a] of a table numbered from [S k]. *)
Lemma select_numbered (f : A → nat) a l : ∀ k,
  f <$> l = seq (S k) (length l) → select (λ x, a <? f x)%nat l = drop (a - k) l.
Proof.
  induction l as [|x l IH]; intros k; simpl; [by rewrite drop_nil|]. intros [= Hx Hl]. specialize (IH (S k) Hl).
  rewrite Hx. destruct (a <? S k)%nat eqn:Ha; [apply Nat.ltb_lt in Ha|apply Nat.ltb_ge in Ha]; rewrite IH.
  - replace (a - k) with 0 by lia. by replace (a - S k) with 0 by lia.
  - by replace (a - k) with (S (a - S k)) by lia.
Qed.
Lemma numbered_sorted (f : A → nat) l : ∀ k n, f <$> l = seq k n → StronglySorted (λ x y, f x ≤ f y) l.
Proof.
  induction l as [|x l IH]; intros k [|n] E; try done; [constructor|]. injection E as Hx Hl.
  constructor; [by eapply IH|]. apply Forall_forall. intros y Hy. rewrite Hx.
  assert (f y ∈ seq (S k) n) as [? _]%elem_of_seq by (rewrite <- Hl; by apply list_elem_of_fmap_2). lia.
Qed.
Lemma numbered_inj (f : A → nat) l k n x y : f <$> l = seq k n → x ∈ l → y ∈ l → f x = f y → x = y.
Proof. intros E. apply NoDup_key. rewrite E. apply NoDup_seq. Qed.
End lists.

(** ** An inbox *)
#[export] Instance delivery_le_trans : Transitive delivery_le.
Proof. intros ???. unfold delivery_le. lia. Qed.
#[export] Instance delivery_le_total : Total delivery_le.
Proof. intros d e. unfold delivery_le. lia. Qed.

Lemma inbox_rows_after s d a :
  inbox_inv s →
  (inbox_rows s d a).*1 = drop a (inbox_of s d) ∧
  Forall (λ p, p.2 ∈ messages s ∧ im_id p.2 = dl_message p.1) (inbox_rows s d a).
Proof.
  intros Hs. unfold inbox_rows.
  assert (merge_sort delivery_le (select (λ v, delivered_to d v && (a <? dl_seq v)%nat) (deliveries s))
          = drop a (inbox_of s d)) as ->.
  { pose proof (bi_numbered s Hs d) as Hn. rewrite select_and. change (select (delivered_to d) _) with (inbox_of s d).
    rewrite (select_numbered _ _ _ 0 Hn), Nat.sub_0_r.
    assert (dl_seq <$> drop a (inbox_of s d) = drop a (seq 1 (length (inbox_of s d)))) as Hd by by rewrite fmap_drop, Hn.
    rewrite drop_seq in Hd.
    apply (StronglySorted_unique_strong delivery_le).
    - intros x y Hx Hy H1 H2. rewrite merge_sort_Permutation in Hx. eapply (numbered_inj dl_seq); [exact Hd|done..|].
      unfold delivery_le in *. lia.
    - apply StronglySorted_merge_sort; apply _.
    - by eapply numbered_sorted.
    - apply merge_sort_Permutation. }
  assert (Forall (λ v, v ∈ deliveries s) (drop a (inbox_of s d))) as Hin.
  { apply Forall_drop, Forall_forall. intros v [? _]%elem_of_select. done. }
  induction (drop a (inbox_of s d)) as [|v l IH]; [done|]. apply Forall_cons in Hin as [Hv Hl].
  specialize (IH Hl) as [IH1 IH2]. destruct (bi_delivered s Hs v Hv) as (m & Hm & Em & _).
  assert (∃ n, with_message s v = Some (v, n) ∧ n ∈ messages s ∧ im_id n = dl_message v) as (n & E & Hn & En).
  { unfold with_message. destruct (select_one _ (messages s)) as [n|] eqn:E.
    - apply select_one_Some in E as [Hn En]. bsimpl. by exists n.
    - pose proof (proj1 (select_one_None _ _) E m Hm) as Hf. cbv beta in Hf. by rewrite Em, bool_decide_eq_true_2 in Hf. }
  split.
  - change (omap (with_message s) (v :: l)) with
      (match with_message s v with Some y => y :: omap (with_message s) l | None => omap (with_message s) l end).
    rewrite E. csimpl. by rewrite IH1.
  - change (omap (with_message s) (v :: l)) with
      (match with_message s v with Some y => y :: omap (with_message s) l | None => omap (with_message s) l end).
    rewrite E. by constructor.
Qed.

Section polling.
Context `{Host} (actor : string) (driver : option string) (trusted : bool) (whose : option string).

(** Whose inbox is read. *)
Definition inbox_read : option string := match truthy whose with Some d => Some d | None => driver end.

Definition row_ok (s : db) (p : delivery_row * message_row) : Prop :=
  p.2 ∈ messages s ∧ im_id p.2 = dl_message p.1.
(** One page: the next deliveries after the cursor, with their messages. *)
Record page_ok (s : db) (d : string) (a limit : nat) (page : inbox_page) : Prop := PageOk {
  po_rows : (ib_rows page).*1 = take (ib_next page - a) (drop a (inbox_of s d));
  po_messages : Forall (row_ok s) (ib_rows page);
  po_next : a ≤ ib_next page ≤ length (inbox_of s d);
  po_more : if ib_truncated page then ib_next page = a + limit ∧ 1 ≤ limit else ib_next page = length (inbox_of s d);
}.
Lemma poll_run due a limit d s :
  inbox_inv s → inbox_read = Some d → a ≤ length (inbox_of s d) →
  wp (list_driver_messages actor driver trusted due whose a limit)
    (λ page s', mail s' = mail s ∧ page_ok s d a limit page) s.
Proof.
  intros Hs Hd Ha. unfold list_driver_messages. fold inbox_read. rewrite Hd.
  apply wp_bind, wp_gets, wp_bind, wp_lift. intros _ _. apply wp_bind, wp_require.
  intros [Hl%Nat.leb_le _]%andb_true_iff. apply wp_bind. apply (wp_mono _ (λ _ s', mail s' = mail s)).
  { apply (untouched_at mail). frame_operation. }
  intros _ s1 E1. apply wp_bind, wp_get_some. intros ? [= <-].
  apply wp_bind. eapply wp_mono; [apply (untouched_at (λ s : db, s)); solve [frame_operation]|]. intros ? ? ->.
  apply wp_bind, wp_gets, wp_ret. simpl. split; [done|].
  destruct (inbox_same s s1 E1 Hs) as [Hs1 _]. rewrite (last_delivery_length s1 d Hs1).
  destruct (inbox_rows_after s1 d a Hs1) as [Er Hf]. set (rows := inbox_rows s1 d a) in *.
  assert (inbox_of s1 d = inbox_of s d) as Ei by (unfold inbox_of; by injection E1 as _ -> _). rewrite Ei in *.
  assert (length rows = length (inbox_of s d) - a) as Hlen by by rewrite <- length_drop, <- Er, length_fmap.
  assert (messages s1 = messages s) as Em by by injection E1.
  assert (Forall (row_ok s) (take limit rows)) as Hrows.
  { apply Forall_take. unfold row_ok. by rewrite <- Em. }
  rewrite take_take, (Nat.min_l limit (S limit)) by lia. rewrite length_take.
  destruct (limit <? S limit `min` length rows) eqn:Hmore; [apply Nat.ltb_lt in Hmore|apply Nat.ltb_ge in Hmore].
  - assert (∃ p, last (take limit rows) = Some p ∧ dl_seq p.1 = a + limit) as (p & Hp & Hq).
    { assert (is_Some (rows !! (limit - 1))) as [p Hp] by (apply lookup_lt_is_Some; lia). exists p. split.
      - rewrite last_lookup, length_take, Nat.min_l by lia. by rewrite <- Nat.sub_1_r, lookup_take_lt by lia.
      - assert ((inbox_of s d) !! (a + (limit - 1)) = Some p.1) as Hk by by rewrite <- lookup_drop, <- Er, list_lookup_fmap, Hp.
        apply (f_equal (fmap dl_seq)) in Hk. rewrite <- list_lookup_fmap, (bi_numbered s Hs) in Hk.
        apply lookup_seq in Hk. lia. }
    rewrite Hp, Hq. split; simpl; [|exact Hrows|lia|lia]. rewrite fmap_take, Er. f_equal. lia.
  - replace (take limit rows) with rows in * by (symmetry; apply take_ge; lia).
    assert (match last rows with Some _ => a `max` length (inbox_of s d) | None => a `max` length (inbox_of s d) end
            = length (inbox_of s d)) as -> by (destruct (last rows); lia).
    split; simpl; [|exact Hrows|lia|lia]. rewrite Er. symmetry. apply take_ge. rewrite length_drop. lia.
Qed.

(** A reader who starts after [a], and takes the cursor of each page to the next poll. *)
Inductive polls : nat → db → list (delivery_row * message_row) → nat → db → Prop :=
  | polls_end a s : polls a s [] a s
  | polls_meanwhile a s s1 l b s2 : step s s1 → polls a s1 l b s2 → polls a s l b s2
  | polls_page due limit a s page s1 l b s2 :
      list_driver_messages actor driver trusted due whose a limit s = Ok (page, s1) →
      polls (ib_next page) s1 l b s2 → polls a s (ib_rows page ++ l) b s2.

Lemma inbox_of_grows s s' d :
  inbox_step s s' → delivery_identity <$> inbox_of s d `prefix_of` delivery_identity <$> inbox_of s' d.
Proof.
  intros [_ (l1 & l2 & E & HF) _]. unfold inbox_of. rewrite E, select_app, fmap_app. clear E.
  exists (delivery_identity <$> select (delivered_to d) l2). f_equal.
  induction HF as [|x y k1 k2 [Hi _] _ IH]; [done|]. simpl.
  assert (delivered_to d y = delivered_to d x) as -> by (unfold delivered_to; by injection Hi as _ _ -> _).
  destruct (delivered_to d x); [|done]. csimpl. by rewrite IH, Hi.
Qed.
Lemma row_ok_grows s s' p : inbox_step s s' → row_ok s p → row_ok s' p.
Proof. intros [[l E] _ _] [H1 H2]. split; [|done]. rewrite E. apply elem_of_app. by left. Qed.
(** Consecutive slices of a table that only grows. *)
Lemma slices {A} (l l' : list A) a c b :
  l `prefix_of` l' → a ≤ c → c ≤ length l → c ≤ b →
  take (c - a) (drop a l) ++ take (b - c) (drop c l') = take (b - a) (drop a l').
Proof.
  intros [k ->] H1 H2 H3.
  replace (b - a) with ((c - a) + (b - c)) by lia. rewrite <- take_take_drop, drop_drop.
  replace (a + (c - a)) with c by lia. f_equal. rewrite drop_app_le by lia. rewrite take_app_le; [done|].
  rewrite length_drop. lia.
Qed.

Lemma polls_run d a s l b s' :
  inbox_read = Some d → polls a s l b s' → inbox_inv s → a ≤ length (inbox_of s d) →
  inbox_inv s' ∧ inbox_step s s' ∧ a ≤ b ≤ length (inbox_of s' d) ∧
  delivery_identity <$> l.*1 = delivery_identity <$> take (b - a) (drop a (inbox_of s' d)) ∧
  Forall (row_ok s') l.
Proof.
  intros Hd Hp. induction Hp as [a s|a s s1 l b s2 Hstep _ IH|due limit a s page s1 l b s2 E _ IH]; intros Hs Ha.
  - rewrite Nat.sub_diag, take_0. by split_and!.
  - destruct (step_keeps inbox_evolution s s1 operation_inbox Hstep Hs) as [Hs1 K1].
    destruct IH as (Hs2 & K2 & Hb & El & Hf); [done| |].
    { pose proof (prefix_length _ _ (inbox_of_grows _ _ d K1)) as Hl. rewrite !length_fmap in Hl. lia. }
    split_and!; try done; [by transitivity s1|lia|lia].
  - destruct (wp_run _ _ _ _ _ (poll_run due a limit d s Hs Hd Ha) E) as (Em & [Hr Hm [Hn1 Hn2] _]).
    destruct (inbox_same s s1 Em Hs) as [Hs1 K1].
    assert (inbox_of s1 d = inbox_of s d) as Ei by (unfold inbox_of; by injection Em as _ -> _).
    destruct IH as (Hs2 & K2 & Hb & El & Hf); [done|by rewrite Ei|].
    assert (inbox_step s s2) as K by by transitivity s1.
    split_and!; [done|done|lia|lia| |].
    + rewrite !fmap_app, El, Hr, !fmap_take, !fmap_drop. apply slices; [by apply inbox_of_grows|lia| |lia].
      by rewrite length_fmap.
    + apply Forall_app. split; [|done]. eapply Forall_impl; [exact Hm|]. intros p. by apply row_ok_grows.
Qed.

(** C16: whoever follows the cursor of an inbox is shown each delivery once, in order, with its
    message: after polls from cursor [a] to cursor [b], whatever was done meanwhile, the rows
    shown are the deliveries [a+1] to [b] of the driver.  The next page reaches the end of the
    inbox, or is truncated and full. *)
Theorem inbox_polls_exact d a s l b s' :
  reachable s → inbox_read = Some d → a ≤ length (inbox_of s d) → polls a s l b s' →
  a ≤ b ≤ length (inbox_of s' d) ∧
  dl_seq <$> l.*1 = seq (S a) (b - a) ∧
  delivery_identity <$> l.*1 = delivery_identity <$> take (b - a) (drop a (inbox_of s' d)) ∧
  Forall (row_ok s') l ∧
  ∀ due limit page s2, list_driver_messages actor driver trusted due whose b limit s' = Ok (page, s2) →
    if ib_truncated page then ib_next page = b + limit ∧ 1 ≤ limit else ib_next page = length (inbox_of s' d).
Proof.
  intros Hs%reachable_inbox Hd Ha Hp. destruct (polls_run d a s l b s' Hd Hp Hs Ha) as (Hs' & _ & [Hb Hb'] & El & Hf).
  split_and!; try done.
  - pose proof (f_equal (fmap (λ x : string * string * string * nat, x.2)) El) as Eq.
    rewrite <- !(list_fmap_compose delivery_identity) in Eq. change (snd ∘ delivery_identity) with dl_seq in Eq.
    etransitivity; [exact Eq|]. change (dl_seq <$> take (b - a) (drop a (inbox_of s' d)) = seq (S a) (b - a)).
    rewrite fmap_take, fmap_drop, (bi_numbered s' Hs'), drop_seq, take_seq. f_equal; lia.
  - intros due limit page s2 E.
    by destruct (wp_run _ _ _ _ _ (poll_run due b limit d s' Hs' Hd Hb') E) as (_ & [_ _ _ Hmore]).
Qed.
End polling.

(** ** The conversation *)
#[export] Instance newest_first_trans : Transitive newest_first.
Proof. intros m n o. unfold newest_first. intros H1 H2. by transitivity (place_of n). Qed.
#[export] Instance newest_first_total : Total newest_first.
Proof. intros m n. unfold newest_first. apply (total place_le). Qed.

(** Strictly newer. *)
Definition newer (m n : message_row) : Prop := place_lt (place_of n) (place_of m) = true.
Lemma newer_sorted l :
  NoDup (im_id <$> l) → StronglySorted newest_first l → StronglySorted newer l.
Proof.
  intros Hl Hs. induction Hs as [|m l Hs IH Hm]; [constructor|]. apply NoDup_cons in Hl as [Hn Hl].
  constructor; [by apply IH|]. apply Forall_forall. intros n Hin. apply place_lt_spec. intros Hle.
  pose proof (proj1 (Forall_forall _ _) Hm n Hin) as Hle'. pose proof (anti_symm place_le _ _ Hle Hle') as [= _ E].
  apply Hn. rewrite E. by apply list_elem_of_fmap_2.
Qed.
Lemma newer_trans m n o : newer m n → newer n o → newer m o.
Proof.
  unfold newer. rewrite !place_lt_spec. intros H1 H2 H3. apply H1. destruct (total place_le (place_of n) (place_of o)); [done|].
  by transitivity (place_of o).
Qed.
Section conversation.
Context `{Host} (pid : string).

(** One page: the newest messages of the conversation past the cursor. *)
Record conversation_ok (s : db) (c : option place) (page : conversation_page) : Prop := ConversationOk {
  co_sorted : StronglySorted newer (cp_messages page);
  co_rows : ∀ m, m ∈ cp_messages page → m ∈ messages s ∧ in_conversation pid m = true ∧ older_than c m = true;
  co_next : match cp_next page with
    | None => ∀ m, m ∈ messages s → in_conversation pid m = true → older_than c m = true → m ∈ cp_messages page
    | Some p => (∃ n, n ∈ cp_messages page ∧ p = place_of n ∧ ∀ m, m ∈ cp_messages page → m = n ∨ newer m n) ∧
        ∀ m, m ∈ messages s → in_conversation pid m = true → older_than c m = true →
          m ∈ cp_messages page ∨ older_than (Some p) m = true
    end;
}.
Lemma conversation_run limit c s :
  inbox_inv s → wp (list_user_conversation pid limit c) (λ page s', s' = s ∧ conversation_ok s c page) s.
Proof.
  intros Hs. unfold list_user_conversation. apply wp_bind, wp_require. intros [Hl%Nat.leb_le _]%andb_true_iff.
  apply wp_bind. eapply wp_mono; [apply (untouched_at (λ s : db, s)); solve [frame_operation]|]. intros ? ? ->.
  apply wp_bind, wp_gets, wp_ret. split; [done|]. simpl. unfold conversation_rows.
  set (p := λ m, in_conversation pid m && older_than c m). set (rows := merge_sort newest_first (select p (messages s))).
  assert (∀ m, m ∈ rows ↔ m ∈ messages s ∧ in_conversation pid m = true ∧ older_than c m = true) as Hrows.
  { intros m. unfold rows, p. rewrite merge_sort_Permutation, elem_of_select. bsimpl. by rewrite andb_true_iff. }
  assert (StronglySorted newer rows) as Hsort.
  { apply newer_sorted; [|apply StronglySorted_merge_sort; apply _]. unfold rows. rewrite merge_sort_Permutation.
    apply NoDup_fmap_select, (bi_ids s Hs). }
  clearbody rows. rewrite take_take, (Nat.min_l limit (S limit)), length_take by lia.
  pose proof (subseteq_take limit rows) as Htake.
  split; cbn [cp_messages cp_next]; [by apply StronglySorted_take|intros m Hm; by apply Hrows, Htake|].
  destruct (limit <? S limit `min` length rows) eqn:Hmore; [apply Nat.ltb_lt in Hmore|apply Nat.ltb_ge in Hmore].
  2:{ rewrite take_ge by lia. intros m. rewrite Hrows. naive_solver. }
  destruct (last (take limit rows)) as [n|] eqn:Hn.
  2:{ apply last_None in Hn. apply (f_equal length) in Hn. rewrite length_take in Hn. simpl in Hn. lia. }
  apply last_Some in Hn as [k Hk]. simpl.
  pose proof Hsort as Hall. rewrite <- (take_drop limit rows), Hk in Hall.
  rewrite Hk. split.
  - exists n. split_and!; [apply elem_of_app; right; by left|done|].
    intros m [Hm| ->%list_elem_of_singleton]%elem_of_app; [right|by left].
    apply StronglySorted_app_1_l in Hall. eapply (StronglySorted_app_1_elem_of newer); [done|done|by left].
  - intros m Hm Hc Ho. assert (m ∈ rows) as Hin by by apply Hrows.
    rewrite <- (take_drop limit rows), Hk in Hin. apply elem_of_app in Hin as [Hin|Hin]; [by left|right].
    eapply (StronglySorted_app_1_elem_of newer (k ++ [n])); [done| |done]. apply elem_of_app. right. by left.
Qed.

(** A reader who starts past [c] and takes the cursor of each page to the next; [None] at the end
    is a walk that has shown its last page. *)
Inductive walk : option place → db → list message_row → option (option place) → db → Prop :=
  | walk_pause c s : walk c s [] (Some c) s
  | walk_meanwhile c s s1 l e s2 : step s s1 → walk c s1 l e s2 → walk c s l e s2
  | walk_last limit c s page s1 :
      list_user_conversation pid limit c s = Ok (page, s1) → cp_next page = None →
      walk c s (cp_messages page) None s1
  | walk_page limit c s page p s1 l e s2 :
      list_user_conversation pid limit c s = Ok (page, s1) → cp_next page = Some p →
      walk (Some p) s1 l e s2 → walk c s (cp_messages page ++ l) e s2.

Lemma older_than_trans (c : option place) n m :
  older_than c n = true → older_than (Some (place_of n)) m = true → older_than c m = true.
Proof.
  destruct c as [c|]; [|done]. simpl. rewrite !place_lt_spec. intros H1 H2 H3.
  destruct (total place_le (place_of n) (place_of m)); [done|]. apply H1. by transitivity (place_of m).
Qed.
Lemma walk_run c s l e s' :
  walk c s l e s' → inbox_inv s →
  inbox_step s s' ∧ StronglySorted newer l ∧
  (∀ m, m ∈ l → m ∈ messages s' ∧ in_conversation pid m = true ∧ older_than c m = true) ∧
  ∀ m, m ∈ messages s → in_conversation pid m = true → older_than c m = true →
    m ∈ l ∨ ∃ c', e = Some c' ∧ older_than c' m = true.
Proof.
  induction 1 as [c s|c s s1 l e s2 Hstep _ IH|limit c s page s1 E En|limit c s page p s1 l e s2 E En _ IH]; intros Hs.
  - split_and!; [done|constructor|by intros ? ?%elem_of_nil|]. intros m _ _ Ho. right. by exists c.
  - destruct (step_keeps inbox_evolution s s1 operation_inbox Hstep Hs) as [Hs1 K1].
    destruct (IH Hs1) as (K2 & H1 & H2 & H3). split_and!; [by transitivity s1|done|done|].
    intros m Hm. apply H3. destruct (bk_messages s s1 K1) as [k ->]. apply elem_of_app. by left.
  - destruct (wp_run _ _ _ _ _ (conversation_run limit c s Hs) E) as (-> & [H1 H2 H3]). rewrite En in H3.
    split_and!; try done. intros m Hm Hc Ho. left. by apply H3.
  - destruct (wp_run _ _ _ _ _ (conversation_run limit c s Hs) E) as (-> & [H1 H2 H3]). rewrite En in H3.
    destruct H3 as ((n & Hn & -> & Hlast) & H3). destruct (IH Hs) as (K & H4 & H5 & H6). destruct (H2 n Hn) as (_ & _ & Hno).
    split_and!; [done| | |].
    + apply StronglySorted_app_2; [|done..]. intros x y Hx (_ & _ & Hy)%H5.
      destruct (Hlast x Hx) as [->|Hxn]; [exact Hy|]. by eapply newer_trans.
    + intros m [Hm|Hm]%elem_of_app.
      * destruct (H2 m Hm) as (? & ? & ?). split_and!; try done. destruct (bk_messages s s2 K) as [k ->].
        apply elem_of_app. by left.
      * destruct (H5 m Hm) as (? & ? & ?). split_and!; try done. by eapply older_than_trans.
    + intros m Hm Hc Ho. destruct (H3 m Hm Hc Ho) as [Hin|Hp]; [left; apply elem_of_app; by left|].
      destruct (H6 m Hm Hc Hp) as [Hin|Hr]; [left; apply elem_of_app; by right|by right].
Qed.

(** C17: paging through the conversation with the user shows messages of it newest first, none
    twice, and skips none that was there at the start: each has been shown, or is older than the
    cursor the walk would go on from; a walk that reached its last page has shown them all,
    whatever was written meanwhile. *)
Theorem conversation_walk_exact s l e s' :
  reachable s → walk None s l e s' →
  StronglySorted newer l ∧
  (∀ m, m ∈ l → m ∈ messages s' ∧ in_conversation pid m = true) ∧
  ∀ m, m ∈ messages s → in_conversation pid m = true →
    m ∈ l ∨ ∃ c, e = Some c ∧ older_than c m = true.
Proof.
  intros Hs%reachable_inbox Hw. destruct (walk_run None s l e s' Hw Hs) as (_ & H1 & H2 & H3). split_and!; [done| |].
  - intros m Hm. by destruct (H2 m Hm) as (? & ? & _).
  - intros m Hm Hc. by apply H3.
Qed.
End conversation.

(** ** Instances *)
Lemma outcome_run {A} (m : M db A) s (a0 : A) :
  is_ok (m s) = true → m s = Ok (default a0 (outcome m s), after m s).
Proof. unfold outcome, after. destruct (m s) as [[a s']|]; done. Qed.
Definition polling (a : nat) : M db inbox_page := list_driver_messages "driver:e" (Some "e") true false None a 10.
Definition first_page : inbox_page := default (InboxPage [] 0 false) (outcome (polling 0) s_mail).

Definition s_polled : db := after acknowledging (after (polling 0) s_mail).

Lemma inbox_polls_exact_witness :
  polls "driver:e" (Some "e") true None 0 s_mail (ib_rows first_page ++ []) 1 s_polled ∧
  dl_seq <$> (ib_rows first_page ++ []).*1 = [1].
Proof.
  assert (polls "driver:e" (Some "e") true None 0 s_mail (ib_rows first_page ++ []) 1 s_polled) as Hp.
  { assert (polling 0 s_mail = Ok (first_page, after (polling 0) s_mail)) as E.
    { unfold first_page. apply outcome_run.
      vm_compute. reflexivity. }
    assert (ib_next first_page = 1) as En by (vm_compute; reflexivity).
    apply (polls_page "driver:e" (Some "e") true None false 10 0 s_mail first_page (after (polling 0) s_mail));
      [exact E|]. rewrite En. unfold s_polled. set (s1 := after (polling 0) s_mail).
    eapply polls_meanwhile; [|apply polls_end].
    assert (∃ r, acknowledging s1 = Ok (r, after acknowledging s1)) as [r Er] by (returns r Er; exists r; exact Er).
    exists json, acknowledging, r. split; [apply op_transition|exact Er]. }
  split; [exact Hp|].
  assert (0 ≤ length (inbox_of s_mail "e")) as H0 by apply Nat.le_0_l.
  destruct (inbox_polls_exact "driver:e" (Some "e") true None "e" 0 s_mail _ 1 s_polled reachable_mail eq_refl H0 Hp)
    as (_ & Hq & _). exact Hq.
Defined.

(** Two messages to the user, read one to a page. *)
Definition telling (k : string) : M db json :=
  send_user_message "driver:d" (Some "d") (JStr k) (JStr "news") (JStr "it works") "demo" JNull None JNull.
Definition s_told : db := after (telling "u2") (after (telling "u1") s_mail).
Lemma reachable_told : reachable s_told.
Proof. unfold s_told, telling. do 2 (apply steps_after; [apply op_send_user_message|]). apply reachable_mail. Qed.
Definition showing (c : option place) : M db conversation_page := list_user_conversation "demo" 1 c.
Definition page_at (c : option place) : conversation_page :=
  default (ConversationPage [] false None 0 0 None) (outcome (showing c) s_told).
Definition past_one : place := default (0%Z, "") (cp_next (page_at None)).

Lemma conversation_walk_exact_witness :
  let l := cp_messages (page_at None) ++ cp_messages (page_at (Some past_one)) in
  walk "demo" None s_told l None s_told ∧ length l = 2 ∧
  ∀ m, m ∈ messages s_told → in_conversation "demo" m = true → m ∈ l.
Proof.
  intros l.
  assert (∀ c, is_ok (showing c s_told) = true → showing c s_told = Ok (page_at c, s_told)) as Hshow.
  { intros c Hc. unfold page_at, outcome. destruct (showing c s_told) as [[page s']|] eqn:E; [|discriminate Hc].
    destruct (wp_run _ _ _ _ _ (conversation_run "demo" 1 c s_told (reachable_inbox _ reachable_told)) E) as [-> _].
    reflexivity. }
  assert (walk "demo" None s_told l None s_told) as Hw.
  { eapply (walk_page "demo" 1 None s_told (page_at None) past_one); [apply Hshow; vm_compute; reflexivity|vm_compute; reflexivity|].
    eapply walk_last; [apply Hshow; vm_compute; reflexivity|vm_compute; reflexivity]. }
  split; [exact Hw|]. split; [vm_compute; reflexivity|].
  destruct (conversation_walk_exact "demo" s_told l None s_told reachable_told Hw) as (_ & _ & H3).
  intros m Hm Hc. destruct (H3 m Hm Hc) as [?|(c & Hn & _)]; [done|discriminate Hn].
Defined.
