(* ===== verification/AttemptProperties.v ===== *)
(** * What reservations, runs, evidence and acceptance guarantee

    The effect of every outcome of a reservation, who may make one, when one is bound
    to succeed, and the functional behaviour of the later operations on an attempt. *)
From S2P Require Import Prelude Json Text Dag Store Graph History Portfolio Presence Claims.
From S2P Require Import Enforcement Review Attempts Evidence External Registry Inbox Issues Design.
From S2P Require Import Takeover Recovery Handoffs View Ledger System.
From S2P Require Import Returns Lifecycle Exclusion Soundness Receipts Sample.

(** ** Reservations *)
Section reserving.
Context `{Host}.

(** The row a reservation inserts, in terms of the request and the node it is for. *)
Record pinned (r : reserve_args) (n : node_row) (ds : gmap string dep_view) (a : attempt_row) : Prop := Pinned {
  pn_node : a_project a = ra_project r ∧ a_node a = ra_node r ∧ a_request_key a = ra_request_key r;
  pn_inputs : a_revision a = n_revision n ∧ a_hash a = n_hash n ∧ a_snapshot a = canonical (snapshot_json ds);
  pn_status : a_status a = match ra_external r with Some _ => Running | None => Reserved end ∧
    a_kind a = match ra_external r with Some _ => External | None => Skillflow end;
  pn_blank : a_artifact a = None ∧ a_run a = None ∧ a_error a = None ∧ a_version a = 0%Z ∧ a_abandon a = None;
  pn_owner : a_owner a = truthy (ra_driver r) ∧
    a_fence a = match truthy (ra_driver r) with Some _ => 1%Z | None => 0%Z end ∧
    (is_Some (a_lease a) ↔ is_Some (a_owner a));
}.
Definition bind_claim (claim : option claim_row) (aid : string) (t : Z) (l : list claim_row) : list claim_row :=
  match claim with
  | Some c => update_where (λ d, bool_decide (cl_id d = cl_id c))
                (λ d, d <| cl_attempt := Some aid |> <| cl_updated := t |>) l
  | None => l
  end.

Lemma attempt_inserted l a :
  existsb (attempt_clash a) l = false → select_one (λ b, bool_decide (a_id b = a_id a)) (l ++ [a]) = Some a.
Proof.
  intros Hc. assert (select_one (λ b, bool_decide (a_id b = a_id a)) l = None) as Hn.
  { apply select_one_None. intros b Hb. apply bool_decide_eq_false. intros E.
    assert (existsb (attempt_clash a) l = true); [|congruence]. apply existsb_exists. exists b.
    split; [by apply list_elem_of_In|]. apply attempt_clash_true. by left. }
  by rewrite select_one_snoc, Hn, bool_decide_eq_true_2.
Qed.

Lemma admit_run r revision h n ds claim bg ctx relay prior s :
  n_revision n = revision →
  wp (admit_attempt r revision h n ds claim bg ctx relay prior) (λ v s',
    pinned r n ds (pb_row v) ∧ a_request_hash (pb_row v) = h ∧ attempt_conflict s (pb_row v) = false ∧
    attempts s' = attempts s ++ [pb_row v] ∧
    (∃ t, claims s' = bind_claim claim (a_id (pb_row v)) t (claims s)) ∧
    (∃ t, nodes s' = alter (λ m, m <| n_status := OPEN |> <| n_updated := t |>) (ra_project r, ra_node r) (nodes s)) ∧
    evidence s' = evidence s ∧ acceptances s' = acceptances s ∧ observations s' = observations s) s.
Proof.
  intros Hrev. unfold admit_attempt. apply wp_bind, wp_uuid4. intros uid. cbv zeta.
  apply wp_bind, wp_now. intros created. apply wp_bind, wp_now. intros updated. apply wp_bind.
  eapply (wp_mono _ (λ lease s1, fst ∘ fst <$> lease = truthy (ra_driver r) ∧
    s1 = s <| draws ::= S |> <| ticks := ticks s1 |>)).
  { destruct (truthy (ra_driver r)); wp_all; (split; [done|by destruct s]). }
  intros lease s1 [Hlease E1]. apply wp_bind. unfold insert_attempt. apply wp_bind, wp_gets.
  apply wp_bind, wp_require. intros Hconf%negb_true_iff. apply wp_modify.
  set (a := AttemptRow _ _ _ _ _ _ _ _ _ _ _ _ _ _ _ _ _ _ _ _ _ _ _ _ _ _ _ _ _ _ _) in *.
  assert (pinned r n ds a) as Hp.
  { split; simpl; [by split_and!..|]. rewrite <- Hlease. destruct lease as [[[d e] t]|]; simpl.
    - split_and!; [done|done|]. split; by eexists.
    - split_and!; [done|done|]. by split; intros [? ?]. }
  assert (attempts s1 = attempts s ∧ claims s1 = claims s ∧ nodes s1 = nodes s) as (Ea & Ec & En) by (by rewrite E1).
  assert (attempt_conflict s a = false) as Hconf' by (unfold attempt_conflict in *; by rewrite Ea in Hconf).
  apply wp_bind. eapply (wp_mono _ (λ _ s2, (∃ t, claims s2 = bind_claim claim (a_id a) t (claims s)) ∧
    attempts s2 = attempts s ++ [a] ∧ nodes s2 = nodes s ∧ evidence s2 = evidence s ∧
    acceptances s2 = acceptances s ∧ observations s2 = observations s)).
  { destruct claim as [c|]; unfold update_claim; wp_all; simpl; rewrite ?Ec, ?Ea, ?En; split_and!; try done;
      try (by rewrite E1); first [by eexists|by exists 0%Z]. }
  intros [] s2 (Hcl & Ha2 & Hn2 & He2 & Hr2 & Ho2). apply wp_bind.
  eapply (wp_mono _ (λ _ s3, s3 = s2 <| owners := owners s3 |>)).
  { destruct (ra_external r); wp_all; by destruct s2. }
  intros [] s3 ->. apply wp_bind, wp_now. intros t. apply wp_bind, wp_modify.
  apply wp_bind. unfold event at 1. apply wp_bind, wp_now. intros t'. apply wp_modify.
  apply wp_bind. eapply (wp_mono _ (λ _ s4, attempts s4 = attempts s2 ∧ claims s4 = claims s2 ∧
    nodes s4 = alter (λ m, m <| n_status := OPEN |> <| n_updated := t |>) (ra_project r, ra_node r) (nodes s2) ∧
    evidence s4 = evidence s2 ∧ acceptances s4 = acceptances s2 ∧ observations s4 = observations s2)).
  { destruct prior; unfold emit, event; wp_all; by split_and!. }
  intros [] s4 (Ha4 & Hc4 & Hn4 & He4 & Hr4 & Ho4). apply wp_bind, wp_attempt_at. intros x Hx _.
  unfold attempt_at in Hx. rewrite Ha4, Ha2 in Hx. change ("attempt-" +:+ uid) with (a_id a) in Hx.
  rewrite attempt_inserted in Hx by (by apply orb_false_iff in Hconf' as [_ ?]). injection Hx as <-.
  apply wp_public. intros v t2 ->. simpl. rewrite Ha4, Hc4, Hn4, He4, Hr4, Ho4, Hn2.
  split_and!; try done. by eexists.
Qed.

(** A reservation that was admitted: what it found, and what it wrote. *)
Record admitted (r : reserve_args) (s s' : db) (a : attempt_row) : Prop := WasAdmitted {
  am_node : ∃ n, nodes s !! (ra_project r, ra_node r) = Some n ∧ ra_revision r = JInt (n_revision n) ∧
    n_status n ≠ VERIFIED ∧ n_status n ≠ SUPERSEDED ∧
    pinned r n (dependency_snapshot s (ra_project r) (ra_node r)) a;
  am_dispatch : dispatch_block s (ra_project r) (ra_node r) = None;
  am_deps : snapshot_verified (dependency_snapshot s (ra_project r) (ra_node r)) = true;
  am_claim : ∃ claim bg review t t', claims s' = bind_claim claim (a_id a) t' (claims s) ∧
    dispatch_claim s (ra_project r) (ra_node r) (ra_driver r) (ra_admin r) (ra_claim r) (ra_fence r) t review
      = Ok (claim, bg) ∧ (review = true → is_Some (ra_external r));
  am_fresh : attempt_conflict s a = false;
  am_attempts : attempts s' = attempts s ++ [a];
  am_status : ∃ t, nodes s' = alter (λ m, m <| n_status := OPEN |> <| n_updated := t |>)
                                (ra_project r, ra_node r) (nodes s);
  am_rest : evidence s' = evidence s ∧ acceptances s' = acceptances s ∧ observations s' = observations s;
}.

Lemma reserve_request_ok r req rev ins : reserve_request r = Ok (req, rev, ins) → ra_revision r = JInt rev.
Proof. unfold reserve_request. intros E. res_inv_all.
  repeat match goal with E : Ok _ = Ok _ |- _ => injection E as <- <- <- end.
  match goal with E : integer _ _ _ _ = Ok _ |- _ => by apply integer_ok in E as [-> _] end.
Qed.

Lemma admission_guards_run r revision n s :
  wp (admission_guards r revision n) (λ out s', let '(ds, claim, bg) := out in
    (∃ k, s' = s <| ticks := k |>) ∧ n_revision n = revision ∧ n_status n ≠ VERIFIED ∧ n_status n ≠ SUPERSEDED ∧
    dispatch_block s (ra_project r) (ra_node r) = None ∧
    ds = dependency_snapshot s (ra_project r) (ra_node r) ∧ snapshot_verified ds = true ∧
    ∃ review t, (review = true → is_Some (ra_external r)) ∧
      dispatch_claim s (ra_project r) (ra_node r) (ra_driver r) (ra_admin r) (ra_claim r) (ra_fence r) t review
        = Ok (claim, bg)) s.
Proof.
  unfold admission_guards, require_dispatch. apply wp_bind, wp_bind, wp_gets.
  destruct (dispatch_block _ _ _) as [[]|] eqn:Hb; try apply wp_raise. apply wp_ret.
  apply wp_bind, wp_require. intros Hg. bsimpl. apply wp_bind, wp_gets.
  apply wp_bind, wp_require. intros Hds. apply wp_bind, wp_now. intros t.
  apply wp_bind, wp_gets. unfold id. apply wp_bind, wp_lift. intros [claim bg] Hd. apply wp_bind.
  eapply (wp_mono _ (λ _ s', s' = s <| ticks ::= S |>)); [wp_all; done|]. intros [] ? ->. apply wp_ret.
  split_and!; try done; [by eexists|]. eexists _, t. split; [|exact Hd].
  intros Hr. by bsimpl.
Qed.

Lemma untouched_id_context r revision ins n ds claim s :
  wp (admission_context r revision ins n ds claim) (λ _ s', s' = s) s.
Proof. unfold admission_context, relay_source. wp_all; done. Qed.
Lemma preflight_guard_run r mode s : wp (preflight_guard r mode) (λ _ s', s' = s) s.
Proof. unfold preflight_guard. wp_all; done. Qed.

(** The sighting of who reports an external execution, before anything is judged: its
    declaration is cleared, with an audit row if there was one, and it was seen now. *)
Definition sighted (r : reserve_args) (s s1 : db) : Prop :=
  match ra_external r, truthy (ra_driver r) with
  | Some _, Some d => ∃ seen k, match declarations s !! d with
      | Some _ => ∃ cleared,
          s1 = s <| declarations ::= delete d |>
                 <| audit ::= (λ l, l ++ [AuditRow d (AuditPresence "online" "start_external_attempt") ("driver:" +:+ d) cleared]) |>
                 <| drivers ::= alter (λ v, v <| drv_seen := Some seen |>) d |> <| ticks := k |>
      | None => s1 = s <| drivers ::= alter (λ v, v <| drv_seen := Some seen |>) d |> <| ticks := k |>
      end
  | _, _ => s1 = s
  end.
Definition sighting (r : reserve_args) : M db unit :=
  when (bool_decide (is_Some (ra_external r))) (mark_back (ra_driver r) "start_external_attempt").

Lemma sighting_run r s : wp (sighting r) (λ _ s1, sighted r s s1) s.
Proof.
  unfold sighting, sighted. destruct (ra_external r) as [x|]; [|by apply wp_when].
  apply wp_when; [intros _|intros Hx; bsimpl; by destruct Hx]. unfold mark_back.
  destruct (ra_driver r) as [d|]; [|by apply wp_ret]. simpl. case_bool_decide as Hd.
  { subst. by apply wp_ret. }
  unfold clear, presence_audit. apply wp_bind, wp_bind, wp_gets.
  destruct (declarations s !! d) as [e|] eqn:E.
  - apply wp_bind, wp_modify, wp_bind, wp_bind, wp_now. intros t. apply wp_modify, wp_ret.
    apply wp_bind, wp_now. intros t'. apply wp_modify. exists t', (S (S (ticks s))). by exists t.
  - apply wp_ret. apply wp_bind, wp_now. intros t'. apply wp_modify. by exists t', (S (ticks s)).
Qed.
Lemma sighted_frame r s s1 : sighted r s s1 →
  s1 = s <| declarations := declarations s1 |> <| audit := audit s1 |> <| drivers := drivers s1 |> <| ticks := ticks s1 |>.
Proof.
  unfold sighted. destruct (ra_external r); [|intros ->; by destruct s].
  destruct (truthy (ra_driver r)) as [d|]; [|intros ->; by destruct s]. intros (? & ? & Hs).
  destruct (declarations s !! d); [destruct Hs as [? ->]; done|by rewrite Hs; destruct s].
Qed.

(** Everything [reserve_once] can answer. *)
Definition reserve_outcome (r : reserve_args) (s : db) (out : reserved) (s' : db) : Prop :=
  match out with
  | Accepted v => admitted r s s' (pb_row v)
  | Checked _ => ∃ s1 k, sighted r s s1 ∧ s' = s1 <| ticks := k |>
  | Replayed v =>
      (∃ s1 cs k, sighted r s s1 ∧ s' = s1 <| claims := cs |> <| ticks := k |> ∧
         claim_identity <$> cs = claim_identity <$> claims s) ∧ pb_row v ∈ attempts s ∧
      a_project (pb_row v) = ra_project r ∧ a_node (pb_row v) = ra_node r ∧
      a_request_key (pb_row v) = ra_request_key r ∧
      ∃ req rev ins, reserve_request r = Ok (req, rev, ins) ∧ a_request_hash (pb_row v) = digest req
  end.

Lemma outcome_attempts r s out s' : reserve_outcome r s out s' →
  attempts s' = attempts s ++ match out with Accepted v => [pb_row v] | _ => [] end.
Proof.
  assert (∀ s1, sighted r s s1 → attempts s1 = attempts s ++ []) as Hs.
  { intros s1 E%sighted_frame. by rewrite E, app_nil_r. }
  destruct out as [v|src|v].
  - intros [(s1 & cs & k & Hs1 & -> & _) _]. exact (Hs s1 Hs1).
  - intros (s1 & k & Hs1 & ->). exact (Hs s1 Hs1).
  - apply am_attempts.
Qed.

Lemma replay_run r h old s :
  wp (replay r h old) (λ v s', pb_row v = old ∧ a_request_hash old = h ∧
    ∃ cs k, s' = s <| claims := cs |> <| ticks := k |> ∧ claim_identity <$> cs = claim_identity <$> claims s) s.
Proof.
  unfold replay. apply wp_bind, wp_require. intros Hh%bool_decide_eq_true. apply wp_bind, wp_gets.
  apply wp_bind, wp_require. intros _. cbv zeta. apply wp_bind, wp_require. intros _.
  assert (∀ t, s <| ticks := t |> = s <| claims := claims s |> <| ticks := t |>) as Hid by by destruct s.
  destruct (_ && _).
  { apply wp_public. intros v t ->. split_and!; [done..|]. by exists (claims s), t. }
  apply wp_bind. eapply (wp_mono _ (λ _ s', s' = s <| claims := claims s' |> <| ticks := ticks s' |> ∧
    claim_identity <$> claims s' = claim_identity <$> claims s)).
  { unfold update_claim. wp_all; (split; [by destruct s|simpl; rewrite ?fmap_update_where by done; done]). }
  intros [] s1 [E1 E2]. apply wp_public. intros v t ->. split_and!; [done..|]. exists (claims s1), t.
  split; [by rewrite E1|done].
Qed.

Lemma reserve_once_run r mode report s : wp (reserve_once r mode report) (reserve_outcome r s) s.
Proof.
  unfold reserve_once. apply wp_bind, wp_lift. intros [[req rev] ins] Hreq. cbv zeta.
  apply wp_bind. eapply wp_mono; [apply sighting_run|].
  intros [] s1 Hs1. pose proof (sighted_frame r s s1 Hs1) as E1. apply wp_bind, wp_node. intros n Hn _ _. apply wp_bind, wp_gets.
  destruct (select_one _ _) as [old|] eqn:Hold.
  { apply select_one_Some in Hold as [Hin Hp]. unfold of_node in Hp. bsimpl. apply wp_bind.
    eapply wp_mono; [apply replay_run|]. intros v s2 (<- & Hh & cs & k & E2 & Hcl). apply wp_ret. simpl.
    assert (claims s1 = claims s ∧ attempts s1 = attempts s) as [Hc1 Ha1] by (by rewrite E1). rewrite Hc1 in Hcl. rewrite Ha1 in Hin.
    split_and!; try done; [by exists s1, cs, k|by exists req, rev, ins]. }
  apply wp_bind. eapply wp_mono; [apply admission_guards_run|].
  intros [[ds claim] bg] s2 ([k ->] & Hrev & Hst1 & Hst2 & Hb & -> & Hds & review & t & Hrw & Hd).
  apply wp_bind. eapply wp_mono; [apply untouched_id_context|]. intros [ctx relay] ? ->.
  apply wp_bind. eapply wp_mono; [apply preflight_guard_run|]. intros [source|] ? ->.
  { apply wp_ret. simpl. by exists s1, k. }
  apply wp_bind, wp_gets, wp_bind. eapply wp_mono; [by apply admit_run|].
  intros v s3 (Hp & _ & Hc & Ha & [t1 Hcl] & [t2 Hn3] & He & Hr & Ho). apply wp_ret. simpl in *.
  rewrite E1 in Hn, Ha, Hcl, Hn3, He, Hr, Ho. simpl in *.
  split; try done.
  - exists n. split_and!; try done; [by rewrite (reserve_request_ok _ _ _ _ Hreq), Hrev|].
    by rewrite E1 in Hp.
  - by rewrite E1 in Hb.
  - by rewrite E1 in Hds.
  - exists claim, bg, review, t, t1. split_and!; try done. by rewrite E1 in Hd.
  - by rewrite E1 in Hc.
  - by eexists.
Qed.
End reserving.

Section reservation_properties.
Context `{Host}.


Lemma live_implement_live s pid nk t c :
  (live_implement_claim s pid nk t).1 = Some c →
  c ∈ claims s ∧ on_node pid nk c = true ∧ cl_status c = Live ∧ cl_purpose c = Implement ∧
  (t < add_seconds (cl_expires c) GRACE_SECONDS)%Z.
Proof.
  unfold live_implement_claim. destruct (select_one _ _) as [d|] eqn:E; [|done].
  case_bool_decide as Hl; [done|]. intros [= ->]. apply select_one_Some in E as [Hin E].
  unfold is_live in E. bsimpl. split_and!; try done.
  apply Z.nle_gt. intros Hle. apply Hl. unfold lease_state, add_seconds, GRACE_SECONDS, SECOND in *.
  destruct (t <? cl_expires c)%Z eqn:E1; [apply Z.ltb_lt in E1; lia|].
  destruct (t <? cl_expires c + 900 * 1000000)%Z eqn:E2; [apply Z.ltb_lt in E2; lia|done].
Qed.

Lemma dispatch_claim_enforced s pid nk driver cid fence t claim bg :
  dispatch_claim s pid nk driver false cid fence t false = Ok (claim, bg) → enforced s pid = true →
  bg = false ∧ ∃ c, claim = Some c ∧ (live_implement_claim s pid nk t).1 = Some c ∧
    driver = Some (cl_driver c) ∧ fence_ok fence c = true.
Proof.
  unfold dispatch_claim. intros E Hon. destruct (live_implement_claim s pid nk t) as [live lapsed].
  apply res_bind_ok in E as ([] & _ & E). rewrite Hon in E. simpl in E.
  destruct live as [c|]; [|done]. case_bool_decide; [|done]. res_inv_all.
  split; [done|]. eexists. by split_and!.
Qed.

(** With claim enforcement on, a driver who is no admin gets a workflow attempt only on a
    node whose live implement claim is its own and within lease and grace; the attempt is
    bound to that claim. *)
Theorem reservation_needs_claim r mode report s v s' :
  reserve_once r mode report s = Ok (Accepted v, s') →
  enforced s (ra_project r) = true → ra_admin r = false → ra_external r = None →
  ∃ c c' t, c ∈ claims s ∧ on_node (ra_project r) (ra_node r) c = true ∧ cl_status c = Live ∧
    cl_purpose c = Implement ∧ ra_driver r = Some (cl_driver c) ∧ fence_ok (ra_fence r) c = true ∧
    (t < add_seconds (cl_expires c) GRACE_SECONDS)%Z ∧
    c' ∈ claims s' ∧ cl_id c' = cl_id c ∧ cl_attempt c' = Some (a_id (pb_row v)).
Proof.
  intros E Hon Had Hext. pose proof (wp_run _ _ _ _ _ (reserve_once_run r mode report s) E) as Hr.
  destruct Hr as [_ _ _ (claim & bg & review & t & t' & Hcl & Hd & Hrev) _ _ _ _].
  destruct review; [rewrite Hext in Hrev; by destruct (Hrev eq_refl)|].
  rewrite Had in Hd. destruct (dispatch_claim_enforced _ _ _ _ _ _ _ _ _ Hd Hon) as (-> & c & -> & Hl & Hdr & Hf).
  apply live_implement_live in Hl as (Hin & Hno & Hst & Hp & Ht).
  exists c, (c <| cl_attempt := Some (a_id (pb_row v)) |> <| cl_updated := t' |>), t.
  split_and!; try done. rewrite Hcl. simpl. apply elem_of_update_where. exists c.
  by rewrite bool_decide_eq_true_2.
Qed.

(** A hold on the node or a project that is not active stops all dispatch: no
    reservation is admitted and no reserved attempt is launched. *)
Theorem held_not_dispatched s pid nk :
  dispatch_block s pid nk ≠ None →
  (∀ r mode report v s', ra_project r = pid → ra_node r = nk → reserve_once r mode report s ≠ Ok (Accepted v, s')) ∧
  (∀ aid a d adm ac c f s', attempt_at s aid = Some a → a_project a = pid → a_node a = nk →
     claim_launch aid d adm ac c f s ≠ Ok (true, s')).
Proof.
  intros Hb. split.
  - intros r mode report v s' <- <- E. apply Hb.
    by apply (am_dispatch _ _ _ _ (wp_run _ _ _ _ _ (reserve_once_run r mode report s) E)).
  - intros aid a d adm ac c f s' Ha <- <- E.
    refine (wp_run _ (λ b _, b ≠ true) _ _ _ _ E eq_refl).
    unfold claim_launch. apply wp_bind, wp_attempt_at. intros a' Ha' _. assert (a' = a) as -> by congruence.
    case_bool_decide; [|by apply wp_ret]. simpl. apply wp_bind, wp_now. intros t.
    apply wp_bind, wp_gets. unfold id. apply wp_bind, wp_lift. intros [bg rebind] _.
    apply wp_bind. unfold require_dispatch. apply wp_bind, wp_gets.
    change (dispatch_block (s <| ticks ::= S |>)) with (dispatch_block s).
    destruct (dispatch_block s _ _) as [[]|]; by try apply wp_raise.
Qed.
End reservation_properties.

(** ** The frontier *)
Section frontier.
Context `{Host}.

Lemma elem_of_items s pid t x :
  x ∈ items s pid t ↔ ∃ nk n, nodes s !! (pid, nk) = Some n ∧ x = item_of s pid t nk n.
Proof.
  unfold items. rewrite merge_sort_Permutation, list_elem_of_fmap. split.
  - intros ([nk n] & -> & Hin%elem_of_map_to_list). rewrite lookup_nodes_of in Hin. by exists nk, n.
  - intros (nk & n & Hn & ->). exists (nk, n). split; [done|]. apply elem_of_map_to_list. by rewrite lookup_nodes_of.
Qed.
Lemma elem_of_active_nodes s pid nk :
  nk ∈ active_nodes s pid ↔ ∃ a, a ∈ attempts s ∧ of_node pid nk a = true ∧ ACTIVE (a_status a) = true.
Proof.
  unfold active_nodes, of_node. rewrite elem_of_list_to_set, list_elem_of_fmap. setoid_rewrite elem_of_select.
  split.
  - intros (a & -> & Hin & Ha). bsimpl. exists a. by rewrite !bool_decide_eq_true_2.
  - intros (a & Hin & Hn & Ha). bsimpl. exists a. by rewrite bool_decide_eq_true_2, Ha.
Qed.
Lemma lapsed_active s pid t nk : nk ∈ lapsed_nodes s pid t → nk ∈ active_nodes s pid.
Proof.
  unfold lapsed_nodes, active_nodes. rewrite !elem_of_list_to_set, !list_elem_of_fmap.
  intros (a & -> & (Hin & Ha)%elem_of_select). bsimpl. exists a. split; [done|]. apply elem_of_select.
  split; [done|]. apply andb_true_iff. split; [by apply bool_decide_eq_true|done].
Qed.

#[export] Instance item_le_trans : Transitive item_le.
Proof.
  intros x y z [?|[E1 ?]] [?|[E2 ?]]; unfold item_le; [left; lia|left; lia|left; lia|right].
  split; [congruence|by etrans].
Qed.
#[export] Instance item_le_total : Total item_le.
Proof.
  intros x y. unfold item_le. destruct (Z.lt_trichotomy (n_priority (it_node x)) (n_priority (it_node y)))
    as [?|[?|?]]; [auto| |auto]. destruct (total String.le (it_key x) (it_key y)); auto.
Qed.

(** What readiness means. *)
Record ready (s : db) (pid nk : string) (n : node_row) : Prop := IsReady {
  rd_node : nodes s !! (pid, nk) = Some n;
  rd_open : n_status n ≠ VERIFIED ∧ n_status n ≠ SUPERSEDED;
  rd_idle : ∀ a, a ∈ attempts s → of_node pid nk a = true → ACTIVE (a_status a) = false;
  rd_free : dispatch_block s pid nk = None;
  rd_deps : ∀ d, depends_on s pid nk d → ∃ m, nodes s !! (pid, d) = Some m ∧ verified m = true;
}.

Lemma readiness_ready s pid t nk n :
  nodes s !! (pid, nk) = Some n → it_readiness (item_of s pid t nk n) = Ready ↔ ready s pid nk n.
Proof.
  intros Hn. unfold item_of. simpl. unfold readiness_of.
  assert (preds (graph_of s pid) nk = sorted_set (deps_at s pid nk)) as Hp.
  { unfold preds. by rewrite lookup_graph_of, Hn. }
  assert (blocked_by (nodes_of s pid) (preds (graph_of s pid) nk) = [] ↔
    ∀ d, depends_on s pid nk d → ∃ m, nodes s !! (pid, d) = Some m ∧ verified m = true) as Hbl.
  { unfold blocked_by. rewrite Hp. split.
    - intros E d Hd. assert (d ∉ List.filter (λ d, match nodes_of s pid !! d with
        | Some n => negb (verified n) | None => true end) (sorted_set (deps_at s pid nk))) as Hnot.
      { rewrite E. apply not_elem_of_nil. }
      rewrite list_elem_of_In, filter_In, <- list_elem_of_In, elem_of_sorted_set in Hnot.
      rewrite lookup_nodes_of in Hnot. destruct (nodes s !! (pid, d)) as [m|] eqn:Hm.
      + exists m. split; [done|]. destruct (verified m); [done|]. by destruct Hnot.
      + by destruct Hnot.
    - intros Hall. apply elem_of_nil_inv. intros d. rewrite list_elem_of_In, filter_In, <- list_elem_of_In.
      rewrite elem_of_sorted_set, lookup_nodes_of. intros [Hd Hf].
      destruct (Hall d Hd) as (m & Hm & Hv). by rewrite Hm, Hv in Hf. }
  split.
  - case_bool_decide as H1; simpl; [done|]. case_bool_decide as H2; simpl; [done|].
    case_bool_decide as H3; [done|]. case_bool_decide as H4; [done|]. case_bool_decide as H5; [done|].
    case_bool_decide as H6; [|done]. intros _. split; try done.
    + intros a Hin Ho. destruct (ACTIVE (a_status a)) eqn:Ha; [|done]. destruct H4.
      apply elem_of_active_nodes. by exists a.
    + by apply eq_None_not_Some.
    + by apply Hbl.
  - intros [_ [Ho1 Ho2] Hidle Hfree Hdeps]. rewrite !bool_decide_eq_false_2 by done. simpl.
    assert (nk ∉ active_nodes s pid) as Hna.
    { intros (a & Hin & Ho & Ha)%elem_of_active_nodes. by rewrite Hidle in Ha. }
    rewrite (bool_decide_eq_false_2 (nk ∈ lapsed_nodes s pid t)) by (by intros ?%lapsed_active).
    rewrite (bool_decide_eq_false_2 (nk ∈ active_nodes s pid)) by done. rewrite Hfree.
    rewrite bool_decide_eq_false_2 by (by intros []). by rewrite bool_decide_eq_true_2 by by apply Hbl.
Qed.

(** C26: the frontier lists, highest priority first, exactly the open nodes that no active
    attempt uses, nothing holds, and all of whose dependencies are verified; it truncates to
    the limit and reports the full count. *)
Theorem frontier_ready pid z s v s' :
  frontier pid (JInt z) s = Ok (v, s') →
  ∃ l, StronglySorted item_le l ∧ fr_nodes v = frontier_entry_of <$> take (Z.to_nat z) l ∧
    fr_total v = length l ∧
    ∀ x, x ∈ l ↔ ∃ nk n t, x = item_of s pid t nk n ∧ t = clock (ticks s) ∧ ready s pid nk n.
Proof.
  intros E.
  assert (wp (frontier pid (JInt z)) (λ v _, ∃ l, StronglySorted item_le l ∧
    fr_nodes v = frontier_entry_of <$> take (Z.to_nat z) l ∧ fr_total v = length l ∧
    l = List.filter (λ x, bool_decide (it_readiness x = Ready)) (items s pid (clock (ticks s)))) s) as Hw.
  { unfold frontier, get_graph. apply wp_bind, wp_lift. intros z' [[= <-] _]%integer_ok.
    apply wp_bind, wp_bind, wp_project. intros row _ _. apply wp_bind. unfold wp at 1, now.
    apply wp_bind, wp_gets, wp_ret, wp_ret. eexists. split_and!; [|reflexivity|reflexivity|reflexivity].
    assert (StronglySorted item_le (items s pid (clock (ticks s)))) as Hs
      by (apply StronglySorted_merge_sort; apply _).
    change (items (s <| ticks ::= S |>) pid) with (items s pid). revert Hs.
    generalize (items s pid (clock (ticks s))). induction 1 as [|x l Hl IH Hx]; [constructor|]. simpl.
    case_bool_decide; [|done]. constructor; [done|]. apply Forall_forall. intros y Hy.
    apply list_elem_of_In, filter_In in Hy as [Hy _]. rewrite Forall_forall in Hx. apply Hx.
    by apply list_elem_of_In. }
  destruct (wp_run _ _ _ _ _ Hw E) as (l & Hs & Hv & Ht & ->). eexists. split_and!; [exact Hs|done|done|].
  intros x. rewrite list_elem_of_In, filter_In, <- list_elem_of_In, elem_of_items, bool_decide_eq_true. split.
  - intros ((nk & n & Hn & ->) & Hr). exists nk, n, (clock (ticks s)). split_and!; [done|done|].
    by apply readiness_ready in Hr.
  - intros (nk & n & t & -> & -> & Hr). pose proof (rd_node _ _ _ _ Hr) as Hn. split; [by exists nk, n|].
    by apply readiness_ready.
Qed.
End frontier.

(** ** Admission succeeds *)
Section liveness.
Context `{Host}.

Lemma ready_snapshot s pid nk n : ready s pid nk n → snapshot_verified (dependency_snapshot s pid nk) = true.
Proof.
  intros Hr. apply snapshot_verified_true. intros k d Hd. rewrite lookup_dependency_snapshot in Hd.
  case_decide as Hk; [|done]. destruct (rd_deps _ _ _ _ Hr k Hk) as (m & Hm & Hv). rewrite Hm in Hd.
  injection Hd as <-. unfold verified in Hv. bsimpl. simpl. split; [done|].
  unfold truthy in *. destruct (n_receipt m); [by eexists|]. by match goal with H : is_Some None |- _ => destruct H end.
Qed.

(** A plain workflow request on a node: it names no claim, base commit or earlier attempt. *)
Definition plain_request (pid nk : string) (revision : Z) (workflow rk instruction : string)
    (driver : option string) (admin : bool) : reserve_args :=
  ReserveArgs pid nk (JInt revision) (Some workflow) rk (JStr instruction) None None None None None None
    driver None None admin.

(** Who may make one: anyone while claims are not enforced; else an admin, or the driver whose
    implement claim is live on the node, unless the latest attempt was abandoned while its
    worker might still run. *)
Definition may_start (s : db) (pid nk : string) (driver : option string) (admin : bool) : Prop :=
  enforced s pid = false ∨ admin = true ∨
  (∃ c, (live_implement_claim s pid nk (clock (ticks s))).1 = Some c ∧ driver = Some (cl_driver c)) ∧
  (∀ a, latest_attempt s pid nk = Some a → a_abandon a ≠ Some QuiescenceUnknown).

Lemma dispatch_admits s pid nk driver admin :
  (∃ claim bg, dispatch_claim s pid nk driver admin None None (clock (ticks s)) false = Ok (claim, bg) ∧
     (enforced s pid = true → after_unknown_abandon s pid nk claim None admin = Ok tt)) ↔
  may_start s pid nk driver admin.
Proof.
  unfold may_start, dispatch_claim. destruct (live_implement_claim s pid nk (clock (ticks s))) as [live lapsed].
  simpl. destruct (enforced s pid) eqn:Hon; simpl; [|split; [by left|intros _; by exists None, false]].
  assert (∀ claim, after_unknown_abandon s pid nk claim None admin = Ok tt ↔
    admin = true ∨ ∀ a, latest_attempt s pid nk = Some a → a_abandon a ≠ Some QuiescenceUnknown) as Hafter.
  { intros claim. unfold after_unknown_abandon. destruct (latest_attempt s pid nk) as [a|]; [|naive_solver].
    case_bool_decide as Hq; simpl; [|naive_solver]. destruct admin; naive_solver. }
  destruct live as [c|]; simpl.
  - case_bool_decide as Hc; simpl.
    + split; [intros (claim & bg & [= <- <-] & Hx); destruct (proj1 (Hafter _) (Hx eq_refl)); [by right; left|]|].
      * right; right. split; [by exists c|done].
      * intros Hm. exists (Some c), false. split; [done|]. intros _. apply Hafter. naive_solver.
    + destruct admin; simpl; [split; [by right; left|intros _; exists None, true; split; [done|intros _; apply Hafter; by left]]|].
      split; [by intros (? & ? & ? & _)|]. intros [?|[?|[(c' & [= <-] & Hd) _]]]; [done|done|]. by destruct Hc.
  - destruct admin; simpl; [split; [by right; left|intros _; exists None, true; split; [done|intros _; apply Hafter; by left]]|].
    split; [by intros (? & ? & ? & _)|]. by intros [?|[?|[(c' & ? & _) _]]].
Qed.

Section requesting.
Variables (s : db) (pid nk workflow rk instruction : string) (n : node_row) (driver : option string) (admin : bool).
Hypothesis Hr : ready s pid nk n.
Hypothesis Hrev : (1 ≤ n_revision n ≤ 1000000)%Z.
Hypotheses (HK1 : KEY pid = true) (HK2 : KEY nk = true) (HK3 : KEY rk = true).
Hypothesis Hlen : (Z.of_nat (py_len instruction) ≤ 20000)%Z.
Hypothesis HKa : KEY ("attempt-" +:+ uuid (draws s)) = true.
Hypothesis Hfresh : ∀ a, a ∈ attempts s → a_id a ≠ "attempt-" +:+ uuid (draws s) ∧
  a_execution a ≠ Some ("sg-" +:+ uuid (draws s)) ∧ (of_node pid nk a = true → a_request_key a ≠ rk).
Let r := plain_request pid nk (n_revision n) workflow rk instruction driver admin.

Lemma plain_request_new : select_one (λ a, of_node pid nk a && bool_decide (a_request_key a = rk)) (attempts s) = None.
Proof.
  apply select_one_None. intros a Ha. destruct (Hfresh a Ha) as (_ & _ & Hk).
  destruct (of_node pid nk a) eqn:Eo; [|done]. simpl. apply bool_decide_eq_false. by apply Hk.
Qed.
Lemma plain_request_needs : wp (reserve_once r Plain None) (λ _ _, may_start s pid nk driver admin) s.
Proof.
  unfold reserve_once. apply wp_bind, wp_lift. intros [[req rev] ins] _. cbv zeta. apply wp_bind, wp_when; [done|intros _].
  apply wp_bind, wp_node. intros n' _ _ _. apply wp_bind, wp_gets. simpl. rewrite plain_request_new.
  apply wp_bind. apply (wp_mono _ (λ _ _, may_start s pid nk driver admin)).
  - unfold admission_guards, require_dispatch. apply wp_bind, wp_bind, wp_gets.
    destruct (dispatch_block _ _ _) as [[]|]; try apply wp_raise. apply wp_ret.
    apply wp_bind, wp_require. intros _. apply wp_bind, wp_gets, wp_bind, wp_require. intros _.
    apply wp_bind. unfold wp at 1, now. apply wp_bind, wp_gets, wp_bind, wp_lift. intros [claim bg] Hd. unfold id in *.
    apply wp_bind. apply (wp_mono _ (λ _ _, may_start s pid nk driver admin)); [|intros [] ? Hm; by apply wp_ret].
    apply wp_when; intros Hc.
    + apply wp_lift. intros [] Ha. apply dispatch_admits. by exists claim, bg.
    + left. exact Hc.
  - intros [[ds claim] bg] s1 Hm. apply run_wp. intros _ _ _. exact Hm.
Qed.
Lemma plain_request_admitted : may_start s pid nk driver admin → twp (reserve_once r Plain None) (λ out _, ∃ v, out = Accepted v) s.
Proof.
  intros (claim & bg & Hdc & Hun)%dispatch_admits.
  assert (∃ req, reserve_request r = Ok (req, n_revision n, instruction)) as [req Hreq].
  { unfold reserve_request, r, plain_request. simpl. rewrite HK3.
    destruct ((1 <=? n_revision n)%Z && (n_revision n <=? 1000000)%Z) eqn:E.
    - simpl. destruct (Z.of_nat (py_len instruction) <=? 20000)%Z eqn:E2; [by eexists|].
      apply Z.leb_gt in E2. lia.
    - apply andb_false_iff in E as [E%Z.leb_gt|E%Z.leb_gt]; lia. }
  unfold reserve_once. apply twp_bind. eapply twp_lift; [exact Hreq|]. cbv zeta.
  apply twp_bind. apply twp_when; [done|intros _].
  apply twp_bind. eapply (twp_node _ _ _ s n); [done|done|apply Hr|].
  apply twp_bind, twp_gets. simpl. rewrite plain_request_new.
  apply twp_bind. unfold admission_guards, require_dispatch. apply twp_bind, twp_bind, twp_gets.
  simpl. rewrite (rd_free _ _ _ _ Hr). apply twp_ret. apply twp_bind, twp_require.
  { destruct (rd_open _ _ _ _ Hr) as [H1 H2]. rewrite bool_decide_eq_true_2 by done.
    by rewrite !bool_decide_eq_false_2 by done. }
  apply twp_bind, twp_gets, twp_bind, twp_require; [by eapply ready_snapshot|].
  apply twp_bind, twp_now, twp_bind, twp_gets. unfold id.
  apply twp_bind. eapply twp_lift; [exact Hdc|].
  apply twp_bind. apply (twp_mono _ (λ _ s1, s1 = s <| ticks ::= S |>)).
  { apply twp_when; [|done]. intros Hc. eapply twp_lift; [by apply Hun|done]. }
  intros _ ? ->. apply twp_ret. apply twp_bind. unfold admission_context. simpl.
  apply twp_bind, twp_ret, twp_bind, twp_gets, twp_ret.
  apply twp_bind, twp_ret, twp_bind, twp_gets, twp_bind.
  apply (twp_mono _ (λ _ _, True)); [|intros v s' _; apply twp_ret; by exists v].
  unfold admit_attempt. apply twp_bind. unfold twp at 1, uuid4. cbv zeta. simpl.
  apply twp_bind, twp_now, twp_bind, twp_now, twp_bind.
  eapply (twp_mono _ (λ _ s1, attempts s1 = attempts s)).
  { destruct (truthy driver); [apply twp_bind, twp_now, twp_ret; done|by apply twp_ret]. }
  intros lease s1 Ea. apply twp_bind. unfold insert_attempt. apply twp_bind, twp_gets.
  set (a := AttemptRow _ _ _ _ _ _ _ _ _ _ _ _ _ _ _ _ _ _ _ _ _ _ _ _ _ _ _ _ _ _ _).
  assert (existsb (attempt_clash a) (attempts s) = false) as Hclash.
  { apply not_true_iff_false. intros (b & Hb%list_elem_of_In & Hab)%existsb_exists.
    destruct (Hfresh b Hb) as (F1 & F2 & F3).
    apply attempt_clash_true in Hab as [E|[(x & E1 & E2)|(E1 & E2 & Hab)]]; simpl in *.
    - by destruct F1.
    - congruence.
    - assert (of_node pid nk b = true) as Ho by (unfold of_node; by rewrite !bool_decide_eq_true_2).
      destruct Hab as [Hk|[[_ Hact]|(Hx & _)]]; [by apply F3|by rewrite (rd_idle _ _ _ _ Hr) in Hact|done]. }
  apply twp_bind, twp_require.
  { unfold attempt_conflict. by rewrite Ea, Hclash. }
  apply twp_modify. apply twp_bind. apply (twp_mono _ (λ _ s2, attempts s2 = attempts s ++ [a])).
  { destruct claim; [apply twp_bind, twp_now; unfold update_claim; apply twp_modify|apply twp_ret]; simpl; by rewrite Ea. }
  intros [] s2 Ea2. apply twp_bind, twp_ret, twp_bind, twp_now.
  apply twp_bind, twp_modify. apply twp_bind, twp_event. intros e k. apply twp_bind, twp_ret.
  apply twp_bind. eapply (twp_attempt _ a); [done| |by apply twp_public].
  unfold attempt_at. simpl. rewrite Ea2. by apply (attempt_inserted (attempts s) a).
Qed.
End requesting.

(** C25: what the frontier lists as ready can be started: a well-formed new workflow request for
    the node's present revision, naming no claim or base commit, is admitted exactly when claims
    are not enforced on the project, or the caller is an admin, or the live implement claim of
    the node is the caller's, within lease and grace, and the latest attempt was not abandoned
    with its worker's quiescence unknown. *)
Theorem ready_reservable s pid nk n workflow rk instruction driver admin :
  ready s pid nk n → (1 ≤ n_revision n ≤ 1000000)%Z →
  KEY pid = true → KEY nk = true → KEY rk = true → (Z.of_nat (py_len instruction) ≤ 20000)%Z →
  KEY ("attempt-" +:+ uuid (draws s)) = true →
  (∀ a, a ∈ attempts s → a_id a ≠ "attempt-" +:+ uuid (draws s) ∧ a_execution a ≠ Some ("sg-" +:+ uuid (draws s)) ∧
     (of_node pid nk a = true → a_request_key a ≠ rk)) →
  (∃ v s', reserve_once (plain_request pid nk (n_revision n) workflow rk instruction driver admin) Plain None s
    = Ok (Accepted v, s')) ↔ may_start s pid nk driver admin.
Proof.
  intros Hr Hrev HK1 HK2 HK3 Hlen HKa Hfresh. split.
  - intros (v & s' & E). exact (wp_run _ _ _ _ _ (plain_request_needs s pid nk workflow rk instruction n driver admin Hfresh) E).
  - intros Hm. pose proof (plain_request_admitted s pid nk workflow rk instruction n driver admin Hr Hrev HK1 HK2 HK3 Hlen HKa Hfresh Hm) as Ht.
    apply twp_returns in Ht as (out & s' & E & v & ->). by exists v, s'.
Qed.
End liveness.


(** The holder of the claim starts a workflow on an enforced project. *)
Definition claimed_request : reserve_args :=
  ReserveArgs "demo" "b" (JInt 1) (Some "wf") "rk-c" (JStr "go") None None None None None None
    (Some "d") (Some claim_b) (Some 1%Z) false.
Definition s_enforced : db :=
  after (set_claim_enforcement "boss" true "demo" (JStr "on") (JInt 0) (JStr "from now on")) s_claimed.
Lemma reservation_needs_claim_witness : ∃ v c,
  reserve_once claimed_request Plain None s_enforced
    = Ok (Accepted v, after (reserve_once claimed_request Plain None) s_enforced) ∧
  enforced s_enforced "demo" = true ∧ c ∈ claims s_enforced ∧ cl_driver c = "d".
Proof.
  assert (∃ v, reserve_once claimed_request Plain None s_enforced
    = Ok (Accepted v, after (reserve_once claimed_request Plain None) s_enforced)) as [v E]
    by (eexists; vm_compute; reflexivity).
  assert (enforced s_enforced (ra_project claimed_request) = true) as Hon by (vm_compute; reflexivity).
  destruct (reservation_needs_claim claimed_request Plain None s_enforced v _ E Hon) as (c & _ & _ & Hin & _ & _ & _ & Hd & _);
    [reflexivity|reflexivity|].
  exists v, c. split; [exact E|]. split; [exact Hon|]. split; [exact Hin|]. by injection Hd.
Defined.

Definition s_held : db := after (set_hold "boss" "demo" "a" (JBool true) (JInt 0) (JStr "wait")) s_reserved.
Lemma held_not_dispatched_witness :
  dispatch_block s_held "demo" "a" ≠ None ∧
  ∀ s', claim_launch attempt_a None false None None None s_held ≠ Ok (true, s').
Proof.
  assert (dispatch_block s_held "demo" "a" ≠ None) as Hb by (vm_compute; discriminate).
  split; [exact Hb|]. intros s'.
  assert (∃ a, attempt_at s_held attempt_a = Some a ∧ a_project a = "demo" ∧ a_node a = "a") as (a & Ha & Hp & Hn)
    by (eexists; split; [vm_compute; reflexivity|split; reflexivity]).
  apply (proj2 (held_not_dispatched s_held "demo" "a" Hb) attempt_a a); [exact Ha|exact Hp|exact Hn].
Defined.

Lemma frontier_ready_witness : ∃ v,
  frontier "demo" (JInt 10) s_nodes = Ok (v, after (frontier "demo" (JInt 10)) s_nodes) ∧
  ∃ l, fr_total v = length l ∧
    ∀ x, x ∈ l ↔ ∃ nk n t, x = item_of s_nodes "demo" t nk n ∧ t = clock (ticks s_nodes) ∧ ready s_nodes "demo" nk n.
Proof.
  returns v E. exists v. split; [exact E|].
  destruct (frontier_ready "demo" 10 s_nodes v _ E) as (l & _ & _ & Ht & Hl). exists l. split; [exact Ht|exact Hl].
Defined.

(** Under enforcement, the holder of the node's claim is admitted and another driver is not. *)
Lemma ready_reservable_witness : ∃ n,
  ready s_enforced "demo" "b" n ∧ enforced s_enforced "demo" = true ∧
  (∃ v s', reserve_once (plain_request "demo" "b" (n_revision n) "wf" "rk" "go" (Some "d") false) Plain None s_enforced
    = Ok (Accepted v, s')) ∧
  ∀ v s', reserve_once (plain_request "demo" "b" (n_revision n) "wf" "rk" "go" (Some "e") false) Plain None s_enforced
    ≠ Ok (Accepted v, s').
Proof.
  assert (∃ n, nodes s_enforced !! ("demo", "b") = Some n ∧ n_revision n = 1%Z ∧
    it_readiness (item_of s_enforced "demo" 0 "b" n) = Ready) as (n & Hn & Hrev & Hr)
    by (eexists; split; [vm_compute; reflexivity|split; [reflexivity|vm_compute; reflexivity]]).
  apply (readiness_ready _ _ _ _ _ Hn) in Hr.
  assert (forallb (λ a, negb (bool_decide (a_id a = "attempt-" +:+ uuid (draws s_enforced))) &&
    negb (bool_decide (a_execution a = Some ("sg-" +:+ uuid (draws s_enforced)))) && negb (of_node "demo" "b" a))
    (attempts s_enforced) = true) as Hall by (vm_compute; reflexivity).
  assert (enforced s_enforced "demo" = true) as Hon by (vm_compute; reflexivity).
  assert (∃ c, (live_implement_claim s_enforced "demo" "b" (clock (ticks s_enforced))).1 = Some c ∧ cl_driver c = "d")
    as (c & Hc & Hd) by (eexists; split; [vm_compute; reflexivity|reflexivity]).
  assert (latest_attempt s_enforced "demo" "b" = None) as Hlast by (vm_compute; reflexivity).
  assert (∀ driver, (∃ v s', reserve_once (plain_request "demo" "b" (n_revision n) "wf" "rk" "go" driver false) Plain None
    s_enforced = Ok (Accepted v, s')) ↔ may_start s_enforced "demo" "b" driver false) as Hiff.
  { intros driver. apply (ready_reservable s_enforced "demo" "b" n "wf" "rk" "go" driver false Hr);
      [rewrite Hrev; lia|vm_compute; reflexivity..|vm_compute; discriminate|vm_compute; reflexivity|].
    intros a Hin. pose proof (proj1 (forallb_forall _ _) Hall a (proj1 (list_elem_of_In _ _) Hin)) as Ha.
    apply andb_true_iff in Ha as [[Ha1 Ha2]%andb_true_iff Ha3]. apply negb_true_iff in Ha1, Ha2, Ha3.
    apply bool_decide_eq_false in Ha1, Ha2. split; [exact Ha1|]. split; [exact Ha2|].
    intros Ho. rewrite Ho in Ha3. discriminate Ha3. }
  exists n. split; [exact Hr|]. split; [exact Hon|]. split.
  - apply (proj2 (Hiff (Some "d"))). right; right. split.
    + exists c. split; [exact Hc|]. rewrite Hd. reflexivity.
    + intros a Ha. rewrite Hlast in Ha. discriminate Ha.
  - intros v s' E. destruct (proj1 (Hiff (Some "e"))) as [H1|[H1|[(c' & Hc' & H1) _]]].
    + exists v, s'. exact E.
    + rewrite Hon in H1. discriminate H1.
    + discriminate H1.
    + rewrite Hc in Hc'. injection Hc' as <-. rewrite Hd in H1. discriminate H1.
Defined.
