(* ===== verification/RunProperties.v ===== *)
(** * What runs, evidence and acceptance guarantee

    The outcome of a launch, of a reconciliation with the engine, of an evidence row and
    of an acceptance, as functions of what the operation found. *)
From S2P Require Import Prelude Json Text Dag Store Graph History Portfolio Presence Claims.
From S2P Require Import Enforcement Review Attempts Evidence External Registry Inbox Issues Design.
From S2P Require Import Takeover Recovery Handoffs View Ledger System.
From S2P Require Import Returns Lifecycle Exclusion Soundness Receipts Sample.

(** ** Outcomes *)
Section settling.
Context `{Host}.

Definition settled_status (q : attempt_status) (fresh : bool) : attempt_status :=
  if (bool_decide (q = Candidate) || bool_decide (q = Failed)) && negb fresh then Superseded else q.

Lemma settle_run_run aid actor row q c s :
  wp (settle_run aid actor row q c) (λ r s', ∃ a, attempt_at s aid = Some a ∧
    attempt_at s' aid = Some (pb_row r.1) ∧ a_run a = Some (rn_id row) ∧ r.2 = negb (pins_current s a) ∧
    a_status (pb_row r.1) = settled_status q (pins_current s a) ∧
    negb (ACTIVE (a_status a)) && ACTIVE (a_status (pb_row r.1)) = false ∧ a_status a ≠ Abandoned ∧
    a_artifact (pb_row r.1) = match (if bool_decide (a_status (pb_row r.1) = Candidate) then c else None) with
                              | Some x => Some x | None => a_artifact a end ∧
    evidence s' = evidence s ∧ acceptances s' = acceptances s ∧ length (attempts s') = length (attempts s)) s.
Proof.
  unfold settle_run. apply wp_bind, wp_attempt_at. intros a Ha HK.
  apply wp_bind, wp_require. intros Hrun%bool_decide_eq_true. apply wp_bind, wp_node. intros n _ _ _.
  apply wp_bind, wp_gets. cbv zeta. set (fresh := pins_current s a).
  change (if _ && negb fresh then Superseded else q) with (settled_status q fresh).
  set (st := settled_status q fresh). unfold terminal.
  apply wp_bind, wp_require. intros Hrev%negb_true_iff. apply wp_bind, wp_require.
  intros Hab%negb_true_iff%bool_decide_eq_false. apply wp_bind.
  eapply (wp_mono _ (λ art s', s' = s ∧ art = match (if bool_decide (st = Candidate) then c else None) with
                                            | Some x => Some x | None => a_artifact a end)).
  { destruct (if bool_decide (st = Candidate) then c else None); wp_all; done. }
  intros art s0 [-> Hart]. apply wp_bind, wp_gets, wp_bind.
  eapply (wp_mono _ (λ _ s', (∃ a', attempt_at s' aid = Some a' ∧ a_status a' = st ∧ a_artifact a' = art) ∧
    evidence s' = evidence s ∧ acceptances s' = acceptances s ∧ length (attempts s') = length (attempts s))).
  { apply wp_when; intros Hc.
    - apply wp_bind. eapply (wp_mono _ (λ _ s', attempts s' = attempts s ∧ evidence s' = evidence s ∧
        acceptances s' = acceptances s)).
      { repeat apply wp_conj;
          [apply (untouched_when attempts)|apply (untouched_when evidence)|apply (untouched_when acceptances)];
          unfold retract_acceptance; frame. }
      intros [] s1 (Ea & Ee & Er). apply wp_bind, wp_now. intros t. apply wp_bind. unfold update_attempt.
      apply wp_modify. apply wp_bind.
      eapply (wp_mono _ (λ _ s', (∃ k ns, s' = s1 <| attempts ::= update_where (λ x, bool_decide (a_id x = aid))
        (λ r, r <| a_status := st |> <| a_artifact := art |> <| a_error := jstr_of (rn_error row) |>
                <| a_updated := t |>) |> <| ticks := k |> <| nodes := ns |>))).
      { apply wp_when; intros _; unfold mark_candidate, update_node; wp_all; by eexists _, _. }
      intros [] s2 (k & ns & ->). unfold event. wp_all. unfold attempt_at. simpl. rewrite Ea, Ee, Er.
      split_and!; try done; [|by rewrite length_update_where].
      eexists. split; [by apply attempt_at_update|]. done.
    - split; [|done]. exists a. split; [done|]. bsimpl. split; congruence. }
  intros [] s1 ((a' & Ha' & Hst & Har) & He & Hr & Hlen). apply wp_bind.
  eapply (wp_mono _ (λ _ s', attempts s' = attempts s1 ∧ evidence s' = evidence s1 ∧ acceptances s' = acceptances s1)).
  { repeat apply wp_conj;
      [apply (untouched_when attempts)|apply (untouched_when evidence)|apply (untouched_when acceptances)];
      unfold release_bound_claims, release_bound, history; frame. }
  intros [] s2 (Ea & Ee & Er). apply wp_bind, wp_attempt_at. intros a'' Ha'' _.
  unfold attempt_at in Ha''. rewrite Ea in Ha''. assert (a'' = a') as -> by (unfold attempt_at in Ha'; congruence).
  apply wp_bind, wp_public. intros v t Hv. apply wp_ret. exists a. simpl. rewrite Hv.
  unfold attempt_at in *. simpl. rewrite Ea, Ee, Er, He, Hr, Hlen, Hst, Har. by split_and!.
Qed.
End settling.

Section run_properties.
Context `{Host}.

(** Settling a run sets the attempt to the reported status, or to superseded when a final
    report finds the inputs changed; it never revives a final attempt nor touches an
    abandoned one, and records the artifact only with a candidate. *)
Theorem settle_effect aid actor row q c s v stale s' :
  settle_run aid actor row q c s = Ok ((v, stale), s') →
  ∃ a, attempt_at s aid = Some a ∧ attempt_at s' aid = Some (pb_row v) ∧ a_run a = Some (rn_id row) ∧
    stale = negb (pins_current s a) ∧ a_status (pb_row v) = settled_status q (pins_current s a) ∧
    (ACTIVE (a_status a) = false → ACTIVE (a_status (pb_row v)) = false) ∧ a_status a ≠ Abandoned ∧
    (a_status (pb_row v) ≠ Candidate → a_artifact (pb_row v) = a_artifact a) ∧
    (∀ x, a_status (pb_row v) = Candidate → c = Some x → a_artifact (pb_row v) = Some x) ∧
    evidence s' = evidence s ∧ acceptances s' = acceptances s.
Proof.
  intros E. destruct (wp_run _ _ _ _ _ (settle_run_run aid actor row q c s) E)
    as (a & Ha & Ha' & Hrun & Hst & Hstatus & Hrev & Hab & Hart & He & Hr & _). simpl in *.
  exists a. split_and!; try done.
  - intros Hf. rewrite Hf in Hrev. simpl in Hrev. by destruct (ACTIVE (a_status (pb_row v))).
  - intros Hne. rewrite Hart. by rewrite bool_decide_eq_false_2.
  - intros x Hc ->. rewrite Hart. by rewrite bool_decide_eq_true_2.
Qed.

Lemma engine_row_ok sf run a row :
  engine_row sf run a = Ok row → ∃ raw, get_run sf run = Some raw ∧
    parse_run_status (jget "status" raw) = Some (rn_status row) ∧
    jget "graph_digest" raw = Some (JStr (rn_digest row)).
Proof.
  intros He. unfold engine_row in He. destruct (get_run sf run) as [raw|] eqn:Hraw; [|done]. res_inv_all.
  destruct (parse_run_status (jget "status" raw)) as [st|] eqn:Hps; [|done].
  destruct (jget "graph_version" raw) as [[| |ver| | |]|]; try done.
  destruct (jget "graph_digest" raw) as [[| | |pin| |]|] eqn:Hpin; try done. res_inv_all.
  destruct (get_graph_version _ _ _) as [gv|]; [|done]. res_inv_all.
  destruct (jget "graph" gv ≫= graph_digest sf) as [gd|]; [|done]. res_inv_all. by exists raw.
Qed.
Lemma audit_run_quiet sf run :
  audit_run sf run = Ok Quiet → ∃ audit, audit_operation_owners sf run = Some audit ∧
    jget "lost" audit = Some (JArr []) ∧ jget "unknown" audit = Some (JArr []) ∧
    jget "alive" audit = Some (JInt 0).
Proof.
  unfold audit_run. intros Hau. destruct (audit_operation_owners sf run) as [audit|]; [|done].
  destruct (jget "lost" audit) as [[| | | |lost|]|] eqn:Hl; try done.
  destruct (jget "unknown" audit) as [[| | | |unk|]|] eqn:Hu; try done.
  destruct (jget "alive" audit) as [[| |alive| | |]|] eqn:Hal; try done.
  res_inv_all. destruct (_ && _ && _) eqn:E in Hau; [|done]. bsimpl. subst. by exists audit.
Qed.

(** C15: [reconcile] reports a candidate only when the engine says so: the bound run completed, its
    graph pin is the one the attempt was bound with, the audit names no lost, unknown or live
    operation, and the attempt's inputs are current. *)
Theorem candidate_means_done sf aid c actor s v stale s' :
  reconcile sf aid c actor s = Ok ((v, stale), s') → a_status (pb_row v) = Candidate →
  ∃ a run row audit pin, attempt_at s aid = Some a ∧ a_run a = Some run ∧ get_run sf run = Some row ∧
    parse_run_status (jget "status" row) = Some RCompleted ∧
    jget "graph_digest" row = Some (JStr pin) ∧ a_graph_digest a = Some pin ∧
    audit_operation_owners sf run = Some audit ∧ jget "lost" audit = Some (JArr []) ∧
    jget "unknown" audit = Some (JArr []) ∧ jget "alive" audit = Some (JInt 0) ∧ pins_current s a = true.
Proof.
  intros E Hst. refine (wp_run _ (λ r s', a_status (pb_row r.1) = Candidate → _) _ _ _ _ E Hst). clear E Hst.
  unfold reconcile. apply wp_bind, wp_attempt_at. intros a Ha _. apply wp_bind, wp_lift. intros [row q] Ho.
  eapply wp_mono; [apply settle_run_run|].
  intros [v' st'] s1 (a0 & Ha0 & _ & Hrun & _ & Hs & _). simpl in *. intros Hc. rewrite Hc in Hs.
  assert (a0 = a) as -> by congruence. unfold settled_status in Hs.
  assert (q = Candidate ∧ pins_current s a = true) as [-> Hp].
  { destruct (pins_current s a); [rewrite andb_false_r in Hs; by subst|].
    destruct q; simpl in Hs; try done. }
  unfold observe_run in Ho. res_inv_all. destruct (truthy (a_run a)) as [run|] eqn:Ht; [|done].
  assert (a_run a = Some run) as Hr.
  { rewrite Hrun in Ht |- *. unfold truthy in Ht. by destruct (bool_decide (rn_id row = "")). }
  res_inv_all. bsimpl.
  match goal with E : engine_row _ _ _ = Ok _ |- _ => destruct (engine_row_ok _ _ _ _ E) as (raw & Hraw & Hps & Hpin) end.
  assert (rn_status row = RCompleted ∧ audit_run sf (rn_id row) = Ok Quiet) as [Hcomp Hquiet].
  { match goal with E : outcome_status _ ?x = Candidate |- _ => rename E into Ho; destruct x end;
      destruct (rn_status row); simpl in Ho; repeat case_bool_decide; try done. }
  destruct (audit_run_quiet _ _ Hquiet) as (audit & ? & ? & ? & ?).
  exists a, (rn_id row), raw, audit, (rn_digest row). rewrite Hcomp in Hps. by split_and!.
Qed.
End run_properties.

(** ** Evidence *)
Section evidence_properties.
Context `{Host}.

(** What recording looked at, when it appended a row. *)
Record evidence_appended (e : evidence_args) (sf : option engine) (s s' : db) (row : evidence_row) : Prop :=
  EvidenceAppended {
  va_attempt : ∃ a t, attempt_at s (ea_attempt e) = Some a ∧ check_attestation e = Ok t ∧
    evidence_guards e t a sf s = Ok tt ∧ pinned_kind a (ea_criterion e) = Some (v_kind row) ∧
    v_verdict row = at_verdict t ∧ v_report_sha row = at_sha t ∧ v_reviewer row = at_reviewer t ∧
    v_hash row = digest (jobj (attestation_payload e t));
  va_row : v_id row = ea_id e ∧ v_attempt row = ea_attempt e ∧ v_criterion row = ea_criterion e ∧
    v_artifact row = ea_artifact e;
  va_fresh : ∀ v, v ∈ evidence s → v_id v ≠ ea_id e;
  va_evidence : evidence s' = evidence s ++ [row];
  va_rest : attempts s' = attempts s ∧ acceptances s' = acceptances s ∧ observations s' = observations s;
}.

Lemma store_blob_run ref sha bytes s :
  wp (store_optional_blob ref sha bytes) (λ _ s', s' = s <| blobs := blobs s' |> <| ticks := ticks s' |> ∧
    ∀ b, bytes = Some b → ∃ row, blobs s' !! sha = Some row ∧ bl_bytes row = b ∧ bl_ref row = ref) s.
Proof.
  unfold store_optional_blob, store_report_blob. destruct bytes as [b|].
  - apply wp_bind, wp_gets. destruct (blobs s !! sha) as [row|] eqn:E; wp_all.
    + split; [by destruct s|]. intros ? [= <-]. bsimpl. by exists row.
    + split; [by destruct s|]. intros ? [= <-]. eexists. simpl. by rewrite lookup_insert_eq.
  - wp_all. by split; [destruct s|].
Qed.

Lemma record_evidence_run e sf s :
  wp (record_evidence e sf) (λ row s',
    (∀ b t, ea_bytes e = Some b → check_attestation e = Ok t →
       ∃ r, blobs s' !! at_sha t = Some r ∧ bl_bytes r = b ∧ bl_ref r = at_ref t) ∧
    (evidence_appended e sf s s' row ∨
     select_one (λ v, bool_decide (v_id v = ea_id e)) (evidence s) = Some row ∧ evidence s' = evidence s ∧
     ∃ t, check_attestation e = Ok t ∧ v_hash row = digest (jobj (attestation_payload e t)))) s.
Proof.
  unfold record_evidence. apply wp_bind, wp_lift. intros t Ht. cbv zeta.
  apply wp_bind, wp_attempt_at. intros a Ha _. apply wp_bind, wp_gets.
  destruct (select_one _ _) as [v|] eqn:Hsel.
  { apply wp_bind, wp_require. intros Hh%bool_decide_eq_true. apply wp_bind.
    eapply wp_mono; [apply store_blob_run|]. intros [] s1 [E Hb]. apply wp_ret.
    split; [intros b t' Hbytes Ht'; assert (t' = t) as -> by congruence; by apply Hb|].
    right. split_and!; [done|by rewrite E|by exists t]. }
  apply wp_bind, wp_gets. unfold id. apply wp_bind, wp_lift. intros [] Hg. apply wp_bind.
  eapply wp_mono; [apply store_blob_run|]. intros [] s1 [E Hb].
  apply wp_bind, wp_get_some. intros kind Hk. apply wp_bind, wp_now. intros stamp. cbv zeta.
  set (row := EvidenceRow _ _ _ _ _ _ _ _ _ _ _ _ _). apply wp_bind, wp_modify, wp_bind, wp_node. intros n _ _ _.
  apply wp_bind. eapply (wp_mono _ (λ _ s2, (attempts s2, acceptances s2, observations s2, evidence s2, blobs s2) =
    (attempts s, acceptances s, observations s, evidence s ++ [row], blobs s1))).
  { eapply wp_mono; [apply (untouched_when (λ s, (attempts s, acceptances s, observations s, evidence s, blobs s)));
      frame|]. intros [] s2 E2. rewrite E2. simpl. by rewrite E. }
  intros [] s2 E2. injection E2 as Ea Er Eo Ee Eb. unfold event. wp_all. simpl. rewrite Eb. split.
  { intros b t' Hbytes Ht'. assert (t' = t) as -> by congruence. by apply Hb. }
  left. split; simpl.
  - exists a, t. by split_and!.
  - done.
  - intros v Hv Hid. assert (bool_decide (v_id v = ea_id e) = false) as Hf.
    { by apply (proj1 (select_one_None _ _) Hsel). }
    by apply bool_decide_eq_false in Hf.
  - done.
  - done.
Qed.

(** A new evidence row is appended only for an exact verdict on a criterion of the
    attempt's pinned contract and on its artifact, from a report no observation used: on an
    eligible candidate, or once per criterion on an eligible failed attempt; nothing else that
    was recorded changes. *)
Theorem evidence_effect e sf s row s' :
  record_evidence e sf s = Ok (row, s') →
  evidence s' = evidence s ∧ row ∈ evidence s ∧ v_id row = ea_id e ∨
  evidence s' = evidence s ++ [row] ∧ attempts s' = attempts s ∧ acceptances s' = acceptances s ∧
  (∀ o, o ∈ observations s → ob_report_sha o ≠ v_report_sha row) ∧
  ∃ a, attempt_at s (ea_attempt e) = Some a ∧ pinned_kind a (v_criterion row) = Some (v_kind row) ∧
    (eligible_candidate s a = Ok tt ∧ a_artifact a = Some (v_artifact row) ∨
     a_status a = Failed ∧ v_verdict row ≠ Skip ∧ eligible_failed_evidence s a (v_artifact row) sf = Ok tt ∧
     ∀ v, v ∈ evidence_of s (a_id a) → v_criterion v ≠ v_criterion row).
Proof.
  intros E. destruct (wp_run _ _ _ _ _ (record_evidence_run e sf s) E) as [_ [Ha|(Hsel & He & _)]].
  - right. destruct Ha as [(a & t & Hat & Ht & Hg & Hk & Hv & Hsha & _) (_ & _ & Hcr & Har) _ Hev (Hatt & Hacc & _)].
    unfold evidence_guards in Hg. apply res_bind_ok in Hg as ([] & Hg & Hind).
    apply ensure_ok, negb_true_iff in Hind. split_and!; try done.
    + intros o Ho Heq. assert (existsb (λ o, bool_decide (ob_report_sha o = at_sha t)) (observations s) = true);
        [|congruence]. apply existsb_exists. exists o. split; [by apply list_elem_of_In|].
      apply bool_decide_eq_true. congruence.
    + exists a. rewrite Hcr, Har, Hv. split_and!; [done|done|]. case_bool_decide as Hf.
      * right. res_inv_all. bsimpl. split_and!; try done.
        { match goal with H : eligible_failed_evidence _ _ _ _ = Ok ?u |- _ => by destruct u end. }
        intros v Hin Heq. apply not_true_iff_false in Hg. apply Hg.
        apply existsb_exists. exists v. split; [by apply list_elem_of_In|by apply bool_decide_eq_true].
      * left. res_inv_all. bsimpl. split; [|done].
        match goal with H : eligible_candidate _ _ = Ok ?u |- _ => by destruct u end.
  - left. apply select_one_Some in Hsel as [Hin Hid%bool_decide_eq_true]. by split_and!.
Qed.

(** Recording evidence is idempotent: once a row was returned, the same call returns the
    same row at any later time, and the evidence stays as it is. *)
Theorem evidence_idempotent e sf sf' s row s1 s2 :
  record_evidence e sf s = Ok (row, s1) → rtc step s1 s2 →
  ∃ s3, record_evidence e sf' s2 = Ok (row, s3) ∧ evidence s3 = evidence s2 ∧ blobs s3 = blobs s2 ∧
    attempts s3 = attempts s2 ∧ nodes s3 = nodes s2 ∧ events s3 = events s2.
Proof.
  intros E Hss. pose proof (wp_run _ _ _ _ _ (record_evidence_run e sf s) E) as [Hblob Hrow].
  pose proof (steps_keep ledger s1 s2 operation_ledger Hss) as Hl.
  assert (ledger s s1) as Hl0 by exact (wp_run _ _ _ _ _ (operation_ledger _ _ (op_record_evidence e sf) s) E).
  assert (select_one (λ v, bool_decide (v_id v = ea_id e)) (evidence s1) = Some row ∧
    ∃ t, check_attestation e = Ok t ∧ v_hash row = digest (jobj (attestation_payload e t))) as (Hsel & t & Ht & Hh).
  { destruct Hrow as [[(a & t & _ & Ht & _ & _ & _ & _ & _ & Hh) (Hid & _) Hfresh Hev _]|(Hsel & Hev & t & Ht & Hh)].
    - split; [|by exists t]. rewrite Hev, select_one_snoc.
      rewrite (proj2 (select_one_None _ _)) by (intros v Hv; by apply bool_decide_eq_false, Hfresh).
      by rewrite bool_decide_eq_true_2.
    - rewrite Hev. split; [done|by exists t]. }
  assert (select_one (λ v, bool_decide (v_id v = ea_id e)) (evidence s2) = Some row) as Hsel2.
  { destruct (lg_evidence _ _ Hl) as [l ->]. unfold select_one in *. revert Hsel.
    generalize (evidence s1). intros l1. induction l1 as [|v l1 IH]; [done|]. simpl.
    destruct (bool_decide (v_id v = ea_id e)); [done|exact IH]. }
  assert (∃ a, attempt_at s2 (ea_attempt e) = Some a ∧ KEY (ea_attempt e) = true) as (a & Ha & HK).
  { assert (∃ a, attempt_at s (ea_attempt e) = Some a ∧ KEY (ea_attempt e) = true) as (a & Ha & HK).
    { refine (wp_run _ (λ _ _, _) _ _ _ _ E). unfold record_evidence. apply wp_bind, wp_lift. intros t' _. cbv zeta.
      apply wp_bind, wp_attempt_at. intros a Ha HK. apply run_wp. intros _ _ _. by exists a. }
    assert (ea_attempt e ∈ a_id <$> attempts s2) as Hin.
    { assert (∀ l, (λ x, x.1.1.1.1.1.1.1.1.1) ∘ attempt_identity <$> l = a_id <$> l) as Hproj
        by (intros l; by apply list_fmap_ext).
      assert (ledger s s2) as Hl2 by by transitivity s1. destruct (lg_attempts _ _ Hl2) as [l Hl'].
      rewrite <- Hproj, list_fmap_compose, Hl', fmap_app, <- list_fmap_compose, Hproj. apply elem_of_app. left.
      apply select_one_Some in Ha as [Hin Hid%bool_decide_eq_true]. rewrite <- Hid. by apply list_elem_of_fmap_2. }
    apply list_elem_of_fmap in Hin as (b & Hb & Hin). destruct (attempt_at s2 (ea_attempt e)) as [x|] eqn:Hx; [by exists x|].
    unfold attempt_at in Hx. rewrite select_one_None in Hx. specialize (Hx b Hin). by apply bool_decide_eq_false in Hx. }
  assert (twp (record_evidence e sf') (λ r s3, r = row ∧ s3 = s2) s2) as Htw.
  { unfold record_evidence. apply twp_bind. eapply twp_lift; [exact Ht|]. cbv zeta.
    apply twp_bind. eapply twp_attempt; [done|exact Ha|]. apply twp_bind, twp_gets. rewrite Hsel2.
    apply twp_bind, twp_require; [by apply bool_decide_eq_true|]. apply twp_bind.
    unfold store_optional_blob. destruct (ea_bytes e) as [b|] eqn:Hb; [|by do 2 apply twp_ret].
    destruct (Hblob b t eq_refl Ht) as (r & Hr & Hrb & Hrr).
    assert (blobs s2 !! at_sha t = Some r) as Hr2 by (eapply lookup_weaken; [exact Hr|apply Hl]).
    unfold store_report_blob. apply twp_bind, twp_gets. rewrite Hr2. apply twp_require; [|by apply twp_ret].
    by rewrite Hrb, Hrr, !bool_decide_eq_true_2. }
  apply twp_returns in Htw as (r & s3 & E3 & -> & ->). exists s2. by split_and!.
Qed.
End evidence_properties.

(** ** Launch and acceptance *)
Section acceptance_effects.
Context `{Host}.

(** A launch is decided by the reservation as it stands: only a reserved attempt whose pinned
    revision, contract and verified dependencies are still current is launched; a reserved
    attempt whose inputs changed is superseded; any other is left alone. *)
Theorem launch_effect aid d adm ac c f s b s' :
  claim_launch aid d adm ac c f s = Ok (b, s') →
  ∃ a, attempt_at s aid = Some a ∧
    if negb (bool_decide (a_status a = Reserved)) then b = false ∧ s' = s
    else dispatch_block s (a_project a) (a_node a) = None ∧ b = pins_current s a ∧
      ∃ a', attempt_at s' aid = Some a' ∧ a_status a' = (if b then Launching else Superseded) ∧
        a_artifact a' = a_artifact a ∧ a_run a' = a_run a.
Proof.
  refine (wp_run _ (λ b s', ∃ a, attempt_at s aid = Some a ∧ _) _ _ _ _).
  unfold claim_launch. apply wp_bind, wp_attempt_at. intros a Ha _.
  destruct (negb (bool_decide (a_status a = Reserved))) eqn:Hst.
  { apply wp_ret. exists a. by rewrite Hst. }
  apply wp_bind, wp_now. intros t. apply wp_bind, wp_gets. unfold id. apply wp_bind, wp_lift. intros [bg rebind] _.
  apply wp_bind. unfold require_dispatch. apply wp_bind, wp_gets.
  change (dispatch_block (s <| ticks ::= S |>)) with (dispatch_block s).
  destruct (dispatch_block s _ _) as [[]|] eqn:Hb; try apply wp_raise. apply wp_ret.
  apply wp_bind, wp_node. intros n _ _ _.
  change (pins_current (s <| ticks ::= S |>) a) with (pins_current s a).
  destruct (pins_current s a) eqn:Hp; unfold update_attempt, update_claim, event; wp_all;
    exists a; rewrite Hst, Hp; unfold attempt_at; simpl;
    (split_and!; [done|done|done|eexists; split; [by apply (attempt_at_update s)|done]]).
Qed.

Lemma verify_run p nk e aid r b s :
  wp (verify p nk e aid r b) (λ x s', ∃ n a, nodes s !! (p, nk) = Some n ∧ attempt_at s aid = Some a ∧
    e = JInt (n_revision n) ∧ of_node p nk a = true ∧ eligible_candidate s a = Ok tt ∧
    failing (n_contract n) (latest_by_criterion (evidence_of s aid)) = [] ∧
    rc_attempt x.2 = aid ∧
    rc_evidence x.2 = omap (λ c, v_id <$> latest_by_criterion (evidence_of s aid) !! c_id c) (n_contract n) ∧
    if bool_decide (truthy (n_receipt n) = None) then
      acceptances s !! x.1 = None ∧ acceptances s' = <[x.1 := x.2]> (acceptances s) ∧
      rc_project x.2 = p ∧ rc_node x.2 = nk ∧ rc_revision x.2 = n_revision n ∧ rc_hash x.2 = n_hash n ∧
      a_artifact a = Some (rc_artifact x.2) ∧ rc_snapshot x.2 = a_snapshot a ∧ x.1 ≠ "" ∧
      ∃ t, nodes s' = alter (λ m, m <| n_status := VERIFIED |> <| n_receipt := Some x.1 |> <| n_updated := t |>)
                        (p, nk) (nodes s) ∧
        s' = s <| acceptances := acceptances s' |> <| nodes := nodes s' |> <| events := events s' |>
               <| ticks := ticks s' |> <| draws := draws s' |>
    else truthy (n_receipt n) = Some x.1 ∧ acceptances s !! x.1 = Some x.2 ∧ s' = s) s.
Proof.
  unfold verify. apply wp_bind, wp_lift. intros expected [-> _]%integer_ok. apply wp_bind, wp_lift. intros who _.
  apply wp_bind, wp_node. intros n Hn _ _. apply wp_bind, wp_attempt_at. intros a Ha _.
  apply wp_bind, wp_require. intros Hof. bsimpl. apply wp_bind, wp_gets. unfold id.
  apply wp_bind, wp_lift. intros [] He. cbv zeta. apply wp_bind, wp_require. intros Hf%bool_decide_eq_true.
  apply wp_bind, wp_require. intros _. subst expected.
  destruct (truthy (n_receipt n)) as [rid|] eqn:Hrc.
  - unfold acceptance_row_at. apply wp_bind, wp_gets. destruct (acceptances s !! rid) as [row|] eqn:Hrow; [|apply wp_raise].
    apply wp_bind, wp_require. intros Hsame. bsimpl. apply wp_ret. exists n, a. simpl.
    rewrite Hrc, bool_decide_eq_false_2 by done. by split_and!.
  - apply wp_bind, wp_uuid4. intros u. cbv zeta. apply wp_bind, wp_lift. intros prov _.
    apply wp_bind, wp_now. intros t. cbv zeta. unfold insert_acceptance, acceptance_row_at, update_node, event.
    wp_all. exists n, a. simpl. rewrite Hrc, bool_decide_eq_true_2 by done. bsimpl.
    destruct (eligible_candidate_ok _ _ He) as (_ & Hart & _).
    assert (a_artifact a = Some (default "" (a_artifact a))) as Hart' by (by destruct Hart; destruct (a_artifact a)).
    split_and!; try done. by eexists.
Qed.

(** C18: [verify] accepts exactly what it was shown: an eligible candidate of this node and
    revision with a passing latest row on every criterion. It then writes one receipt naming
    the attempt, its artifact and those rows, and marks the node verified by it; on a
    node that already names a matching receipt it returns that and writes nothing. *)
Theorem verify_effect p nk e aid r b s rid row s' :
  verify p nk e aid r b s = Ok ((rid, row), s') →
  ∃ n a, nodes s !! (p, nk) = Some n ∧ attempt_at s aid = Some a ∧ e = JInt (n_revision n) ∧
    eligible_candidate s a = Ok tt ∧
    (∀ c, c ∈ n_contract n → ∃ v, latest_by_criterion (evidence_of s aid) !! c_id c = Some v ∧ v_verdict v = Pass) ∧
    rc_attempt row = aid ∧
    if bool_decide (truthy (n_receipt n) = None) then
      acceptances s !! rid = None ∧ acceptances s' = <[rid := row]> (acceptances s) ∧
      rc_revision row = n_revision n ∧ rc_hash row = n_hash n ∧ a_artifact a = Some (rc_artifact row) ∧
      (∃ n', nodes s' !! (p, nk) = Some n' ∧ n_status n' = VERIFIED ∧ n_receipt n' = Some rid ∧
         content_of n' = content_of n) ∧
      ∀ k, k ≠ (p, nk) → nodes s' !! k = nodes s !! k
    else n_receipt n = Some rid ∧ acceptances s !! rid = Some row ∧ s' = s.
Proof.
  intros E. destruct (wp_run _ _ _ _ _ (verify_run p nk e aid r b s) E)
    as (n & a & Hn & Ha & He & _ & Hel & Hf & Hrc & _ & Hcase). simpl in *.
  exists n, a. split_and!; try done.
  - intros c Hc. destruct (latest_by_criterion (evidence_of s aid) !! c_id c) as [v|] eqn:Hv.
    + exists v. split; [done|]. destruct (bool_decide (v_verdict v = Pass)) eqn:Hp; [by apply bool_decide_eq_true in Hp|].
      exfalso. assert (c_id c ∈ failing (n_contract n) (latest_by_criterion (evidence_of s aid))) as Hin;
        [|rewrite Hf in Hin; by apply elem_of_nil in Hin].
      unfold failing. apply list_elem_of_fmap_2. apply list_elem_of_In, filter_In. rewrite Hv, Hp.
      split; [by apply list_elem_of_In|done].
    + exfalso. assert (c_id c ∈ failing (n_contract n) (latest_by_criterion (evidence_of s aid))) as Hin;
        [|rewrite Hf in Hin; by apply elem_of_nil in Hin].
      unfold failing. apply list_elem_of_fmap_2. apply list_elem_of_In, filter_In. rewrite Hv.
      split; [by apply list_elem_of_In|done].
  - case_bool_decide.
    + destruct Hcase as (H1 & H2 & _ & _ & H3 & H4 & H5 & _ & _ & t & H6 & _). split_and!; try done.
      * eexists. rewrite H6, lookup_alter_eq, Hn. split; [reflexivity|]. done.
      * intros k Hk. by rewrite H6, lookup_alter_ne.
    + destruct Hcase as (H1 & H2 & H3). split_and!; try done. unfold truthy in H1.
      destruct (n_receipt n); [|done]. destruct (bool_decide _) in H1; [done|congruence].
Qed.

Lemma eligible_after_verdict s s1 p nk n a rid t :
  graph_inv s → nodes s !! (p, nk) = Some n → of_node p nk a = true →
  s1 = s <| acceptances := acceptances s1 |> <| nodes := nodes s1 |> <| events := events s1 |>
         <| ticks := ticks s1 |> <| draws := draws s1 |> →
  nodes s1 = alter (λ m, m <| n_status := VERIFIED |> <| n_receipt := Some rid |> <| n_updated := t |>) (p, nk) (nodes s) →
  eligible_candidate s a = Ok tt → eligible_candidate s1 a = Ok tt.
Proof.
  intros Hg Hn Hof E En Hel. destruct (eligible_candidate_ok _ _ Hel) as (_ & _ & Hpin & _).
  assert (pins_current s1 a = true) as Hpin1.
  { unfold of_node in Hof. bsimpl. unfold pins_current in *.
    match goal with E1 : a_project a = p, E2 : a_node a = nk |- _ => rewrite E1, E2 in * end.
    assert (nk ∉ deps_at s p nk) as Hself.
    { intros Hin. apply (gi_acyclic _ Hg p nk), tc_once. unfold edge, preds. rewrite lookup_graph_of, Hn.
      simpl. by apply elem_of_sorted_set. }
    rewrite En, lookup_alter_eq, Hn. rewrite Hn in Hpin. simpl. bsimpl.
    rewrite (dependency_snapshot_ext s s1).
    - rewrite !bool_decide_eq_true_2 by done. done.
    - by rewrite E.
    - intros x Hx. rewrite En, lookup_alter_ne by congruence. done. }
  unfold eligible_candidate in *. rewrite Hpin in Hel. rewrite Hpin1.
  assert (is_latest s1 a = is_latest s a) as -> by (by rewrite E).
  assert (observation_at s1 = observation_at s) as -> by (by rewrite E).
  destruct (a_kind a); [|destruct (observation_at _ _ _)]; try done.
  assert (∀ x y, retained_bytes s1 x y = retained_bytes s x y) as Hb by (intros; by rewrite E).
  by rewrite Hb.
Qed.

(** Acceptance is idempotent: repeating an accepted [verify] returns the same receipt and
    changes nothing. *)
Theorem verify_idempotent p nk e aid r b s rid row s1 :
  reachable s → verify p nk e aid r b s = Ok ((rid, row), s1) → verify p nk e aid r b s1 = Ok ((rid, row), s1).
Proof.
  intros Hs E. destruct (wp_run _ _ _ _ _ (verify_run p nk e aid r b s) E)
    as (n & a & Hn & Ha & He & Hof & Hel & Hf & Hrc & Hev & Hcase). simpl in *.
  destruct (bool_decide (truthy (n_receipt n) = None)) eqn:Hnew; [|by destruct Hcase as (_ & _ & ->)].
  destruct Hcase as (H1 & H2 & _ & _ & _ & _ & _ & _ & Hne & t & H6 & Es).
  destruct (reachable_facts s Hs) as [Hg _].
  assert (∃ who rev, text r "acceptance reviewer" 300 = Ok who ∧ integer e "expected_revision" 1 1000000 = Ok rev ∧
    KEY p = true ∧ KEY nk = true ∧ KEY aid = true ∧ (negb b || forallb (λ p, retained_bytes s (v_report_sha p.2)
      (v_report_ref p.2)) (map_to_list (latest_by_criterion (evidence_of s aid))) = true))
    as (who & rev & Hwho & Hrev & HKp & HKn & HKa & Hbytes).
  { refine (wp_run _ (λ _ _, _) _ _ _ _ E). unfold verify. apply wp_bind, wp_lift. intros rev Hrev.
    apply wp_bind, wp_lift. intros who Hwho. apply wp_bind, wp_node. intros n0 _ HKp HKn.
    apply wp_bind, wp_attempt_at. intros a0 _ HKa. apply wp_bind, wp_require. intros _. apply wp_bind, wp_gets.
    unfold id. apply wp_bind, wp_lift. intros _ _. cbv zeta. apply wp_bind, wp_require. intros _.
    apply wp_bind, wp_require. intros Hb. apply run_wp. intros _ _ _. by exists who, rev. }
  assert (∀ x y, retained_bytes s1 x y = retained_bytes s x y) as Hb by (intros; by rewrite Es).
  assert (evidence_of s1 aid = evidence_of s aid) as Eev by (by rewrite Es).
  assert (twp (verify p nk e aid r b) (λ x s', x = (rid, row) ∧ s' = s1) s1) as Ht;
    [|apply twp_returns in Ht as (x & s' & E' & -> & ->); exact E'].
  unfold verify. apply twp_bind. eapply twp_lift; [exact Hrev|]. apply twp_bind. eapply twp_lift; [exact Hwho|].
  apply twp_bind. eapply (twp_node _ _ _ s1); [done|done|by rewrite H6, lookup_alter_eq, Hn|].
  apply twp_bind. eapply (twp_attempt _ a); [done|by rewrite Es|].
  apply twp_bind, twp_require.
  { rewrite Hof. simpl. apply bool_decide_eq_true. apply integer_ok in Hrev as [Hrev _]. congruence. }
  apply twp_bind, twp_gets. unfold id. apply twp_bind. eapply twp_lift; [by eapply eligible_after_verdict|].
  cbv zeta. rewrite Eev. simpl. apply twp_bind, twp_require; [by apply bool_decide_eq_true|].
  apply twp_bind, twp_require.
  { destruct b; [|done]. simpl in *. rewrite <- Hbytes.
    generalize (map_to_list (latest_by_criterion (evidence_of s aid))). intros l.
    induction l as [|x l IH]; [done|]. simpl. by rewrite Hb, IH. }
  rewrite bool_decide_eq_false_2 by done. unfold acceptance_row_at. apply twp_bind, twp_gets.
  rewrite H2, lookup_insert_eq. apply twp_bind, twp_require; [|by apply twp_ret].
  by rewrite Hrc, Hev, !bool_decide_eq_true_2.
Qed.
End acceptance_effects.

(** ** Witnesses *)
Definition settling_a : M db (public_view * bool) :=
  settle_run attempt_a None (completed "run-1") (outcome_status (rn_status (completed "run-1")) Quiet) (Some artifact_a).
Lemma settle_effect_witness : ∃ v,
  settling_a s_bound = Ok ((v, false), after settling_a s_bound) ∧
  a_status (pb_row v) = Candidate ∧ a_artifact (pb_row v) = Some artifact_a.
Proof.
  unfold settling_a.
  assert (∃ v, settle_run attempt_a None (completed "run-1") (outcome_status (rn_status (completed "run-1")) Quiet)
      (Some artifact_a) s_bound
    = Ok ((v, false), after (settle_run attempt_a None (completed "run-1")
        (outcome_status (rn_status (completed "run-1")) Quiet) (Some artifact_a)) s_bound) ∧
      a_status (pb_row v) = Candidate) as (v & E & Hst) by (eexists; split; [vm_compute; reflexivity|reflexivity]).
  destruct (settle_effect attempt_a None (completed "run-1") (outcome_status (rn_status (completed "run-1")) Quiet)
    (Some artifact_a) s_bound v false _ E) as (a & _ & _ & _ & _ & _ & _ & _ & _ & Hart & _).
  exists v. split; [exact E|]. split; [exact Hst|]. exact (Hart artifact_a Hst eq_refl).
Defined.

(** The engine reports the run completed. *)
Definition done_engine : engine := {|
  get_run run := Some (jobj [("id", JStr run); ("project_id", JStr ("sg-" +:+ hex_word 32 0));
    ("graph_name", JStr "wf"); ("status", JStr "completed"); ("graph_version", JInt 1);
    ("graph_digest", JStr sample_pin)]);
  get_graph_version _ _ := Some (jobj [("digest", JStr sample_pin); ("graph", JStr "g")]);
  graph_digest _ := Some sample_pin;
  audit_operation_owners _ := Some (jobj [("lost", JArr []); ("unknown", JArr []); ("alive", JInt 0)]) |}.
Lemma candidate_means_done_witness : ∃ v pin,
  reconcile done_engine attempt_a (Some artifact_a) None s_bound
    = Ok ((v, false), after (reconcile done_engine attempt_a (Some artifact_a) None) s_bound) ∧
  a_status (pb_row v) = Candidate ∧
  ∃ a, attempt_at s_bound attempt_a = Some a ∧ a_graph_digest a = Some pin.
Proof.
  assert (∃ v, reconcile done_engine attempt_a (Some artifact_a) None s_bound
    = Ok ((v, false), after (reconcile done_engine attempt_a (Some artifact_a) None) s_bound) ∧
      a_status (pb_row v) = Candidate) as (v & E & Hst) by (eexists; split; [vm_compute; reflexivity|reflexivity]).
  destruct (candidate_means_done done_engine attempt_a (Some artifact_a) None s_bound v false _ E Hst)
    as (a & _ & _ & _ & pin & Ha & _ & _ & _ & _ & Hpin & _).
  exists v, pin. split; [exact E|]. split; [exact Hst|]. exists a. split; [exact Ha|exact Hpin].
Defined.

Definition judging : M db evidence_row := record_evidence (passing attempt_a "ev-1" artifact_a) None.
Lemma evidence_effect_witness : ∃ row,
  judging s_candidate = Ok (row, after judging s_candidate) ∧
  (evidence (after judging s_candidate) = evidence s_candidate ∨
   evidence (after judging s_candidate) = evidence s_candidate ++ [row]).
Proof.
  unfold judging. returns row E. exists row. split; [exact E|].
  destruct (evidence_effect (passing attempt_a "ev-1" artifact_a) None s_candidate row _ E)
    as [(He & _)|(He & _)]; [left|right]; exact He.
Defined.
Lemma evidence_idempotent_witness : ∃ row s3,
  judging s_candidate = Ok (row, after judging s_candidate) ∧
  judging s_accepted = Ok (row, s3) ∧ evidence s3 = evidence s_accepted.
Proof.
  unfold judging. returns row E.
  assert (rtc step (after (record_evidence (passing attempt_a "ev-1" artifact_a) None) s_candidate) s_accepted) as Hs.
  { unfold s_accepted, s_judged, s_reported, s_running, s_external, s_claimed, s_verified. do 7 sample_step.
    apply rtc_refl. }
  destruct (evidence_idempotent (passing attempt_a "ev-1" artifact_a) None None s_candidate row _ _ E Hs)
    as (s3 & E3 & He & _).
  exists row, s3. split; [exact E|]. split; [exact E3|exact He].
Defined.

Definition launching_a : M db bool := claim_launch attempt_a None false None None None.
Lemma launch_effect_witness :
  launching_a s_reserved = Ok (true, after launching_a s_reserved) ∧
  ∃ a, attempt_at s_reserved attempt_a = Some a ∧ a_status a = Reserved ∧ pins_current s_reserved a = true.
Proof.
  unfold launching_a.
  assert (claim_launch attempt_a None false None None None s_reserved
    = Ok (true, after (claim_launch attempt_a None false None None None) s_reserved)) as E by (vm_compute; reflexivity).
  destruct (launch_effect attempt_a None false None None None s_reserved true _ E) as (a & Ha & Hcase).
  split; [exact E|]. exists a. split; [exact Ha|].
  destruct (negb (bool_decide (a_status a = Reserved))) eqn:Hst; [destruct Hcase as [[=] _]|].
  apply negb_false_iff, bool_decide_eq_true in Hst. split; [exact Hst|]. symmetry. apply Hcase.
Defined.

Definition accepting : M db (string * acceptance_row) := verify "demo" "a" (JInt 1) attempt_a (JStr "boss") false.
Lemma verify_effect_witness : ∃ rid row,
  accepting s_evidence = Ok ((rid, row), after accepting s_evidence) ∧ rc_attempt row = attempt_a ∧
  ∃ n, nodes s_evidence !! ("demo", "a") = Some n ∧ n_revision n = 1%Z.
Proof.
  unfold accepting. returns r E. destruct r as [rid row]. exists rid, row. split; [exact E|].
  destruct (verify_effect "demo" "a" (JInt 1) attempt_a (JStr "boss") false s_evidence rid row _ E)
    as (n & a & Hn & _ & [= He] & _ & _ & Hrc & _).
  split; [exact Hrc|]. exists n. split; [exact Hn|]. symmetry. exact He.
Defined.
Lemma reachable_evidence : reachable s_evidence.
Proof. unfold s_evidence. sample_step. apply reachable_candidate. Qed.
Lemma verify_idempotent_witness : ∃ r,
  accepting s_evidence = Ok (r, after accepting s_evidence) ∧
  accepting (after accepting s_evidence) = Ok (r, after accepting s_evidence).
Proof.
  unfold accepting. returns r E. destruct r as [rid row]. exists (rid, row). split; [exact E|].
  exact (verify_idempotent "demo" "a" (JInt 1) attempt_a (JStr "boss") false s_evidence rid row _ reachable_evidence E).
Defined.
