(* ===== verification/ExternalProperties.v ===== *)
(** * What external observations guarantee

    The numbering of an attempt's observations in every reachable state, and the
    outcome of one report. *)
From S2P Require Import Prelude Json Text Dag Store Graph History Portfolio Presence Claims.
From S2P Require Import Enforcement Review Attempts Evidence External Registry Inbox Issues Design.
From S2P Require Import Takeover Recovery Handoffs View Ledger System.
From S2P Require Import Returns Lifecycle Exclusion Soundness Receipts Sample AttemptProperties RunProperties.

(** ** Numbering

    [numbers l os]: the attempts [l] (identifier and version) are distinct, the
    observations [os] of each one are numbered from 1 to its version, and there are
    no others. *)
Definition version_of (a : attempt_row) : string * Z := (a_id a, a_version a).
Definition versions (s : db) := (version_of <$> attempts s, observations s).
Definition of_attempt (aid : string) (o : observation_row) : bool := bool_decide (ob_attempt o = aid).

Record numbers (l : list (string * Z)) (os : list observation_row) : Prop := Numbers {
  nb_unique : NoDup l.*1;
  nb_attempts : ∀ aid v, (aid, v) ∈ l →
    (0 ≤ v)%Z ∧ ob_version <$> select (of_attempt aid) os = seqZ 1 v;
  nb_known : ∀ o, o ∈ os → ob_attempt o ∈ l.*1;
}.
Definition numbered (s : db) : Prop := numbers (version_of <$> attempts s) (observations s).

Lemma numbered_same s s' : versions s' = versions s → numbered s → numbered s'.
Proof. unfold numbered. intros [= E1 E2]. by rewrite E1, E2. Qed.

#[export] Hint Extern 1 (untouched versions (modify _)) =>
  apply untouched_modify; intros ?; unfold versions; simpl; f_equal;
  apply fmap_update_where; intros; reflexivity : untouched.

Lemma numbers_attempt l os aid : aid ∉ l.*1 → numbers l os → numbers (l ++ [(aid, 0%Z)]) os.
Proof.
  intros Hnew [Hu Ha Hk]. split.
  - rewrite fmap_app. apply NoDup_app. split_and!; [done| |apply NoDup_singleton].
    by intros x Hx ->%list_elem_of_singleton.
  - intros x v [Hin|[= -> ->]%list_elem_of_singleton]%elem_of_app; [by apply Ha|]. split; [done|].
    assert (select (of_attempt aid) os = []) as ->; [|done].
    apply elem_of_nil_inv. intros o [Ho E]%elem_of_select. apply Hnew.
    apply bool_decide_eq_true in E. rewrite <- E. by apply Hk.
  - intros o Ho. rewrite fmap_app. apply elem_of_app. left. by apply Hk.
Qed.

Lemma seqZ_snoc v : (1 ≤ v)%Z → seqZ 1 v = seqZ 1 (v - 1) ++ [v].
Proof.
  intros Hv. assert (v = (v - 1) + 1)%Z as E by lia. rewrite E at 1. rewrite seqZ_app by lia.
  f_equal. unfold seqZ. simpl. f_equal. lia.
Qed.

(** One more observation, with the next number. *)
Definition set_version (aid : string) (v : Z) (p : string * Z) : string * Z :=
  if bool_decide (p.1 = aid) then (p.1, v) else p.
Lemma numbers_observation l os o :
  (ob_attempt o, (ob_version o - 1)%Z) ∈ l → numbers l os →
  numbers (set_version (ob_attempt o) (ob_version o) <$> l) (os ++ [o]).
Proof.
  intros Hin [Hu Ha Hk].
  assert ((set_version (ob_attempt o) (ob_version o) <$> l).*1 = l.*1) as Eids.
  { rewrite <- list_fmap_compose. apply list_fmap_ext. intros i [x v] _. unfold compose, set_version. simpl.
    by case_bool_decide. }
  destruct (Ha _ _ Hin) as [Hpos Hseq]. split.
  - by rewrite Eids.
  - intros x v ([y w] & E & Hy)%list_elem_of_fmap. unfold set_version in E. simpl in E.
    rewrite select_app. unfold select at 2. simpl. unfold of_attempt at 2. case_bool_decide as Hx.
    + injection E as -> ->. rewrite bool_decide_eq_true_2 by done. rewrite Hx in *. split; [lia|].
      rewrite fmap_app, Hseq. simpl.
      rewrite (seqZ_snoc (ob_version o)) by lia. done.
    + injection E as -> ->. rewrite bool_decide_eq_false_2 by done. rewrite app_nil_r. by apply Ha.
  - intros p. rewrite Eids, elem_of_app. intros [Hp| ->%list_elem_of_singleton]; [by apply Hk|].
    by apply list_elem_of_fmap_2 with (f := fst) in Hin.
Qed.

Definition is_attempt (aid : string) (r : attempt_row) : bool := bool_decide (a_id r = aid).
Lemma versions_update aid (f : attempt_row → attempt_row) v l :
  (∀ a, version_of (f a) = (a_id a, v)) →
  version_of <$> update_where (is_attempt aid) f l = set_version aid v <$> (version_of <$> l).
Proof.
  intros Hf. unfold update_where. rewrite <- !list_fmap_compose. apply list_fmap_ext.
  intros i a _. unfold compose, set_version, is_attempt. simpl. case_bool_decide; [|done]. apply Hf.
Qed.

Lemma attempt_conflict_new s a : attempt_conflict s a = false → a_id a ∉ (version_of <$> attempts s).*1.
Proof.
  intros Hc Hin. rewrite <- list_fmap_compose in Hin. apply list_elem_of_fmap in Hin as (b & Eb & Hb).
  unfold attempt_conflict in Hc. apply orb_false_iff in Hc as [_ Hc].
  assert (existsb (attempt_clash a) (attempts s) = true); [|congruence]. apply existsb_exists. exists b.
  split; [by apply list_elem_of_In|]. apply attempt_clash_true. by left.
Qed.

Section numbering.
Context `{Host}.

Lemma numbered_untouched {A} (m : M db A) s :
  untouched versions m → numbered s → wp m (λ _ s', numbered s') s.
Proof. intros Hm Hs. eapply wp_mono; [apply Hm|]. intros a s' E. exact (numbered_same s s' E Hs). Qed.

Lemma reserve_numbered r m rep s : numbered s → wp (reserve_once r m rep) (λ _ s', numbered s') s.
Proof.
  intros Hs. assert (untouched observations (reserve_once r m rep)) as Ho by frame_operation.
  eapply wp_mono; [apply wp_conj; [apply (reserve_once_run r m rep)|apply Ho]|].
  intros out s' [Hout Eo]. unfold numbered. rewrite Eo. destruct out as [v|src|v].
  - by rewrite (outcome_attempts _ _ _ _ Hout), app_nil_r.
  - by rewrite (outcome_attempts _ _ _ _ Hout), app_nil_r.
  - destruct Hout as [(n & _ & _ & _ & _ & [_ _ _ (_ & _ & _ & Hv & _) _]) _ _ _ Hc Ha _ _].
    rewrite Ha, fmap_app. simpl. unfold version_of at 2. rewrite Hv.
    apply numbers_attempt; [by apply attempt_conflict_new|exact Hs].
Qed.
End numbering.

(** ** One report *)
Section commit.
Context `{Host}.

(** What the attempt's row becomes. *)
Definition reported (g : report) (o : observation_row) (artifact : option (string * artifact_kind)) (late : bool)
    (stamp : Z) (a r : attempt_row) : attempt_row :=
  if late then r <| a_version := ob_version o |> <| a_updated := stamp |>
  else r <| a_status := ob_result o |> <| a_version := ob_version o |>
    <| a_artifact := match artifact with Some p => Some p.1 | None => a_artifact a end |>
    <| a_artifact_kind := match artifact with Some p => Some p.2 | None => a_artifact_kind a end |>
    <| a_terminal := if final (g_status g) then Some (g_id g) else a_terminal a |>
    <| a_error := if bool_decide (g_status g = Failed) then Some (g_detail g) else None |>
    <| a_updated := stamp |>.

Definition tables (s : db) := (attempts s, observations s, evidence s, acceptances s).

Lemma commit_late_run x g a o stale s :
  wp (commit_late x g a o stale) (λ v s', ov_row v = o ∧ ov_idempotent v = false ∧ ov_late v = true ∧ ov_stale v = stale ∧
    (∃ t, attempts s' = update_where (is_attempt (g_attempt g)) (reported g o None true t a) (attempts s)) ∧
    observations s' = observations s ∧ evidence s' = evidence s ∧ acceptances s' = acceptances s ∧
    nodes s' = nodes s) s.
Proof.
  unfold commit_late. apply wp_bind, wp_now. intros t. unfold update_attempt. apply wp_bind, wp_modify, wp_bind.
  set (s1 := _ <| attempts ::= _ |>). eapply (wp_mono _ (λ _ s2, (tables s2, nodes s2) = (tables s1, nodes s1))).
  { destruct (g_quiescent g); wp_all; done. }
  intros settled s2 E2. apply wp_bind. unfold event. wp_all. apply wp_attempt_at. intros a' _ _.
  apply wp_bind, wp_public. intros v t2 _. apply wp_ret. simpl. injection E2 as Ea Eo Ee Er En.
  rewrite Ea, Eo, Ee, Er, En. split_and!; try done. by exists t.
Qed.

Lemma commit_current_run x g a o art stale s :
  wp (commit_current x g a o art stale) (λ v s', ov_row v = o ∧ ov_idempotent v = false ∧ ov_late v = false ∧ ov_stale v = stale ∧
    (∃ t, attempts s' = update_where (is_attempt (g_attempt g)) (reported g o art false t a) (attempts s)) ∧
    observations s' = observations s ∧ evidence s' = evidence s ∧ acceptances s' = acceptances s) s.
Proof.
  unfold commit_current. cbv zeta. apply wp_bind, wp_now. intros t. apply wp_bind.
  eapply (wp_mono _ (λ _ s', tables s' = tables s)); [destruct (bool_decide _); wp_all; done|].
  intros settled s1 E1. apply wp_bind, wp_gets, wp_bind, wp_require. intros _. apply wp_bind, wp_modify.
  apply wp_bind, wp_node. intros n _ _ _. apply wp_bind. set (s2 := _ <| owners ::= _ |>).
  eapply (wp_mono _ (λ _ s', tables s' = tables s2)).
  { apply (untouched_when tables). unfold retract_external. frame. }
  intros [] s3 E3. apply wp_bind, wp_now. intros t2. unfold update_attempt. apply wp_bind, wp_modify, wp_bind.
  set (s4 := _ <| attempts ::= _ |>).
  eapply (wp_mono _ (λ _ s', tables s' = tables s4)).
  { apply (untouched_when tables). frame. }
  intros [] s5 E5. apply wp_bind. unfold event. apply wp_bind, wp_now. intros t3. apply wp_modify, wp_bind.
  set (s6 := _ <| events ::= _ |>).
  eapply (wp_mono _ (λ _ s', tables s' = tables s6)).
  { apply (untouched_when tables). unfold release_bound_claims, release_bound, history. frame. }
  intros [] s7 E7. apply wp_bind, wp_attempt_at. intros a' _ _. apply wp_bind, wp_public. intros v t4 _.
  apply wp_ret. injection E7 as A7 O7 V7 R7. injection E5 as A5 O5 V5 R5. injection E3 as A3 O3 V3 R3.
  injection E1 as A1 O1 V1 R1. simpl in *. rewrite A7, A5, A3, A1, O7, O5, O3, O1, V7, V5, V3, V1, R7, R5, R3, R1.
  split_and!; try done. by exists t2.
Qed.

(** A report that was written: the attempt it is about, and the observation appended. *)
Record reported_on (x : reporter) (g : report) (c : collected) (late : bool) (s s' : db) (v : observed)
    (a : attempt_row) : Prop := ReportedOn {
  rg_attempt : attempt_at s (g_attempt g) = Some a ∧ a_kind a = External;
  rg_late : late = bool_decide (a_status a = Abandoned);
  rg_guards : observe_guards s g a = Ok tt;
  rg_row : ob_attempt (ov_row v) = g_attempt g ∧ ob_id (ov_row v) = g_id g ∧
    ob_version (ov_row v) = (a_version a + 1)%Z ∧ ob_status (ov_row v) = g_status g ∧
    ob_result (ov_row v) = result_status g (pins_current s a) late ∧
    ob_artifact (ov_row v) = fst <$> co_artifact c ∧ ob_report_sha (ov_row v) = g_sha g ∧
    ob_hash (ov_row v) = digest (report_payload x g (co_ref c));
  rg_view : ov_stale v = negb (pins_current s a) ∧ ov_late v = late;
  rg_fresh : observation_at s (g_attempt g) (Some (g_id g)) = None;
  rg_attempts : ∃ t, attempts s' =
    update_where (is_attempt (g_attempt g)) (reported g (ov_row v) (co_artifact c) late t a) (attempts s);
  rg_observations : observations s' = observations s ++ [ov_row v];
  rg_rest : evidence s' = evidence s ∧ acceptances s' = acceptances s;
}.

Lemma observe_commit_run x g c stored s :
  wp (observe_commit x g c stored) (λ v s',
    if ov_idempotent v then
      tables s' = tables s ∧ nodes s' = nodes s ∧
      observation_at s (g_attempt g) (Some (g_id g)) = Some (ov_row v) ∧
      ob_hash (ov_row v) = digest (report_payload x g (co_ref c))
    else ∃ a late, reported_on x g c late s s' v a) s.
Proof.
  unfold observe_commit. apply wp_bind. eapply wp_mono; [apply twp_to_wp, mark_back_returns|].
  intros [] s1 [E1 _]. apply wp_bind, wp_attempt_at. intros a Ha _.
  apply wp_bind, wp_require. intros Hk%bool_decide_eq_true. apply wp_bind, wp_gets. unfold id.
  apply wp_bind, wp_lift. intros late Hl. apply authorize_report_late in Hl.
  apply wp_bind, wp_require. intros _. cbv zeta.
  destruct (observation_at s1 _ _) as [o|] eqn:Ho.
  { apply wp_bind, wp_require. intros Hh%bool_decide_eq_true. apply wp_bind, wp_public. intros v t _.
    apply wp_ret. simpl. rewrite E1 in Ho |- *. by split_and!. }
  apply wp_bind, wp_lift. intros [] Hg.
  apply wp_bind. eapply wp_mono; [apply store_blob_run|]. intros [] s2 [E2 _].
  apply wp_bind, wp_lift. intros [] _. apply wp_bind, wp_now. intros t. cbv zeta.
  set (o := ObservationRow _ _ _ _ _ _ _ _ _ _ _ _ _ _ _ _ _). apply wp_bind.
  unfold insert_observation. apply wp_bind, wp_gets, wp_bind, wp_require. intros _. apply wp_modify.
  set (s3 := _ <| observations ::= _ |>).
  assert (attempts s3 = attempts s) as A3 by (by unfold s3; simpl; rewrite E2, E1).
  assert (observations s3 = observations s ++ [o]) as O3 by (by unfold s3; simpl; rewrite E2, E1).
  assert (evidence s3 = evidence s ∧ acceptances s3 = acceptances s) as [V3 R3] by (by unfold s3; simpl; rewrite E2, E1).
  assert (a_version a = g_version g) as Hv by (by apply observe_guards_ok in Hg as (? & _)).
  rewrite E1 in Ha, Ho, Hg. destruct late.
  - eapply wp_mono; [apply commit_late_run|]. intros v s4 (Ev & -> & El & Es & [t' Ea] & Eo & Ee & Er & _).
    rewrite A3 in Ea. rewrite O3 in Eo. rewrite V3 in Ee. rewrite R3 in Er.
    exists a, true. split; rewrite ?Ev; try done.
    + unfold o. simpl. rewrite Hv. by split_and!.
    + by rewrite Es, E1.
    + by exists t'.
  - eapply wp_mono; [apply commit_current_run|]. intros v s4 (Ev & -> & El & Es & [t' Ea] & Eo & Ee & Er).
    rewrite A3 in Ea. rewrite O3 in Eo. rewrite V3 in Ee. rewrite R3 in Er.
    exists a, false. split; rewrite ?Ev; try done.
    + unfold o. simpl. rewrite Hv, E1. by split_and!.
    + by rewrite Es, E1.
    + by exists t'.
Qed.
End commit.

Section external_properties.
Context `{Host}.

Lemma commit_numbered x g c stored s :
  numbered s → wp (observe_commit x g c stored) (λ _ s', numbered s') s.
Proof.
  intros Hs. eapply wp_mono; [apply observe_commit_run|]. intros v s' Hout. cbv beta in Hout. destruct (ov_idempotent v).
  - destruct Hout as (E & _). injection E as Ea Eo _ _. unfold numbered. by rewrite Ea, Eo.
  - destruct Hout as (a & late & [[Ha _] _ _ (E1 & _ & E2 & _) _ _ [t Ea] Eo _]). unfold numbered.
    rewrite Ea, Eo, (versions_update _ _ (ob_version (ov_row v))), <- E1 by (intros r; by destruct late).
    apply numbers_observation; [|exact Hs]. apply select_one_Some in Ha as [Hin Hid%bool_decide_eq_true].
    replace (ob_attempt (ov_row v), (ob_version (ov_row v) - 1)%Z) with (version_of a);
      [by apply list_elem_of_fmap_2|].
    unfold version_of. f_equal; [congruence|lia].
Qed.

Lemma operation_numbered A (m : M db A) : operation m → ∀ s, numbered s → wp m (λ _ s', numbered s') s.
Proof.
  intros Hop s Hs. destruct Hop;
    first [by apply reserve_numbered|by apply commit_numbered
          |apply numbered_untouched; [solve [frame_operation]|done]
          |apply numbered_untouched;
           [unfold add_nodes, set_node_facet, revise_node, split_node, revise, add, split; solve [frame_operation]|done]].
Qed.

(** In every reachable state the observations of an attempt are numbered 1, 2, ... up to its
    observation version, without gaps or repetitions, and no observation is of an unknown
    attempt. *)
Theorem observations_numbered s :
  reachable s →
  (∀ a, a ∈ attempts s → (0 ≤ a_version a)%Z ∧
     ob_version <$> select (of_attempt (a_id a)) (observations s) = seqZ 1 (a_version a)) ∧
  ∀ o, o ∈ observations s → ∃ a, a ∈ attempts s ∧ a_id a = ob_attempt o.
Proof.
  intros Hr. assert (numbered s) as [_ Ha Hk].
  { revert Hr. apply reachable_invariant; [|apply operation_numbered]. split; [constructor|..].
    - by intros aid v ?%elem_of_nil.
    - by intros o ?%elem_of_nil. }
  split.
  - intros a Hin. apply (Ha (a_id a)). by apply (list_elem_of_fmap_2 version_of).
  - intros o Ho. apply Hk in Ho. rewrite <- list_fmap_compose in Ho.
    apply list_elem_of_fmap in Ho as (a & -> & Hin). by exists a.
Qed.

(** C20: a report is written only against the attempt's present version and frozen context, never
    on a failed or superseded attempt, and on a candidate only to retract it. It appends one
    observation with the next version; the attempt takes the reported status, or superseded
    when a final report finds its inputs changed, while an abandoned attempt keeps its status
    and artifact; no other attempt changes. *)
Theorem observe_effect x g c stored s v s' :
  observe_commit x g c stored s = Ok (v, s') → ov_idempotent v = false →
  ∃ a a', attempt_at s (g_attempt g) = Some a ∧ attempt_at s' (g_attempt g) = Some a' ∧
    g_version g = a_version a ∧ g_context g = digest (a_context a) ∧
    a_status a ≠ Failed ∧ a_status a ≠ Superseded ∧ (a_status a = Candidate → g_status g = Failed) ∧
    observations s' = observations s ++ [ov_row v] ∧ ob_version (ov_row v) = (a_version a + 1)%Z ∧
    ob_status (ov_row v) = g_status g ∧ a_version a' = (a_version a + 1)%Z ∧
    (if bool_decide (a_status a = Abandoned)
     then a_status a' = Abandoned ∧ a_artifact a' = a_artifact a
     else a_status a' = (if final (g_status g) && negb (pins_current s a) then Superseded else g_status g) ∧
       a_artifact a' = match co_artifact c with Some (ref, _) => Some ref | None => a_artifact a end) ∧
    (∀ b, b ∈ attempts s → a_id b ≠ g_attempt g → b ∈ attempts s') ∧ evidence s' = evidence s.
Proof.
  intros E Hi. pose proof (wp_run _ _ _ _ _ (observe_commit_run x g c stored s) E) as Hout. cbv beta in Hout. rewrite Hi in Hout.
  destruct Hout as (a & late & [[Ha _] Hl Hg (_ & _ & Hv & Hst & Hres & _) _ _ [t Ea] Eo [Ee _]]).
  apply observe_guards_ok in Hg as (Hver & Hf & Hs & Hc & Hctx & _).
  exists a, (reported g (ov_row v) (co_artifact c) late t a a). split_and!; try done.
  - unfold attempt_at. rewrite Ea. apply (attempt_at_update s _ _ a); [|done]. intros r. by destruct late.
  - by destruct late.
  - rewrite <- Hl. destruct late.
    + symmetry in Hl. apply bool_decide_eq_true in Hl. by split.
    + simpl. rewrite Hres. split; [done|]. by destruct (co_artifact c) as [[]|].
  - intros b Hb Hne. rewrite Ea. apply elem_of_update_where. exists b. split; [done|].
    unfold is_attempt. by rewrite bool_decide_eq_false_2.
Qed.
End external_properties.

(** ** Witnesses *)
Lemma observations_numbered_witness : ∃ a,
  a ∈ attempts s_reported ∧ a_version a = 2%Z ∧
  ob_version <$> select (of_attempt (a_id a)) (observations s_reported) = seqZ 1 (a_version a).
Proof.
  assert (∃ a, attempt_at s_reported attempt_b = Some a ∧ a_version a = 2%Z) as (a & Ha & Hv)
    by (eexists; split; [vm_compute; reflexivity|reflexivity]).
  unfold attempt_at in Ha. destruct (select_one_Some _ _ _ Ha) as [Hin _].
  exists a. split; [exact Hin|]. split; [exact Hv|].
  destruct (observations_numbered s_reported reachable_reported) as [Hall _]. destruct (Hall a Hin) as [_ Hs]. exact Hs.
Defined.
Lemma observe_effect_witness : ∃ v a a',
  observing report_candidate s_running = Ok (v, after (observing report_candidate) s_running) ∧
  attempt_at s_running attempt_b = Some a ∧ attempt_at (after (observing report_candidate) s_running) attempt_b = Some a' ∧
  a_version a' = (a_version a + 1)%Z.
Proof.
  unfold observing.
  assert (∃ v, observe_commit harness (parsed report_candidate) (gathered report_candidate) (Ok tt) s_running
    = Ok (v, after (observe_commit harness (parsed report_candidate) (gathered report_candidate) (Ok tt)) s_running) ∧
      ov_idempotent v = false) as (v & E & Hi) by (eexists; split; [vm_compute; reflexivity|reflexivity]).
  destruct (observe_effect harness (parsed report_candidate) (gathered report_candidate) (Ok tt) s_running v _ E Hi)
    as (a & a' & Ha & Ha' & _ & _ & _ & _ & _ & _ & _ & _ & Hv & _).
  exists v, a, a'. split; [exact E|]. split; [exact Ha|]. split; [exact Ha'|exact Hv].
Defined.
